(* ===== verification/_CoqProject ===== *)
-Q . S2P
Prelude.v
GoStd.v
ApiV1.v
K8s.v
Fixtures.v
Metrics.v
Status.v
Membership.v
Discovery.v
DiscoveryConc.v
Normalize.v
SubscriberIndex.v
Registry.v
RegistryConc.v
RegistryRace.v
RegistryLinear.v
StatusHelpers.v
Text.v
StatusPatch.v
Reconciler.v
ReconcilerSpec.v
ReconcilerWrites.v
Process.v
Concurrent.v
Schema.v
CRDWatcher.v
FluxNotify.v
Collector.v
Evaluate.v
EvaluateSpec.v
Informers.v
Wiring.v
Operator.v
Updates.v
Interference.v
Steady.v
Cli.v
Table.v
App.v
Get.v
Tree.v
Trace.v
Commands.v
Flags.v
Clients.v
Manager.v
Root.v
Listing.v
Copy.v
