(* ===== verification/Prelude.v ===== *)
(** * milestone-operator: a verification development

    The operator watches Milestone and ClusterMilestone objects, whose
    [spec.dependsOn] names sets of Kubernetes resources, and publishes in their
    status whether every set is ready. milestonectl shows the same verdicts from
    a terminal. This library models both programs file by file, as executable
    definitions that keep the source's names, and proves what makes them correct.

    ** The program and its model

    An owner is reconciled by [Reconciler.v] (internal/controller/reconciler.go
    and the two adapters): finalize a deleted owner, else add the finalizer,
    normalise its dependencies ([Normalize.v], [Membership.v]:
    internal/membership), subscribe to the kinds they name, list and reduce the
    objects of each ([Status.v]: internal/status), apply the rollups, conditions
    and resources to the status ([StatusHelpers.v]), and patch it when it changed
    ([StatusPatch.v]); a changed Ready pokes the FluxCD parents ([FluxNotify.v]:
    internal/fluxnotify).  Kinds are resolved through a TTL cache ([Discovery.v]:
    internal/discovery; [DiscoveryConc.v] has its concurrent callers).
    Subscriptions live in the registry of shared informers
    ([Registry.v], over [SubscriberIndex.v]: internal/watcher), which starts
    informers through the factory of [Informers.v] (handler.go), whose events it
    dispatches; [Wiring.v] is the way from an event to the workqueues
    (enqueue_source.go, cmd/manager/main.go, the controllers). [CRDWatcher.v]
    invalidates caches and informers when CRDs come and go. [Metrics.v] and
    [Collector.v] are internal/metrics. [Operator.v] puts all of this together as
    cmd/manager/main.go does, as a transition system. [Updates.v] has the steps the
    rest of it takes around one owner, [Interference.v] puts them between any two
    calls of that owner's reconcile, and [Steady.v] between two reconciles of it.
    [Manager.v] is main itself, with the SetupWithManager methods: its flags
    ([Flags.v]: Go's package flag), the calls it makes in order, the controllers it
    builds, its exits. [ApiV1.v] has the API types, [Schema.v] the validation their markers generate, and [Copy.v] their
    generated deep copies, on a heap, and their registration (api/v1).

    milestonectl evaluates offline with [Evaluate.v] (evaluate.go, report.go of
    internal/membership). Its rendering is internal/cli: [Cli.v] (kind, row,
    selector, output), [Table.v] (style, table), [Tree.v] and [Trace.v], which
    with [App.v] (root.go), [Get.v] and [Commands.v] (main.go, version.go,
    completion.go, internal/version) also hold what the commands of
    cmd/milestonectl run. [Clients.v] has the clients of root.go, and [Root.v] the
    command tree with its flags and help texts, and the program; [Listing.v] follows
    [get] through all of them.

    ** How the model reads

    State is passed explicitly: pure functions where the code is pure, the state
    monad [M W] where it issues effects on a world [W], [MO W] where it may also
    panic or run out of fuel ([None]). Errors are values ([GoStd.error], with
    wrapping and joining), results are [result A]. A slice keeps nil apart from
    empty; int32 counters wrap; bytes are strings ([GoStd.v], [Text.v]: sort,
    strings, unicode/utf8 as far as the source uses them). Maps are [gmap]s.
    Code that is not in the repository is a class of operations ([K8s.v], and the
    classes next to their only user); what a theorem relies on of its documented
    behaviour is a separate class of laws or a named hypothesis, and
    [Fixtures.v] and the [*Fix] modules instantiate all of them.

    Interfaces between components are classes as well: [RegistryAPI] with
    [RegistryLaws] is what the reconciler asks of the registry, [Process.v]
    discharges the laws with the registry itself, and [Concurrent.v] with a
    registry that others use in between. How far a call of the registry may be
    taken to happen at one moment, as [Concurrent.v] and [Interference.v] take it,
    is [RegistryLinear.v]: the goroutines of [RegistryConc.v] refine a table of
    subscriptions that Subscribe and Unsubscribe change at one moment, and
    UnsubscribeAll and InvalidateGroupKind with nobody else changing it meanwhile;
    only an event dispatched half-way tells them from one moment.

    ** The theorems

    - The verdict. [ReconcilerSpec]: Ready is True exactly when the spec has
      dependencies, all of them were normalised, subscribed, listed and are
      satisfied; the computed status on every branch; the subscriptions after a
      reconcile are those the spec needs. [Status]: the rollup of a dependency
      from its resources, the owner's verdict from the rollups. [Schema]: the
      status passes the CRD's validation. [EvaluateSpec]: milestonectl reaches
      the operator's verdict from the same objects.
    - The writes. [ReconcilerWrites]: what a reconcile writes, in which order; the
      finalizer goes last; the Stalled message is bounded and does not depend on
      the order of errors; applying a status again changes nothing but the
      evaluation time. [Steady]: so an owner whose sets have not changed is not
      patched, in whatever order its caches list them and whatever else went on.
      [StatusPatch]: the merge patch installs exactly the new status.
    - The registry. [SubscriberIndex]: two maps refine one relation. [Registry]:
      an invariant of every operation. [RegistryConc]: the same for any number of
      goroutines interleaved under r.mu and the index's lock, until the manager
      shuts the registry down, and what is left of it after; no informer leaks, no
      follower of a start is stranded. [RegistryRace]: an invalidation can delete
      the gauges of an informer started after it. [RegistryLinear]: to its callers
      the registry is a table, whatever the interleaving. [Informers]: a failed start leaves nothing
      running and stopping twice does not panic. [Process]: after a reconcile
      exactly the informers the subscriptions need are running. [Concurrent]: that
      holds with the reconciles of other owners, events and outside changes
      between any two of its calls.
    - Events. [Wiring]: the requests an event puts on the queues; the Namespace
      events the predicate drops and the owners the map function skips cannot
      matter. [CRDWatcher]: which transitions fire and what they invalidate; a
      failed one fires again. [FluxNotify]: who is poked.
    - The whole operator. [Operator]: an invariant of every reachable state; and a
      CRD's transition reaches the status of every owner that waits for it,
      whatever happens in between and whatever the resolver had cached.
      [Interference]: while a status is computed and after, with caches changing
      and notifications arriving between any two calls, either the owner has been
      queued again, or will be by a notification on its way, or the status it
      published is what it would compute now. [Updates]: unless a change
      relabelled an object out of its selectors, which goes unnoticed.
      [Manager]: main parses its command line back, stops at the first call that
      fails, and what it starts is the operator of [Operator] with its queues
      connected.
    - Caches and bounds. [Discovery]: when the server is consulted, that only
      successes are cached, and that the cache is coherent with a settled
      server. [DiscoveryConc]: what an answer is worth when goroutines resolve
      and invalidate at once, and the one way an invalidation is overtaken.
      [Normalize]: the dependencies and errors of a spec. [Copy]: a deep copy
      denotes the same value and shares no memory with the original.
    - Observability. [Collector]: a scrape has no duplicate and no mislabelled
      series.
    - milestonectl. [Evaluate]: listing follows the pages to the end. [Get]: what
      a listing keeps; a watch prints exactly the changes of what it shows,
      across reconnections. [Trace]: an answer has checked every owner or names
      what it has not, and reports exactly the dependencies that admit the
      object. [Table], [Tree]: columns align, and the padding never panics.
      [Cli]: the status selector. [Commands]: version precedence, completion.
      [Root]: which command a command line runs, and its exit code. [Listing]:
      the bytes a [get] prints, from its command line on. [Clients]:
      every client comes from one configuration.

    ** Fuel and bounds

    Loops over slices are structural. [list_pages] takes a unit of fuel a page,
    and [list_complete] gives it the number of pages the server has.
    [watch_loop] takes one a watch; it need not end, and its theorem gives a
    result for any fuel once the context is cancelled. tabwriter's [format] takes
    the lines plus the cells; splitting runes takes the length. Everything else
    is total. Counters are int32 and the theorems that need it say so (fewer than
    2^31 objects); a metric's float64 is an integer, exact up to 2^53.

    ** Not modelled

    - Log lines, and the durations timers measure (only their number).
    - The inside of controller-runtime, client-go, prometheus and cobra: what
      the programs hand to them is modelled, and what they answer is a class of
      operations. flux_rbac.go holds only markers.
    - The addresses of values, outside [Copy.v]: elsewhere values are immutable,
      and where the code copies before it mutates the model has the old value.
    - JSON and YAML encoding, apart from which keys a status emits.
    - Unicode case mapping beyond ASCII (the class [UnicodeTables]) and
      tabwriter's escape byte 0xff, which no UTF-8 text has.
    - Signals and contexts: main of milestonectl wraps [Root.run] in a context
      that a signal cancels, and sleeping is an operation of the world.
    - test/utils: helpers of the test suites.
    - What is inside a call, between two steps of a reconcile: [Interference.v]
      interleaves whole calls, which [RegistryLinear.v] allows for the registry,
      but for an event dispatched half-way through the removal of several
      subscriptions, and [DiscoveryConc.v] describes for the resolver.
    - The registry's shutdown, outside [RegistryConc.v] and [Registry.v]: the
      operator of [Operator.v] runs. *)

From stdpp Require Export base tactics list gmap sets strings sorting fin_maps option.
From stdpp Require Export relations.

(** ** Notations *)

Declare Scope go_scope.
Delimit Scope go_scope with go.
#[global] Open Scope stdpp_scope.

(** Go's [int], [int32] and [int64] values and [time.Time] instants are
    integers; widths are imposed by the operations that need them. *)
Abbreviation time := Z.

(** ** Hint databases and tactics *)

Create HintDb go discriminated.
Create HintDb order discriminated.
Create Rewrite HintDb go.

(** [bsimp]: normalise boolean tests in the context and the goal. *)
Ltac bsimp :=
  repeat match goal with
  | H : _ && _ = true |- _ => apply andb_true_iff in H as [? ?]
  | H : negb _ = true |- _ => apply negb_true_iff in H
  | H : negb _ = false |- _ => apply negb_false_iff in H
  | H : bool_decide _ = true |- _ => apply bool_decide_eq_true in H
  | H : bool_decide _ = false |- _ => apply bool_decide_eq_false in H
  end.

(** [case_all]: split on every [match], [if] and [decide] of the goal, and
    simplify the equations this leaves. *)
Ltac case_all := repeat (case_match || case_decide); simplify_eq/=.

(** [chain]: the steps of the context, each from where the one before ends, lead
    from one side of a preorder to the other. *)
Ltac chain := repeat (etrans; [eassumption|]); reflexivity.

(** ** A state monad

    Stateful code threads its state explicitly; the handlers that issue many
    effects are written in this monad with stdpp's do-notation. *)
Definition M (S A : Type) : Type := S → A * S.

#[export] Instance M_ret S : MRet (M S) := λ A a s, (a, s).
#[export] Instance M_bind S : MBind (M S) :=
  λ A B f m s, let '(a, s') := m s in f a s'.

Definition gets {S A} (f : S → A) : M S A := λ s, (f s, s).
Definition modify {S} (f : S → S) : M S unit := λ s, (tt, f s).

(** The same, for code whose loops take fuel: [None] is running out of it. *)
Definition MO (S A : Type) : Type := S → option (A * S).

#[export] Instance MO_ret S : MRet (MO S) := λ A a s, Some (a, s).
#[export] Instance MO_bind S : MBind (MO S) :=
  λ A B f m s, match m s with Some (a, s') => f a s' | None => None end.

Definition run_M {S A} (m : M S A) : MO S A := λ s, Some (m s).

Lemma run_M_bind {S A B} (m : M S A) (f : A → MO S B) s : (run_M m ≫= f) s = let '(a, s') := m s in f a s'.
Proof. unfold mbind, MO_bind, run_M. by destruct (m s). Qed.

(** [unfold_M]: run the monad's plumbing in the goal. *)
Ltac unfold_M := unfold mbind, mret, M_bind, M_ret, gets, modify; simpl.

(** ** Lists *)

Section lists.
Context {A : Type}.

Lemma foldl_snoc_fix {B} (f : B → A → B) l x b :
  foldl f b (l ++ [x]) = f (foldl f b l) x.
Proof. by rewrite foldl_app. Qed.

Lemma Permutation_filter (P : A → Prop) `{!∀ x, Decision (P x)} (l1 l2 : list A) :
  l1 ≡ₚ l2 → filter P l1 ≡ₚ filter P l2.
Proof. by intros ->. Qed.

Lemma existsb_elem (f : A → bool) l :
  existsb f l = true ↔ ∃ x, x ∈ l ∧ f x = true.
Proof.
  rewrite existsb_exists. by setoid_rewrite list_elem_of_In.
Qed.

Lemma forallb_elem (f : A → bool) l :
  forallb f l = true ↔ ∀ x, x ∈ l → f x = true.
Proof.
  rewrite forallb_forall. by setoid_rewrite list_elem_of_In.
Qed.

Lemma elem_of_zip_fmap {B} (f : A → B) l x y : (x, y) ∈ zip l (f <$> l) ↔ x ∈ l ∧ y = f x.
Proof.
  induction l as [|a l IH]; csimpl; [split; [by intros ?%not_elem_of_nil|by intros [?%not_elem_of_nil _]]|].
  rewrite !elem_of_cons, IH. naive_solver.
Qed.

Lemma existsb_Permutation (f : A → bool) l1 l2 :
  l1 ≡ₚ l2 → existsb f l1 = existsb f l2.
Proof.
  intros Hp. apply eq_true_iff_eq. rewrite !existsb_elem. by setoid_rewrite Hp.
Qed.

Lemma forallb_Permutation (f : A → bool) l1 l2 :
  l1 ≡ₚ l2 → forallb f l1 = forallb f l2.
Proof.
  intros Hp. apply eq_true_iff_eq. rewrite !forallb_elem. by setoid_rewrite Hp.
Qed.
End lists.

(** Strictly sorted lists over a decidable key have no duplicate keys. *)
Lemma NoDup_fmap_elem {A B} (f : A → B) (l : list A) x y :
  NoDup (f <$> l) → x ∈ l → y ∈ l → f x = f y → x = y.
Proof.
  induction l as [|z l IH]; simpl; [set_solver|].
  intros [Hnot Hnd]%NoDup_cons Hx Hy Heq.
  apply elem_of_cons in Hx as [->|Hx], Hy as [->|Hy]; try done.
  - exfalso. apply Hnot. rewrite Heq. by apply list_elem_of_fmap_2.
  - exfalso. apply Hnot. rewrite <- Heq. by apply list_elem_of_fmap_2.
  - by apply IH.
Qed.

Lemma all_or_some {A} (P : Prop) (Q : A → Prop) (l : list A) : (∀ a, a ∈ l → P ∨ Q a) → P ∨ ∀ a, a ∈ l → Q a.
Proof.
  induction l as [|a l IH]; intros Hl; [right; by intros a ?%not_elem_of_nil|].
  destruct (Hl a ltac:(by left)) as [|Ha]; [by left|]. destruct IH as [|IH]; [intros b Hb; apply Hl; by right|by left|].
  right. by intros b [->|Hb]%elem_of_cons; [|apply IH].
Qed.

(** ** Sums over finite maps

    [map_sum f m] adds [f k v] over the entries of [m]; it does not depend on
    the order in which the entries are visited. *)
Definition list_sum (l : list Z) : Z := foldr Z.add 0%Z l.

Lemma list_sum_app l1 l2 : list_sum (l1 ++ l2) = (list_sum l1 + list_sum l2)%Z.
Proof. induction l1; simpl; lia. Qed.

#[export] Instance list_sum_perm : Proper ((≡ₚ) ==> (=)) list_sum.
Proof. induction 1; simpl; lia. Qed.

Lemma map_fmap {A B C} (g : B → C) (f : A → B) (l : list A) : map g (f <$> l) = map (λ x, g (f x)) l.
Proof. induction l as [|x l IH]; [done|]. rewrite fmap_cons. simpl. by rewrite IH. Qed.

Lemma list_sum_nonneg l : Forall (λ x, 0 <= x)%Z l → (0 <= list_sum l)%Z.
Proof. induction 1; simpl; lia. Qed.

(** ** Options *)

Lemma option_cases {A} (o : option A) : o = None ∨ ∃ a, o = Some a.
Proof. destruct o; eauto. Qed.

#[export] Hint Resolve option_cases : go.
