(* ===== verification/GoStd.v ===== *)
(** * The parts of Go's language and standard library the operator uses

    Slices (nil apart from empty), machine-width counters, [error] values with
    wrapping, [sort.Slice]/[sort.SliceStable]/[sort.Strings], and the string
    helpers of [strings] and [unicode/utf8] the program calls.  Go strings are
    byte strings, so they are Rocq [string]s, compared bytewise. *)

From S2P Require Import Prelude.
From Stdlib Require Import Ascii.

(** ** Slices: a nil slice is not an empty one *)

Abbreviation slice A := (option (list A)).

Definition elems {A} (s : slice A) : list A := default [] s.

(** ** Machine-width integers *)

(** The int32 the 32-bit pattern of [z] denotes. *)
Definition wrap32 (z : Z) : Z := ((z + 2 ^ 31) `mod` 2 ^ 32 - 2 ^ 31)%Z.

(** [a + b] on int32 operands. *)
Definition add32 (a b : Z) : Z := wrap32 (a + b).

(** [x++] on an int32. *)
Definition inc32 (a : Z) : Z := add32 a 1.

(** ** [error] values

    A package-level sentinel is identified by its variable; other leaves only
    carry a text. [ext_error] is an error built by a client library: its class
    (not found, conflict, ...) is what the library's predicates look at. *)
Inductive error :=
  | sentinel (name text : string)
  | errors_New (text : string)
  | ext_error (class text : string)
  | fmt_Errorf (text : string) (wrapped : list error)
  | errors_Join (errs : list error).

Inductive result (A : Type) :=
  | Ok (a : A)
  | Err (e : error).
Arguments Ok {_} _.
Arguments Err {_} _.

Definition is_Ok {A} (r : result A) : bool :=
  match r with Ok _ => true | Err _ => false end.

(** [strings.Join(elems, sep)]. *)
Fixpoint strings_Join (l : list string) (sep : string) : string :=
  match l with
  | [] => ""
  | [s] => s
  | s :: l => s +:+ sep +:+ strings_Join l sep
  end.

(** [err.Error()]. *)
Fixpoint err_Error (e : error) : string :=
  match e with
  | sentinel _ text | errors_New text | ext_error _ text | fmt_Errorf text _ => text
  | errors_Join errs => strings_Join (map err_Error errs) (String "010" "")
  end.

(** [errors.Is(err, target)] for a sentinel [target], following every wrapped
    error. *)
Fixpoint errors_Is (e : error) (target : error) : bool :=
  match e with
  | sentinel name _ =>
      match target with sentinel name' _ => bool_decide (name = name') | _ => false end
  | errors_New _ | ext_error _ _ => false
  | fmt_Errorf _ wrapped => existsb (λ w, errors_Is w target) wrapped
  | errors_Join errs => existsb (λ w, errors_Is w target) errs
  end.

(** ** Sorting

    [sort_slice less l] is the stable sort by [less]. [sort.Slice] is not
    stable, so a caller that relies on one result must make [less] decide every
    pair of distinct elements: [sort_slice_unique] is the theorem they need. *)
Fixpoint insert_by {A} (less : A → A → bool) (x : A) (l : list A) : list A :=
  match l with
  | [] => [x]
  | y :: l' => if less y x then y :: insert_by less x l' else x :: y :: l'
  end.

Definition sort_slice {A} (less : A → A → bool) (l : list A) : list A :=
  foldr (insert_by less) [] l.

(** [a < b] on strings. *)
Definition str_lt (a b : string) : bool := String.ltb a b.

(** [sort.Strings]. *)
Definition sort_Strings (l : list string) : list string := sort_slice str_lt l.

(** The comparison [switch] over a list of string keys, first difference wins. *)
Fixpoint lex_lt {A} (keys : list (A → string)) (a b : A) : bool :=
  match keys with
  | [] => false
  | k :: keys => if decide (k a = k b) then lex_lt keys a b else str_lt (k a) (k b)
  end.

(** ** Theorems: int32 *)

Lemma wrap32_small z : (- 2 ^ 31 <= z < 2 ^ 31)%Z → wrap32 z = z.
Proof. intros. unfold wrap32. rewrite Z.mod_small; lia. Qed.

Lemma wrap32_range z : (- 2 ^ 31 <= wrap32 z < 2 ^ 31)%Z.
Proof. unfold wrap32. pose proof (Z.mod_pos_bound (z + 2 ^ 31) (2 ^ 32)). lia. Qed.

Lemma wrap32_add_l a b : wrap32 (wrap32 a + b) = wrap32 (a + b).
Proof.
  unfold wrap32. f_equal.
  replace ((a + 2 ^ 31) `mod` 2 ^ 32 - 2 ^ 31 + b + 2 ^ 31)%Z
    with ((a + 2 ^ 31) `mod` 2 ^ 32 + b)%Z by lia.
  rewrite Zplus_mod_idemp_l. f_equal. lia.
Qed.

Lemma wrap32_add_r a b : wrap32 (a + wrap32 b) = wrap32 (a + b).
Proof. rewrite Z.add_comm, wrap32_add_l. f_equal. lia. Qed.

Lemma wrap32_wrap32 a : wrap32 (wrap32 a) = wrap32 a.
Proof. pose proof (wrap32_add_l a 0). by rewrite !Z.add_0_r in H. Qed.

#[export] Hint Rewrite wrap32_add_l wrap32_add_r wrap32_wrap32 : go.

(** ** Theorems: string order *)

Lemma str_lt_spec a b : str_lt a b = true ↔ (a ?= b)%string = Lt.
Proof. unfold str_lt, String.ltb. by destruct (a ?= b)%string. Qed.

Lemma str_lt_negb_le a b : str_lt a b = negb (String.leb b a).
Proof.
  unfold str_lt, String.ltb, String.leb. rewrite (String.compare_antisym a b).
  by destruct (b ?= a)%string.
Qed.

Lemma str_lt_false_le a b : str_lt a b = false ↔ String.le b a.
Proof.
  rewrite str_lt_negb_le, negb_false_iff. unfold String.le. by rewrite Is_true_true.
Qed.

(** A comparison function usable with [sort_slice]: a strict weak order. *)
Class LessOrder {A} (less : A → A → bool) : Prop := {
  less_irrefl a : less a a = false;
  less_cotrans a b c : less b a = false → less c b = false → less c a = false;
  less_asym a b : less a b = true → less b a = false;
}.

#[export] Instance str_lt_order : LessOrder str_lt.
Proof.
  split.
  - intros a. by apply str_lt_false_le.
  - intros a b c. rewrite !str_lt_false_le. intros. by etrans.
  - intros a b. rewrite str_lt_negb_le, negb_true_iff, str_lt_false_le.
    intros Hab. destruct (total String.le a b) as [H|H]; [done|].
    exfalso. unfold String.le in H. by rewrite Hab in H.
Qed.

Lemma str_lt_antisym a b : str_lt a b = false → str_lt b a = false → a = b.
Proof. rewrite !str_lt_false_le. intros. by apply (anti_symm String.le). Qed.

#[export] Instance lex_lt_order {A} (keys : list (A → string)) : LessOrder (lex_lt keys).
Proof.
  split.
  - intros a. induction keys as [|k keys IH]; simpl; [done|].
    by case_decide.
  - intros a b c. induction keys as [|k keys IH]; simpl; [done|].
    destruct (decide (k b = k a)) as [Eba|], (decide (k c = k b)) as [Ecb|],
      (decide (k c = k a)) as [Eca|]; try congruence; auto.
    + intros Hba Hcb. rewrite Eca in Hcb.
      exfalso. by pose proof (str_lt_antisym _ _ Hba Hcb).
    + apply less_cotrans.
  - intros a b. induction keys as [|k keys IH]; simpl; [done|].
    repeat case_decide; try congruence; auto. apply less_asym.
Qed.

(** When the keys agree on every component the comparison is silent; when it
    is silent both ways every component agrees. *)
Lemma lex_lt_silent {A} (keys : list (A → string)) a b :
  lex_lt keys a b = false → lex_lt keys b a = false → Forall (λ k, k a = k b) keys.
Proof.
  induction keys as [|k keys IH]; simpl; [constructor|].
  repeat case_decide; try congruence; intros ? ?.
  - constructor; auto.
  - exfalso. by pose proof (str_lt_antisym (k a) (k b)); auto.
Qed.

(** ** Theorems: sorting *)

Section sorting.
Context {A : Type} (less : A → A → bool).

Lemma insert_by_perm x l : insert_by less x l ≡ₚ x :: l.
Proof.
  induction l as [|y l IH]; simpl; [done|]. case_match; [|done].
  rewrite IH. by constructor.
Qed.

Lemma sort_slice_perm l : sort_slice less l ≡ₚ l.
Proof.
  induction l as [|x l IH]; simpl; [done|]. by rewrite insert_by_perm, IH.
Qed.

Lemma sort_slice_length l : length (sort_slice less l) = length l.
Proof. by rewrite sort_slice_perm. Qed.

Lemma sort_slice_nil l : sort_slice less l = [] ↔ l = [].
Proof.
  split; [|by intros ->]. intros H. apply Permutation_nil.
  rewrite <- H. apply sort_slice_perm.
Qed.

(** [b] may directly follow [a] in a slice sorted by [less]. *)
Definition in_order (a b : A) : Prop := less b a = false.

Context `{!LessOrder less}.

#[export] Instance in_order_trans : Transitive in_order.
Proof. intros a b c. unfold in_order. apply less_cotrans. Qed.

Lemma insert_by_sorted x l :
  StronglySorted in_order l → StronglySorted in_order (insert_by less x l).
Proof.
  induction 1 as [|y l Hl IH Hy]; simpl; [repeat constructor|].
  case_match eqn:Hlt.
  - constructor; [done|]. rewrite insert_by_perm. constructor; [|done].
    by apply less_asym.
  - constructor; [by constructor|]. constructor; [done|].
    eapply Forall_impl; [done|]. intros z Hz. by etrans.
Qed.

Lemma sort_slice_sorted l : StronglySorted in_order (sort_slice less l).
Proof. induction l; simpl; [constructor|]. by apply insert_by_sorted. Qed.

(** One sorted arrangement only, when ties are equal elements: the result
    depends neither on the input order nor on the sorting algorithm. *)
Lemma sorted_perm_unique (l1 l2 : list A) :
  (∀ a b, a ∈ l1 → b ∈ l1 → less a b = false → less b a = false → a = b) →
  StronglySorted in_order l1 → StronglySorted in_order l2 → l1 ≡ₚ l2 → l1 = l2.
Proof.
  intros Htie Hs1 Hs2 Hp. eapply StronglySorted_unique_strong; [|done..].
  intros a b Ha Hb Hab Hba. rewrite <- Hp in Hb. by apply Htie.
Qed.

Lemma sort_slice_unique l1 l2 :
  (∀ a b, a ∈ l1 → b ∈ l1 → less a b = false → less b a = false → a = b) →
  l1 ≡ₚ l2 → sort_slice less l1 = sort_slice less l2.
Proof.
  intros Htie Hp. apply sorted_perm_unique; auto using sort_slice_sorted.
  - intros a b. rewrite !sort_slice_perm. apply Htie.
  - by rewrite !sort_slice_perm.
Qed.

Lemma sort_slice_fixpoint l : StronglySorted in_order l → sort_slice less l = l.
Proof.
  induction 1 as [|x l Hl IH Hx]; simpl; [done|]. rewrite IH.
  destruct Hx as [|y l Hy]; simpl; [done|]. by rewrite Hy.
Qed.

(** Stability: elements that tie keep their relative order. *)
Lemma insert_by_tie (P : A → Prop) `{!∀ a, Decision (P a)} x l :
  (∀ a b, P a → P b → less a b = false) →
  filter P (insert_by less x l) = filter P (x :: l).
Proof.
  intros HP. induction l as [|y l IH]; [done|]. simpl insert_by.
  case_match eqn:Hlt; [|done].
  rewrite filter_cons, IH, !filter_cons. repeat case_decide; try done.
  exfalso. by rewrite HP in Hlt.
Qed.

Lemma sort_slice_stable (P : A → Prop) `{!∀ a, Decision (P a)} l :
  (∀ a b, P a → P b → less a b = false) →
  filter P (sort_slice less l) = filter P l.
Proof.
  intros HP. induction l as [|x l IH]; [done|]. simpl.
  rewrite insert_by_tie by done. rewrite !filter_cons, IH. done.
Qed.
End sorting.

Lemma StronglySorted_weaken {A} (R S : A → A → Prop) l :
  (∀ a b, R a b → S a b) → StronglySorted R l → StronglySorted S l.
Proof.
  intros HRS. induction 1 as [|x l Hl IH Hx]; constructor; [done|].
  eapply Forall_impl; eauto.
Qed.

#[export] Hint Resolve sort_slice_sorted : order.
#[export] Hint Rewrite @sort_slice_perm @sort_slice_length : go.

Lemma sort_Strings_unique l1 l2 : l1 ≡ₚ l2 → sort_Strings l1 = sort_Strings l2.
Proof. apply (sort_slice_unique str_lt). intros. by apply str_lt_antisym. Qed.
