(* ===== verification/ApiV1.v ===== *)
(** * The API types: api/v1/shared_types.go, milestone_types.go,
    clustermilestone_types.go

    Go structs are records whose fields carry a prefix naming the struct. The
    string enumerations stay strings, as in the source: a value outside the
    enumeration takes the [default] branch of every [switch]. [LabelSelector]
    is metav1's type and stays a parameter. *)

From S2P Require Import Prelude GoStd.

(** ** Policies *)

Definition EmptySetPolicy : Type := string.
Definition EmptySetUnknown : EmptySetPolicy := "Unknown".
Definition EmptySetReady : EmptySetPolicy := "Ready".
Definition EmptySetNotReady : EmptySetPolicy := "NotReady".

Definition SuspendPolicy : Type := string.
Definition SuspendIgnore : SuspendPolicy := "Ignore".
Definition SuspendNotReady : SuspendPolicy := "NotReady".

(** metav1.ConditionStatus, with the values the CRD enumerates. *)
Definition ConditionStatus : Type := string.
Definition ConditionTrue : ConditionStatus := "True".
Definition ConditionFalse : ConditionStatus := "False".
Definition ConditionUnknown : ConditionStatus := "Unknown".

(** schema.GroupVersionKind and schema.GroupKind. *)
Record GroupVersionKind := GVK { Group : string; Version : string; Kind : string }.
Record GroupKind := GK { gk_Group : string; gk_Kind : string }.

Definition GVK_GroupKind (gvk : GroupVersionKind) : GroupKind := GK (Group gvk) (Kind gvk).

(** The zero GVK, [schema.GroupVersionKind{}]. *)
Definition GVK_zero : GroupVersionKind := GVK "" "" "".

#[export] Instance GVK_eq_dec : EqDecision GroupVersionKind.
Proof. solve_decision. Defined.
#[export] Instance GK_eq_dec : EqDecision GroupKind.
Proof. solve_decision. Defined.
#[export] Instance GVK_countable : Countable GroupVersionKind.
Proof.
  refine (inj_countable' (λ g, (Group g, Version g, Kind g))
    (λ '(g, v, k), GVK g v k) _). by intros [].
Defined.

(** ** Spec *)

Section spec.
Context (LabelSelector : Type).

Record TargetSpec := {
  ts_Group : string;
  ts_Version : string;
  ts_Kind : string;
  ts_Selector : option LabelSelector;
}.

(** [ClusterTargetSpec] embeds [TargetSpec]. *)
Record ClusterTargetSpec := {
  cts_TargetSpec : TargetSpec;
  cts_Namespaces : list string;
  cts_NamespaceSelector : option LabelSelector;
}.

Record DependencyRef := {
  dr_Name : string;
  dr_EmptySetPolicy : EmptySetPolicy;
  dr_SuspendPolicy : SuspendPolicy;
  dr_Target : TargetSpec;
}.

Record ClusterDependencyRef := {
  cdr_Name : string;
  cdr_EmptySetPolicy : EmptySetPolicy;
  cdr_SuspendPolicy : SuspendPolicy;
  cdr_Target : ClusterTargetSpec;
}.
End spec.

Arguments ts_Group {_} _.
Arguments ts_Version {_} _.
Arguments ts_Kind {_} _.
Arguments ts_Selector {_} _.
Arguments cts_TargetSpec {_} _.
Arguments cts_Namespaces {_} _.
Arguments cts_NamespaceSelector {_} _.
Arguments dr_Name {_} _.
Arguments dr_EmptySetPolicy {_} _.
Arguments dr_SuspendPolicy {_} _.
Arguments dr_Target {_} _.
Arguments cdr_Name {_} _.
Arguments cdr_EmptySetPolicy {_} _.
Arguments cdr_SuspendPolicy {_} _.
Arguments cdr_Target {_} _.

(** [TargetSpec.GroupKind]. *)
Definition TargetSpec_GroupKind {LS} (t : TargetSpec LS) : GroupKind :=
  GK (ts_Group t) (ts_Kind t).

(** ** Status *)

(** Counters are int32: every update wraps. *)
Record Summary := {
  Total : Z;
  Current : Z;
  InProgress : Z;
  Failed : Z;
  NotFound : Z;
  Terminating : Z;
  Unknown : Z;
  Suspended : Z;
}.

Definition Summary_zero : Summary := Build_Summary 0 0 0 0 0 0 0 0.

Record DependencyStatus := {
  ds_Name : string;
  ds_Group : string;
  ds_Version : string;
  ds_Kind : string;
  ds_Ready : ConditionStatus;
  ds_Reason : string;
  ds_Summary : Summary;
}.

(** The zero value, read from a Go map at an absent key. *)
Definition DependencyStatus_zero : DependencyStatus :=
  Build_DependencyStatus "" "" "" "" "" "" Summary_zero.

Record ResourceStatus := {
  rs_Group : string;
  rs_Version : string;
  rs_Kind : string;
  rs_Namespace : string;
  rs_Name : string;
  rs_Status : string;
  rs_Reason : string;
  rs_Message : string;
}.

(** metav1.Condition. *)
Record Condition := {
  c_Type : string;
  c_Status : ConditionStatus;
  c_ObservedGeneration : Z;
  c_LastTransitionTime : time;
  c_Reason : string;
  c_Message : string;
}.

Record MilestoneStatusBase := {
  ObservedGeneration : Z;
  Conditions : slice Condition;
  sb_Summary : Summary;
  DependsOn : slice DependencyStatus;
  NotReadyResources : slice ResourceStatus;
  Truncated : bool;
  LastEvaluatedTime : time;
}.

#[export] Instance Summary_eq_dec : EqDecision Summary.
Proof. solve_decision. Defined.
#[export] Instance DependencyStatus_eq_dec : EqDecision DependencyStatus.
Proof. solve_decision. Defined.
#[export] Instance ResourceStatus_eq_dec : EqDecision ResourceStatus.
Proof. solve_decision. Defined.
#[export] Instance Condition_eq_dec : EqDecision Condition.
Proof. solve_decision. Defined.
#[export] Instance MilestoneStatusBase_eq_dec : EqDecision MilestoneStatusBase.
Proof. solve_decision. Defined.

(** ** Objects

    The fields of metav1.ObjectMeta the operator reads or writes.
    [DeletionTimestamp] is nil or a time. *)
Record ObjectMeta := {
  om_Name : string;
  om_Namespace : string;
  om_Generation : Z;
  om_Labels : gmap string string;
  om_Finalizers : list string;
  om_DeletionTimestamp : option time;
  om_CreationTimestamp : time;
}.

Section objects.
Context (LabelSelector : Type).

Record Milestone := {
  m_Meta : ObjectMeta;
  m_DependsOn : list (DependencyRef LabelSelector);
  m_Status : MilestoneStatusBase;
}.

Record ClusterMilestone := {
  cm_Meta : ObjectMeta;
  cm_DependsOn : list (ClusterDependencyRef LabelSelector);
  cm_Status : MilestoneStatusBase;
}.
End objects.

Arguments m_Meta {_} _.
Arguments m_DependsOn {_} _.
Arguments m_Status {_} _.
Arguments cm_Meta {_} _.
Arguments cm_DependsOn {_} _.
Arguments cm_Status {_} _.

(** ** Condition types and the reason vocabulary *)

Definition ConditionReady : string := "Ready".
Definition ConditionStalled : string := "Stalled".

Definition ReasonAllResourcesReady : string := "AllResourcesReady".
Definition ReasonResourcesNotReady : string := "ResourcesNotReady".
Definition ReasonResourcesSuspended : string := "ResourcesSuspended".
Definition ReasonResourcesInProgress : string := "ResourcesInProgress".
Definition ReasonResourcesUnknown : string := "ResourcesUnknown".
Definition ReasonSuspended : string := "Suspended".
Definition ReasonAllDependenciesReady : string := "AllDependenciesReady".
Definition ReasonDependenciesNotReady : string := "DependenciesNotReady".
Definition ReasonDependenciesInProgress : string := "DependenciesInProgress".
Definition ReasonEmptySet : string := "EmptySet".
Definition ReasonGVKNotEstablished : string := "GVKNotEstablished".
Definition ReasonNamespaceScopeMismatch : string := "NamespaceScopeMismatch".
Definition ReasonDiscoveryFailed : string := "DiscoveryFailed".
Definition ReasonDiscoveryUnavailable : string := "DiscoveryUnavailable".
Definition ReasonWatchSetupFailed : string := "WatchSetupFailed".
Definition ReasonListFailed : string := "ListFailed".
Definition ReasonReconcileError : string := "ReconcileError".
Definition ReasonReconcileComplete : string := "ReconcileComplete".

Definition Finalizer : string := "milestone.as-code.io/finalizer".

(** The closed enumeration of [DependencyStatus.Reason] the CRD validates. *)
Definition dependency_reasons : list string :=
  [ ReasonAllResourcesReady; ReasonResourcesNotReady; ReasonResourcesSuspended;
    ReasonResourcesInProgress; ReasonResourcesUnknown; ReasonEmptySet;
    ReasonGVKNotEstablished; ReasonNamespaceScopeMismatch; ReasonDiscoveryFailed;
    ReasonDiscoveryUnavailable; ReasonWatchSetupFailed; ReasonListFailed;
    ReasonReconcileError ].

(** The validation rule of [Summary]: Total is the sum of the six buckets. *)
Definition summary_balanced (s : Summary) : Prop :=
  (Total s = Current s + InProgress s + Failed s + NotFound s + Terminating s + Unknown s)%Z.

#[export] Instance summary_balanced_dec s : Decision (summary_balanced s).
Proof. unfold summary_balanced. apply _. Defined.
