(* ===== verification/K8s.v ===== *)
(** * The client libraries, as interfaces

    The code under src/ calls k8s.io/apimachinery, client-go, controller-runtime
    and sigs.k8s.io/cli-utils. None of them is modelled: each is a class of the
    operations the source uses, and the documented behaviour a theorem relies on
    is a separate class of laws ([Prop]), taken as a hypothesis where it is
    needed. [Fixtures.v] gives concrete instances. *)

From S2P Require Import Prelude GoStd ApiV1.

(** ** apierrors, apimeta: the class of an error, nil-safe *)
Class ApiErrors := {
  IsNotFound : error → bool;
  IsConflict : error → bool;
  IsForbidden : error → bool;
  IsNoMatchError : error → bool;
}.

(** [strconv.Quote], behind the verb %q (it needs the Unicode tables), and
    [GroupVersionKind.String]. *)
Class Formatting := {
  Quote : string → string;
  GVK_String : GroupVersionKind → string;
}.

(** ** Labels: labels.Selector and metav1.LabelSelector *)
Class LabelsAPI := {
  Selector : Type;
  Selector_Matches : Selector → gmap string string → bool;
  Selector_Empty : Selector → bool;
  Selector_String : Selector → string;
  Everything : Selector;
  LabelSelector : Type;
  LabelSelectorAsSelector : LabelSelector → result Selector;
  FormatLabelSelector : LabelSelector → string;
}.

(** [labels.Everything] matches every label set. *)
Class LabelsLaws `{LabelsAPI} : Prop := {
  Everything_Matches ls : Selector_Matches Everything ls = true;
}.

(** ** Unstructured objects and kstatus *)

(** The part of a kstatus result the source reads: status, message and the
    reasons of the extracted conditions, in order. *)
Record KResult := {
  k_Status : string;
  k_Message : string;
  k_Reasons : list string;
}.

Class UnstructuredAPI := {
  Unstructured : Type;
  GetNamespace : Unstructured → string;
  GetName : Unstructured → string;
  GetLabels : Unstructured → gmap string string;
  GetKind : Unstructured → string;
  GetGVK : Unstructured → GroupVersionKind;
  SetGVK : GroupVersionKind → Unstructured → Unstructured;
  (** the value, found and err of unstructured.NestedBool(u.Object, path...) *)
  NestedBool : Unstructured → list string → bool * bool * option error;
  kstatus_Compute : Unstructured → result (option KResult);
}.

(** The kstatus values, [kstatus.Status.String()]. *)
Definition CurrentStatus : string := "Current".
Definition InProgressStatus : string := "InProgress".
Definition FailedStatus : string := "Failed".
Definition NotFoundStatus : string := "NotFound".
Definition TerminatingStatus : string := "Terminating".
Definition UnknownStatus : string := "Unknown".

(** ** apimeta: condition lists *)
Class ConditionsAPI := {
  (** the first argument is the instant time.Now() reads *)
  SetStatusCondition : time → slice Condition → Condition → slice Condition;
  FindStatusCondition : slice Condition → string → option Condition;
  IsStatusConditionTrue : slice Condition → string → bool;
}.

(** What SetStatusCondition makes of an existing condition: every field is
    updated, and the transition time moves only when the status changes. *)
Definition updated_condition (now : time) (old new : Condition) : Condition :=
  Build_Condition (c_Type old) (c_Status new) (c_ObservedGeneration new)
    (if decide (c_Status old = c_Status new) then c_LastTransitionTime old
     else if decide (c_LastTransitionTime new = 0%Z) then now
     else c_LastTransitionTime new)
    (c_Reason new) (c_Message new).

(** What it appends when the type is absent. *)
Definition stamped_condition (now : time) (new : Condition) : Condition :=
  Build_Condition (c_Type new) (c_Status new) (c_ObservedGeneration new)
    (if decide (c_LastTransitionTime new = 0%Z) then now else c_LastTransitionTime new)
    (c_Reason new) (c_Message new).

(** The documentation of SetStatusCondition, FindStatusCondition and
    IsStatusConditionTrue. *)
Class ConditionsLaws `{ConditionsAPI} : Prop := {
  set_existing now cs pre old post c :
    elems cs = pre ++ old :: post → Forall (λ x, c_Type x ≠ c_Type c) pre →
    c_Type old = c_Type c →
    SetStatusCondition now cs c = Some (pre ++ updated_condition now old c :: post);
  set_absent now cs c :
    Forall (λ x, c_Type x ≠ c_Type c) (elems cs) →
    SetStatusCondition now cs c = Some (elems cs ++ [stamped_condition now c]);
  find_existing cs pre old post t :
    elems cs = pre ++ old :: post → Forall (λ x, c_Type x ≠ t) pre → c_Type old = t →
    FindStatusCondition cs t = Some old;
  find_absent cs t :
    Forall (λ x, c_Type x ≠ t) (elems cs) → FindStatusCondition cs t = None;
  is_true_find cs t :
    IsStatusConditionTrue cs t = true ↔
    ∃ c, FindStatusCondition cs t = Some c ∧ c_Status c = ConditionTrue;
}.

(** ** Consequences of the laws the components share *)

(** A condition list splits at the first condition of a type, or has none. *)
Lemma split_at_type (l : list Condition) t :
  Forall (λ x, c_Type x ≠ t) l ∨
  ∃ pre old post, l = pre ++ old :: post ∧ Forall (λ x, c_Type x ≠ t) pre ∧ c_Type old = t.
Proof.
  induction l as [|c l IH]; [by left; constructor|].
  destruct (decide (c_Type c = t)) as [E|E].
  - right. exists [], c, l. by repeat constructor.
  - destruct IH as [IH|(pre & old & post & -> & Hpre & Hold)].
    + left. by constructor.
    + right. exists (c :: pre), old, post. by repeat constructor.
Qed.

Section conditions.
Context `{ConditionsLaws}.

(** The condition a [SetStatusCondition] leaves behind. *)
Lemma find_set_eq now cs c :
  ∃ c', FindStatusCondition (SetStatusCondition now cs c) (c_Type c) = Some c' ∧
    c_Type c' = c_Type c ∧ c_Status c' = c_Status c ∧ c_Reason c' = c_Reason c ∧
    c_Message c' = c_Message c ∧ c_ObservedGeneration c' = c_ObservedGeneration c.
Proof.
  destruct (split_at_type (elems cs) (c_Type c)) as [Hall|(pre & old & post & E & Hpre & Ht)].
  - rewrite set_absent by done. eexists. split.
    + by eapply (find_existing _ (elems cs) _ []).
    + done.
  - rewrite (set_existing _ _ pre old post) by done. eexists. split.
    + by eapply (find_existing _ pre _ post).
    + done.
Qed.

(** Conditions of other types are not touched. *)
Lemma find_set_ne now cs c t :
  t ≠ c_Type c →
  FindStatusCondition (SetStatusCondition now cs c) t = FindStatusCondition cs t.
Proof.
  intros Hne.
  destruct (split_at_type (elems cs) (c_Type c)) as [Hall|(pre & old & post & E & Hpre & Ht)].
  - rewrite set_absent by done.
    destruct (split_at_type (elems cs) t) as [Hn|(pre' & old' & post' & E' & Hpre' & Ht')].
    + rewrite (find_absent cs) by done. apply find_absent. simpl.
      apply Forall_app. split; [done|]. by repeat constructor.
    + rewrite (find_existing cs pre' old' post') by done.
      apply (find_existing _ pre' old' (post' ++ [stamped_condition now c])); [|done..].
      simpl. by rewrite E', <- app_assoc.
  - rewrite (set_existing _ _ pre old post) by done.
    destruct (split_at_type pre t) as [Hn|(p1 & o1 & q1 & -> & Hp1 & Ho1)].
    + destruct (split_at_type post t) as [Hq|(p2 & o2 & q2 & -> & Hp2 & Ho2)].
      * rewrite !find_absent; [done| |].
        -- rewrite E. apply Forall_app. split; [done|]. constructor; [congruence|done].
        -- simpl. apply Forall_app. split; [done|]. constructor; [simpl; congruence|done].
      * rewrite (find_existing cs (pre ++ old :: p2) o2 q2).
        -- apply (find_existing _ (pre ++ updated_condition now old c :: p2) o2 q2);
             simpl; [by rewrite <- app_assoc| |done].
           apply Forall_app. split; [done|]. constructor; [simpl; congruence|done].
        -- by rewrite E, <- app_assoc.
        -- apply Forall_app. split; [done|]. constructor; [congruence|done].
        -- done.
    + rewrite (find_existing cs p1 o1 (q1 ++ old :: post)).
      * apply (find_existing _ p1 o1 (q1 ++ updated_condition now old c :: post)); [|done..].
        simpl. by rewrite <- app_assoc.
      * by rewrite E, <- app_assoc.
      * done.
      * done.
Qed.

Lemma is_true_set_eq now cs c :
  IsStatusConditionTrue (SetStatusCondition now cs c) (c_Type c) = true ↔
  c_Status c = ConditionTrue.
Proof.
  rewrite is_true_find. destruct (find_set_eq now cs c) as (c' & -> & _ & Hs & _).
  rewrite <- Hs. naive_solver.
Qed.
End conditions.

(** ** controllerutil: finalizers *)
Class FinalizerAPI := {
  ContainsFinalizer : list string → string → bool;
  AddFinalizer : list string → string → list string;
  RemoveFinalizer : list string → string → list string;
}.

Class FinalizerLaws `{FinalizerAPI} : Prop := {
  contains_spec l f : ContainsFinalizer l f = true ↔ f ∈ l;
  add_contains l f x : x ∈ AddFinalizer l f ↔ x = f ∨ x ∈ l;
  remove_contains l f x : x ∈ RemoveFinalizer l f ↔ x ≠ f ∧ x ∈ l;
}.
