(* ===== verification/Fixtures.v ===== *)
(** * Concrete client libraries

    One executable instance of every interface of [K8s.v], with its laws. They
    show that the hypotheses taken from the libraries' documentation can hold
    together, and they are what the examples of the other files evaluate. None
    is a global instance: a file that needs them opens [Module Fix]. *)

From S2P Require Import Prelude GoStd ApiV1 K8s.
From Stdlib Require Import Ascii.

Module Fix.

(** ** Errors and formatting *)

Definition has_class (class : string) (e : error) : bool :=
  match e with ext_error c _ => bool_decide (c = class) | _ => false end.

Definition api_errors : ApiErrors := {|
  IsNotFound := has_class "NotFound";
  IsConflict := has_class "Conflict";
  IsForbidden := has_class "Forbidden";
  IsNoMatchError := has_class "NoMatch";
|}.

Definition quote_char : string := String (Ascii.ascii_of_nat 34) "".

Definition formatting : Formatting := {|
  Quote := λ s, quote_char +:+ s +:+ quote_char;
  GVK_String := λ g, Group g +:+ "/" +:+ Version g +:+ ", Kind=" +:+ Kind g;
|}.

(** ** Labels: a selector is a conjunction of key=value requirements; a label
    selector with an empty key is invalid *)

Definition requirement_holds (ls : gmap string string) (r : string * string) : bool :=
  bool_decide (ls !! r.1 = Some r.2).

Definition requirement_String (r : string * string) : string := r.1 +:+ "=" +:+ r.2.

Definition labels : LabelsAPI := {|
  Selector := list (string * string);
  Selector_Matches := λ sel ls, forallb (requirement_holds ls) sel;
  Selector_Empty := λ sel, match sel with [] => true | _ => false end;
  Selector_String := λ sel, strings_Join (map requirement_String sel) ",";
  Everything := [];
  LabelSelector := list (string * string);
  LabelSelectorAsSelector := λ ls,
    if existsb (λ r, bool_decide (r.1 = "")) ls
    then Err (ext_error "Invalid" "empty label key") else Ok ls;
  FormatLabelSelector := λ ls, strings_Join (map requirement_String ls) ",";
|}.

#[local] Instance labels_laws : @LabelsLaws labels.
Proof. by split. Qed.

(** ** Unstructured objects: what the source reads of them *)

Record object := {
  o_GVK : GroupVersionKind;
  o_Namespace : string;
  o_Name : string;
  o_Labels : gmap string string;
  o_Suspend : bool;
  o_Status : string;
  o_Message : string;
}.

Definition unstructured : UnstructuredAPI := {|
  Unstructured := object;
  GetNamespace := o_Namespace;
  GetName := o_Name;
  GetLabels := o_Labels;
  GetKind := λ u, Kind (o_GVK u);
  GetGVK := o_GVK;
  SetGVK := λ g u, Build_object g (o_Namespace u) (o_Name u) (o_Labels u) (o_Suspend u)
                     (o_Status u) (o_Message u);
  NestedBool := λ u path,
    if decide (path = ["spec"; "suspend"]) then (o_Suspend u, true, None)
    else (false, false, None);
  kstatus_Compute := λ u, Ok
    (if decide (o_Status u ∈ [CurrentStatus; InProgressStatus; FailedStatus; NotFoundStatus;
                              TerminatingStatus; UnknownStatus])
     then Some (Build_KResult (o_Status u) (o_Message u) []) else None);
|}.

(** ** Condition lists *)

Fixpoint set_condition (now : time) (l : list Condition) (c : Condition) : list Condition :=
  match l with
  | [] => [stamped_condition now c]
  | old :: l =>
      if decide (c_Type old = c_Type c) then updated_condition now old c :: l
      else old :: set_condition now l c
  end.

Definition find_condition (l : list Condition) (t : string) : option Condition :=
  head (filter (λ c, c_Type c = t) l).

#[local] Instance conditions : ConditionsAPI := {|
  SetStatusCondition := λ now cs c, Some (set_condition now (elems cs) c);
  FindStatusCondition := λ cs t, find_condition (elems cs) t;
  IsStatusConditionTrue := λ cs t,
    match find_condition (elems cs) t with
    | Some c => bool_decide (c_Status c = ConditionTrue)
    | None => false
    end;
|}.

Lemma find_condition_cons l c t :
  find_condition (c :: l) t = if decide (c_Type c = t) then Some c else find_condition l t.
Proof. unfold find_condition. rewrite filter_cons. by case_decide. Qed.

#[local] Instance conditions_laws : ConditionsLaws.
Proof.
  split.
  - intros now cs pre old post c. simpl. intros ->.
    induction 1 as [|x pre Hx Hpre IH]; simpl; intros Ht.
    + by rewrite decide_True.
    + rewrite decide_False by done. f_equal. f_equal. by apply (inj Some), IH.
  - intros now cs c. simpl. generalize (elems cs).
    induction 1 as [|x l Hx Hl IH]; simpl; [done|].
    rewrite decide_False by done. f_equal. f_equal. by apply (inj Some), IH.
  - intros cs pre old post t. simpl. intros ->.
    induction 1 as [|x pre Hx Hpre IH]; simpl; intros Ht; rewrite find_condition_cons.
    + by rewrite decide_True.
    + rewrite decide_False by done. auto.
  - intros cs t. simpl. generalize (elems cs).
    induction 1 as [|x l Hx Hl IH]; [done|]. by rewrite find_condition_cons, decide_False.
  - intros cs t. simpl. destruct (find_condition (elems cs) t) as [c|].
    + rewrite bool_decide_eq_true. naive_solver.
    + naive_solver.
Qed.

(** ** Finalizers *)

#[local] Instance finalizers : FinalizerAPI := {|
  ContainsFinalizer := λ l f, bool_decide (f ∈ l);
  AddFinalizer := λ l f, if decide (f ∈ l) then l else l ++ [f];
  RemoveFinalizer := λ l f, filter (λ x, x ≠ f) l;
|}.

#[local] Instance finalizers_laws : FinalizerLaws.
Proof.
  split; simpl.
  - intros l f. apply bool_decide_eq_true.
  - intros l f x. case_decide; [|set_solver].
    split; [by right|by intros [->|?]].
  - intros l f x. by rewrite list_elem_of_filter.
Qed.
End Fix.
