(* ===== verification/Metrics.v ===== *)
(** * internal/metrics: metrics.go and pipeline.go

    The metric vectors, as the calls the program makes on them: a store maps a
    vector's name and label values to the number last set or reached. Timers
    count their observations; the measured durations are not modelled. *)

From S2P Require Import Prelude GoStd.

(** ** Definitions *)

(** A vector: its name (under the namespace "milestone") and its label names. *)
Record Vec := { v_Name : string; v_Labels : list string }.

#[export] Instance Vec_eq_dec : EqDecision Vec.
Proof. solve_decision. Defined.

Definition metrics_ns : string := "milestone".

Definition labelGroup : string := "group".
Definition labelVersion : string := "version".
Definition labelKind : string := "kind".
Definition labelEvent : string := "event".
Definition labelResult : string := "result".
Definition labelController : string := "controller".
Definition labelStage : string := "stage".
Definition labelReason : string := "reason".
Definition labelOwnerKind : string := "owner_kind".
Definition labelNamespace : string := "namespace".
Definition labelName : string := "name".
Definition labelType : string := "type".
Definition labelStatus : string := "status".
Definition labelTargetGroup : string := "target_group".
Definition labelTargetKind : string := "target_kind".
Definition labelDependency : string := "dependency".
Definition labelParentKind : string := "parent_kind".
Definition labelRevision : string := "revision".

Definition FluxNotifySuccess : string := "success".
Definition FluxNotifySuspended : string := "suspended".
Definition FluxNotifyNotFound : string := "not_found".
Definition FluxNotifyNoMatch : string := "no_match".
Definition FluxNotifyForbidden : string := "forbidden".
Definition FluxNotifyError : string := "error".

Definition DiscoveryResolveHit : string := "hit".
Definition DiscoveryResolveMiss : string := "miss".
Definition DiscoveryResolveNotEstablished : string := "not_established".
Definition DiscoveryResolveError : string := "error".

Definition StageDiscovery : string := "discovery".
Definition StageSubscriptions : string := "subscriptions".
Definition StageList : string := "list".
Definition StageCompute : string := "compute".
Definition StageReduce : string := "reduce".
Definition StagePatch : string := "patch".

Definition PatchChanged : string := "changed".
Definition PatchUnchanged : string := "unchanged".
Definition PatchError : string := "error".
Definition PatchConflict : string := "conflict".

Definition SubscribeOK : string := "ok".
Definition SubscribeError : string := "error".

Definition metric_EventAdd : string := "add".
Definition metric_EventUpdate : string := "update".
Definition metric_EventDelete : string := "delete".

Definition Informers : Vec :=
  Build_Vec "informers" [labelGroup; labelVersion; labelKind].
Definition Subscribers_vec : Vec :=
  Build_Vec "subscribers" [labelGroup; labelVersion; labelKind].
Definition InformerEvents : Vec :=
  Build_Vec "informer_events_total" [labelGroup; labelVersion; labelKind; labelEvent].
Definition SubscribeTotal : Vec :=
  Build_Vec "subscribe_total" [labelGroup; labelVersion; labelKind; labelResult].
Definition UnsubscribeTotal : Vec :=
  Build_Vec "unsubscribe_total" [labelGroup; labelVersion; labelKind].
Definition EventDispatchDuration : Vec :=
  Build_Vec "event_dispatch_duration_seconds" [labelGroup; labelVersion; labelKind].
Definition DiscoveryResolveTotal : Vec :=
  Build_Vec "discovery_resolve_total" [labelResult].
Definition DiscoveryCacheSize : Vec :=
  Build_Vec "discovery_cache_size" [].
Definition ReconcileStageDuration : Vec :=
  Build_Vec "reconcile_stage_duration_seconds" [labelController; labelStage].
Definition StatusPatchTotal : Vec :=
  Build_Vec "status_patch_total" [labelController; labelResult].
Definition TargetResolveErrors : Vec :=
  Build_Vec "target_resolve_errors_total" [labelController; labelReason].
Definition CRDEstablishedEvents : Vec :=
  Build_Vec "crd_established_events_total" [labelGroup; labelKind].
Definition OwnersWoken : Vec :=
  Build_Vec "owners_woken_total" [labelReason].
Definition FluxNotifyTotal : Vec :=
  Build_Vec "flux_notify_total" [labelController; labelParentKind; labelResult].
Definition StateCollectorErrors : Vec :=
  Build_Vec "state_collector_errors_total" [labelKind].
Definition BuildInfo : Vec :=
  Build_Vec "build_info" [labelVersion; labelRevision].

Definition All : list Vec :=
  [ Informers; Subscribers_vec; InformerEvents; SubscribeTotal; UnsubscribeTotal;
    EventDispatchDuration; DiscoveryResolveTotal; DiscoveryCacheSize;
    ReconcileStageDuration; StatusPatchTotal; TargetResolveErrors;
    CRDEstablishedEvents; OwnersWoken; FluxNotifyTotal; StateCollectorErrors; BuildInfo ].

(** [vec.WithLabelValues(values...).Inc()], [.Set(x)] and
    [vec.DeleteLabelValues(values...)]. *)
Abbreviation metrics := (gmap (string * list string) Z).

Definition Inc (v : Vec) (values : list string) (m : metrics) : metrics :=
  <[(v_Name v, values) := (default 0 (m !! (v_Name v, values)) + 1)%Z]> m.

Definition SetGauge (v : Vec) (values : list string) (x : Z) (m : metrics) : metrics :=
  <[(v_Name v, values) := x]> m.

Definition DeleteLabelValues (v : Vec) (values : list string) (m : metrics) : metrics :=
  delete (v_Name v, values) m.

(** [ObserveStage] and [ObserveDispatch]: one observation of a timer. *)
Definition ObserveStage (controller stage : string) : metrics → metrics :=
  Inc ReconcileStageDuration [controller; stage].
Definition ObserveDispatch (group version kind : string) : metrics → metrics :=
  Inc EventDispatchDuration [group; version; kind].

(** [Register]: the registry is prometheus'; [reg] is its Register method on an
    abstract state, and [already] recognises AlreadyRegisteredError. *)
Section register.
Context {P : Type} (reg : Vec → M P (option error)) (already : error → bool).

Fixpoint register_all (cs : list Vec) : M P (option error) :=
  match cs with
  | [] => mret None
  | c :: cs =>
      err ← reg c;
      match err with
      | None => register_all cs
      | Some err => if already err then register_all cs else mret (Some err)
      end
  end.

Definition Register (r : option unit) : M P (option error) :=
  match r with
  | None => mret (Some (errors_New "metrics: nil registerer"))
  | Some _ => register_all All
  end.
End register.

(** ** Theorems *)

Lemma metric_lookup_Inc v values k m :
  Inc v values m !! k =
  if decide (k = (v_Name v, values)) then Some (default 0 (m !! k) + 1)%Z else m !! k.
Proof.
  unfold Inc. case_decide as E; [by rewrite E, lookup_insert_eq|by rewrite lookup_insert_ne].
Qed.

Lemma metric_lookup_Set v values x k m :
  SetGauge v values x m !! k = if decide (k = (v_Name v, values)) then Some x else m !! k.
Proof.
  unfold SetGauge. case_decide as E; [by rewrite E, lookup_insert_eq|by rewrite lookup_insert_ne].
Qed.

Lemma metric_lookup_Delete v values k m :
  DeleteLabelValues v values m !! k =
  if decide (k = (v_Name v, values)) then None else m !! k.
Proof.
  unfold DeleteLabelValues.
  case_decide as E; [by rewrite E, lookup_delete_eq|by rewrite lookup_delete_ne].
Qed.

#[export] Hint Rewrite metric_lookup_Inc metric_lookup_Set metric_lookup_Delete : go.

(** Vectors have pairwise distinct names, so no two families collide. *)
Lemma All_names_distinct : NoDup (map v_Name All).
Proof. apply (bool_decide_unpack _). vm_compute. done. Qed.
