(* ===== verification/Status.v ===== *)
(** * internal/status: kstatus.go and reducer.go

    A resource's computed status, the rollup of one dependency's resources
    ([ReduceDependency]) and the owner's verdict over the rollups
    ([ReduceOwner], [SummarizeOwner]). *)

From S2P Require Import Prelude GoStd ApiV1 K8s.
From Stdlib Require Import Btauto.

(** ** Definitions *)

Record Resource := {
  r_Group : string;
  r_Version : string;
  r_Kind : string;
  r_Namespace : string;
  r_Name : string;
  r_Status : string;
  r_Reason : string;
  r_Message : string;
  r_Suspended : bool;
}.

#[export] Instance Resource_eq_dec : EqDecision Resource.
Proof. solve_decision. Defined.

Definition IsCurrent (r : Resource) : bool := bool_decide (r_Status r = CurrentStatus).

Definition Blocks (r : Resource) (policy : SuspendPolicy) : bool :=
  negb (IsCurrent r) || (bool_decide (policy = SuspendNotReady) && r_Suspended r).

(** The first non-empty reason of the kstatus conditions, else "". *)
Fixpoint first_reason (reasons : list string) : string :=
  match reasons with
  | [] => ""
  | reason :: reasons => if decide (reason = "") then first_reason reasons else reason
  end.

Definition Compute `{UnstructuredAPI} (u : Unstructured) : Resource :=
  let gvk := GetGVK u in
  let '(suspended, _, _) := NestedBool u ["spec"; "suspend"] in
  let r status reason message :=
    Build_Resource (Group gvk) (Version gvk) (Kind gvk) (GetNamespace u) (GetName u)
      status reason message suspended in
  match kstatus_Compute u with
  | Err err => r UnknownStatus "" (err_Error err)
  | Ok None => r UnknownStatus "" ""
  | Ok (Some res) => r (k_Status res) (first_reason (k_Reasons res)) (k_Message res)
  end.

(** One iteration of the counting loop of [ReduceDependency]. *)
Definition count_resource (s : Summary) (r : Resource) : Summary :=
  let '(Build_Summary t c i f n m u p) := s in
  let t := inc32 t in
  let p := if r_Suspended r then inc32 p else p in
  if decide (r_Status r = CurrentStatus) then Build_Summary t (inc32 c) i f n m u p
  else if decide (r_Status r = InProgressStatus) then Build_Summary t c (inc32 i) f n m u p
  else if decide (r_Status r = FailedStatus) then Build_Summary t c i (inc32 f) n m u p
  else if decide (r_Status r = NotFoundStatus) then Build_Summary t c i f (inc32 n) m u p
  else if decide (r_Status r = TerminatingStatus) then Build_Summary t c i f n (inc32 m) u p
  else Build_Summary t c i f n m (inc32 u) p.

Definition summarize (resources : list Resource) : Summary :=
  foldl count_resource Summary_zero resources.

Definition ReduceDependency (name group version kind : string) (resources : list Resource)
    (policy : EmptySetPolicy) (suspendPolicy : SuspendPolicy) : DependencyStatus :=
  let s := summarize resources in
  let rollup ready reason := Build_DependencyStatus name group version kind ready reason s in
  if decide (Total s = 0%Z) then
    rollup
      (if decide (policy = EmptySetReady) then ConditionTrue
       else if decide (policy = EmptySetNotReady) then ConditionFalse
       else ConditionUnknown)
      ReasonEmptySet
  else if (0 <? Failed s)%Z || (0 <? NotFound s)%Z then
    rollup ConditionFalse ReasonResourcesNotReady
  else if bool_decide (suspendPolicy = SuspendNotReady) && (0 <? Suspended s)%Z then
    rollup ConditionFalse ReasonResourcesSuspended
  else if (0 <? InProgress s)%Z || (0 <? Terminating s)%Z then
    rollup ConditionUnknown ReasonResourcesInProgress
  else if (0 <? Unknown s)%Z then
    rollup ConditionUnknown ReasonResourcesUnknown
  else
    rollup ConditionTrue ReasonAllResourcesReady.

(** The loop of [ReduceOwner] visits a Go map: [rollups] lists its entries in
    the order the iteration happens to take. *)
Definition owner_step (acc : list string * bool) (e : string * DependencyStatus)
    : list string * bool :=
  let '(failed, allTrue) := acc in
  let '(name, r) := e in
  if decide (ds_Ready r = ConditionFalse) then (failed ++ [name], false)
  else if decide (ds_Ready r = ConditionTrue) then (failed, allTrue)
  else (failed, false).

Definition reduce_owner_entries (rollups : list (string * DependencyStatus))
    : ConditionStatus * string * string :=
  match rollups with
  | [] => (ConditionUnknown, ReasonEmptySet, "no dependencies configured")
  | _ =>
    let '(failed, allTrue) := foldl owner_step ([], true) rollups in
    match failed with
    | _ :: _ =>
        (ConditionFalse, ReasonDependenciesNotReady,
         "dependencies not ready: " +:+ strings_Join (sort_Strings failed) ", ")
    | [] =>
        if (allTrue : bool) then (ConditionTrue, ReasonAllDependenciesReady, "")
        else (ConditionUnknown, ReasonDependenciesInProgress, "")
    end
  end.

Definition ReduceOwner (rollups : gmap string DependencyStatus)
    : ConditionStatus * string * string :=
  reduce_owner_entries (map_to_list rollups).

Definition add_summary (a b : Summary) : Summary :=
  Build_Summary
    (add32 (Total a) (Total b)) (add32 (Current a) (Current b))
    (add32 (InProgress a) (InProgress b)) (add32 (Failed a) (Failed b))
    (add32 (NotFound a) (NotFound b)) (add32 (Terminating a) (Terminating b))
    (add32 (Unknown a) (Unknown b)) (add32 (Suspended a) (Suspended b)).

(** [SummarizeOwner] over one iteration order of the map. *)
Definition summarize_entries (rollups : list (string * DependencyStatus)) : Summary :=
  foldl (λ total e, add_summary total (ds_Summary e.2)) Summary_zero rollups.

Definition SummarizeOwner (rollups : gmap string DependencyStatus) : Summary :=
  summarize_entries (map_to_list rollups).

(** ** The specification the rollup implements

    Exact counts of the resources in each bucket. *)
Definition count (P : Resource → bool) (l : list Resource) : Z :=
  Z.of_nat (length (filter (λ r, P r = true) l)).

Definition has_status (s : string) (r : Resource) : bool := bool_decide (r_Status r = s).

(** The [default] bucket: no other status string. *)
Definition has_other_status (r : Resource) : bool :=
  negb (has_status CurrentStatus r || has_status InProgressStatus r ||
        has_status FailedStatus r || has_status NotFoundStatus r ||
        has_status TerminatingStatus r).

Definition exact_summary (l : list Resource) : Summary :=
  Build_Summary (Z.of_nat (length l))
    (count (has_status CurrentStatus) l) (count (has_status InProgressStatus) l)
    (count (has_status FailedStatus) l) (count (has_status NotFoundStatus) l)
    (count (has_status TerminatingStatus) l) (count has_other_status l)
    (count r_Suspended l).

(** The verdict in terms of the resources themselves, no counters. *)
Definition dependency_verdict (l : list Resource) (policy : EmptySetPolicy)
    (suspendPolicy : SuspendPolicy) : ConditionStatus * string :=
  let any P := existsb P l in
  match l with
  | [] =>
    (if decide (policy = EmptySetReady) then ConditionTrue
     else if decide (policy = EmptySetNotReady) then ConditionFalse
     else ConditionUnknown, ReasonEmptySet)
  | _ =>
    if any (has_status FailedStatus) || any (has_status NotFoundStatus)
    then (ConditionFalse, ReasonResourcesNotReady)
    else if bool_decide (suspendPolicy = SuspendNotReady) && any r_Suspended
    then (ConditionFalse, ReasonResourcesSuspended)
    else if any (has_status InProgressStatus) || any (has_status TerminatingStatus)
    then (ConditionUnknown, ReasonResourcesInProgress)
    else if any has_other_status
    then (ConditionUnknown, ReasonResourcesUnknown)
    else (ConditionTrue, ReasonAllResourcesReady)
  end.

(** ** Counting *)

Lemma count_app P l1 l2 : count P (l1 ++ l2) = (count P l1 + count P l2)%Z.
Proof. unfold count. rewrite filter_app, length_app. lia. Qed.

Lemma count_singleton P r : count P [r] = if P r then 1%Z else 0%Z.
Proof. unfold count. cbn. by destruct (P r). Qed.

Lemma count_cons P r l : count P (r :: l) = ((if P r then 1 else 0) + count P l)%Z.
Proof. change (r :: l) with ([r] ++ l). by rewrite count_app, count_singleton. Qed.

Lemma count_nonneg P l : (0 <= count P l)%Z.
Proof. unfold count. lia. Qed.

Lemma count_le P l : (count P l <= Z.of_nat (length l))%Z.
Proof. unfold count. pose proof (length_filter (λ r, P r = true) l). lia. Qed.

Lemma count_pos P l : (0 <? count P l)%Z = existsb P l.
Proof.
  induction l as [|r l IH]; [done|].
  rewrite count_cons. pose proof (count_nonneg P l). simpl. destruct (P r); simpl; [|done].
  apply Z.ltb_lt. lia.
Qed.

#[export] Instance count_perm P : Proper ((≡ₚ) ==> (=)) (count P).
Proof. intros l1 l2 Hp. unfold count. by rewrite Hp. Qed.

#[export] Hint Rewrite count_app count_singleton : go.

(** The counters are the exact counts modulo 2^32. *)
Definition wrap_summary (s : Summary) : Summary :=
  Build_Summary (wrap32 (Total s)) (wrap32 (Current s)) (wrap32 (InProgress s))
    (wrap32 (Failed s)) (wrap32 (NotFound s)) (wrap32 (Terminating s))
    (wrap32 (Unknown s)) (wrap32 (Suspended s)).

Lemma inc32_wrap32 a : inc32 (wrap32 a) = wrap32 (a + 1).
Proof. unfold inc32, add32. apply wrap32_add_l. Qed.

Lemma summary_eq s1 s2 :
  Total s1 = Total s2 → Current s1 = Current s2 → InProgress s1 = InProgress s2 →
  Failed s1 = Failed s2 → NotFound s1 = NotFound s2 → Terminating s1 = Terminating s2 →
  Unknown s1 = Unknown s2 → Suspended s1 = Suspended s2 → s1 = s2.
Proof. destruct s1, s2; simpl; congruence. Qed.

(** The bucket a resource is counted in: at most one status test succeeds. *)
Lemma has_status_cases r :
  (has_status CurrentStatus r, has_status InProgressStatus r, has_status FailedStatus r,
   has_status NotFoundStatus r, has_status TerminatingStatus r, has_other_status r)
  = (if decide (r_Status r = CurrentStatus) then (true, false, false, false, false, false)
     else if decide (r_Status r = InProgressStatus) then (false, true, false, false, false, false)
     else if decide (r_Status r = FailedStatus) then (false, false, true, false, false, false)
     else if decide (r_Status r = NotFoundStatus) then (false, false, false, true, false, false)
     else if decide (r_Status r = TerminatingStatus) then (false, false, false, false, true, false)
     else (false, false, false, false, false, true)).
Proof.
  unfold has_other_status, has_status.
  do 5 (let Hs := fresh in case_decide as Hs; [by rewrite Hs|]).
  by rewrite !bool_decide_eq_false_2.
Qed.

Lemma count_resource_exact s r :
  count_resource (wrap_summary s) r =
  wrap_summary (Build_Summary (Total s + 1)
    (Current s + if has_status CurrentStatus r then 1 else 0)
    (InProgress s + if has_status InProgressStatus r then 1 else 0)
    (Failed s + if has_status FailedStatus r then 1 else 0)
    (NotFound s + if has_status NotFoundStatus r then 1 else 0)
    (Terminating s + if has_status TerminatingStatus r then 1 else 0)
    (Unknown s + if has_other_status r then 1 else 0)
    (Suspended s + if r_Suspended r then 1 else 0)).
Proof.
  pose proof (has_status_cases r) as Hb. revert Hb. unfold count_resource, wrap_summary. simpl.
  rewrite inc32_wrap32.
  replace (wrap32 (Suspended s + (if r_Suspended r then 1 else 0)))
    with (if r_Suspended r then inc32 (wrap32 (Suspended s)) else wrap32 (Suspended s))
    by (destruct (r_Suspended r); rewrite ?inc32_wrap32, ?Z.add_0_r; done).
  do 5 (case_decide; [intros [= -> -> -> -> -> ->]; by rewrite ?inc32_wrap32, ?Z.add_0_r|]).
  intros [= -> -> -> -> -> ->]; by rewrite ?inc32_wrap32, ?Z.add_0_r.
Qed.

Lemma summarize_wrap l : summarize l = wrap_summary (exact_summary l).
Proof.
  unfold summarize. induction l as [|r l IH] using rev_ind; [done|].
  rewrite foldl_snoc_fix, IH, count_resource_exact. f_equal.
  apply summary_eq; simpl; rewrite ?length_app, ?count_app, ?count_singleton; simpl; lia.
Qed.

(** Below 2^31 resources no counter wraps. *)
Lemma summarize_exact l :
  (Z.of_nat (length l) < 2 ^ 31)%Z → summarize l = exact_summary l.
Proof.
  intros Hlen. rewrite summarize_wrap. unfold wrap_summary, exact_summary. simpl.
  assert (∀ P, wrap32 (count P l) = count P l) as Hc.
  { intros P. apply wrap32_small. pose proof (count_le P l). pose proof (count_nonneg P l). lia. }
  rewrite !Hc, wrap32_small by lia. done.
Qed.

Lemma exact_summary_balanced l : summary_balanced (exact_summary l).
Proof.
  unfold summary_balanced. induction l as [|r l IH]; [done|].
  revert IH. unfold exact_summary. simpl. rewrite !count_cons.
  pose proof (has_status_cases r) as Hb. revert Hb.
  do 5 (case_decide; [intros [= -> -> -> -> -> ->]; lia|]).
  intros [= -> -> -> -> -> ->]; lia.
Qed.

#[export] Instance summarize_perm : Proper ((≡ₚ) ==> (=)) summarize.
Proof.
  intros l1 l2 Hp. rewrite !summarize_wrap. f_equal. unfold exact_summary. by rewrite !Hp.
Qed.

(** ** Theorems: one dependency *)

(** The rollup in terms of the resources themselves. *)
Lemma ReduceDependency_exact name group version kind l policy suspendPolicy :
  (Z.of_nat (length l) < 2 ^ 31)%Z →
  ReduceDependency name group version kind l policy suspendPolicy =
  Build_DependencyStatus name group version kind
    (dependency_verdict l policy suspendPolicy).1
    (dependency_verdict l policy suspendPolicy).2 (exact_summary l).
Proof.
  intros Hlen. unfold ReduceDependency. rewrite summarize_exact by done.
  unfold dependency_verdict. destruct l as [|r l]; [done|].
  rewrite decide_False by (simpl; lia). cbn [exact_summary Failed NotFound Suspended
    InProgress Terminating Unknown].
  rewrite !count_pos. by repeat case_match.
Qed.

(** Under NotReady a suspended resource makes the verdict False, whatever its
    status; the reason is the suspension unless some resource failed. *)
Lemma suspended_verdict l policy r :
  r ∈ l → r_Suspended r = true →
  dependency_verdict l policy SuspendNotReady =
  (ConditionFalse,
   if bool_decide (Exists (λ x, r_Status x = FailedStatus ∨ r_Status x = NotFoundStatus) l)
   then ReasonResourcesNotReady else ReasonResourcesSuspended).
Proof.
  intros Hr Hs. assert (Hany : existsb r_Suspended l = true) by (apply existsb_elem; eauto).
  assert (Hf : existsb (has_status FailedStatus) l || existsb (has_status NotFoundStatus) l =
    bool_decide (Exists (λ x, r_Status x = FailedStatus ∨ r_Status x = NotFoundStatus) l)).
  { apply eq_true_iff_eq. rewrite bool_decide_eq_true, orb_true_iff, !existsb_elem, Exists_exists.
    unfold has_status. setoid_rewrite bool_decide_eq_true. naive_solver. }
  unfold dependency_verdict. rewrite Hf, Hany. destruct l; [by apply not_elem_of_nil in Hr|].
  by case_match.
Qed.

(** C9: below 2^31 resources, [ReduceDependency] computes the verdict stated on
    the resources themselves (failures first, then suspension under NotReady,
    then progress, then unknown, then success; emptySetPolicy on the empty set),
    and its summary holds the exact counts. So under NotReady one suspended
    resource makes Ready False whatever its status, but the reason is
    ResourcesSuspended only when no resource is Failed or NotFound: a failure,
    that of the suspended resource included, is reported first, as the comment
    in reducer.go:85-88 and PLAN.md:195-198 say (README.md:86 and
    PLAN.md:452-456 promise ResourcesSuspended in every case). *)
Theorem ReduceDependency_spec name group version kind l policy suspendPolicy :
  (Z.of_nat (length l) < 2 ^ 31)%Z →
  let rollup := ReduceDependency name group version kind l policy suspendPolicy in
  rollup = Build_DependencyStatus name group version kind
    (dependency_verdict l policy suspendPolicy).1
    (dependency_verdict l policy suspendPolicy).2 (exact_summary l) ∧
  (suspendPolicy = SuspendNotReady → ∀ r, r ∈ l → r_Suspended r = true →
   ds_Ready rollup = ConditionFalse ∧
   ds_Reason rollup =
     if bool_decide (Exists (λ x, r_Status x = FailedStatus ∨ r_Status x = NotFoundStatus) l)
     then ReasonResourcesNotReady else ReasonResourcesSuspended).
Proof.
  intros Hlen rollup. subst rollup. rewrite ReduceDependency_exact by done. split; [done|].
  intros -> r Hr Hs. by rewrite (suspended_verdict l policy r Hr Hs).
Qed.

Lemma ReduceDependency_spec_witness :
  let l := [Build_Resource "apps" "v1" "Deployment" "ns" "a" "Current" "" "" true] in
  let l' := [Build_Resource "apps" "v1" "Deployment" "ns" "a" "Failed" "" "" true] in
  (Z.of_nat (length l) < 2 ^ 31)%Z ∧
  ds_Reason (ReduceDependency "web" "apps" "v1" "Deployment" l EmptySetUnknown SuspendNotReady)
    = ReasonResourcesSuspended ∧
  ds_Reason (ReduceDependency "web" "apps" "v1" "Deployment" l' EmptySetUnknown SuspendNotReady)
    = ReasonResourcesNotReady.
Proof.
  intros l l'. split; [done|].
  destruct (ReduceDependency_spec "web" "apps" "v1" "Deployment" l EmptySetUnknown SuspendNotReady)
    as [_ H]; [done|].
  destruct (ReduceDependency_spec "web" "apps" "v1" "Deployment" l' EmptySetUnknown SuspendNotReady)
    as [_ H']; [done|].
  split.
  - destruct (H eq_refl _ (list_elem_of_here _ _) eq_refl) as [_ ->]. vm_compute. reflexivity.
  - destruct (H' eq_refl _ (list_elem_of_here _ _) eq_refl) as [_ ->]. vm_compute. reflexivity.
Defined.

(** The rollup does not depend on the order in which an informer lists. *)
Lemma ReduceDependency_perm name group version kind l1 l2 policy suspendPolicy :
  l1 ≡ₚ l2 →
  ReduceDependency name group version kind l1 policy suspendPolicy =
  ReduceDependency name group version kind l2 policy suspendPolicy.
Proof. intros Hp. unfold ReduceDependency. by rewrite (summarize_perm _ _ Hp). Qed.

Lemma Blocks_false r policy :
  Blocks r policy = false ↔
  r_Status r = CurrentStatus ∧ ¬ (policy = SuspendNotReady ∧ r_Suspended r = true).
Proof.
  unfold Blocks, IsCurrent.
  rewrite orb_false_iff, negb_false_iff, bool_decide_eq_true, andb_false_iff, bool_decide_eq_false.
  destruct (r_Suspended r), (decide (policy = SuspendNotReady)); naive_solver.
Qed.

(** Nothing blocks exactly when no status other than Current occurs and, under
    NotReady, nothing is suspended. *)
Lemma none_blocks_buckets l policy :
  existsb (λ r, Blocks r policy) l =
  (existsb (has_status FailedStatus) l || existsb (has_status NotFoundStatus) l) ||
  (bool_decide (policy = SuspendNotReady) && existsb r_Suspended l) ||
  (existsb (has_status InProgressStatus) l || existsb (has_status TerminatingStatus) l) ||
  existsb has_other_status l.
Proof.
  induction l as [|r l IH]; simpl; [by rewrite andb_false_r|]. rewrite IH.
  unfold Blocks, IsCurrent. change (bool_decide (r_Status r = CurrentStatus))
    with (has_status CurrentStatus r).
  pose proof (has_status_cases r) as Hb. revert Hb.
  destruct (bool_decide (policy = SuspendNotReady)), (r_Suspended r);
    do 5 (case_decide; [intros [= -> -> -> -> -> ->]; simpl; btauto|]);
    intros [= -> -> -> -> -> ->]; simpl; btauto.
Qed.

Lemma ReduceDependency_ready_iff name group version kind l policy suspendPolicy :
  l ≠ [] → (Z.of_nat (length l) < 2 ^ 31)%Z →
  ds_Ready (ReduceDependency name group version kind l policy suspendPolicy) = ConditionTrue ↔
  ∀ r, r ∈ l → Blocks r suspendPolicy = false.
Proof.
  intros Hne Hlen. rewrite ReduceDependency_exact by done. simpl.
  transitivity (existsb (λ r, Blocks r suspendPolicy) l = false).
  - rewrite none_blocks_buckets. destruct l; [done|]. unfold dependency_verdict.
    by repeat case_match.
  - rewrite <- not_true_iff_false, existsb_elem. setoid_rewrite <- not_true_iff_false.
    naive_solver.
Qed.

(** a dependency with at least one member (and fewer than 2^31) is Ready
    exactly when none of its members blocks, whatever its emptySetPolicy:
    [Blocks] is the one definition of "not ready" behind both the verdict and
    status.notReadyResources. *)
Theorem ReduceDependency_ready_iff_none_blocks name group version kind l policy suspendPolicy :
  l ≠ [] → (Z.of_nat (length l) < 2 ^ 31)%Z →
  ds_Ready (ReduceDependency name group version kind l policy suspendPolicy) = ConditionTrue ↔
  ∀ r, r ∈ l → Blocks r suspendPolicy = false.
Proof. apply ReduceDependency_ready_iff. Qed.

Lemma ReduceDependency_ready_iff_none_blocks_witness :
  ds_Ready (ReduceDependency "web" "apps" "v1" "Deployment"
    [Build_Resource "apps" "v1" "Deployment" "ns" "a" "Current" "" "" true]
    EmptySetUnknown SuspendIgnore) = ConditionTrue.
Proof.
  apply ReduceDependency_ready_iff_none_blocks; [done..|].
  by intros r ->%list_elem_of_singleton.
Defined.

(** whatever the number of resources, the summary is the exact one modulo
    2^32; below 2^31 it satisfies the CRD's rule that Total is the sum of the
    six kstatus buckets (Suspended excluded). *)
Theorem ReduceDependency_summary_bounds name group version kind l policy suspendPolicy :
  let s := ds_Summary (ReduceDependency name group version kind l policy suspendPolicy) in
  s = wrap_summary (exact_summary l) ∧
  ((Z.of_nat (length l) < 2 ^ 31)%Z → summary_balanced s ∧ Suspended s = count r_Suspended l).
Proof.
  assert (ds_Summary (ReduceDependency name group version kind l policy suspendPolicy)
    = summarize l) as -> by (unfold ReduceDependency; by repeat case_match).
  split; [apply summarize_wrap|]. intros Hlen. rewrite summarize_exact by done.
  split; [apply exact_summary_balanced|done].
Qed.

(** ** Theorems: the owner *)

(** The loop of [ReduceOwner], as filters. *)
Lemma owner_step_fold l failed allTrue :
  foldl owner_step (failed, allTrue) l =
  (failed ++ (filter (λ e, ds_Ready e.2 = ConditionFalse) l).*1,
   allTrue && forallb (λ e, bool_decide (ds_Ready e.2 = ConditionTrue)) l).
Proof.
  revert failed allTrue. induction l as [|[name r] l IH]; intros failed allTrue; simpl.
  - by rewrite app_nil_r, andb_true_r.
  - rewrite filter_cons. simpl. case_decide as Hf.
    + rewrite IH. simpl. rewrite <- app_assoc, bool_decide_eq_false_2 by (by rewrite Hf).
      by rewrite andb_false_r.
    + case_decide; rewrite IH;
        [by rewrite bool_decide_eq_true_2|by rewrite bool_decide_eq_false_2, andb_false_r].
Qed.

Lemma reduce_owner_entries_unfold l :
  reduce_owner_entries l =
  if decide (l = []) then (ConditionUnknown, ReasonEmptySet, "no dependencies configured")
  else
    let failed := (filter (λ e, ds_Ready e.2 = ConditionFalse) l).*1 in
    if decide (failed = []) then
      if forallb (λ e, bool_decide (ds_Ready e.2 = ConditionTrue)) l
      then (ConditionTrue, ReasonAllDependenciesReady, "")
      else (ConditionUnknown, ReasonDependenciesInProgress, "")
    else (ConditionFalse, ReasonDependenciesNotReady,
          "dependencies not ready: " +:+ strings_Join (sort_Strings failed) ", ").
Proof.
  destruct l as [|e l]; [done|]. unfold reduce_owner_entries.
  rewrite owner_step_fold. rewrite decide_False by done. cbn zeta.
  simpl app. rewrite andb_true_l. by case_match.
Qed.

(** [ReduceOwner] ranges over a Go map, whose iteration order is random;
    every order of its entries gives the same status, reason and message. *)
Theorem ReduceOwner_order_independent rollups entries :
  entries ≡ₚ map_to_list rollups → reduce_owner_entries entries = ReduceOwner rollups.
Proof.
  intros Hp. unfold ReduceOwner. rewrite !reduce_owner_entries_unfold.
  rewrite (decide_ext (entries = []) (map_to_list rollups = [])).
  2: { split; intros E; rewrite E in Hp;
       [by apply Permutation_nil|by apply Permutation_nil_r]. }
  case_decide; [done|]. cbn zeta.
  assert ((filter (λ e, ds_Ready e.2 = ConditionFalse) entries).*1 ≡ₚ
          (filter (λ e, ds_Ready e.2 = ConditionFalse) (map_to_list rollups)).*1) as Hf
    by (by rewrite Hp).
  rewrite (forallb_Permutation _ _ _ Hp), (sort_Strings_unique _ _ Hf).
  erewrite decide_ext; [done|].
  split; intros E; rewrite E in Hf; [by apply Permutation_nil|by apply Permutation_nil_r].
Qed.

Lemma ReduceOwner_order_independent_witness :
  let a := Build_DependencyStatus "a" "" "v1" "Pod" "False" "ResourcesNotReady" Summary_zero in
  let b := Build_DependencyStatus "b" "" "v1" "Pod" "False" "ResourcesNotReady" Summary_zero in
  ReduceOwner (<["a" := a]> (<["b" := b]> ∅)) =
    ("False", "DependenciesNotReady", "dependencies not ready: a, b").
Proof.
  intros a b. rewrite <- (ReduceOwner_order_independent _ [("b", b); ("a", a)]); [done|].
  rewrite !map_to_list_insert, map_to_list_empty by done. apply Permutation_swap.
Defined.

(** The dependencies that hold the owner back, in message order. *)
Definition failed_names (rollups : gmap string DependencyStatus) : list string :=
  sort_Strings (filter (λ e, ds_Ready e.2 = ConditionFalse) (map_to_list rollups)).*1.

Lemma elem_of_failed_names rollups name :
  name ∈ failed_names rollups ↔
  ∃ r, rollups !! name = Some r ∧ ds_Ready r = ConditionFalse.
Proof.
  unfold failed_names, sort_Strings. rewrite sort_slice_perm, list_elem_of_fmap.
  setoid_rewrite list_elem_of_filter. split.
  - intros ([k r] & -> & Hr & Hin). apply elem_of_map_to_list in Hin. eauto.
  - intros (r & Hl & Hr). exists (name, r). by rewrite elem_of_map_to_list.
Qed.

Lemma failed_names_nil rollups :
  (filter (λ e : string * DependencyStatus, ds_Ready e.2 = ConditionFalse)
     (map_to_list rollups)).*1 = [] ↔ failed_names rollups = [].
Proof. unfold failed_names, sort_Strings. by rewrite sort_slice_nil. Qed.

Lemma ReduceOwner_unfold rollups :
  ReduceOwner rollups =
  if decide (rollups = ∅) then (ConditionUnknown, ReasonEmptySet, "no dependencies configured")
  else if decide (failed_names rollups = []) then
    if decide (∀ name r, rollups !! name = Some r → ds_Ready r = ConditionTrue)
    then (ConditionTrue, ReasonAllDependenciesReady, "")
    else (ConditionUnknown, ReasonDependenciesInProgress, "")
  else (ConditionFalse, ReasonDependenciesNotReady,
        "dependencies not ready: " +:+ strings_Join (failed_names rollups) ", ").
Proof.
  unfold ReduceOwner. rewrite reduce_owner_entries_unfold. cbn zeta.
  rewrite (decide_ext _ _ _ _ (map_to_list_empty_iff rollups)).
  rewrite (decide_ext _ _ _ _ (failed_names_nil rollups)).
  case_decide; [done|]. case_decide; [|done].
  case_decide as Hall.
  - replace (forallb _ _) with true; [done|]. symmetry. apply forallb_elem.
    intros [k r] Hin%elem_of_map_to_list. apply bool_decide_eq_true. simpl. eauto.
  - replace (forallb _ _) with false; [done|]. symmetry. apply not_true_iff_false.
    rewrite forallb_elem. intros Hf. apply Hall. intros k r Hk.
    apply elem_of_map_to_list in Hk. apply Hf in Hk. by apply bool_decide_eq_true in Hk.
Qed.

Lemma ReduceOwner_True rollups st reason message :
  ReduceOwner rollups = (st, reason, message) → st = ConditionTrue →
  rollups ≠ ∅ ∧ ∀ name r, rollups !! name = Some r → ds_Ready r = ConditionTrue.
Proof. rewrite ReduceOwner_unfold. repeat case_decide; intros [= <- <- <-]; naive_solver. Qed.

Lemma ReduceOwner_True_iff rollups :
  (ReduceOwner rollups).1.1 = ConditionTrue ↔
  rollups ≠ ∅ ∧ ∀ name r, rollups !! name = Some r → ds_Ready r = ConditionTrue.
Proof.
  rewrite ReduceOwner_unfold. case_decide as He; [naive_solver|]. case_decide as Hf.
  - case_decide; naive_solver.
  - split; [done|]. intros [_ Hall]. exfalso. apply Hf.
    destruct (failed_names rollups) as [|name names] eqn:E; [done|].
    assert (name ∈ failed_names rollups) as Hin by (rewrite E; by left).
    apply elem_of_failed_names in Hin as (r & Hl & Hr). rewrite (Hall _ _ Hl) in Hr. done.
Qed.

(** the owner is True exactly when there is at least one dependency and all
    are True; False exactly when some dependency is False, and then the message
    names precisely those dependencies, sorted; Unknown otherwise. *)
Theorem ReduceOwner_verdict rollups :
  let '(st, reason, message) := ReduceOwner rollups in
  (st = ConditionTrue ↔
     rollups ≠ ∅ ∧ ∀ name r, rollups !! name = Some r → ds_Ready r = ConditionTrue) ∧
  (st = ConditionFalse ↔
     ∃ name r, rollups !! name = Some r ∧ ds_Ready r = ConditionFalse) ∧
  (st = ConditionTrue ∨ st = ConditionFalse ∨ st = ConditionUnknown) ∧
  (st = ConditionFalse → ∃ names,
     message = "dependencies not ready: " +:+ strings_Join names ", " ∧
     StronglySorted String.le names ∧
     ∀ name, name ∈ names ↔
       ∃ r, rollups !! name = Some r ∧ ds_Ready r = ConditionFalse).
Proof.
  assert (failed_names rollups ≠ [] ↔
    ∃ name r, rollups !! name = Some r ∧ ds_Ready r = ConditionFalse) as Hnil.
  { setoid_rewrite <- elem_of_failed_names. destruct (failed_names rollups) as [|n l].
    - split; [done|]. by intros [name Hin%elem_of_nil].
    - split; [|done]. intros _. exists n. by left. }
  rewrite ReduceOwner_unfold.
  destruct (decide (rollups = ∅)) as [->|Hne];
    [|destruct (decide (failed_names rollups = [])) as [Hn|Hn];
      [destruct (decide (∀ name r, rollups !! name = Some r → ds_Ready r = ConditionTrue))|]].
  - split_and!; try done; naive_solver.
  - split_and!; try done; naive_solver.
  - split_and!; try done; naive_solver.
  - apply Hnil in Hn as Hex. split_and!; [|done|by right; left|].
    + split; [done|]. intros [_ Hall]. destruct Hex as (name & r & Hr & Hf).
      apply Hall in Hr. congruence.
    + intros _. exists (failed_names rollups). split_and!; [done| |apply elem_of_failed_names].
      eapply StronglySorted_weaken; [|apply (sort_slice_sorted str_lt)].
      intros a b. apply str_lt_false_le.
Qed.

(** Addition of summaries, and its total over the entries of a map. *)
Definition exact_add (a b : Summary) : Summary :=
  Build_Summary (Total a + Total b) (Current a + Current b) (InProgress a + InProgress b)
    (Failed a + Failed b) (NotFound a + NotFound b) (Terminating a + Terminating b)
    (Unknown a + Unknown b) (Suspended a + Suspended b).

Definition exact_total (l : list (string * DependencyStatus)) : Summary :=
  let sum f := list_sum (map (λ e, f (ds_Summary e.2)) l) in
  Build_Summary (sum Total) (sum Current) (sum InProgress) (sum Failed) (sum NotFound)
    (sum Terminating) (sum Unknown) (sum Suspended).

Lemma add_summary_wrap a b : add_summary (wrap_summary a) b = wrap_summary (exact_add a b).
Proof. unfold add_summary, wrap_summary, add32. simpl. by rewrite !wrap32_add_l. Qed.

Lemma summarize_entries_wrap l : summarize_entries l = wrap_summary (exact_total l).
Proof.
  unfold summarize_entries. induction l as [|e l IH] using rev_ind; [done|].
  rewrite foldl_snoc_fix, IH, add_summary_wrap. f_equal.
  apply summary_eq; simpl; rewrite map_app, list_sum_app; simpl; lia.
Qed.

Lemma exact_total_balanced l :
  Forall (λ e, summary_balanced (ds_Summary e.2)) l → summary_balanced (exact_total l).
Proof.
  unfold summary_balanced. induction 1 as [|e l He Hl IH]; [done|]. simpl in *. lia.
Qed.

(** the owner's summary is the sum of its dependencies' summaries, wrapped
    to int32, whatever the map's iteration order; when no counter leaves int32
    it is the exact sum, and balanced if every dependency's summary is. *)
Theorem SummarizeOwner_sum rollups entries :
  entries ≡ₚ map_to_list rollups →
  summarize_entries entries = SummarizeOwner rollups ∧
  SummarizeOwner rollups = wrap_summary (exact_total entries) ∧
  (wrap_summary (exact_total entries) = exact_total entries →
   map_Forall (λ _ r, summary_balanced (ds_Summary r)) rollups →
   summary_balanced (SummarizeOwner rollups)).
Proof.
  intros Hp. assert (exact_total entries = exact_total (map_to_list rollups)) as Hx.
  { unfold exact_total. by rewrite !Hp. }
  unfold SummarizeOwner. rewrite !summarize_entries_wrap, Hx. split_and!; [done..|].
  intros -> Hb. apply exact_total_balanced. apply map_Forall_to_list in Hb.
  eapply Forall_impl; [exact Hb|]. by intros [].
Qed.

Lemma SummarizeOwner_sum_witness :
  let s := Build_Summary 2 1 0 1 0 0 0 1 in
  let a := Build_DependencyStatus "a" "" "v1" "Pod" "False" "ResourcesNotReady" s in
  SummarizeOwner (<["a" := a]> ∅) = s ∧ summary_balanced (SummarizeOwner (<["a" := a]> ∅)).
Proof.
  intros s a. destruct (SummarizeOwner_sum (<["a" := a]> ∅) [("a", a)]) as (_ & Hs & Hb).
  - by rewrite map_to_list_insert, map_to_list_empty.
  - split; [by rewrite Hs|]. apply Hb; [done|]. apply map_Forall_insert_2; [done|apply map_Forall_empty].
Defined.
