(* ===== verification/Membership.v ===== *)
(** * internal/membership/membership.go

    The normalised dependency, which objects it admits, the per-dependency
    structural error, and the stand-in rollups errors leave behind. *)

From S2P Require Import Prelude GoStd ApiV1 K8s Status.

(** ** Definitions *)

(** apimeta.RESTScopeName and its two constants; "" is the zero value. *)
Abbreviation RESTScopeName := string.
Definition RESTScopeNameNamespace : RESTScopeName := "namespace".
Definition RESTScopeNameRoot : RESTScopeName := "root".

(** [NamespaceMatcher] and [Selector] may be nil, which admits everything. *)
Record Dependency `{LabelsAPI} := {
  d_Name : string;
  d_GVK : GroupVersionKind;
  d_Scope : RESTScopeName;
  d_Selector : option Selector;
  d_NamespaceMatcher : option (string → bool);
  d_EmptySetPolicy : EmptySetPolicy;
  d_SuspendPolicy : SuspendPolicy;
}.

(** membership.Error. *)
Record MError := {
  e_Name : string;
  e_Group : string;
  e_Version : string;
  e_Kind : string;
  e_Reason : string;
  e_Err : error;
}.

Definition MError_Error (e : MError) : string := err_Error (e_Err e).
Definition MError_Unwrap (e : MError) : error := e_Err e.

Definition NewError (name : string) (gvk : GroupVersionKind) (reason : string) (err : error)
    : MError :=
  Build_MError name (Group gvk) (Version gvk) (Kind gvk) reason err.

Definition Admits `{LabelsAPI} (d : Dependency) (namespace : string)
    (objLabels : gmap string string) : bool :=
  match d_NamespaceMatcher d with
  | Some matcher => matcher namespace
  | None => true
  end &&
  match d_Selector d with
  | Some selector => Selector_Matches selector objLabels
  | None => true
  end.

Fixpoint Matches `{LabelsAPI} (deps : list Dependency) (gk : GroupKind) (namespace : string)
    (lbls : gmap string string) : list Dependency :=
  match deps with
  | [] => []
  | d :: deps =>
      if bool_decide (GVK_GroupKind (d_GVK d) = gk) && Admits d namespace lbls
      then d :: Matches deps gk namespace lbls
      else Matches deps gk namespace lbls
  end.

Definition FailedRollup (name : string) (gvk : GroupVersionKind) (reason : string)
    : DependencyStatus :=
  Build_DependencyStatus name (Group gvk) (Version gvk) (Kind gvk) ConditionUnknown reason
    Summary_zero.

(** The body of the loop of [Rollups]. *)
Definition rollup_error (out : gmap string DependencyStatus) (e : MError)
    : gmap string DependencyStatus :=
  if decide (e_Name e = "") then out
  else match out !! e_Name e with
       | Some _ => out
       | None =>
           <[e_Name e := FailedRollup (e_Name e) (GVK (e_Group e) (e_Version e) (e_Kind e))
                           (e_Reason e)]> out
       end.

Definition Rollups (perDep : gmap string DependencyStatus) (errs : list MError)
    : gmap string DependencyStatus :=
  foldl rollup_error perDep errs.

(** ** Theorems *)

(** [Matches] keeps, in order, exactly the dependencies of the object's
    group and kind (any version) that admit it. *)
Theorem Matches_spec `{LabelsAPI} deps gk namespace lbls :
  Matches deps gk namespace lbls `sublist_of` deps ∧
  ∀ d, d ∈ Matches deps gk namespace lbls ↔
    d ∈ deps ∧ Group (d_GVK d) = gk_Group gk ∧ Kind (d_GVK d) = gk_Kind gk ∧
    Admits d namespace lbls = true.
Proof.
  split.
  - induction deps as [|d deps IH]; simpl; [done|]. case_match; by constructor.
  - intros d. induction deps as [|d' deps IH]; simpl; [set_solver|].
    destruct gk as [g k]. unfold GVK_GroupKind in *. simpl in *.
    case_match eqn:E; [apply andb_true_iff in E as [E1%bool_decide_eq_true E2]
      |apply andb_false_iff in E; rewrite bool_decide_eq_false in E];
      rewrite ?elem_of_cons, IH; naive_solver congruence.
Qed.

(** Which error stands in for a name: the first one that carries it. *)
Definition first_error (errs : list MError) (name : string) : option MError :=
  head (filter (λ e, e_Name e = name) errs).

Lemma first_error_cons e errs name :
  first_error (e :: errs) name =
  if decide (e_Name e = name) then Some e else first_error errs name.
Proof. unfold first_error. rewrite filter_cons. by case_decide. Qed.

Lemma first_error_None errs name :
  first_error errs name = None ↔ ∀ e, e ∈ errs → e_Name e ≠ name.
Proof.
  induction errs as [|e errs IH]; [set_solver|]. rewrite first_error_cons.
  case_decide; [|rewrite IH]; set_solver.
Qed.

Lemma first_error_Some errs name e :
  first_error errs name = Some e → e ∈ errs ∧ e_Name e = name.
Proof.
  induction errs as [|e' errs IH]; [done|]. rewrite first_error_cons.
  case_decide; [intros [= ->]|]; set_solver.
Qed.

Definition error_rollup (e : MError) : DependencyStatus :=
  FailedRollup (e_Name e) (GVK (e_Group e) (e_Version e) (e_Kind e)) (e_Reason e).

Lemma Rollups_lookup perDep errs name :
  Rollups perDep errs !! name =
  match perDep !! name with
  | Some r => Some r
  | None => if decide (name = "") then None else error_rollup <$> first_error errs name
  end.
Proof.
  unfold Rollups. revert perDep. induction errs as [|e errs IH]; intros perDep; simpl.
  { by repeat case_match. }
  rewrite IH, first_error_cons. unfold rollup_error.
  destruct (decide (e_Name e = "")) as [Ee|Ee].
  - destruct (perDep !! name); [done|]. case_decide; [done|].
    by rewrite decide_False by congruence.
  - destruct (perDep !! e_Name e) as [r|] eqn:Hl.
    + destruct (perDep !! name) eqn:Hn; [done|]. by rewrite (decide_False (P := e_Name e = name)) by congruence.
    + destruct (decide (e_Name e = name)) as [<-|Hne].
      * by rewrite lookup_insert_eq, Hl, decide_False.
      * by rewrite lookup_insert_ne.
Qed.

(** [Rollups] keeps every evaluated dependency as it is and adds, for each
    named error without a rollup, one Ready=Unknown stand-in carrying the first
    such error's identity and reason; unnamed (owner-wide) errors add nothing. *)
Theorem Rollups_spec perDep errs name :
  (∀ r, perDep !! name = Some r → Rollups perDep errs !! name = Some r) ∧
  (perDep !! name = None → name ≠ "" →
     ∀ pre e post, errs = pre ++ e :: post → e_Name e = name →
       Forall (λ e', e_Name e' ≠ name) pre →
       Rollups perDep errs !! name =
         Some (Build_DependencyStatus name (e_Group e) (e_Version e) (e_Kind e)
                 ConditionUnknown (e_Reason e) Summary_zero)) ∧
  (perDep !! name = None → (name = "" ∨ Forall (λ e, e_Name e ≠ name) errs) →
     Rollups perDep errs !! name = None).
Proof.
  rewrite Rollups_lookup. split_and!.
  - by intros r ->.
  - intros -> Hne pre e post -> <- Hpre. rewrite decide_False by done.
    replace (first_error _ _) with (Some e); [done|]. symmetry. clear Hne.
    induction Hpre as [|e' pre He' Hpre IH]; simpl; rewrite first_error_cons.
    + by rewrite decide_True.
    + by rewrite decide_False.
  - intros ->. case_decide; [done|]. intros [|Hall]; [done|].
    replace (first_error errs name) with (@None MError); [done|]. symmetry.
    apply first_error_None. by apply Forall_forall.
Qed.

Lemma Rollups_spec_witness :
  let e := Build_MError "a" "g" "v1" "K" ReasonGVKNotEstablished (errors_New "x") in
  Rollups ∅ [e] !! "a" =
    Some (Build_DependencyStatus "a" "g" "v1" "K" ConditionUnknown ReasonGVKNotEstablished
            Summary_zero).
Proof.
  intros e. destruct (Rollups_spec ∅ [e] "a") as (_ & He & _).
  by apply (He eq_refl ltac:(done) [] e []).
Defined.

(** A named error whose dependency was not evaluated keeps the owner from True. *)
Lemma Rollups_error_not_ready perDep errs e st reason message :
  e ∈ errs → e_Name e ≠ "" → perDep !! e_Name e = None →
  ReduceOwner (Rollups perDep errs) = (st, reason, message) → st ≠ ConditionTrue.
Proof.
  intros He Hne Hno Hr Ht. destruct (ReduceOwner_True _ _ _ _ Hr Ht) as [_ Hall].
  destruct (first_error errs (e_Name e)) as [e'|] eqn:Hf.
  - specialize (Hall (e_Name e) (error_rollup e')).
    rewrite Rollups_lookup, Hno, decide_False, Hf in Hall by done. by specialize (Hall eq_refl).
  - rewrite first_error_None in Hf. by destruct (Hf e).
Qed.
