(* ===== verification/Discovery.v ===== *)
(** * internal/discovery/resolver.go

    The discovery resolver: (group, kind, optional version) to a GVK and scope,
    through a TTL cache.  The apiserver's answers and the clock are the
    resolver's environment: streams indexed by how often they were consulted,
    so two calls may be answered differently. *)

From S2P Require Import Prelude GoStd ApiV1 K8s Metrics Membership.

(** ** Definitions *)

Definition ErrGVKNotEstablished : error :=
  sentinel "ErrGVKNotEstablished" "GVK not established".
Definition ErrDiscoveryUnavailable : error :=
  sentinel "ErrDiscoveryUnavailable" "discovery unavailable".

(** The parts of metav1.APIGroup and metav1.APIResource that are read. *)
Record APIGroup := {
  ag_Name : string;
  ag_PreferredVersion : string;
  ag_Versions : list string;
}.

Record APIResource := { ar_Kind : string; ar_Namespaced : bool }.

(** [Discoverer]: the n-th call of each method. *)
Record Discoverer := {
  ServerGroups : nat → result (list APIGroup);
  ServerResourcesForGroupVersion : nat → string → result (list APIResource);
}.

Record cacheKey := { k_group : string; k_kind : string; k_version : string }.

Record cacheEntry := { ce_gvk : GroupVersionKind; ce_scope : RESTScopeName; ce_expiry : time }.

#[export] Instance cacheKey_eq_dec : EqDecision cacheKey.
Proof. solve_decision. Defined.
#[export] Instance cacheKey_countable : Countable cacheKey.
Proof.
  refine (inj_countable' (λ k, (k_group k, k_kind k, k_version k))
    (λ '(g, k, v), Build_cacheKey g k v) _). by intros [].
Defined.

(** [resolver], with the number of apiserver calls and clock reads so far and
    the metrics it writes. *)
Record resolver := {
  rv_d : Discoverer;
  rv_ttl : Z;
  rv_now : nat → time;
  rv_cache : gmap cacheKey cacheEntry;
  rv_calls : nat;
  rv_reads : nat;
  rv_metrics : metrics;
}.

Definition NewResolver (d : Discoverer) (ttl : Z) (now : nat → time) : resolver :=
  Build_resolver d ttl now ∅ 0 0 ∅.

Definition set_cache (f : gmap cacheKey cacheEntry → gmap cacheKey cacheEntry) (r : resolver)
    : resolver :=
  Build_resolver (rv_d r) (rv_ttl r) (rv_now r) (f (rv_cache r)) (rv_calls r) (rv_reads r)
    (rv_metrics r).

Definition set_metrics (f : metrics → metrics) (r : resolver) : resolver :=
  Build_resolver (rv_d r) (rv_ttl r) (rv_now r) (rv_cache r) (rv_calls r) (rv_reads r)
    (f (rv_metrics r)).

(** [r.now()]. *)
Definition read_clock : M resolver time := λ r,
  (rv_now r (rv_reads r),
   Build_resolver (rv_d r) (rv_ttl r) (rv_now r) (rv_cache r) (rv_calls r)
     (S (rv_reads r)) (rv_metrics r)).

(** One call of the discoverer. *)
Definition call_discoverer {A} (f : Discoverer → nat → A) : M resolver A := λ r,
  (f (rv_d r) (rv_calls r),
   Build_resolver (rv_d r) (rv_ttl r) (rv_now r) (rv_cache r) (S (rv_calls r))
     (rv_reads r) (rv_metrics r)).

Definition count_resolve (label : string) : M resolver unit :=
  modify (set_metrics (Inc DiscoveryResolveTotal [label])).

(** [r.lookup]: the clock is read only when the key is present. *)
Definition lookup_cache (k : cacheKey) : M resolver (option cacheEntry) :=
  cache ← gets rv_cache;
  match cache !! k with
  | None => mret None
  | Some e =>
      now ← read_clock;
      mret (if (ce_expiry e <? now)%Z then None else Some e)
  end.

Definition store (k : cacheKey) (e : cacheEntry) : M resolver unit :=
  modify (set_cache <[k := e]>);;
  cache ← gets rv_cache;
  modify (set_metrics (SetGauge DiscoveryCacheSize [] (Z.of_nat (size cache)))).

Definition Invalidate : M resolver unit :=
  modify (set_cache (λ _, ∅));;
  modify (set_metrics (SetGauge DiscoveryCacheSize [] 0)).

(** Whether a cache key belongs to (group, kind). *)
Definition key_of (group kind : string) (k : cacheKey) : bool :=
  bool_decide (k_group k = group) && bool_decide (k_kind k = kind).

Definition InvalidateGroupKind_resolver (group kind : string) : M resolver unit :=
  modify (set_cache (filter (λ ke, key_of group kind ke.1 = false)));;
  cache ← gets rv_cache;
  modify (set_metrics (SetGauge DiscoveryCacheSize [] (Z.of_nat (size cache)))).

Definition groupVersionString (group version : string) : string :=
  if decide (group = "") then version else group +:+ "/" +:+ version.

Definition resolveFailureLabel (err : error) : string :=
  if errors_Is err ErrDiscoveryUnavailable then DiscoveryResolveError
  else DiscoveryResolveNotEstablished.

Section resolver.
Context `{ApiErrors} `{Formatting}.

(** The search of [preferredVersion] over the listed groups. *)
Fixpoint find_version (groups : list APIGroup) (group : string) : result string :=
  match groups with
  | [] => Err (fmt_Errorf (err_Error ErrGVKNotEstablished +:+ ": group " +:+ Quote group
                 +:+ " not found") [ErrGVKNotEstablished])
  | g :: groups =>
      if decide (ag_Name g = group) then
        if decide (ag_PreferredVersion g = "") then
          match ag_Versions g with
          | v :: _ => Ok v
          | [] => Err (fmt_Errorf (err_Error ErrGVKNotEstablished +:+ ": group " +:+
                    Quote group +:+ " has no versions") [ErrGVKNotEstablished])
          end
        else Ok (ag_PreferredVersion g)
      else find_version groups group
  end.

Definition preferredVersion (group : string) : M resolver (result string) :=
  groups ← call_discoverer ServerGroups;
  mret match groups with
       | Err err => Err (fmt_Errorf (err_Error ErrDiscoveryUnavailable +:+
                      ": ServerGroups: " +:+ err_Error err) [ErrDiscoveryUnavailable; err])
       | Ok groups => find_version groups group
       end.

(** The first resource of the requested kind. *)
Fixpoint find_kind (rl : list APIResource) (kind : string) : option APIResource :=
  match rl with
  | [] => None
  | res :: rl => if decide (ar_Kind res = kind) then Some res else find_kind rl kind
  end.

(** From line 136 on: the version is known, ask for its resources. *)
Definition resolve_version (key : cacheKey) (resolvedVersion : string)
    : M resolver (result (GroupVersionKind * RESTScopeName)) :=
  let gv := groupVersionString (k_group key) resolvedVersion in
  rl ← call_discoverer (λ d n, ServerResourcesForGroupVersion d n gv);
  match rl with
  | Err err =>
      if IsNotFound err then
        count_resolve DiscoveryResolveNotEstablished;;
        mret (Err (fmt_Errorf (err_Error ErrGVKNotEstablished +:+ ": " +:+ gv +:+ ": "
                +:+ err_Error err) [ErrGVKNotEstablished; err]))
      else
        count_resolve DiscoveryResolveError;;
        mret (Err (fmt_Errorf (err_Error ErrDiscoveryUnavailable +:+ ": " +:+ gv +:+ ": "
                +:+ err_Error err) [ErrDiscoveryUnavailable; err]))
  | Ok rl =>
      match find_kind rl (k_kind key) with
      | Some res =>
          let gvk := GVK (k_group key) resolvedVersion (k_kind key) in
          let scope := if ar_Namespaced res then RESTScopeNameNamespace
                       else RESTScopeNameRoot in
          now ← read_clock;
          ttl ← gets rv_ttl;
          store key (Build_cacheEntry gvk scope (now + ttl)%Z);;
          count_resolve DiscoveryResolveMiss;;
          mret (Ok (gvk, scope))
      | None =>
          count_resolve DiscoveryResolveNotEstablished;;
          mret (Err (fmt_Errorf (err_Error ErrGVKNotEstablished +:+ ": kind " +:+
                  Quote (k_kind key) +:+ " not found in " +:+ gv) [ErrGVKNotEstablished]))
      end
  end.

Definition resolver_Resolve (group kind version : string)
    : M resolver (result (GroupVersionKind * RESTScopeName)) :=
  let key := Build_cacheKey group kind version in
  hit ← lookup_cache key;
  match hit with
  | Some hit =>
      count_resolve DiscoveryResolveHit;;
      mret (Ok (ce_gvk hit, ce_scope hit))
  | None =>
      if decide (version = "") then
        if decide (group = "") then resolve_version key "v1"
        else
          v ← preferredVersion group;
          match v with
          | Err err =>
              count_resolve (resolveFailureLabel err);;
              mret (Err err)
          | Ok v => resolve_version key v
          end
      else resolve_version key version
  end.
End resolver.

(** [Resolver], the interface the normalisers and the CRD watcher hold. *)
Class Resolver (R : Type) := {
  Resolve : string → string → string → M R (result (GroupVersionKind * RESTScopeName));
  Resolver_Invalidate : M R unit;
  Resolver_InvalidateGroupKind : string → string → M R unit;
}.

#[export] Instance resolver_Resolver `{ApiErrors} `{Formatting} : Resolver resolver := {
  Resolve := resolver_Resolve;
  Resolver_Invalidate := Invalidate;
  Resolver_InvalidateGroupKind := InvalidateGroupKind_resolver;
}.

(** What a resolver promises its clients: an answer is about the requested
    group and kind, at the requested version when one was requested, with one
    of the two scopes; and every failure is one of the two classified ones. *)
Class ResolverLaws (R : Type) `{Resolver R} (inv : R → Prop) : Prop := {
  resolve_inv group kind version r :
    inv r → inv (Resolve group kind version r).2;
  resolve_sound group kind version r gvk scope :
    inv r → (Resolve group kind version r).1 = Ok (gvk, scope) →
    Group gvk = group ∧ Kind gvk = kind ∧ (version ≠ "" → Version gvk = version) ∧
    (scope = RESTScopeNameNamespace ∨ scope = RESTScopeNameRoot);
  resolve_classified group kind version r err :
    inv r → (Resolve group kind version r).1 = Err err →
    errors_Is err ErrGVKNotEstablished = true ∨ errors_Is err ErrDiscoveryUnavailable = true;
  invalidate_inv r : inv r → inv (Resolver_Invalidate r).2;
  invalidateGK_inv group kind r : inv r → inv (Resolver_InvalidateGroupKind group kind r).2;
}.

(** ** Theorems *)

Section resolver_theorems.
Context `{ApiErrors} `{Formatting}.
Implicit Types (r : resolver) (group kind version : string).

(** A live entry: present, and the clock's next reading is not past its
    expiry. *)
Definition live (k : cacheKey) (r : resolver) : option cacheEntry :=
  match rv_cache r !! k with
  | Some e => if (ce_expiry e <? rv_now r (rv_reads r))%Z then None else Some e
  | None => None
  end.

Lemma lookup_cache_spec k r :
  (lookup_cache k r).1 = live k r ∧ rv_cache (lookup_cache k r).2 = rv_cache r ∧
  rv_calls (lookup_cache k r).2 = rv_calls r ∧ rv_ttl (lookup_cache k r).2 = rv_ttl r ∧
  rv_now (lookup_cache k r).2 = rv_now r.
Proof.
  unfold lookup_cache, live, read_clock. unfold_M.
  by destruct (rv_cache r !! k); unfold_M.
Qed.

(** What a run that consults the discoverer does to the cache. *)
Definition caches (key : cacheKey) (r : resolver)
    (res : result (GroupVersionKind * RESTScopeName)) (r' : resolver) : Prop :=
  match res with
  | Ok (gvk, scope) =>
      Group gvk = k_group key ∧ Kind gvk = k_kind key ∧
      (k_version key ≠ "" → Version gvk = k_version key) ∧
      (scope = RESTScopeNameNamespace ∨ scope = RESTScopeNameRoot) ∧
      ∃ n, rv_cache r' =
        <[key := Build_cacheEntry gvk scope (rv_now r n + rv_ttl r)%Z]> (rv_cache r)
  | Err err =>
      rv_cache r' = rv_cache r ∧
      (errors_Is err ErrGVKNotEstablished = true ∨
       errors_Is err ErrDiscoveryUnavailable = true)
  end.

Lemma errors_Is_wrap text e es : errors_Is (fmt_Errorf text (e :: es)) e = errors_Is e e || existsb (λ w, errors_Is w e) es.
Proof. done. Qed.

Lemma resolve_version_spec key v r :
  (k_version key ≠ "" → v = k_version key) →
  caches key r (resolve_version key v r).1 (resolve_version key v r).2 ∧
  rv_calls (resolve_version key v r).2 = S (rv_calls r).
Proof.
  intros Hv. unfold resolve_version, call_discoverer, count_resolve, read_clock, store.
  unfold_M. destruct (ServerResourcesForGroupVersion _ _ _) as [rl|err]; unfold_M.
  - destruct (find_kind rl (k_kind key)) as [res|]; unfold_M.
    + split_and!; try done; [by destruct (ar_Namespaced res); auto|]. by eexists.
    + split_and!; auto.
  - destruct (IsNotFound err); unfold_M; split_and!; auto.
Qed.

Lemma find_version_err groups group err :
  find_version groups group = Err err → errors_Is err ErrGVKNotEstablished = true.
Proof.
  induction groups as [|g groups IH]; simpl; [by intros [= <-]|].
  repeat case_match; by intros [= <-] || auto.
Qed.

(** Consulting the discoverer, version lookup included. *)
Lemma resolver_miss group kind version r :
  let key := Build_cacheKey group kind version in
  live key r = None →
  let '(res, r') := resolver_Resolve group kind version r in
  caches key r res r' ∧ rv_calls r < rv_calls r'.
Proof.
  intros key Hlive. unfold resolver_Resolve. fold key.
  destruct (lookup_cache key r) as [hit r1] eqn:Hl.
  pose proof (lookup_cache_spec key r) as (H1 & Hc & Hn & Ht & Hw). rewrite Hl in *. simpl in *.
  unfold mbind, M_bind at 1. rewrite Hl. rewrite H1, Hlive.
  assert (∀ v r2, (k_version key ≠ "" → v = k_version key) →
    rv_cache r2 = rv_cache r → rv_ttl r2 = rv_ttl r → rv_now r2 = rv_now r →
    rv_calls r ≤ rv_calls r2 →
    let '(res, r') := resolve_version key v r2 in
    caches key r res r' ∧ rv_calls r < rv_calls r') as Hres.
  { intros v r2 Hv E1 E2 E3 E4. pose proof (resolve_version_spec key v r2 Hv) as [Hca Hcl].
    destruct (resolve_version key v r2) as [res r']. simpl in *.
    split; [|lia]. revert Hca. unfold caches. by rewrite E1, E2, E3. }
  repeat case_decide; [apply Hres; [by intros []|done..|lia]| |apply Hres; [done..|lia]].
  unfold preferredVersion, call_discoverer. unfold_M.
  destruct (ServerGroups _ _) as [groups|err]; [|unfold_M; split_and!; auto; lia].
  destruct (find_version groups group) as [v|err] eqn:Hf; unfold_M.
  - apply Hres; simpl; [by intros []|done..|lia].
  - apply find_version_err in Hf. split_and!; auto; lia.
Qed.

Lemma resolver_hit group kind version r e :
  live (Build_cacheKey group kind version) r = Some e →
  let '(res, r') := resolver_Resolve group kind version r in
  res = Ok (ce_gvk e, ce_scope e) ∧ rv_calls r' = rv_calls r ∧ rv_cache r' = rv_cache r.
Proof.
  intros Hlive. unfold resolver_Resolve.
  pose proof (lookup_cache_spec (Build_cacheKey group kind version) r) as (H1 & Hc & Hn & _).
  unfold_M. destruct (lookup_cache _ r) as [hit r1]. simpl in *. subst hit.
  rewrite Hlive. by unfold_M.
Qed.

(** The type invariant of the cache: an entry answers the question of its
    key. *)
Definition entry_ok (key : cacheKey) (e : cacheEntry) : Prop :=
  Group (ce_gvk e) = k_group key ∧ Kind (ce_gvk e) = k_kind key ∧
  (k_version key ≠ "" → Version (ce_gvk e) = k_version key) ∧
  (ce_scope e = RESTScopeNameNamespace ∨ ce_scope e = RESTScopeNameRoot).

Definition cache_ok (r : resolver) : Prop := map_Forall entry_ok (rv_cache r).

Lemma live_lookup key r e : live key r = Some e → rv_cache r !! key = Some e.
Proof. unfold live. by repeat case_match; intros; simplify_eq. Qed.

(** Both runs of [Resolve] at once. *)
Lemma resolver_Resolve_cases group kind version r :
  let key := Build_cacheKey group kind version in
  let '(res, r') := resolver_Resolve group kind version r in
  match live key r with
  | Some e => res = Ok (ce_gvk e, ce_scope e) ∧ rv_calls r' = rv_calls r ∧
              rv_cache r' = rv_cache r
  | None => caches key r res r' ∧ rv_calls r < rv_calls r'
  end.
Proof.
  intros key. destruct (live key r) eqn:Hl; [by apply resolver_hit|by apply resolver_miss].
Qed.

Lemma cache_ok_Resolve group kind version r :
  cache_ok r → cache_ok (resolver_Resolve group kind version r).2.
Proof.
  intros Hok. pose proof (resolver_Resolve_cases group kind version r) as Hc. simpl in Hc.
  destruct (resolver_Resolve group kind version r) as [res r']. simpl. unfold cache_ok.
  destruct (live _ r); [by destruct Hc as (_ & _ & ->)|]. destruct Hc as [Hc _].
  destruct res as [[gvk scope]|err]; simpl in Hc.
  - destruct Hc as (? & ? & ? & ? & n & ->). by apply map_Forall_insert_2.
  - by destruct Hc as [-> _].
Qed.

Lemma cache_ok_InvalidateGroupKind group kind r :
  cache_ok r → cache_ok (InvalidateGroupKind_resolver group kind r).2.
Proof.
  intros Hok k e. simpl. intros [Hl _]%map_lookup_filter_Some. by apply Hok.
Qed.

#[export] Instance resolver_laws : ResolverLaws resolver cache_ok.
Proof.
  split.
  - intros group kind version r. apply cache_ok_Resolve.
  - intros group kind version r gvk scope Hok Hres.
    pose proof (resolver_Resolve_cases group kind version r) as Hc. simpl in Hc, Hres.
    destruct (resolver_Resolve group kind version r) as [res r']. simpl in Hres. subst res.
    destruct (live _ r) as [e|] eqn:Hl; [|by destruct Hc as [(? & ? & ? & ? & _) _]].
    destruct Hc as [[= -> ->] _]. apply live_lookup, Hok in Hl. apply Hl.
  - intros group kind version r err Hok Hres.
    pose proof (resolver_Resolve_cases group kind version r) as Hc. simpl in Hc, Hres.
    destruct (resolver_Resolve group kind version r) as [res r']. simpl in Hres. subst res.
    by destruct (live _ r); [destruct Hc|destruct Hc as [[_ ?] _]].
  - intros r _. by apply map_Forall_empty.
  - intros group kind r. apply cache_ok_InvalidateGroupKind.
Qed.

(** [Resolve] asks the apiserver exactly when its cache holds no entry for
    (group, kind, version) or the entry's expiry has passed at the clock read;
    otherwise it answers with the cached GVK and scope and changes no entry. *)
Theorem Resolve_consults_iff_stale group kind version r :
  let '(res, r') := resolver_Resolve group kind version r in
  (rv_calls r' = rv_calls r ↔
     ∃ e, rv_cache r !! Build_cacheKey group kind version = Some e ∧
          (rv_now r (rv_reads r) <= ce_expiry e)%Z) ∧
  (∀ e, rv_cache r !! Build_cacheKey group kind version = Some e →
     (rv_now r (rv_reads r) <= ce_expiry e)%Z →
     res = Ok (ce_gvk e, ce_scope e) ∧ rv_cache r' = rv_cache r).
Proof.
  pose proof (resolver_Resolve_cases group kind version r) as Hc. simpl in Hc.
  destruct (resolver_Resolve group kind version r) as [res r'].
  unfold live in Hc. destruct (rv_cache r !! _) as [e|].
  - destruct (Z.ltb_spec (ce_expiry e) (rv_now r (rv_reads r))); destruct Hc as (Hc & Hn).
    + split; [split; [lia|intros (? & [= <-] & ?); lia]|intros ? [= <-]; lia].
    + destruct Hn as [Hn Hcache]. split; [split; eauto|]. by intros ? [= <-].
  - destruct Hc as [_ Hc]. split; [split; [lia|naive_solver]|done].
Qed.

(** a failure leaves every cache entry as it was (negative results are
    never cached) and is classified as GVKNotEstablished or
    DiscoveryUnavailable; a fresh success is cached for the ttl under the
    requested key, other keys untouched. *)
Theorem Resolve_caches_only_success group kind version r :
  let key := Build_cacheKey group kind version in
  let '(res, r') := resolver_Resolve group kind version r in
  match res with
  | Err err =>
      rv_cache r' = rv_cache r ∧
      (errors_Is err ErrGVKNotEstablished = true ∨
       errors_Is err ErrDiscoveryUnavailable = true)
  | Ok (gvk, scope) =>
      (rv_calls r' = rv_calls r → rv_cache r' = rv_cache r) ∧
      (rv_calls r' ≠ rv_calls r → ∃ n,
         rv_cache r' = <[key := Build_cacheEntry gvk scope (rv_now r n + rv_ttl r)%Z]> (rv_cache r))
  end.
Proof.
  intros key. pose proof (resolver_Resolve_cases group kind version r) as Hc. simpl in Hc.
  destruct (resolver_Resolve group kind version r) as [res r'].
  destruct (live _ r) as [e|].
  - destruct Hc as (-> & Hn & Hcache). by split; [intros _|intros []].
  - destruct Hc as [Hc Hn]. destruct res as [[gvk scope]|err]; simpl in Hc; [|done].
    split; [lia|]. intros _. by destruct Hc as (_ & _ & _ & _ & Hc).
Qed.

(** after [InvalidateGroupKind] no version of (group, kind) is cached,
    every other entry is, and the gauge is the cache size; the next [Resolve]
    of that kind asks the apiserver again. *)
Theorem InvalidateGroupKind_resolver_spec group kind r :
  let r' := (InvalidateGroupKind_resolver group kind r).2 in
  (∀ k, rv_cache r' !! k = if key_of group kind k then None else rv_cache r !! k) ∧
  rv_metrics r' !! (v_Name DiscoveryCacheSize, []) = Some (Z.of_nat (size (rv_cache r'))) ∧
  (∀ version, rv_calls (resolver_Resolve group kind version r').2 ≠ rv_calls r').
Proof.
  set (r' := (InvalidateGroupKind_resolver group kind r).2).
  assert (∀ k, rv_cache r' !! k = if key_of group kind k then None else rv_cache r !! k) as Hk.
  { intros k. unfold r', InvalidateGroupKind_resolver. simpl.
    destruct (key_of group kind k) eqn:Hkey.
    - apply map_lookup_filter_None. right. intros e _. simpl. by rewrite Hkey.
    - destruct (rv_cache r !! k) eqn:Hl.
      + by apply map_lookup_filter_Some.
      + apply map_lookup_filter_None. by left. }
  cbv zeta. split_and!; [done| |].
  - unfold r'. simpl. by rewrite metric_lookup_Set, decide_True.
  - intros version.
    pose proof (resolver_Resolve_cases group kind version r') as Hc. simpl in Hc.
    destruct (resolver_Resolve group kind version r') as [res r'']. simpl.
    replace (live _ r') with (@None cacheEntry) in Hc; [destruct Hc; lia|].
    unfold live. rewrite Hk. unfold key_of. simpl.
    by rewrite !bool_decide_eq_true_2.
Qed.
End resolver_theorems.

(** Nothing replaces the discoverer. *)
Lemma lookup_cache_d k r : rv_d (lookup_cache k r).2 = rv_d r.
Proof. unfold lookup_cache, read_clock. unfold_M. by destruct (rv_cache r !! k). Qed.

Lemma resolve_version_d `{ApiErrors} `{Formatting} key v r : rv_d (resolve_version key v r).2 = rv_d r.
Proof.
  unfold resolve_version, call_discoverer, count_resolve, read_clock, store. unfold_M.
  by repeat (case_match; unfold_M).
Qed.

Lemma Resolve_d `{ApiErrors} `{Formatting} group kind version r :
  rv_d (resolver_Resolve group kind version r).2 = rv_d r.
Proof.
  unfold resolver_Resolve. unfold mbind at 1, M_bind at 1.
  pose proof (lookup_cache_d (Build_cacheKey group kind version) r) as Hd.
  destruct (lookup_cache _ r) as [hit r1]. simpl in Hd. destruct hit as [hit|]; [done|].
  repeat case_decide; rewrite ?resolve_version_d; try done.
  unfold preferredVersion, call_discoverer, count_resolve. unfold_M.
  destruct (ServerGroups _ _) as [groups|err]; [|done].
  destruct (find_version groups group); unfold_M; by rewrite ?resolve_version_d.
Qed.

(** ** Coherence of the cache

    When what the apiserver serves no longer changes, a resolver without a cache
    would answer [discover]: the same search, over the settled answers. *)
Section coherence.
Context `{ApiErrors} `{Formatting}.
Implicit Types (r : resolver) (group kind version : string).

(** What the apiserver answers from now on. *)
Record served := {
  sv_groups : result (list APIGroup);
  sv_resources : string → result (list APIResource);
}.
Context (sv : served).

Definition settled r : Prop := ∀ n, rv_calls r ≤ n →
  ServerGroups (rv_d r) n = sv_groups sv ∧
  ∀ gv, ServerResourcesForGroupVersion (rv_d r) n gv = sv_resources sv gv.

Definition discover_version (group kind version : string) : result (GroupVersionKind * RESTScopeName) :=
  let gv := groupVersionString group version in
  match sv_resources sv gv with
  | Err err =>
      let class := if IsNotFound err then ErrGVKNotEstablished else ErrDiscoveryUnavailable in
      Err (fmt_Errorf (err_Error class +:+ ": " +:+ gv +:+ ": " +:+ err_Error err) [class; err])
  | Ok rl =>
      match find_kind rl kind with
      | Some res => Ok (GVK group version kind,
                        if ar_Namespaced res then RESTScopeNameNamespace else RESTScopeNameRoot)
      | None => Err (fmt_Errorf (err_Error ErrGVKNotEstablished +:+ ": kind " +:+ Quote kind
                       +:+ " not found in " +:+ gv) [ErrGVKNotEstablished])
      end
  end.

Definition discover (group kind version : string) : result (GroupVersionKind * RESTScopeName) :=
  if decide (version ≠ "") then discover_version group kind version
  else if decide (group = "") then discover_version group kind "v1"
  else match sv_groups sv with
       | Err err => Err (fmt_Errorf (err_Error ErrDiscoveryUnavailable +:+ ": ServerGroups: " +:+
                          err_Error err) [ErrDiscoveryUnavailable; err])
       | Ok groups =>
           match find_version groups group with
           | Ok v => discover_version group kind v
           | Err err => Err err
           end
       end.

(** The entries of a group and kind say what the apiserver serves. *)
Definition fresh (group kind : string) r : Prop := ∀ version e,
  rv_cache r !! Build_cacheKey group kind version = Some e →
  discover group kind version = Ok (ce_gvk e, ce_scope e).

(** What the life of a resolver keeps, once the apiserver has settled. *)
Definition keeps_fresh r r' : Prop :=
  settled r → settled r' ∧ ∀ group kind, fresh group kind r → fresh group kind r'.

#[export] Instance keeps_fresh_order : PreOrder keeps_fresh.
Proof. split; [by intros r; split|]. intros r1 r2 r3 H12 H23 [? ?]%H12. destruct H23; naive_solver. Qed.

Lemma settled_later r r' : rv_d r' = rv_d r → rv_calls r ≤ rv_calls r' → settled r → settled r'.
Proof. intros Hd Hc Hs n Hn. rewrite Hd. apply Hs. lia. Qed.

Lemma resolve_version_settled key version r :
  settled r →
  let '(res, r') := resolve_version key version r in
  res = discover_version (k_group key) (k_kind key) version ∧ settled r' ∧
  rv_cache r' = match res with
    | Ok (gvk, scope) => <[key := Build_cacheEntry gvk scope (rv_now r (rv_reads r) + rv_ttl r)%Z]> (rv_cache r)
    | Err _ => rv_cache r
    end.
Proof.
  intros Hs. unfold resolve_version, discover_version, call_discoverer, count_resolve, read_clock, store.
  unfold_M. destruct (Hs (rv_calls r) (le_n _)) as [_ ->].
  assert (∀ r', rv_d r' = rv_d r → rv_calls r' = S (rv_calls r) → settled r') as Hlater
    by (intros; apply (settled_later r); [done|lia|done]).
  destruct (sv_resources sv _) as [rl|err]; unfold_M.
  - destruct (find_kind rl (k_kind key)) as [res|]; unfold_M; split_and!; auto.
  - destruct (IsNotFound err); unfold_M; split_and!; auto.
Qed.
(** A run that asks the apiserver, version lookup included. *)
Lemma resolver_miss_settled group kind version r :
  let key := Build_cacheKey group kind version in
  settled r → live key r = None →
  let '(res, r') := resolver_Resolve group kind version r in
  res = discover group kind version ∧ settled r' ∧
  match res with
  | Ok (gvk, scope) => ∃ expiry, rv_cache r' = <[key := Build_cacheEntry gvk scope expiry]> (rv_cache r)
  | Err _ => rv_cache r' = rv_cache r
  end.
Proof.
  intros key Hs Hlive. unfold resolver_Resolve, discover. fold key.
  pose proof (lookup_cache_spec key r) as (H1 & Hc & Hn & _). pose proof (lookup_cache_d key r) as Hd.
  destruct (lookup_cache key r) as [hit r1] eqn:Hl. simpl in *. unfold mbind, M_bind at 1.
  rewrite Hl, H1, Hlive. clear H1 Hl.
  assert (settled r1) as Hs1 by (apply (settled_later r); [done|lia|done]).
  assert (∀ v r2, settled r2 → rv_cache r2 = rv_cache r →
    let '(res, r') := resolve_version key v r2 in
    res = discover_version group kind v ∧ settled r' ∧
    match res with
    | Ok (gvk, scope) => ∃ expiry, rv_cache r' = <[key := Build_cacheEntry gvk scope expiry]> (rv_cache r)
    | Err _ => rv_cache r' = rv_cache r
    end) as Hres.
  { intros v r2 Hs2 Hc2. pose proof (resolve_version_settled key v r2 Hs2) as Hv.
    destruct (resolve_version key v r2) as [res r']. destruct Hv as (-> & Hs' & ->). rewrite Hc2.
    split_and!; [done..|]. destruct (discover_version _ _ _) as [[gvk scope]|]; [by eexists|done]. }
  destruct (decide (version = "")) as [->|Hv]; [|rewrite decide_True by done; by apply Hres].
  rewrite (decide_False (P := "" ≠ "")) by auto. case_decide; [by apply Hres|].
  unfold preferredVersion, call_discoverer, count_resolve. unfold_M.
  destruct (Hs1 (rv_calls r1) (le_n _)) as [-> _].
  destruct (sv_groups sv) as [groups|err].
  - destruct (find_version groups group) as [v|err]; unfold_M.
    + apply Hres; [|done]. apply (settled_later r1); simpl; [done|lia|done].
    + split_and!; [done| |done]. apply (settled_later r1); simpl; [done|lia|done].
  - unfold_M. split_and!; [done| |done]. apply (settled_later r1); simpl; [done|lia|done].
Qed.

(** the cache is coherent: once the apiserver's answers have settled, a resolver
    whose entries of a group and kind say what is served answers every request
    for it as a resolver without a cache would, and no Resolve, of whatever
    kind, makes an entry stale. *)
Lemma Resolve_coherent group kind version r :
  settled r →
  let '(res, r') := resolver_Resolve group kind version r in
  settled r' ∧ (fresh group kind r → res = discover group kind version) ∧
  ∀ g k, fresh g k r → fresh g k r'.
Proof.
  intros Hs. set (key := Build_cacheKey group kind version).
  pose proof (resolver_Resolve_cases group kind version r) as Hc. simpl in Hc. fold key in Hc.
  pose proof (resolver_miss_settled group kind version r Hs) as Hm. fold key in Hm.
  pose proof (Resolve_d group kind version r) as Hd.
  destruct (resolver_Resolve group kind version r) as [res r']. simpl in Hd.
  destruct (live key r) as [e|] eqn:Hlive.
  - destruct Hc as (-> & Hn & Hcache). split_and!.
    + apply (settled_later r); [done|lia|done].
    + intros Hf. apply live_lookup in Hlive. by rewrite (Hf version e).
    + intros g k Hf v e'. rewrite Hcache. apply Hf.
  - destruct (Hm eq_refl) as (Hres & Hs' & Hcache). split_and!; [done..|].
    intros g k Hf v e'. destruct res as [[gvk scope]|]; [|rewrite Hcache; apply Hf].
    destruct Hcache as [expiry ->]. destruct (decide (Build_cacheKey g k v = key)) as [E|E].
    + rewrite E, lookup_insert_eq. intros [= <-]. injection E as -> -> ->. done.
    + rewrite lookup_insert_ne by done. apply Hf.
Qed.

Lemma keeps_fresh_Resolve group kind version r :
  keeps_fresh r (resolver_Resolve group kind version r).2.
Proof.
  intros Hs. pose proof (Resolve_coherent group kind version r Hs) as Hc.
  destruct (resolver_Resolve group kind version r) as [res r']. naive_solver.
Qed.

(** Dropping entries makes none stale, and all of a dropped kind fresh. *)
Lemma fresh_InvalidateGroupKind group kind r :
  keeps_fresh r (InvalidateGroupKind_resolver group kind r).2 ∧
  fresh group kind (InvalidateGroupKind_resolver group kind r).2.
Proof.
  split.
  - intros Hs. split; [by apply (settled_later r)|]. intros g k Hf v e. simpl.
    intros [Hl _]%map_lookup_filter_Some. by apply Hf.
  - intros v e. simpl. intros [_ Hk]%map_lookup_filter_Some. unfold key_of in Hk. simpl in Hk.
    by rewrite !bool_decide_true in Hk by done.
Qed.

Lemma keeps_fresh_Invalidate r : keeps_fresh r (Invalidate r).2.
Proof. intros Hs. split; [by apply (settled_later r)|]. intros g k _ v e. by intros [=]. Qed.
End coherence.
