(* ===== verification/DiscoveryConc.v ===== *)
(** * internal/discovery/resolver.go, concurrently

    Goroutines calling one resolver, interleaved between its critical sections,
    its calls to the apiserver, its clock reads and its metrics. A thread is a
    program counter inside [Resolve] or an invalidation. The n-th call and the
    n-th clock read, by whatever thread, get the n-th answer of the resolver's
    environment, so the order of calls is the order of time. *)

From S2P Require Import Prelude GoStd ApiV1 K8s Fixtures Metrics Membership Discovery.

(** ** Definitions *)

Section threads.
Context `{ApiErrors} `{Formatting}.

Abbreviation answer := (result (GroupVersionKind * RESTScopeName)).

Inductive resolve_thread :=
  | RIdle
  (** before lookup *)
  | RHead (key : cacheKey)
  (** a miss: about to ask for the groups, or for the resources of a version *)
  | RGroups (key : cacheKey)
  | RResources (key : cacheKey) (version : string)
  (** answered: before r.now(), before store's lock, after its unlock *)
  | RNow (key : cacheKey) (gvk : GroupVersionKind) (scope : RESTScopeName)
  | RStore (key : cacheKey) (e : cacheEntry)
  | RGauge (size : Z) (key : cacheKey) (ret : answer)
  (** before the counter of DiscoveryResolveTotal, and returned *)
  | RCount (label : string) (key : cacheKey) (ret : answer)
  | RDone (key : cacheKey) (ret : answer)
  (** an invalidation after its unlock *)
  | IGauge (size : Z).

(** What the resources of a version answer: the kind with its scope, or the
    error and its label. *)
Definition read_resources (key : cacheKey) (version : string) (rl : result (list APIResource))
    : (GroupVersionKind * RESTScopeName) + (error * string) :=
  let gv := groupVersionString (k_group key) version in
  match rl with
  | Err err =>
      if IsNotFound err
      then inr (fmt_Errorf (err_Error ErrGVKNotEstablished +:+ ": " +:+ gv +:+ ": " +:+ err_Error err)
                  [ErrGVKNotEstablished; err], DiscoveryResolveNotEstablished)
      else inr (fmt_Errorf (err_Error ErrDiscoveryUnavailable +:+ ": " +:+ gv +:+ ": " +:+ err_Error err)
                  [ErrDiscoveryUnavailable; err], DiscoveryResolveError)
  | Ok rl =>
      match find_kind rl (k_kind key) with
      | Some res => inl (GVK (k_group key) version (k_kind key),
                         if ar_Namespaced res then RESTScopeNameNamespace else RESTScopeNameRoot)
      | None => inr (fmt_Errorf (err_Error ErrGVKNotEstablished +:+ ": kind " +:+ Quote (k_kind key)
                       +:+ " not found in " +:+ gv) [ErrGVKNotEstablished], DiscoveryResolveNotEstablished)
      end
  end.

(** The next step of a thread inside a call. *)
Definition resolve_step (th : resolve_thread) (r : resolver) : option (resolve_thread * resolver) :=
  match th with
  | RIdle | RDone _ _ => None
  | RHead key =>
      let '(hit, r) := lookup_cache key r in
      Some (match hit with
            | Some e => RCount DiscoveryResolveHit key (Ok (ce_gvk e, ce_scope e))
            | None =>
                if decide (k_version key = "") then
                  if decide (k_group key = "") then RResources key "v1" else RGroups key
                else RResources key (k_version key)
            end, r)
  | RGroups key =>
      let '(v, r) := preferredVersion (k_group key) r in
      Some (match v with
            | Err err => RCount (resolveFailureLabel err) key (Err err)
            | Ok v => RResources key v
            end, r)
  | RResources key version =>
      let '(rl, r) := call_discoverer (λ d n, ServerResourcesForGroupVersion d n
                                         (groupVersionString (k_group key) version)) r in
      Some (match read_resources key version rl with
            | inl (gvk, scope) => RNow key gvk scope
            | inr (err, label) => RCount label key (Err err)
            end, r)
  | RNow key gvk scope =>
      let '(now, r) := read_clock r in
      Some (RStore key (Build_cacheEntry gvk scope (now + rv_ttl r)%Z), r)
  | RStore key e =>
      let r := set_cache <[key := e]> r in
      Some (RGauge (Z.of_nat (size (rv_cache r))) key (Ok (ce_gvk e, ce_scope e)), r)
  | RGauge n key ret => Some (RCount DiscoveryResolveMiss key ret, set_metrics (SetGauge DiscoveryCacheSize [] n) r)
  | RCount label key ret => Some (RDone key ret, (count_resolve label r).2)
  | IGauge n => Some (RIdle, set_metrics (SetGauge DiscoveryCacheSize [] n) r)
  end.

Abbreviation config := (resolver * (nat → resolve_thread))%type.

Definition set_resolve (t : nat) (th : resolve_thread) (ths : nat → resolve_thread) : nat → resolve_thread :=
  λ t', if decide (t' = t) then th else ths t'.

(** The critical section of InvalidateGroupKind. *)
Definition drop_entries (group kind : string) : resolver → resolver :=
  set_cache (filter (λ ke, key_of group kind ke.1 = false)).

Inductive rstep : config → config → Prop :=
  | rstep_thread r ths t th' r' :
      resolve_step (ths t) r = Some (th', r') → rstep (r, ths) (r', set_resolve t th' ths)
  | rstep_resolve r ths t key : ths t = RIdle → rstep (r, ths) (r, set_resolve t (RHead key) ths)
  | rstep_invalidate_kind r ths t group kind :
      ths t = RIdle →
      rstep (r, ths) (drop_entries group kind r,
                      set_resolve t (IGauge (Z.of_nat (size (rv_cache (drop_entries group kind r))))) ths)
  | rstep_invalidate r ths t :
      ths t = RIdle → rstep (r, ths) (set_cache (λ _, ∅) r, set_resolve t (IGauge 0) ths).

Definition rinitial (d : Discoverer) (ttl : Z) (now : nat → time) : config := (NewResolver d ttl now, λ _, RIdle).

(** ** A thread on its own

    With nothing in between, the steps of a thread are [resolver_Resolve]. *)
Definition alone : relation (resolve_thread * resolver) := λ c c', resolve_step c.1 c.2 = Some c'.

Lemma alone_step th r c' c'' : resolve_step th r = Some c' → rtc alone c' c'' → rtc alone (th, r) c''.
Proof. intros Hs. by apply rtc_l. Qed.

Lemma alone_version key version r :
  let '(res, r') := resolve_version key version r in rtc alone (RResources key version, r) (RDone key res, r').
Proof.
  unfold resolve_version. unfold mbind at 1, M_bind at 1.
  destruct (call_discoverer _ r) as [rl r1] eqn:Hc.
  assert (resolve_step (RResources key version) r =
    Some (match read_resources key version rl with
          | inl (gvk, scope) => RNow key gvk scope
          | inr (err, label) => RCount label key (Err err)
          end, r1)) as Hs by (cbn [resolve_step]; by rewrite Hc).
  unfold read_resources in Hs.
  destruct rl as [rl|err]; [destruct (find_kind rl (k_kind key)) as [res|]|destruct (IsNotFound err)];
    unfold count_resolve, store; unfold_M; (eapply alone_step; [exact Hs|]);
    repeat (apply rtc_refl || (eapply alone_step; [reflexivity|])).
Qed.

Lemma resolve_alone group kind version r :
  let '(res, r') := resolver_Resolve group kind version r in
  rtc alone (RHead (Build_cacheKey group kind version), r) (RDone (Build_cacheKey group kind version) res, r').
Proof.
  set (key := Build_cacheKey group kind version). unfold resolver_Resolve. fold key. unfold mbind at 1, M_bind at 1.
  destruct (lookup_cache key r) as [hit r1] eqn:Hl.
  pose proof (λ v r, alone_version key v r) as Hv. destruct hit as [e|].
  - unfold count_resolve. unfold_M. eapply alone_step; [cbn [resolve_step]; by rewrite Hl|].
    eapply alone_step; [reflexivity|apply rtc_refl].
  - assert (∀ v, resolve_step (RHead key) r = Some (RResources key v, r1) →
      let '(res, r') := resolve_version key v r1 in rtc alone (RHead key, r) (RDone key res, r')) as Hres.
    { intros v Hs. specialize (Hv v r1). destruct (resolve_version key v r1). by eapply alone_step. }
    repeat case_decide; [apply Hres; cbn [resolve_step]; rewrite Hl; by rewrite !decide_True| |
      apply Hres; cbn [resolve_step]; rewrite Hl; by rewrite decide_False].
    unfold mbind at 1, M_bind at 1. destruct (preferredVersion group r1) as [v r2] eqn:Hp.
    assert (resolve_step (RHead key) r = Some (RGroups key, r1)) as Hs1
      by (cbn [resolve_step]; rewrite Hl; by rewrite decide_True, decide_False).
    assert (∀ th, (match v with Err err => RCount (resolveFailureLabel err) key (Err err) | Ok v => RResources key v end) = th →
      resolve_step (RGroups key) r1 = Some (th, r2)) as Hs2 by (intros th <-; cbn [resolve_step]; change (k_group key) with group; by rewrite Hp).
    destruct v as [v|err].
    + specialize (Hv v r2). destruct (resolve_version key v r2).
      eapply alone_step; [exact Hs1|]. by eapply alone_step; [apply Hs2|].
    + unfold count_resolve. unfold_M. eapply alone_step; [exact Hs1|]. eapply alone_step; [by apply Hs2|].
      eapply alone_step; [reflexivity|apply rtc_refl].
Qed.
End threads.

(** ** Where an answer comes from *)

Section invariant.
Context `{ApiErrors} `{Formatting}.
Implicit Types (r : resolver) (key : cacheKey).

(** The version a request is resolved at, before the n-th call: the one it names,
    the core group's, or the preferred one of an earlier call. *)
Definition version_from (r : resolver) (n : nat) (key : cacheKey) (version : string) : Prop :=
  if decide (k_version key ≠ "") then version = k_version key
  else if decide (k_group key = "") then version = "v1"
  else ∃ m groups, m < n ∧ ServerGroups (rv_d r) m = Ok groups ∧ find_version groups (k_group key) = Ok version.

(** The n-th call served the kind. *)
Definition served_at (r : resolver) (n : nat) (key : cacheKey) (a : GroupVersionKind * RESTScopeName) : Prop :=
  version_from r n key (Version a.1) ∧
  ∃ rl, ServerResourcesForGroupVersion (rv_d r) n (groupVersionString (k_group key) (Version a.1)) = Ok rl ∧
    read_resources key (Version a.1) (Ok rl) = inl a.

(** It was made, and not before the lo-th. *)
Definition backed (lo : nat) (r : resolver) (key : cacheKey) (a : GroupVersionKind * RESTScopeName) : Prop :=
  ∃ n, lo ≤ n ∧ n < rv_calls r ∧ served_at r n key a.

(** An entry expires a ttl after some read of the clock. *)
Definition expires (r : resolver) (e : cacheEntry) : Prop :=
  ∃ i, i < rv_reads r ∧ ce_expiry e = (rv_now r i + rv_ttl r)%Z.

Definition classified (err : error) : Prop :=
  errors_Is err ErrGVKNotEstablished = true ∨ errors_Is err ErrDiscoveryUnavailable = true.

(** [floor] bounds from below the calls that may back the entries of a key. *)
Definition entry_backed (floor : cacheKey → nat) (r : resolver) (key : cacheKey) (e : cacheEntry) : Prop :=
  backed (floor key) r key (ce_gvk e, ce_scope e) ∧ expires r e.

Definition returns (r : resolver) (key : cacheKey) (ret : result (GroupVersionKind * RESTScopeName)) : Prop :=
  match ret with
  | Ok a => backed 0 r key a
  | Err err => classified err
  end.

Definition resolve_ok (floor : cacheKey → nat) (r : resolver) (th : resolve_thread) : Prop :=
  match th with
  | RGroups key => k_version key = "" ∧ k_group key ≠ ""
  | RResources key version => version_from r (rv_calls r) key version
  | RNow key gvk scope => backed (floor key) r key (gvk, scope)
  | RStore key e => entry_backed floor r key e
  | RGauge _ key ret | RCount _ key ret | RDone key ret => returns r key ret
  | _ => True
  end.

Definition conc_ok (floor : cacheKey → nat) (c : resolver * (nat → resolve_thread)) : Prop :=
  (∀ key, floor key ≤ rv_calls c.1) ∧ map_Forall (entry_backed floor c.1) (rv_cache c.1) ∧
  ∀ t, resolve_ok floor c.1 (c.2 t).

(** What a step does to what the environment has answered. *)
Definition grows (r r' : resolver) : Prop :=
  rv_d r' = rv_d r ∧ rv_now r' = rv_now r ∧ rv_ttl r' = rv_ttl r ∧ rv_calls r ≤ rv_calls r' ∧ rv_reads r ≤ rv_reads r'.

#[local] Instance grows_order : PreOrder grows.
Proof. split; [by repeat split|]. unfold grows. intros r1 r2 r3 (?&?&?&?&?) (?&?&?&?&?). split_and!; (congruence || lia). Qed.

Lemma version_from_grows r r' n n' key version :
  grows r r' → n ≤ n' → version_from r n key version → version_from r' n' key version.
Proof.
  intros (Hd & _) Hn. unfold version_from. repeat case_decide; [done..|]. intros (m & groups & Hm & Hg & Hv).
  exists m, groups. rewrite Hd. split_and!; [lia|done..].
Qed.

Lemma backed_grows lo lo' r r' key a : grows r r' → lo' ≤ lo → backed lo r key a → backed lo' r' key a.
Proof.
  intros Hg Hlo (n & Hn & Hc & Hv & rl & Hrl & Ha). exists n. split_and!; [lia|unfold grows in Hg; lia|].
  split; [by apply (version_from_grows r r' n n); [|lia|]|]. exists rl. destruct Hg as [-> _]. done.
Qed.

Lemma expires_grows r r' e : grows r r' → expires r e → expires r' e.
Proof. intros (_ & Hw & Ht & _ & Hr) (i & Hi & He). exists i. rewrite Hw, Ht. split; [lia|done]. Qed.

Lemma entry_backed_grows floor r r' key e : grows r r' → entry_backed floor r key e → entry_backed floor r' key e.
Proof. intros Hg [Hb He]. split; [by eapply backed_grows|by eapply expires_grows]. Qed.

Lemma returns_grows r r' key ret : grows r r' → returns r key ret → returns r' key ret.
Proof. intros Hg. destruct ret as [a|err]; [|done]. by apply (backed_grows 0 0). Qed.

Lemma resolve_ok_grows floor r r' th : grows r r' → resolve_ok floor r th → resolve_ok floor r' th.
Proof.
  intros Hg. destruct th; simpl; try done; try (intros; by eapply returns_grows).
  - apply version_from_grows; [done|]. by destruct Hg as (_ & _ & _ & ? & _).
  - by apply backed_grows.
  - by apply entry_backed_grows.
Qed.

(** The threads after one of them moved to an acceptable point. *)
Lemma set_resolve_ok floor r r' ths t th :
  grows r r' → (∀ t, resolve_ok floor r (ths t)) → resolve_ok floor r' th →
  ∀ t', resolve_ok floor r' (set_resolve t th ths t').
Proof. intros Hg Hths Hth t'. unfold set_resolve. case_decide; [done|]. by eapply resolve_ok_grows. Qed.

Lemma lookup_grows key r :
  let '(hit, r') := lookup_cache key r in
  grows r r' ∧ rv_cache r' = rv_cache r ∧
  ∀ e, hit = Some e → rv_cache r !! key = Some e ∧ (rv_now r (rv_reads r) <= ce_expiry e)%Z.
Proof.
  unfold lookup_cache, read_clock. unfold_M. destruct (rv_cache r !! key) as [e|]; unfold_M.
  - unfold grows. split_and!; simpl; try done; [lia|]. intros e'. destruct (Z.ltb_spec (ce_expiry e) (rv_now r (rv_reads r))); [done|].
    by intros [= <-].
  - by split_and!.
Qed.

Lemma call_grows {A} (f : Discoverer → nat → A) r :
  let '(a, r') := call_discoverer f r in
  a = f (rv_d r) (rv_calls r) ∧ grows r r' ∧ rv_cache r' = rv_cache r ∧ rv_calls r' = S (rv_calls r).
Proof. unfold grows. simpl. split_and!; done || lia. Qed.

Lemma read_resources_classified key version rl err label :
  read_resources key version rl = inr (err, label) → classified err.
Proof.
  unfold read_resources, classified. destruct rl as [rl|e]; [destruct (find_kind _ _)|destruct (IsNotFound e)];
    intros; simplify_eq; auto.
Qed.

(** What is read is about the kind asked for. *)
Lemma read_resources_version key version rl a : read_resources key version rl = inl a → Version a.1 = version.
Proof. unfold read_resources. intros. by repeat case_match; simplify_eq. Qed.

Lemma groups_step key r :
  let '(v, r') := preferredVersion (k_group key) r in
  grows r r' ∧ rv_cache r' = rv_cache r ∧
  match v with
  | Ok v => k_version key = "" → k_group key ≠ "" → version_from r' (rv_calls r') key v
  | Err err => classified err
  end.
Proof.
  unfold preferredVersion. unfold_M. unfold grows. simpl. split_and!; try (done || lia).
  destruct (ServerGroups _ _) as [groups|err] eqn:Hg; [|by right].
  destruct (find_version groups (k_group key)) as [v|err] eqn:Hv; [|left; by eapply find_version_err].
  intros Hver Hgr. unfold version_from. rewrite Hver, decide_False by auto. rewrite decide_False by done.
  exists (rv_calls r), groups. simpl. split_and!; [lia|done..].
Qed.

Lemma cache_grows floor r r' :
  grows r r' → rv_cache r' = rv_cache r → map_Forall (entry_backed floor r) (rv_cache r) →
  map_Forall (entry_backed floor r') (rv_cache r').
Proof. intros Hg -> Hc key e He. by apply (entry_backed_grows floor r r'), Hc. Qed.

(** The call that answers backs what it answered. *)
Lemma resources_step floor key version r :
  floor key ≤ rv_calls r → version_from r (rv_calls r) key version →
  let '(rl, r') := call_discoverer (λ d n, ServerResourcesForGroupVersion d n
                                      (groupVersionString (k_group key) version)) r in
  ∀ a, read_resources key version rl = inl a → backed (floor key) r' key a.
Proof.
  intros Hf Hv. simpl. intros a Ha. pose proof (read_resources_version key version _ a Ha) as Hva.
  exists (rv_calls r). split_and!; simpl; [done|lia|]. unfold served_at. rewrite Hva. simpl. split; [done|].
  destruct (ServerResourcesForGroupVersion _ _ _) as [rl|err] eqn:Hrl; [by exists rl|].
  unfold read_resources in Ha. by destruct (IsNotFound err).
Qed.

Lemma resolve_step_ok floor r th th' r' :
  (∀ key, floor key ≤ rv_calls r) → map_Forall (entry_backed floor r) (rv_cache r) → resolve_ok floor r th →
  resolve_step th r = Some (th', r') →
  grows r r' ∧ map_Forall (entry_backed floor r') (rv_cache r') ∧ resolve_ok floor r' th'.
Proof.
  intros Hf Hc Hth Hs. destruct th as [|key|key|key version|key gvk scope|key e|n key ret|label key ret|key ret|n];
    cbn [resolve_step resolve_ok] in *; try done.
  - pose proof (lookup_grows key r) as Hl. destruct (lookup_cache key r) as [hit r1]. destruct Hl as (Hg & Hcache & Hhit).
    injection Hs as <- <-. split_and!; [done|by eapply cache_grows|]. destruct hit as [e|].
    + destruct (Hhit e eq_refl) as [He _]. destruct (Hc _ _ He) as [Hb _]. simpl. eapply backed_grows; [done| |exact Hb]. lia.
    + unfold version_from. repeat case_decide; simpl; unfold version_from; repeat case_decide; done.
  - pose proof (groups_step key r) as Hgr. destruct (preferredVersion (k_group key) r) as [v r1].
    destruct Hgr as (Hg & Hcache & Hv). injection Hs as <- <-. split_and!; [done|by eapply cache_grows|].
    destruct Hth. destruct v as [v|err]; [by apply Hv|done].
  - pose proof (resources_step floor key version r (Hf key) Hth) as Hb.
    pose proof (call_grows (λ d n, ServerResourcesForGroupVersion d n (groupVersionString (k_group key) version)) r) as Hg.
    destruct (call_discoverer _ r) as [rl r1]. destruct Hg as (_ & Hg & Hcache & _). injection Hs as <- <-.
    split_and!; [done|by eapply cache_grows|]. destruct (read_resources key version rl) as [[gvk scope]|[err label]] eqn:Hrl.
    + by apply Hb.
    + by eapply read_resources_classified.
  - simpl in Hs. injection Hs as <- <-. assert (grows r (read_clock r).2) as Hg by (unfold grows; simpl; split_and!; done || lia).
    split_and!; [exact Hg|by eapply cache_grows|]. simpl. split; [by eapply backed_grows|].
    exists (rv_reads r). simpl. split; [lia|done].
  - injection Hs as <- <-. split_and!; [by unfold grows| |].
    + apply map_Forall_insert_2; [exact Hth|exact Hc].
    + destruct Hth as [Hb _]. simpl. eapply backed_grows; [|apply Nat.le_0_l|exact Hb]. by unfold grows.
  - injection Hs as <- <-. by split_and!.
  - injection Hs as <- <-. by split_and!.
  - injection Hs as <- <-. by split_and!.
Qed.

Lemma drop_ok floor r (f : gmap cacheKey cacheEntry → gmap cacheKey cacheEntry) :
  (∀ m, f m ⊆ m) → map_Forall (entry_backed floor r) (rv_cache r) →
  map_Forall (entry_backed floor (set_cache f r)) (rv_cache (set_cache f r)).
Proof.
  intros Hsub Hc key e He. apply (entry_backed_grows floor r); [by unfold grows|].
  apply Hc. by eapply lookup_weaken; [|apply Hsub].
Qed.

Lemma conc_ok_step floor c c' : rstep c c' → conc_ok floor c → conc_ok floor c' ∧ grows c.1 c'.1.
Proof.
  intros Hstep (Hf & Hc & Hths). destruct Hstep as [r ths t th' r' Hs|r ths t key Ht|r ths t group kind Ht|r ths t Ht]; simpl in *.
  - destruct (resolve_step_ok floor r (ths t) th' r' Hf Hc (Hths t) Hs) as (Hg & Hc' & Hth').
    split; [|done]. split_and!; simpl; [|done|by eapply set_resolve_ok].
    intros key. etrans; [apply Hf|]. by destruct Hg as (_ & _ & _ & ? & _).
  - split; [|reflexivity]. split_and!; simpl; [done|done|by eapply set_resolve_ok].
  - split; [|by unfold grows]. split_and!; simpl; [done| |by eapply (set_resolve_ok _ r); [unfold grows|..]].
    apply (drop_ok floor r); [intros m; apply map_filter_subseteq|done].
  - split; [|by unfold grows]. split_and!; simpl; [done| |by eapply (set_resolve_ok _ r); [unfold grows|..]].
    apply (drop_ok floor r (λ _, ∅)); [intros m; apply map_empty_subseteq|done].
Qed.

Lemma conc_ok_steps floor c c' : rtc rstep c c' → conc_ok floor c → conc_ok floor c' ∧ grows c.1 c'.1.
Proof.
  induction 1 as [c|c1 c2 c3 Hs _ IH]; intros Hok; [by split|].
  destruct (conc_ok_step floor c1 c2 Hs Hok) as [Hok2 Hg]. destruct (IH Hok2). split; [done|by etrans].
Qed.

Lemma initial_ok d ttl now : conc_ok (λ _, 0) (rinitial d ttl now).
Proof. split_and!; simpl; [lia|apply map_Forall_empty|done]. Qed.

(** ** The theorems *)

(** A hit's entry is alive. *)
Lemma hit_alive key r a label r' :
  resolve_step (RHead key) r = Some (RCount label key (Ok a), r') →
  ∃ e, rv_cache r !! key = Some e ∧ a = (ce_gvk e, ce_scope e) ∧ (rv_now r (rv_reads r) <= ce_expiry e)%Z.
Proof.
  cbn [resolve_step]. pose proof (lookup_grows key r) as Hl. destruct (lookup_cache key r) as [hit r1].
  destruct Hl as (_ & _ & Hhit). destruct hit as [e|]; [|by repeat case_decide].
  intros [= _ <- _]. destruct (Hhit e eq_refl). eauto.
Qed.

(** C26: whatever is resolved and invalidated at once, answers are grounded. Over
    any interleaving of Resolves and invalidations from an empty cache: an answer
    is about the group and kind asked for, at the version asked for (or, without
    one, at "v1" for the core group and at the version a call for the groups
    preferred), and the apiserver said so in a call that was made; a failure is
    one of the two classified errors; and an answer from the cache is given no
    later than a ttl after its entry's clock read, without a call. *)
Theorem concurrent_answers d ttl now r ths t key :
  rtc rstep (rinitial d ttl now) (r, ths) →
  (∀ ret, ths t = RDone key ret →
     match ret with
     | Ok (gvk, scope) => Group gvk = k_group key ∧ Kind gvk = k_kind key ∧
         ∃ n rl res, n < rv_calls r ∧ version_from r n key (Version gvk) ∧
           ServerResourcesForGroupVersion d n (groupVersionString (k_group key) (Version gvk)) = Ok rl ∧
           find_kind rl (k_kind key) = Some res ∧
           scope = (if ar_Namespaced res then RESTScopeNameNamespace else RESTScopeNameRoot)
     | Err err => classified err
     end) ∧
  (∀ label a r', ths t = RHead key → resolve_step (RHead key) r = Some (RCount label key (Ok a), r') →
     backed 0 r key a ∧ rv_calls r' = rv_calls r ∧
     ∃ i, i < rv_reads r ∧ (now (rv_reads r) <= now i + ttl)%Z).
Proof.
  intros Hs. destruct (conc_ok_steps (λ _, 0) _ _ Hs (initial_ok d ttl now)) as [(_ & Hc & Hths) (Hd & Hw & Ht & _)].
  simpl in *. split.
  - intros ret Hret. specialize (Hths t). rewrite Hret in Hths. simpl in Hths. destruct ret as [[gvk scope]|err]; [|done].
    destruct Hths as (n & _ & Hn & Hv & rl & Hrl & Ha). simpl in *. rewrite Hd in Hrl. unfold read_resources in Ha.
    destruct (find_kind rl (k_kind key)) as [res|] eqn:Hf; [|done]. injection Ha as Hg Hsc. rewrite <- Hg. split_and!; [done..|].
    exists n, rl, res. split_and!; [done|by rewrite Hg in *|by rewrite Hg in *|done..].
  - intros label a r' _ Hhit. pose proof (hit_alive key r a label r' Hhit) as (e & He & -> & Halive).
    destruct (Hc _ _ He) as [Hb (i & Hi & Hexp)]. split_and!; [done| |].
    + pose proof (lookup_cache_spec key r) as (_ & _ & Hcalls & _). cbn [resolve_step] in Hhit.
      destruct (lookup_cache key r) as [hit r1]. simpl in Hcalls. by injection Hhit as _ <-.
    + exists i. rewrite Hexp, Hw, Ht in Halive. by split.
Qed.

(** A thread that holds an answer it has yet to store. *)
Definition holds (group kind : string) (th : resolve_thread) : bool :=
  match th with
  | RNow key _ _ | RStore key _ => key_of group kind key
  | _ => false
  end.

Definition invalidated (group kind : string) (t : nat) (c : resolver * (nat → resolve_thread))
    : resolver * (nat → resolve_thread) :=
  (drop_entries group kind c.1, set_resolve t (IGauge (Z.of_nat (size (rv_cache (drop_entries group kind c.1))))) c.2).

(** After an invalidation nobody overtook, later calls back the kind's entries. *)
Lemma invalidated_ok group kind t r ths :
  conc_ok (λ _, 0) (r, ths) → (∀ t, holds group kind (ths t) = false) →
  conc_ok (λ key, if key_of group kind key then rv_calls r else 0) (invalidated group kind t (r, ths)).
Proof.
  intros (_ & Hc & Hths) Hno. simpl in *. split_and!; simpl.
  - intros key. destruct (key_of group kind key); [done|lia].
  - intros key e [He Hk]%map_lookup_filter_Some. simpl in Hk.
    unfold entry_backed. rewrite Hk. apply (entry_backed_grows (λ _, 0) r); [by unfold grows|by apply Hc].
  - apply (set_resolve_ok _ r); [by unfold grows| |done]. intros t'. specialize (Hths t'). specialize (Hno t').
    destruct (ths t'); simpl in *; try done; unfold entry_backed in *; by rewrite Hno.
Qed.

Lemma stores_and_hits r ths t t' key e :
  ths t = RStore key e → ths t' = RIdle → (rv_now r (rv_reads r) <= ce_expiry e)%Z →
  ∃ r' ths', rtc rstep (r, ths) (r', ths') ∧ ths' t' = RDone key (Ok (ce_gvk e, ce_scope e)) ∧ rv_calls r' = rv_calls r.
Proof.
  intros Ht Ht' Halive. assert (t' ≠ t) as Hne by (intros ->; congruence).
  set (r1 := set_cache <[key := e]> r).
  destruct (lookup_cache key r1) as [hit r2] eqn:Hl. pose proof (lookup_cache_spec key r1) as (Hhit & _ & Hcalls & _).
  rewrite Hl in Hhit, Hcalls. simpl in Hhit, Hcalls.
  assert (hit = Some e) as ->.
  { rewrite Hhit. unfold live, r1. simpl. rewrite lookup_insert_eq. by destruct (Z.ltb_spec (ce_expiry e) (rv_now r (rv_reads r))); [lia|]. }
  exists (count_resolve DiscoveryResolveHit r2).2. eexists. split_and!.
  - eapply rtc_l; [apply (rstep_thread r ths t); rewrite Ht; reflexivity|]. fold r1.
    eapply rtc_l; [apply (rstep_resolve _ _ t' key); unfold set_resolve; by rewrite decide_False|].
    eapply rtc_l.
    { apply (rstep_thread r1 _ t'). unfold set_resolve at 1. rewrite decide_True by done. cbn [resolve_step]. by rewrite Hl. }
    eapply rtc_l; [|apply rtc_refl]. apply (rstep_thread r2 _ t'). unfold set_resolve at 1. by rewrite decide_True.
  - unfold set_resolve. by rewrite decide_True.
  - exact Hcalls.
Qed.

(** C27: an invalidation is as good as the Resolves it does not overtake. Drop the
    entries of a group and kind, as the CRD watcher does. If no Resolve holds an
    answer about that kind it has yet to store, then from then on, whatever runs,
    the kind is answered from the cache only with what the apiserver said after
    the invalidation. If one does, it may store that answer, from a call before
    the invalidation, right after; and a Resolve begun later returns it without
    asking, as long as the ttl lasts. *)
Theorem invalidation_in_flight d ttl now r ths t0 group kind :
  rtc rstep (rinitial d ttl now) (r, ths) → ths t0 = RIdle →
  rstep (r, ths) (invalidated group kind t0 (r, ths)) ∧
  ((∀ t, holds group kind (ths t) = false) →
   ∀ r' ths', rtc rstep (invalidated group kind t0 (r, ths)) (r', ths') →
   ∀ key label a r'', key_of group kind key = true →
     resolve_step (RHead key) r' = Some (RCount label key (Ok a), r'') → backed (rv_calls r) r' key a) ∧
  (∀ t t' key e, ths t = RStore key e → key_of group kind key = true → ths t' = RIdle → t' ≠ t0 →
     (rv_now r (rv_reads r) <= ce_expiry e)%Z →
     backed 0 r key (ce_gvk e, ce_scope e) ∧
     ∃ r' ths', rtc rstep (invalidated group kind t0 (r, ths)) (r', ths') ∧
       ths' t' = RDone key (Ok (ce_gvk e, ce_scope e)) ∧ rv_calls r' = rv_calls r).
Proof.
  intros Hs Ht0. destruct (conc_ok_steps (λ _, 0) _ _ Hs (initial_ok d ttl now)) as [Hok _].
  split_and!; [by apply rstep_invalidate_kind| |].
  - intros Hno r' ths' Hs' key label a r'' Hk Hhit.
    destruct (conc_ok_steps _ _ _ Hs' (invalidated_ok group kind t0 r ths Hok Hno)) as [(_ & Hc & _) _].
    destruct (hit_alive key r' a label r'' Hhit) as (e & He & -> & _). destruct (Hc _ _ He) as [Hb _].
    simpl in Hb. by rewrite Hk in Hb.
  - intros t t' key e Ht Hk Ht' Hne Halive. destruct Hok as (_ & _ & Hths). specialize (Hths t). simpl in Hths. rewrite Ht in Hths.
    split; [apply Hths|]. unfold invalidated.
    apply (stores_and_hits (drop_entries group kind r) _ t t' key e); [| |exact Halive]; unfold set_resolve; simpl;
      rewrite decide_False; congruence.
Qed.
End invariant.

(** ** A kind removed while it is resolved *)
Module ConcFix.
#[local] Existing Instance Fix.formatting.
#[local] Existing Instance Fix.api_errors.

(** The apiserver serves Widgets until the third call. *)
Definition served_then_removed : Discoverer := {|
  ServerGroups := λ _, Ok [Build_APIGroup "x.io" "v1" ["v1"]];
  ServerResourcesForGroupVersion := λ n _, Ok (if decide (n < 2) then [Build_APIResource "Widget" true] else []);
|}.
Definition widgets : cacheKey := Build_cacheKey "x.io" "Widget" "".

(** A schedule: which thread moves, or what it calls. *)
Inductive event := Move (t : nat) | Call (t : nat) (key : cacheKey) | Drop (t : nat) (group kind : string).

Definition exec (c : resolver * (nat → resolve_thread)) (ev : event) : option (resolver * (nat → resolve_thread)) :=
  match ev with
  | Move t => (λ '(th, r), (r, set_resolve t th c.2)) <$> resolve_step (c.2 t) c.1
  | Call t key => match c.2 t with RIdle => Some (c.1, set_resolve t (RHead key) c.2) | _ => None end
  | Drop t group kind => match c.2 t with RIdle => Some (invalidated group kind t c) | _ => None end
  end.

Fixpoint exec_all (c : resolver * (nat → resolve_thread)) (evs : list event) : option (resolver * (nat → resolve_thread)) :=
  match evs with
  | [] => Some c
  | ev :: evs => match exec c ev with Some c => exec_all c evs | None => None end
  end.

Lemma exec_step c ev c' : exec c ev = Some c' → rstep c c'.
Proof.
  destruct c as [r ths], ev as [t|t key|t group kind]; simpl.
  - intros ([th r'] & Hs & ->)%fmap_Some. by apply rstep_thread.
  - destruct (ths t) eqn:Ht; intros [= <-]. by apply rstep_resolve.
  - destruct (ths t) eqn:Ht; intros [= <-]. by apply rstep_invalidate_kind.
Qed.

Lemma exec_steps c evs c' : exec_all c evs = Some c' → rtc rstep c c'.
Proof.
  revert c. induction evs as [|ev evs IH]; intros c; simpl; [by intros [= <-]|].
  destruct (exec c ev) as [c1|] eqn:He; [|done]. intros Hc. eapply rtc_l; [by apply exec_step in He|by apply IH].
Qed.

Definition start : resolver * (nat → resolve_thread) := rinitial served_then_removed 60 (λ n, Z.of_nat n).

(** Thread 0 has its answer; the kind is removed and invalidated; thread 2 asks. *)
Definition overtaken : list event := [Call 0 widgets; Move 0; Move 0; Move 0; Move 0].
Definition after_overtaken : list event := overtaken ++ [Drop 1 "x.io" "Widget"; Move 0; Call 2 widgets; Move 2; Move 2].

Example overtaken_answer :
  (λ c, (c.2 2, ServerResourcesForGroupVersion (rv_d c.1) (rv_calls c.1) "x.io/v1")) <$> exec_all start after_overtaken =
  Some (RDone widgets (Ok (GVK "x.io" "v1" "Widget", RESTScopeNameNamespace)), Ok []).
Proof. vm_compute. reflexivity. Qed.

Definition default_config (c : option (resolver * (nat → resolve_thread))) := default start c.
Definition held : resolver * (nat → resolve_thread) := default_config (exec_all start overtaken).

Lemma held_reachable : rtc rstep start held.
Proof. apply (exec_steps start overtaken). unfold held. by destruct (exec_all start overtaken) eqn:He. Qed.

Lemma invalidation_in_flight_witness :
  ∃ r' ths', rtc rstep (invalidated "x.io" "Widget" 1 held) (r', ths') ∧
    ths' 2 = RDone widgets (Ok (GVK "x.io" "v1" "Widget", RESTScopeNameNamespace)) ∧ rv_calls r' = 2.
Proof.
  destruct (invalidation_in_flight served_then_removed 60 (λ n, Z.of_nat n) held.1 held.2 1 "x.io" "Widget")
    as (_ & _ & Hstale); [exact held_reachable|vm_compute; reflexivity|].
  apply (Hstale 0 2 widgets (Build_cacheEntry (GVK "x.io" "v1" "Widget") RESTScopeNameNamespace 60));
    try (vm_compute; reflexivity); [discriminate|vm_compute; discriminate].
Defined.

Lemma concurrent_answers_witness :
  ∃ c, exec_all start after_overtaken = Some c ∧ c.2 2 = RDone widgets (Ok (GVK "x.io" "v1" "Widget", RESTScopeNameNamespace)) ∧
  ∃ n, n < rv_calls c.1 ∧ ServerResourcesForGroupVersion served_then_removed n "x.io/v1" = Ok [Build_APIResource "Widget" true].
Proof.
  destruct (exec_all start after_overtaken) as [[r ths]|] eqn:He; [|vm_compute in He; discriminate].
  exists (r, ths). split; [done|].
  assert ((λ c, c.2 2) <$> exec_all start after_overtaken =
    Some (RDone widgets (Ok (GVK "x.io" "v1" "Widget", RESTScopeNameNamespace)))) as Hr by (vm_compute; reflexivity).
  rewrite He in Hr. injection Hr as Hr. split; [done|].
  destruct (concurrent_answers served_then_removed 60 (λ n, Z.of_nat n) r ths 2 widgets (exec_steps _ _ _ He)) as [Hret _].
  destruct (Hret _ Hr) as (_ & _ & n & rl & res & Hn & _ & Hrl & Hfind & _). exists n. split; [exact Hn|].
  simpl in Hrl |- *. destruct (decide (n < 2)); [done|]. injection Hrl as <-. discriminate Hfind.
Defined.
End ConcFix.
