(* ===== verification/Normalize.v ===== *)
(** * internal/membership/normalize.go

    A Milestone's or ClusterMilestone's spec.dependsOn, normalised entry by
    entry: resolved through the discovery resolver, scope-checked, its selectors
    parsed, its namespace filter turned into a matcher. The resolver and the
    namespace lister are the caller's: a nil-able interface value and a nil-able
    function over a world state [W]. *)

From S2P Require Import Prelude GoStd ApiV1 K8s Fixtures Status Membership Discovery.

(** ** Definitions *)

Definition nilResolverError : MError :=
  Build_MError "" "" "" "" ReasonDiscoveryFailed (errors_New "nil discovery resolver").

(** [setMatcher]: membership of a set of names. *)
Definition setMatcher (names : list string) : string → bool :=
  let set : gset string := list_to_set names in
  λ ns, bool_decide (ns ∈ set).

Abbreviation matcher_cache := (gmap string (string → bool)).

Section normalize.
Context {W : Type} `{LabelsAPI} `{Formatting}.

(** [NamespaceLister]; nil is [None] where a function may be nil. *)
Definition NamespaceLister : Type := Selector → M W (result (list string)).

(** The outcome of one entry: a dependency, or the entry's first failure. *)
Abbreviation outcome A := (A + MError)%type.

Definition resolveTarget (dr : Resolver W) (name : string) (t : TargetSpec LabelSelector)
    : M W (outcome (GroupVersionKind * RESTScopeName)) :=
  res ← Resolve (ts_Group t) (ts_Kind t) (ts_Version t);
  mret match res with
       | Err err =>
           let reason := if errors_Is err ErrDiscoveryUnavailable
                         then ReasonDiscoveryUnavailable else ReasonGVKNotEstablished in
           inr (Build_MError name (ts_Group t) (ts_Version t) (ts_Kind t) reason err)
       | Ok gvk_scope => inl gvk_scope
       end.

Definition labelSelectorOrEverything (ls : option LabelSelector) : result Selector :=
  match ls with
  | None => Ok Everything
  | Some ls => LabelSelectorAsSelector ls
  end.

Definition parseSelector (name : string) (gvk : GroupVersionKind)
    (ls : option LabelSelector) : outcome Selector :=
  match labelSelectorOrEverything ls with
  | Err err => inr (NewError name gvk ReasonDiscoveryFailed err)
  | Ok sel => inl sel
  end.

(** The body of the loop of [NormalizeMilestone]. *)
Definition normalize_ref (dr : Resolver W) (ns : string) (d : DependencyRef LabelSelector)
    : M W (outcome Dependency) :=
  res ← resolveTarget dr (dr_Name d) (dr_Target d);
  mret match res with
       | inr derr => inr derr
       | inl (gvk, scope) =>
         if decide (scope ≠ RESTScopeNameNamespace) then
           inr (NewError (dr_Name d) gvk ReasonNamespaceScopeMismatch
             (fmt_Errorf ("kind " +:+ Quote (Kind gvk) +:+
               " is cluster-scoped; Milestone can only target namespaced resources (use ClusterMilestone)") []))
         else
         match parseSelector (dr_Name d) gvk (ts_Selector (dr_Target d)) with
         | inr derr => inr derr
         | inl sel =>
             inl (Build_Dependency _ (dr_Name d) gvk scope (Some sel)
               (Some (λ target, bool_decide (target = ns)))
               (dr_EmptySetPolicy d) (dr_SuspendPolicy d))
         end
       end.

(** The two slices the loop appends to. *)
Definition append_outcome (acc : list Dependency * list MError) (o : outcome Dependency)
    : list Dependency * list MError :=
  match o with
  | inl d => (acc.1 ++ [d], acc.2)
  | inr e => (acc.1, acc.2 ++ [e])
  end.

Fixpoint normalize_refs (dr : Resolver W) (ns : string)
    (deps : list (DependencyRef LabelSelector)) (acc : list Dependency * list MError)
    : M W (list Dependency * list MError) :=
  match deps with
  | [] => mret acc
  | d :: deps =>
      o ← normalize_ref dr ns d;
      normalize_refs dr ns deps (append_outcome acc o)
  end.

Definition NormalizeMilestone (dr : option (Resolver W)) (m : Milestone LabelSelector)
    : M W (list Dependency * list MError) :=
  match dr with
  | None => mret ([], [nilResolverError])
  | Some dr => normalize_refs dr (om_Namespace (m_Meta m)) (m_DependsOn m) ([], [])
  end.

(** The cache is the caller's map, so it is threaded with the result. *)
Definition buildNamespaceMatcher (listNamespaces : option NamespaceLister)
    (names : list string) (selector : option LabelSelector) (cache : matcher_cache)
    : M W (result (option (string → bool)) * matcher_cache) :=
  match names with
  | _ :: _ => mret (Ok (Some (setMatcher names)), cache)
  | [] =>
    match selector with
    | None => mret (Ok None, cache)
    | Some selector =>
      match LabelSelectorAsSelector selector with
      | Err err =>
          mret (Err (fmt_Errorf ("invalid namespaceSelector: " +:+ err_Error err) [err]), cache)
      | Ok sel =>
        let key := Selector_String sel in
        match cache !! key with
        | Some m => mret (Ok (Some m), cache)
        | None =>
          match listNamespaces with
          | None =>
              mret (Err (errors_New "list namespaces: no namespace lister configured"), cache)
          | Some listNamespaces =>
              matched ← listNamespaces sel;
              mret match matched with
                   | Err err =>
                       (Err (fmt_Errorf ("list namespaces: " +:+ err_Error err) [err]), cache)
                   | Ok matched =>
                       let m := setMatcher matched in
                       (Ok (Some m), <[key := m]> cache)
                   end
          end
        end
      end
    end
  end.

(** The body of the loop of [NormalizeClusterMilestone]. *)
Definition normalize_cluster_ref (dr : Resolver W) (listNamespaces : option NamespaceLister)
    (d : ClusterDependencyRef LabelSelector) (cache : matcher_cache)
    : M W (outcome Dependency * matcher_cache) :=
  let name := cdr_Name d in
  let target := cdr_Target d in
  res ← resolveTarget dr name (cts_TargetSpec target);
  match res with
  | inr derr => mret (inr derr, cache)
  | inl (gvk, scope) =>
    let has_names := bool_decide (cts_Namespaces target ≠ []) in
    let has_selector := bool_decide (is_Some (cts_NamespaceSelector target)) in
    let hasNamespaceFilter := has_names || has_selector in
    if bool_decide (scope = RESTScopeNameRoot) && hasNamespaceFilter then
      mret (inr (NewError name gvk ReasonNamespaceScopeMismatch
        (fmt_Errorf ("kind " +:+ Quote (Kind gvk) +:+
           " is cluster-scoped; namespaces and namespaceSelector are forbidden") [])), cache)
    else if has_names && has_selector then
      mret (inr (NewError name gvk ReasonNamespaceScopeMismatch
        (errors_New "namespaces and namespaceSelector are mutually exclusive")), cache)
    else
      '(matcher, cache) ← buildNamespaceMatcher listNamespaces (cts_Namespaces target)
                            (cts_NamespaceSelector target) cache;
      match matcher with
      | Err merr => mret (inr (NewError name gvk ReasonDiscoveryFailed merr), cache)
      | Ok matcher =>
        mret match parseSelector name gvk (ts_Selector (cts_TargetSpec target)) with
             | inr derr => (inr derr, cache)
             | inl sel =>
                 (inl (Build_Dependency _ name gvk scope (Some sel) matcher
                    (cdr_EmptySetPolicy d) (cdr_SuspendPolicy d)), cache)
             end
      end
  end.

Fixpoint normalize_cluster_refs (dr : Resolver W) (listNamespaces : option NamespaceLister)
    (deps : list (ClusterDependencyRef LabelSelector)) (cache : matcher_cache)
    (acc : list Dependency * list MError) : M W (list Dependency * list MError) :=
  match deps with
  | [] => mret acc
  | d :: deps =>
      '(o, cache) ← normalize_cluster_ref dr listNamespaces d cache;
      normalize_cluster_refs dr listNamespaces deps cache (append_outcome acc o)
  end.

Definition NormalizeClusterMilestone (dr : option (Resolver W))
    (listNamespaces : option NamespaceLister) (cm : ClusterMilestone LabelSelector)
    : M W (list Dependency * list MError) :=
  match dr with
  | None => mret ([], [nilResolverError])
  | Some dr => normalize_cluster_refs dr listNamespaces (cm_DependsOn cm) ∅ ([], [])
  end.
End normalize.

(** ** Specification: what each entry becomes *)

Definition outcome_dep `{LabelsAPI} (o : Dependency + MError) : option Dependency :=
  match o with inl d => Some d | inr _ => None end.
Definition outcome_err `{LabelsAPI} (o : Dependency + MError) : option MError :=
  match o with inl _ => None | inr e => Some e end.
Definition outcome_name `{LabelsAPI} (o : Dependency + MError) : string :=
  match o with inl d => d_Name d | inr e => e_Name e end.

(** What the resolver answers to a target. *)
Abbreviation answer := (result (GroupVersionKind * RESTScopeName)).

Section spec.
Context `{LabelsAPI}.

(** A dependency made from an entry's name, policies and target, admitting
    the namespaces [admitted] and the labels the parsed selector matches. *)
Definition dependency_of (name : string) (t : TargetSpec LabelSelector)
    (empty : EmptySetPolicy) (suspend : SuspendPolicy) (admitted : string → bool)
    (d : Dependency) : Prop :=
  d_Name d = name ∧ d_EmptySetPolicy d = empty ∧ d_SuspendPolicy d = suspend ∧
  GVK_GroupKind (d_GVK d) = TargetSpec_GroupKind t ∧
  (ts_Version t ≠ "" → Version (d_GVK d) = ts_Version t) ∧
  ∃ sel, labelSelectorOrEverything (ts_Selector t) = Ok sel ∧
    ∀ ns ls, Admits d ns ls = admitted ns && Selector_Matches sel ls.

(** An error tied to an entry, its reason the one its cause calls for. The
    cause is the resolver's answer: an error, which is the entry's error; or a
    kind whose scope is a [mismatch] with the target, or one that is not, and
    then the target's selectors [failed] with the entry's error. *)
Definition error_of (name : string) (t : TargetSpec LabelSelector) (ans : answer)
    (mismatch : RESTScopeName → Prop) (failed : error → Prop) (e : MError) : Prop :=
  e_Name e = name ∧ GK (e_Group e) (e_Kind e) = TargetSpec_GroupKind t ∧
  (ts_Version t ≠ "" → e_Version e = ts_Version t) ∧
  match ans with
  | Err err =>
      e_Err e = err ∧
      ((e_Reason e = ReasonDiscoveryUnavailable ∧
          errors_Is err ErrDiscoveryUnavailable = true) ∨
       (e_Reason e = ReasonGVKNotEstablished ∧
          errors_Is err ErrDiscoveryUnavailable = false ∧
          errors_Is err ErrGVKNotEstablished = true))
  | Ok (gvk, scope) =>
      e_Version e = Version gvk ∧
      ((mismatch scope ∧ e_Reason e = ReasonNamespaceScopeMismatch) ∨
       (¬ mismatch scope ∧ failed (e_Err e) ∧ e_Reason e = ReasonDiscoveryFailed))
  end.

(** A Milestone targets namespaced kinds only. *)
Definition milestone_mismatch (scope : RESTScopeName) : Prop := scope ≠ RESTScopeNameNamespace.


(** The label selector does not parse; or the namespace selector does not, or
    its namespaces could not be listed. *)
Definition selector_failed (t : TargetSpec LabelSelector) (err : error) : Prop :=
  labelSelectorOrEverything (ts_Selector t) = Err err.

(** What an entry becomes when the resolver answers [ans] to its target. *)
Definition milestone_outcome (ns : string) (d : DependencyRef LabelSelector) (ans : answer)
    (o : Dependency + MError) : Prop :=
  match o with
  | inl dep =>
      ans = Ok (d_GVK dep, d_Scope dep) ∧ d_Scope dep = RESTScopeNameNamespace ∧
      dependency_of (dr_Name d) (dr_Target d) (dr_EmptySetPolicy d) (dr_SuspendPolicy d)
        (λ target, bool_decide (target = ns)) dep
  | inr e =>
      error_of (dr_Name d) (dr_Target d) ans milestone_mismatch
        (selector_failed (dr_Target d)) e
  end.


End spec.

(** ** Theorems *)


Section outcomes.
Context `{LabelsAPI}.
Implicit Types (os : list (Dependency + MError)).

Lemma append_outcomes os acc :
  foldl append_outcome acc os =
  (acc.1 ++ omap outcome_dep os, acc.2 ++ omap outcome_err os).
Proof.
  revert acc. induction os as [|o os IH]; intros acc; simpl; [by rewrite !app_nil_r; destruct acc|].
  rewrite IH. by destruct o; simpl; rewrite <- !app_assoc.
Qed.

Lemma outcomes_length os :
  length (omap outcome_dep os) + length (omap outcome_err os) = length os.
Proof.
  induction os as [|o os IH]; [done|]. destruct o; csimpl; rewrite <- IH; simpl; lia.
Qed.
End outcomes.

Lemma outcome_names `{LabelsAPI} names (os : list (Dependency + MError)) :
  Forall2 (λ n o, outcome_name o = n) names os →
  (d_Name <$> omap outcome_dep os) ++ (e_Name <$> omap outcome_err os) ≡ₚ names.
Proof.
  induction 1 as [|n [d|e] names os <- _ IH]; csimpl; [done|by rewrite IH|].
  by rewrite <- Permutation_middle, IH.
Qed.

(** An entry's outcome depends on the resolver's answer alone. *)
Lemma normalize_ref_answer {W1 W2} `{LabelsAPI} `{Formatting} (r1 : Resolver W1) (r2 : Resolver W2) ns d w1 w2 :
  let t := dr_Target d in
  (Resolve (Resolver := r1) (ts_Group t) (ts_Kind t) (ts_Version t) w1).1 =
  (Resolve (Resolver := r2) (ts_Group t) (ts_Kind t) (ts_Version t) w2).1 →
  (normalize_ref r1 ns d w1).1 = (normalize_ref r2 ns d w2).1.
Proof.
  cbv zeta. unfold normalize_ref, resolveTarget. unfold mbind, M_bind.
  destruct (Resolve (Resolver := r1) _ _ _ w1) as [res1 w1'], (Resolve (Resolver := r2) _ _ _ w2) as [res2 w2'].
  by intros [= ->].
Qed.

Lemma normalize_ref_name {W} `{LabelsAPI} `{Formatting} (r : Resolver W) ns d w : outcome_name (normalize_ref r ns d w).1 = dr_Name d.
Proof.
  unfold normalize_ref, resolveTarget. unfold mbind, M_bind. destruct (Resolve _ _ _ w) as [[[gvk scope]|err] w1];
    simpl; [|done]. case_decide; [done|]. unfold parseSelector. by destruct (labelSelectorOrEverything _).
Qed.

(** What holds of each entry's outcome holds of all of them, in spec order. *)
Lemma normalize_refs_all {W} `{LabelsAPI} `{Formatting} (dr : Resolver W) ns (inv : W → Prop)
    (P : DependencyRef LabelSelector → Dependency + MError → Prop) deps acc w :
  (∀ d w, inv w → let '(o, w') := normalize_ref dr ns d w in inv w' ∧ P d o) → inv w →
  let '(res, w') := normalize_refs dr ns deps acc w in
  inv w' ∧ ∃ os, Forall2 P deps os ∧ res = foldl append_outcome acc os.
Proof.
  intros Href. revert acc w. induction deps as [|d deps IH]; intros acc w Hw.
  - split; [done|]. by exists [].
  - simpl. unfold mbind, M_bind. pose proof (Href d w Hw) as Hd.
    destruct (normalize_ref dr ns d w) as [o w1]. destruct Hd as [Hw1 Ho].
    specialize (IH (append_outcome acc o) w1 Hw1).
    destruct (normalize_refs _ _ _ _ w1) as [res w']. destruct IH as (? & os & Hos & ->).
    split; [done|]. exists (o :: os). split; [by constructor|done].
Qed.

Section milestone_theorems.
Context {W : Type} `{LabelsAPI} `{Formatting}.
Context (dr : Resolver W) (inv : W → Prop) `{!ResolverLaws W inv}.

(** The answer to a target when the resolver is asked in the world [v]. *)
Definition answer_in (t : TargetSpec LabelSelector) (v : W) : answer :=
  (Resolve (Resolver := dr) (ts_Group t) (ts_Kind t) (ts_Version t) v).1.

Lemma resolveTarget_spec name t w :
  inv w →
  let '(o, w') := resolveTarget dr name t w in
  inv w' ∧
  match o with
  | inl (gvk, scope) =>
      answer_in t w = Ok (gvk, scope) ∧ GVK_GroupKind gvk = TargetSpec_GroupKind t ∧
      (ts_Version t ≠ "" → Version gvk = ts_Version t) ∧
      (scope = RESTScopeNameNamespace ∨ scope = RESTScopeNameRoot)
  | inr e => ∀ mismatch failed, error_of name t (answer_in t w) mismatch failed e
  end.
Proof.
  intros Hw. unfold resolveTarget, answer_in. unfold_M.
  pose proof (resolve_inv (ts_Group t) (ts_Kind t) (ts_Version t) w Hw) as Hinv.
  pose proof (resolve_sound (ts_Group t) (ts_Kind t) (ts_Version t) w) as Hok.
  pose proof (resolve_classified (ts_Group t) (ts_Kind t) (ts_Version t) w) as Herr.
  destruct (Resolve _ _ _ w) as [res w']. simpl in *. split; [done|].
  destruct res as [[gvk scope]|err].
  - destruct (Hok gvk scope) as (Hg & Hk & Hv & Hs); [done..|]. split_and!; [done| |done..].
    unfold GVK_GroupKind, TargetSpec_GroupKind. by rewrite Hg, Hk.
  - destruct (errors_Is err ErrDiscoveryUnavailable) eqn:Hu;
      [|destruct (Herr err) as [Hg|Hg]; [done..| |congruence]];
      intros; unfold error_of; simpl; naive_solver.
Qed.

(** An error built from a resolved GVK is about the entry. *)
Lemma error_of_mismatch name t gvk scope (mismatch : RESTScopeName → Prop) failed err :
  GVK_GroupKind gvk = TargetSpec_GroupKind t →
  (ts_Version t ≠ "" → Version gvk = ts_Version t) → mismatch scope →
  error_of name t (Ok (gvk, scope)) mismatch failed
    (NewError name gvk ReasonNamespaceScopeMismatch err).
Proof. intros. split_and!; eauto. Qed.
Lemma error_of_failed name t gvk scope (mismatch : RESTScopeName → Prop) (failed : error → Prop) err :
  GVK_GroupKind gvk = TargetSpec_GroupKind t →
  (ts_Version t ≠ "" → Version gvk = ts_Version t) → ¬ mismatch scope → failed err →
  error_of name t (Ok (gvk, scope)) mismatch failed
    (NewError name gvk ReasonDiscoveryFailed err).
Proof. intros. split_and!; eauto 6. Qed.

Lemma normalize_ref_spec ns d w :
  inv w →
  let '(o, w') := normalize_ref dr ns d w in inv w' ∧
  ∃ v, inv v ∧ milestone_outcome ns d (answer_in (dr_Target d) v) o.
Proof.
  intros Hw. unfold normalize_ref. unfold_M.
  pose proof (resolveTarget_spec (dr_Name d) (dr_Target d) w Hw) as Hr.
  destruct (resolveTarget _ _ _ w) as [[[gvk scope]|e] w'];
    [|destruct Hr as [? Hr]; split; [done|]; exists w; split; [done|]; apply Hr].
  destruct Hr as (Hinv & Hans & Hgk & Hv & Hs). split; [done|]. exists w. split; [done|].
  rewrite Hans. case_decide as Hns; [by apply error_of_mismatch|].
  assert (¬ milestone_mismatch scope) by (intros Hm; exact (Hm Hns)).
  unfold parseSelector. destruct (labelSelectorOrEverything _) as [sel|err] eqn:Hl;
    [|by apply error_of_failed].
  split; [done|]. split; [done|]. split_and!; [done..|]. eauto.
Qed.

Lemma normalize_refs_spec ns deps acc w :
  inv w →
  let '(res, w') := normalize_refs dr ns deps acc w in
  inv w' ∧ ∃ os,
    Forall2 (λ d o, ∃ v, inv v ∧ milestone_outcome ns d (answer_in (dr_Target d) v) o) deps os ∧
    res = foldl append_outcome acc os.
Proof. apply normalize_refs_all, normalize_ref_spec. Qed.

(** C38: normalising a Milestone turns every dependsOn entry, in spec order,
    into exactly one dependency or one error, settled by what the resolver
    answers to the entry's target. A dependency is the answer: of the requested
    group, kind and version, namespaced; it admits only the Milestone's own
    namespace and the labels its selector matches. An error carries the entry's
    identity and one reason: DiscoveryUnavailable or GVKNotEstablished as the
    resolver's error is of the one class or the other; NamespaceScopeMismatch
    when the answered kind is not namespaced; DiscoveryFailed when it is, and
    the selector did not parse, with the parse error. *)
Theorem NormalizeMilestone_spec m w out errs w' :
  inv w → NormalizeMilestone (Some dr) m w = ((out, errs), w') →
  inv w' ∧ ∃ os,
    Forall2 (λ d o, ∃ v, inv v ∧
      milestone_outcome (om_Namespace (m_Meta m)) d (answer_in (dr_Target d) v) o)
      (m_DependsOn m) os ∧
    out = omap outcome_dep os ∧ errs = omap outcome_err os.
Proof.
  intros Hw Hrun. simpl in Hrun.
  pose proof (normalize_refs_spec (om_Namespace (m_Meta m)) (m_DependsOn m) ([], []) w Hw) as Hs.
  rewrite Hrun in Hs. destruct Hs as (Hw' & os & Hos & Heq).
  split; [done|]. exists os. rewrite append_outcomes in Heq. simplify_eq/=. done.
Qed.
End milestone_theorems.

Section cluster_theorems.
Context {W : Type} `{LabelsAPI} `{Formatting}.
Context (dr : Resolver W) (inv : W → Prop) `{!ResolverLaws W inv}.
(** What the caller's lister, when it has one, answers. *)
Context (lister : option (NamespaceLister (W := W))) (listed : string → list string → Prop).
Hypothesis lister_inv : ∀ list sel w, lister = Some list → inv w → inv (list sel w).2.
Hypothesis lister_listed : ∀ list sel w l,
  lister = Some list → inv w → (list sel w).1 = Ok l → listed (Selector_String sel) l.






End cluster_theorems.

(** ** Frames

    What the resolver and the lister preserve, normalising preserves: any
    preorder between the worlds. *)

Section frames.
Context {W : Type} `{LabelsAPI} `{Formatting} (R : relation W) `{!PreOrder R}.
Context (dr : Resolver W).
Hypothesis resolve_frame : ∀ group kind version w, R w (Resolve (Resolver := dr) group kind version w).2.

Lemma resolveTarget_frame name t w : R w (resolveTarget dr name t w).2.
Proof.
  unfold resolveTarget. unfold_M. pose proof (resolve_frame (ts_Group t) (ts_Kind t) (ts_Version t) w) as Hr.
  by destruct (Resolve _ _ _ w).
Qed.

Lemma NormalizeMilestone_frame m w : R w (NormalizeMilestone (Some dr) m w).2.
Proof.
  simpl. generalize (@nil Dependency, @nil MError) as acc. revert w.
  induction (m_DependsOn m) as [|d deps IH]; intros w acc; simpl; [reflexivity|].
  unfold normalize_ref. unfold_M. pose proof (resolveTarget_frame (dr_Name d) (dr_Target d) w) as Hr.
  destruct (resolveTarget _ _ _ w) as [o w1]. simpl in Hr. by transitivity w1.
Qed.

Context (lister : NamespaceLister (W := W)).
Hypothesis namespaces_frame : ∀ sel w, R w (lister sel w).2.

Lemma buildNamespaceMatcher_frame names sel cache w :
  R w (buildNamespaceMatcher (Some lister) names sel cache w).2.
Proof.
  unfold buildNamespaceMatcher. destruct names; [|reflexivity]. destruct sel as [sel|]; [|reflexivity].
  destruct (LabelSelectorAsSelector sel) as [s|]; [|reflexivity].
  destruct (cache !! _); [reflexivity|]. unfold_M.
  pose proof (namespaces_frame s w) as Hn. by destruct (lister s w).
Qed.

Lemma normalize_cluster_ref_frame d cache w :
  R w (normalize_cluster_ref dr (Some lister) d cache w).2.
Proof.
  unfold normalize_cluster_ref, mbind, M_bind.
  pose proof (resolveTarget_frame (cdr_Name d) (cts_TargetSpec (cdr_Target d)) w) as Hr.
  destruct (resolveTarget _ _ _ w) as [[[gvk scope]|e] w1]; simpl in Hr; [|done].
  case_match; [done|]. case_match; [done|].
  pose proof (buildNamespaceMatcher_frame (cts_Namespaces (cdr_Target d))
    (cts_NamespaceSelector (cdr_Target d)) cache w1) as Hb.
  destruct (buildNamespaceMatcher _ _ _ _ w1) as [[[m|e] c1] w2]; simpl in *; by transitivity w1.
Qed.

Lemma NormalizeClusterMilestone_frame cm w :
  R w (NormalizeClusterMilestone (Some dr) (Some lister) cm w).2.
Proof.
  simpl. generalize (@nil Dependency, @nil MError) as acc. generalize (∅ : matcher_cache) as cache.
  revert w. induction (cm_DependsOn cm) as [|d deps IH]; intros w cache acc; simpl; [reflexivity|].
  unfold mbind at 1, M_bind at 1. pose proof (normalize_cluster_ref_frame d cache w) as Hd.
  destruct (normalize_cluster_ref _ _ d cache w) as [[o c1] w1]. simpl in Hd. by transitivity w1.
Qed.
End frames.

(** ** How often namespaces are listed

    [log] is the lister's own record of the selectors it was asked for. *)
Section list_once.
Context {W : Type} `{LabelsAPI} `{Formatting}.
Context (dr : Resolver W) (lister : NamespaceLister (W := W)) (log : W → list string).
Hypothesis log_list : ∀ sel w, log (lister sel w).2 = log w ++ [Selector_String sel].
Hypothesis log_resolve : ∀ g k v w, log (Resolve g k v w).2 = log w.

Hypothesis list_ok : ∀ sel w, is_Ok (lister sel w).1 = true.

(** The lookups since [log0] are distinct and all cached. *)
Definition logged (log0 : list string) (cache : matcher_cache) (w : W) : Prop :=
  ∃ new, log w = log0 ++ new ∧ NoDup new ∧ ∀ k, k ∈ new → is_Some (cache !! k).

Lemma buildNamespaceMatcher_logged log0 names sel cache w :
  logged log0 cache w →
  let '((_, cache'), w') := buildNamespaceMatcher (Some lister) names sel cache w in
  logged log0 cache' w'.
Proof.
  intros (new & Hlog & Hnd & Hin). unfold buildNamespaceMatcher.
  destruct names; [|unfold_M; by exists new]. destruct sel as [ls|]; [|unfold_M; by exists new].
  destruct (LabelSelectorAsSelector ls) as [sel|err]; [|unfold_M; by exists new].
  destruct (cache !! Selector_String sel) as [m|] eqn:Hhit; [unfold_M; by exists new|].
  unfold_M. pose proof (log_list sel w) as Hl. pose proof (list_ok sel w) as Hok.
  destruct (lister sel w) as [[l|err] w']; simpl in *; [|done].
  exists (new ++ [Selector_String sel]). rewrite Hl, Hlog, app_assoc. split_and!; [done| |].
  - apply NoDup_app. split_and!; [done| |apply NoDup_singleton].
    intros k Hk ->%list_elem_of_singleton. apply Hin in Hk as [? Hk]. congruence.
  - intros k. rewrite elem_of_app, list_elem_of_singleton. intros [Hk| ->].
    + rewrite lookup_insert_is_Some. destruct (decide (Selector_String sel = k)); auto.
    + by rewrite lookup_insert_eq.
Qed.

Lemma normalize_cluster_refs_logged log0 deps cache acc w :
  logged log0 cache w →
  ∃ cache', logged log0 cache' (normalize_cluster_refs dr (Some lister) deps cache acc w).2.
Proof.
  revert cache acc w. induction deps as [|d deps IH]; intros cache acc w Hl; [by exists cache|].
  simpl. unfold mbind, M_bind at 1.
  enough (let '((_, cache'), w') := normalize_cluster_ref dr (Some lister) d cache w in
          logged log0 cache' w') as Hstep.
  { destruct (normalize_cluster_ref _ _ d cache w) as [[o c1] w1]. by apply IH. }
  unfold normalize_cluster_ref, resolveTarget. unfold_M.
  set (t := cdr_Target d).
  assert (logged log0 cache (Resolve (ts_Group (cts_TargetSpec t)) (ts_Kind (cts_TargetSpec t))
    (ts_Version (cts_TargetSpec t)) w).2) as Hl1.
  { destruct Hl as (new & Hlog & ?). exists new. by rewrite log_resolve. }
  destruct (Resolve _ _ _ w) as [[[gvk scope]|err] w1]; simpl in *; [|done].
  destruct (_ && _); [done|]. destruct (_ && _); [done|].
  pose proof (buildNamespaceMatcher_logged log0 (cts_Namespaces t) (cts_NamespaceSelector t)
    cache w1 Hl1) as Hb. unfold_M.
  destruct (buildNamespaceMatcher _ _ _ _ _) as [[[m|merr] c1] w2]; [|done].
  unfold_M. by destruct (parseSelector _ _ _).
Qed.

(** when every list succeeds, normalising a ClusterMilestone lists the
    namespaces at most once per distinct selector, however many entries
    share it. *)
Theorem NormalizeClusterMilestone_lists_once cm w :
  ∃ new, log (NormalizeClusterMilestone (Some dr) (Some lister) cm w).2 = log w ++ new ∧ NoDup new.
Proof.
  simpl. edestruct (normalize_cluster_refs_logged (log w) (cm_DependsOn cm) ∅ ([], []) w)
    as (cache & new & ? & ? & _); [|by exists new].
  exists []. rewrite app_nil_r. split_and!; [done|constructor|set_solver].
Qed.
End list_once.

(** ** A concrete cluster *)
Module NormalizeFix.
#[local] Existing Instance Fix.labels.
#[local] Existing Instance Fix.formatting.

(** Every kind is served at v1, Node and Namespace cluster-scoped, Gone not
    at all; the lister answers two namespaces and records its selector. *)
Definition static_resolver : Resolver (list string) := {|
  Resolve := λ group kind version w,
    (if decide (kind = "Gone") then Err ErrGVKNotEstablished
     else Ok (GVK group (if decide (version = "") then "v1" else version) kind,
              if decide (kind = "Node") then RESTScopeNameRoot
              else RESTScopeNameNamespace), w);
  Resolver_Invalidate := λ w, (tt, w);
  Resolver_InvalidateGroupKind := λ _ _ w, (tt, w);
|}.

Definition static_lister : NamespaceLister (W := list string) :=
  λ sel w, (Ok ["team-a"; "team-b"], w ++ [Selector_String sel]).

#[local] Instance static_laws : @ResolverLaws (list string) static_resolver (λ _, True).
Proof.
  split; simpl; try done.
  - intros group kind version w gvk scope _. repeat case_decide; naive_solver.
  - intros group kind version w err _. case_decide; [|done]. intros [= <-]. by left.
Qed.

Definition dep (name kind : string) (sel : option (list (string * string)))
    : DependencyRef LabelSelector :=
  Build_DependencyRef _ name EmptySetUnknown SuspendIgnore (Build_TargetSpec _ "" "" kind sel).

Definition cdep (name kind : string) (names : list string)
    (sel : option (list (string * string))) : ClusterDependencyRef LabelSelector :=
  Build_ClusterDependencyRef _ name EmptySetUnknown SuspendIgnore
    (Build_ClusterTargetSpec _ (Build_TargetSpec _ "" "" kind None) names sel).

Definition meta (ns : string) : ObjectMeta := Build_ObjectMeta "m" ns 1 ∅ [] None 0.

Definition status0 : MilestoneStatusBase :=
  Build_MilestoneStatusBase 0 None Summary_zero None None false 0.

Definition milestone : Milestone LabelSelector :=
  Build_Milestone _ (meta "team-a")
    [dep "pods" "Pod" None; dep "nodes" "Node" None; dep "gone" "Gone" None;
     dep "bad" "Pod" (Some [("", "x")])] status0.

Definition cluster_milestone : ClusterMilestone LabelSelector :=
  Build_ClusterMilestone _ (meta "")
    [cdep "a" "Pod" [] (Some [("team", "x")]); cdep "b" "Deployment" [] (Some [("team", "x")]);
     cdep "c" "Pod" ["team-c"] None; cdep "d" "Node" ["team-c"] None;
     cdep "e" "Pod" ["team-c"] (Some [])] status0.

Definition run_milestone := NormalizeMilestone (Some static_resolver) milestone [].
Definition run_cluster :=
  NormalizeClusterMilestone (Some static_resolver) (Some static_lister) cluster_milestone [].

Example run_milestone_shape :
  (map d_Name run_milestone.1.1, map (λ e, (e_Name e, e_Reason e)) run_milestone.1.2) =
  (["pods"], [("nodes", ReasonNamespaceScopeMismatch); ("gone", ReasonGVKNotEstablished);
              ("bad", ReasonDiscoveryFailed)]).
Proof. vm_compute. reflexivity. Qed.

Example run_cluster_shape :
  (map d_Name run_cluster.1.1, map (λ e, (e_Name e, e_Reason e)) run_cluster.1.2,
   run_cluster.2) =
  (["a"; "b"; "c"], [("d", ReasonNamespaceScopeMismatch); ("e", ReasonNamespaceScopeMismatch)],
   ["team=x"]).
Proof. vm_compute. reflexivity. Qed.

(** Listing failures are not remembered: entries that share a selector each
    list again. *)
Definition failing_lister : NamespaceLister (W := list string) :=
  λ sel w, (Err (errors_New "down"), w ++ [Selector_String sel]).

Example failing_lister_lists_twice :
  (NormalizeClusterMilestone (Some static_resolver) (Some failing_lister)
     cluster_milestone []).2 = ["team=x"; "team=x"].
Proof. vm_compute. reflexivity. Qed.

Lemma NormalizeMilestone_spec_witness :
  True ∧ ∃ os,
    Forall2 (λ d o, ∃ v, True ∧
      milestone_outcome "team-a" d (answer_in static_resolver (dr_Target d) v) o)
      (m_DependsOn milestone) os ∧
    run_milestone.1.1 = omap outcome_dep os ∧ run_milestone.1.2 = omap outcome_err os.
Proof.
  apply (NormalizeMilestone_spec static_resolver (λ _, True) milestone []
    run_milestone.1.1 run_milestone.1.2 run_milestone.2); [done|].
  unfold run_milestone. by destruct (NormalizeMilestone _ _ _) as [[? ?] ?].
Defined.


Lemma NormalizeClusterMilestone_lists_once_witness :
  ∃ new, run_cluster.2 = [] ++ new ∧ NoDup new.
Proof.
  apply (NormalizeClusterMilestone_lists_once static_resolver static_lister (λ w, w)).
  - done.
  - done.
  - done.
Defined.
End NormalizeFix.
