(* ===== verification/SubscriberIndex.v ===== *)
(** * internal/watcher/subscriber_index.go

    The two-way index of subscriptions: by GVK for dispatch, by owner for
    unsubscription. Its specification is the finite relation [subscription]
    from (GVK, owner) to the owner's subscriber; [coherent] says both maps
    represent the same relation, without empty inner maps. *)

From S2P Require Import Prelude GoStd ApiV1 K8s Fixtures.

(** ** Definitions *)

Record OwnerKey := { ok_Kind : string; ok_Namespace : string; ok_Name : string }.

#[export] Instance OwnerKey_eq_dec : EqDecision OwnerKey.
Proof. solve_decision. Defined.
#[export] Instance OwnerKey_countable : Countable OwnerKey.
Proof.
  refine (inj_countable' (λ o, (ok_Kind o, ok_Namespace o, ok_Name o))
    (λ '(k, ns, n), Build_OwnerKey k ns n) _). by intros [].
Defined.

Section index.
Context `{LabelsAPI} `{UnstructuredAPI}.

(** A nil [Selector] or [Namespaces] admits everything. *)
Record Matcher := {
  mt_Selector : option Selector;
  mt_Namespaces : option (string → bool);
}.

Definition Matcher_Admit (m : Matcher) (obj : Unstructured) : bool :=
  match mt_Namespaces m with
  | Some namespaces => namespaces (GetNamespace obj)
  | None => true
  end &&
  match mt_Selector m with
  | Some selector => Selector_Matches selector (GetLabels obj)
  | None => true
  end.

Record Subscriber := { Owner : OwnerKey; Matchers : list Matcher }.

Definition Subscriber_Match (s : Subscriber) (obj : Unstructured) : bool :=
  match Matchers s with
  | [] => true
  | ms => existsb (λ m, Matcher_Admit m obj) ms
  end.

Record SubscriberIndex := {
  byGVK : gmap GroupVersionKind (gmap OwnerKey Subscriber);
  byOwner : gmap OwnerKey (gset GroupVersionKind);
}.

Definition NewSubscriberIndex : SubscriberIndex := Build_SubscriberIndex ∅ ∅.

Definition Add (gvk : GroupVersionKind) (sub : Subscriber) (s : SubscriberIndex)
    : SubscriberIndex :=
  Build_SubscriberIndex
    (<[gvk := <[Owner sub := sub]> (default ∅ (byGVK s !! gvk))]> (byGVK s))
    (<[Owner sub := {[gvk]} ∪ default ∅ (byOwner s !! Owner sub)]> (byOwner s)).

(** [delete(gvks, gvk)], and the owner with its last GVK. *)
Definition drop_gvk (gvk : GroupVersionKind) (m : gmap OwnerKey (gset GroupVersionKind))
    (owner : OwnerKey) : gmap OwnerKey (gset GroupVersionKind) :=
  match m !! owner with
  | Some gvks =>
      let gvks := gvks ∖ {[gvk]} in
      if decide (gvks = ∅) then delete owner m else <[owner := gvks]> m
  | None => m
  end.

Definition Remove (gvk : GroupVersionKind) (owner : OwnerKey) (s : SubscriberIndex)
    : SubscriberIndex :=
  Build_SubscriberIndex
    match byGVK s !! gvk with
    | Some subs =>
        let subs := delete owner subs in
        if decide (subs = ∅) then delete gvk (byGVK s) else <[gvk := subs]> (byGVK s)
    | None => byGVK s
    end
    (drop_gvk gvk (byOwner s) owner).

(** The owners to wake, in the map's iteration order. *)
Definition Subscribers (gvk : GroupVersionKind) (obj : Unstructured) (s : SubscriberIndex)
    : list OwnerKey :=
  match byGVK s !! gvk with
  | None => []
  | Some subs =>
      Owner <$> filter (λ sub, Subscriber_Match sub obj = true) (map_to_list subs).*2
  end.

Definition SubscriberCount (gvk : GroupVersionKind) (s : SubscriberIndex) : nat :=
  size (default ∅ (byGVK s !! gvk)).

Definition Has (gvk : GroupVersionKind) (owner : OwnerKey) (s : SubscriberIndex) : bool :=
  match byOwner s !! owner with
  | Some gvks => bool_decide (gvk ∈ gvks)
  | None => false
  end.

Definition ClearGVK (gvk : GroupVersionKind) (s : SubscriberIndex) : SubscriberIndex :=
  let owners := default ∅ (byGVK s !! gvk) in
  Build_SubscriberIndex (delete gvk (byGVK s))
    (foldl (drop_gvk gvk) (byOwner s) (map_to_list owners).*1).

Definition GVKsByOwner (owner : OwnerKey) (s : SubscriberIndex) : list GroupVersionKind :=
  match byOwner s !! owner with
  | Some gvks => elements gvks
  | None => []
  end.

(** ** Specification *)

Definition subscription (s : SubscriberIndex) (gvk : GroupVersionKind) (owner : OwnerKey)
    : option Subscriber :=
  subs ← byGVK s !! gvk; subs !! owner.

Record coherent (s : SubscriberIndex) : Prop := {
  coherent_owner gvk owner :
    is_Some (subscription s gvk owner) ↔ gvk ∈ default ∅ (byOwner s !! owner);
  coherent_key gvk owner sub : subscription s gvk owner = Some sub → Owner sub = owner;
  coherent_gvk_ne gvk subs : byGVK s !! gvk = Some subs → subs ≠ ∅;
  coherent_owner_ne owner gvks : byOwner s !! owner = Some gvks → gvks ≠ ∅;
}.

(** ** Theorems *)

Implicit Types (s : SubscriberIndex) (gvk : GroupVersionKind) (owner : OwnerKey).

Lemma subscription_Add s gvk sub gvk' owner' :
  subscription (Add gvk sub s) gvk' owner' =
  if decide (gvk' = gvk ∧ owner' = Owner sub) then Some sub else subscription s gvk' owner'.
Proof.
  unfold subscription. simpl. destruct (decide (gvk' = gvk)) as [->|Hg].
  - rewrite lookup_insert_eq. simpl. destruct (decide (owner' = Owner sub)) as [->|Ho].
    + by rewrite lookup_insert_eq, decide_True.
    + rewrite lookup_insert_ne by done. rewrite decide_False by tauto.
      by destruct (byGVK s !! gvk).
  - rewrite lookup_insert_ne by done. by rewrite decide_False by tauto.
Qed.

Lemma subscription_Remove s gvk owner gvk' owner' :
  subscription (Remove gvk owner s) gvk' owner' =
  if decide (gvk' = gvk ∧ owner' = owner) then None else subscription s gvk' owner'.
Proof.
  unfold subscription, Remove. simpl. destruct (decide (gvk' = gvk)) as [->|Hg].
  - destruct (byGVK s !! gvk) as [subs|] eqn:Hs; [|rewrite Hs; by case_decide].
    destruct (decide (delete owner subs = ∅)) as [He|He].
    + rewrite lookup_delete_eq. simpl. destruct (decide (owner' = owner)) as [->|Ho].
      * by rewrite decide_True.
      * rewrite decide_False by tauto.
        by rewrite <- (lookup_delete_ne subs owner owner'), He, lookup_empty.
    + rewrite lookup_insert_eq. simpl. destruct (decide (owner' = owner)) as [->|Ho].
      * by rewrite lookup_delete_eq, decide_True.
      * rewrite lookup_delete_ne by done. by rewrite decide_False by tauto.
  - rewrite decide_False by tauto.
    destruct (byGVK s !! gvk); [|done].
    case_decide; [by rewrite lookup_delete_ne|by rewrite lookup_insert_ne].
Qed.

Lemma subscription_ClearGVK s gvk gvk' owner' :
  subscription (ClearGVK gvk s) gvk' owner' =
  if decide (gvk' = gvk) then None else subscription s gvk' owner'.
Proof.
  unfold subscription. simpl. case_decide as E.
  - by rewrite E, lookup_delete_eq.
  - by rewrite lookup_delete_ne.
Qed.

#[local] Hint Rewrite subscription_Add subscription_Remove subscription_ClearGVK : go.

(** [drop_gvk] removes one pair of the reverse relation. *)
Lemma elem_of_drop_gvk gvk m owner gvk' owner' :
  gvk' ∈ default ∅ (drop_gvk gvk m owner !! owner') ↔
  gvk' ∈ default ∅ (m !! owner') ∧ ¬ (gvk' = gvk ∧ owner' = owner).
Proof.
  unfold drop_gvk. destruct (m !! owner) as [gvks|] eqn:Hm.
  - destruct (decide (owner' = owner)) as [->|Ho].
    + rewrite Hm. simpl. case_decide.
      * rewrite lookup_delete_eq. simpl. set_solver.
      * rewrite lookup_insert_eq. simpl. set_solver.
    + case_decide; [rewrite lookup_delete_ne by done|rewrite lookup_insert_ne by done]; tauto.
  - split; [|tauto]. intros Hin. split; [done|]. intros [-> ->]. rewrite Hm in Hin. set_solver.
Qed.

Lemma drop_gvk_nonempty gvk m owner owner' gvks :
  (∀ o g, m !! o = Some g → g ≠ ∅) →
  drop_gvk gvk m owner !! owner' = Some gvks → gvks ≠ ∅.
Proof.
  intros Hne. unfold drop_gvk. destruct (m !! owner) eqn:Hm; [|apply Hne].
  case_decide as Hd.
  - intros [_ Hl]%lookup_delete_Some. by apply Hne in Hl.
  - intros [[_ <-]|[_ Hl]]%lookup_insert_Some; [done|by apply Hne in Hl].
Qed.

Lemma foldl_drop_gvk gvk owners m gvk' owner' :
  gvk' ∈ default ∅ (foldl (drop_gvk gvk) m owners !! owner') ↔
  gvk' ∈ default ∅ (m !! owner') ∧ ¬ (gvk' = gvk ∧ owner' ∈ owners).
Proof.
  revert m. induction owners as [|o owners IH]; intros m; simpl; [set_solver|].
  rewrite IH, elem_of_drop_gvk. set_solver.
Qed.

Lemma foldl_drop_gvk_nonempty gvk owners m owner' gvks :
  (∀ o g, m !! o = Some g → g ≠ ∅) →
  foldl (drop_gvk gvk) m owners !! owner' = Some gvks → gvks ≠ ∅.
Proof.
  revert m. induction owners as [|o owners IH]; intros m Hne; simpl; [apply Hne|].
  apply IH. intros o' g'. by apply drop_gvk_nonempty.
Qed.

(** ** The invariant *)

Lemma coherent_New : coherent NewSubscriberIndex.
Proof.
  split; unfold subscription; simpl; intros *; rewrite lookup_empty; simpl; [|done..].
  rewrite is_Some_alt. set_solver.
Qed.

Lemma coherent_Add s gvk sub : coherent s → coherent (Add gvk sub s).
Proof.
  intros Hs. split.
  - intros gvk' owner'. rewrite subscription_Add. simpl.
    destruct (decide (owner' = Owner sub)) as [->|Ho].
    + rewrite lookup_insert_eq. simpl. rewrite elem_of_union, elem_of_singleton.
      rewrite <- coherent_owner by done. case_decide; naive_solver.
    + rewrite lookup_insert_ne by done. rewrite decide_False by tauto. by apply coherent_owner.
  - intros gvk' owner' sub'. rewrite subscription_Add. case_decide; [naive_solver|].
    by apply coherent_key.
  - simpl. intros gvk' subs [[_ <-]|[_ Hl]]%lookup_insert_Some.
    + apply insert_non_empty.
    + by eapply coherent_gvk_ne.
  - simpl. intros owner' gvks [[_ <-]|[_ Hl]]%lookup_insert_Some; [set_solver|].
    by eapply coherent_owner_ne.
Qed.

Lemma coherent_Remove s gvk owner : coherent s → coherent (Remove gvk owner s).
Proof.
  intros Hs. split.
  - intros gvk' owner'. rewrite subscription_Remove. simpl. rewrite elem_of_drop_gvk.
    rewrite <- coherent_owner by done. case_decide; [|tauto]. rewrite is_Some_alt. tauto.
  - intros gvk' owner' sub'. rewrite subscription_Remove. case_decide; [done|].
    by apply coherent_key.
  - simpl. intros gvk' subs. destruct (byGVK s !! gvk) eqn:Hg; [|by apply coherent_gvk_ne].
    case_decide.
    + intros [_ Hl]%lookup_delete_Some. by eapply coherent_gvk_ne.
    + intros [[_ <-]|[_ Hl]]%lookup_insert_Some; [done|by eapply coherent_gvk_ne].
  - simpl. intros owner' gvks. apply drop_gvk_nonempty. by apply coherent_owner_ne.
Qed.

Lemma coherent_ClearGVK s gvk : coherent s → coherent (ClearGVK gvk s).
Proof.
  intros Hs. split.
  - intros gvk' owner'. rewrite subscription_ClearGVK. simpl. rewrite foldl_drop_gvk.
    rewrite <- coherent_owner by done. case_decide as E; [|naive_solver]. subst gvk'.
    rewrite is_Some_alt. split; [done|]. intros [Hin Hnot]. apply Hnot. split; [done|].
    unfold subscription in Hin. destruct (byGVK s !! gvk) as [subs|]; simpl in *;
      [|by destruct Hin].
    destruct Hin as [sub Hin]. apply list_elem_of_fmap. exists (owner', sub). split; [done|].
    by apply elem_of_map_to_list.
  - intros gvk' owner' sub'. rewrite subscription_ClearGVK. case_decide; [done|].
    by apply coherent_key.
  - simpl. intros gvk' subs [_ Hl]%lookup_delete_Some. by eapply coherent_gvk_ne.
  - simpl. intros owner' gvks. apply foldl_drop_gvk_nonempty. by apply coherent_owner_ne.
Qed.

#[local] Hint Resolve coherent_New coherent_Add coherent_Remove coherent_ClearGVK : go.

(** ** The queries *)

Lemma Has_spec s gvk owner :
  coherent s → Has gvk owner s = bool_decide (is_Some (subscription s gvk owner)).
Proof.
  intros Hs. rewrite (bool_decide_ext _ _ (coherent_owner s Hs gvk owner)). unfold Has.
  destruct (byOwner s !! owner); simpl; [done|].
  symmetry. apply bool_decide_eq_false. set_solver.
Qed.

Lemma GVKsByOwner_spec s gvk owner :
  coherent s → gvk ∈ GVKsByOwner owner s ↔ is_Some (subscription s gvk owner).
Proof.
  intros Hs. rewrite coherent_owner by done. unfold GVKsByOwner.
  destruct (byOwner s !! owner); simpl; [apply elem_of_elements|set_solver].
Qed.

Lemma GVKsByOwner_NoDup s owner : NoDup (GVKsByOwner owner s).
Proof.
  unfold GVKsByOwner. destruct (byOwner s !! owner); [apply NoDup_elements|constructor].
Qed.

Lemma Subscribers_spec s gvk obj owner :
  coherent s →
  owner ∈ Subscribers gvk obj s ↔
    ∃ sub, subscription s gvk owner = Some sub ∧ Subscriber_Match sub obj = true.
Proof.
  intros Hs. unfold Subscribers. pose proof (coherent_key s Hs gvk) as Hkey.
  unfold subscription in *. destruct (byGVK s !! gvk) as [subs|]; simpl in *; [|set_solver].
  rewrite list_elem_of_fmap. setoid_rewrite list_elem_of_filter.
  setoid_rewrite list_elem_of_fmap. split.
  - intros (sub & -> & Hm & [o sub'] & -> & Hin). apply elem_of_map_to_list in Hin.
    simpl in *. rewrite (Hkey _ _ Hin). eauto.
  - intros (sub & Hl & Hm). exists sub. split; [by apply Hkey in Hl|]. split; [done|].
    exists (owner, sub). by rewrite elem_of_map_to_list.
Qed.

Lemma Subscribers_NoDup s gvk obj : coherent s → NoDup (Subscribers gvk obj s).
Proof.
  intros Hs. unfold Subscribers. pose proof (coherent_key s Hs gvk) as Hkey.
  unfold subscription in *. destruct (byGVK s !! gvk) as [subs|]; simpl in *; [|constructor].
  assert (Owner <$> (map_to_list subs).*2 = (map_to_list subs).*1) as Heq.
  { rewrite <- list_fmap_compose. apply list_fmap_ext. intros i [o sub] Hi.
    apply list_elem_of_lookup_2, elem_of_map_to_list in Hi. by apply Hkey in Hi. }
  eapply sublist_NoDup; [|apply (fmap_sublist Owner), sublist_filter].
  rewrite Heq. apply NoDup_fst_map_to_list.
Qed.
(** ** Counting subscribers *)

Lemma SubscriberCount_Add s gvk sub gvk' :
  SubscriberCount gvk' (Add gvk sub s) =
  if decide (gvk' = gvk) then
    match subscription s gvk (Owner sub) with
    | Some _ => SubscriberCount gvk s
    | None => S (SubscriberCount gvk s)
    end
  else SubscriberCount gvk' s.
Proof.
  unfold SubscriberCount, subscription. simpl. case_decide as E.
  - subst. rewrite lookup_insert_eq. simpl. rewrite map_size_insert.
    destruct (byGVK s !! gvk) as [subs|]; simpl; [by destruct (subs !! Owner sub)|].
    by rewrite lookup_empty.
  - by rewrite lookup_insert_ne.
Qed.

Lemma SubscriberCount_Remove s gvk owner gvk' :
  SubscriberCount gvk' (Remove gvk owner s) =
  if decide (gvk' = gvk) then
    match subscription s gvk owner with
    | Some _ => pred (SubscriberCount gvk s)
    | None => SubscriberCount gvk s
    end
  else SubscriberCount gvk' s.
Proof.
  unfold SubscriberCount, subscription, Remove. simpl.
  destruct (byGVK s !! gvk) as [subs|] eqn:Hg; [|case_decide; subst; by rewrite ?Hg].
  simpl. assert (size (delete owner subs) =
    match subs !! owner with Some _ => pred (size subs) | None => size subs end) as Hsz.
  { rewrite map_size_delete. by destruct (subs !! owner). }
  destruct (decide (delete owner subs = ∅)) as [He|He]; case_decide; subst.
  - by rewrite lookup_delete_eq, <- Hsz, He.
  - by rewrite lookup_delete_ne.
  - by rewrite lookup_insert_eq, <- Hsz.
  - by rewrite lookup_insert_ne.
Qed.

Lemma SubscriberCount_ClearGVK s gvk gvk' :
  SubscriberCount gvk' (ClearGVK gvk s) =
  if decide (gvk' = gvk) then 0 else SubscriberCount gvk' s.
Proof.
  unfold SubscriberCount. simpl. case_decide; subst.
  - by rewrite lookup_delete_eq.
  - by rewrite lookup_delete_ne.
Qed.

Lemma SubscriberCount_pos s gvk owner :
  is_Some (subscription s gvk owner) → 0 < SubscriberCount gvk s.
Proof.
  unfold subscription, SubscriberCount. intros [sub Hsub].
  destruct (byGVK s !! gvk) as [subs|]; [|done]. simpl in *.
  apply Nat.neq_0_lt_0. rewrite map_size_non_empty_iff. set_solver.
Qed.

Lemma SubscriberCount_exists s gvk :
  SubscriberCount gvk s ≠ 0 ↔ ∃ owner, is_Some (subscription s gvk owner).
Proof.
  split; [|intros [owner Hs]; pose proof (SubscriberCount_pos _ _ _ Hs); lia].
  unfold subscription, SubscriberCount. rewrite map_size_non_empty_iff.
  destruct (byGVK s !! gvk) as [subs|]; [|done]. simpl.
  intros (owner & sub & Hsub)%map_choose. exists owner. by exists sub.
Qed.
End index.

#[export] Hint Rewrite @subscription_Add @subscription_Remove @subscription_ClearGVK : go.
#[export] Hint Rewrite @SubscriberCount_Add @SubscriberCount_Remove @SubscriberCount_ClearGVK : go.
#[export] Hint Resolve coherent_New coherent_Add coherent_Remove coherent_ClearGVK : go.

(** ** Refinement: the index implements a finite map from (GVK, owner) *)

Section refinement.
Context `{LabelsAPI} `{UnstructuredAPI}.

Inductive index_op :=
  | OpAdd (gvk : GroupVersionKind) (sub : Subscriber)
  | OpRemove (gvk : GroupVersionKind) (owner : OwnerKey)
  | OpClearGVK (gvk : GroupVersionKind).

Definition index_run (s : SubscriberIndex) (op : index_op) : SubscriberIndex :=
  match op with
  | OpAdd gvk sub => Add gvk sub s
  | OpRemove gvk owner => Remove gvk owner s
  | OpClearGVK gvk => ClearGVK gvk s
  end.

Abbreviation relation := (gmap (GroupVersionKind * OwnerKey) Subscriber).

Definition relation_run (m : relation) (op : index_op) : relation :=
  match op with
  | OpAdd gvk sub => <[(gvk, Owner sub) := sub]> m
  | OpRemove gvk owner => delete (gvk, owner) m
  | OpClearGVK gvk => filter (λ e, e.1.1 ≠ gvk) m
  end.

Definition represents (s : SubscriberIndex) (m : relation) : Prop :=
  coherent s ∧ ∀ gvk owner, subscription s gvk owner = m !! (gvk, owner).

Lemma represents_run s m op : represents s m → represents (index_run s op) (relation_run m op).
Proof.
  intros [Hs Hm]. destruct op as [gvk sub|gvk owner|gvk]; simpl; split; auto with go;
    intros gvk' owner'; autorewrite with go; rewrite Hm.
  - case_decide as E; [destruct E as [-> ->]; by rewrite lookup_insert_eq|].
    rewrite lookup_insert_ne by naive_solver. done.
  - case_decide as E; [destruct E as [-> ->]; by rewrite lookup_delete_eq|].
    rewrite lookup_delete_ne by naive_solver. done.
  - case_decide as E.
    + symmetry. apply map_lookup_filter_None. right. intros sub _. simpl. congruence.
    + destruct (m !! (gvk', owner')) eqn:Hl; symmetry.
      * by apply map_lookup_filter_Some.
      * apply map_lookup_filter_None. by left.
Qed.

Lemma represents_runs s m ops :
  represents s m → represents (foldl index_run s ops) (foldl relation_run m ops).
Proof.
  revert s m. induction ops as [|op ops IH]; intros s m Hr; simpl; [done|].
  by apply IH, represents_run.
Qed.

(** The inner map of a GVK has one entry per pair of the relation. *)
Lemma SubscriberCount_spec (s : SubscriberIndex) (m : relation) (gvk : GroupVersionKind) :
  (∀ gvk owner, subscription s gvk owner = m !! (gvk, owner)) →
  SubscriberCount gvk s = size (filter (λ e, e.1.1 = gvk) m).
Proof.
  intros Hm. unfold SubscriberCount. rewrite <- !length_map_to_list.
  rewrite <- (length_fmap fst (map_to_list (filter _ m))).
  rewrite <- (length_fmap (λ e, (gvk, e.1))). apply Permutation_length, NoDup_Permutation.
  - change (λ e : OwnerKey * Subscriber, (gvk, e.1)) with (pair gvk ∘ @fst OwnerKey Subscriber).
    rewrite list_fmap_compose. apply (NoDup_fmap_2 _), NoDup_fst_map_to_list.
  - apply NoDup_fst_map_to_list.
  - intros [gvk' owner']. rewrite !list_elem_of_fmap. specialize (Hm gvk' owner').
    unfold subscription in Hm. split.
    + intros ([o sub] & [= -> ->] & Hin%elem_of_map_to_list). exists ((gvk, o), sub).
      split; [done|]. apply elem_of_map_to_list, map_lookup_filter_Some.
      rewrite <- Hm. by destruct (byGVK s !! gvk).
    + intros ([[g o] sub] & [= -> ->] & [Hin Hk]%elem_of_map_to_list%map_lookup_filter_Some).
      simpl in Hk. destruct Hk. exists (o, sub). split; [done|].
      apply elem_of_map_to_list. rewrite Hin in Hm. by destruct (byGVK s !! g).
Qed.

(** C28: the index implements the relation between GVKs and owners: after any
    sequence of Add, Remove and ClearGVK, every query answers as the plain map
    of subscriptions does. [Subscribers] lists exactly the owners whose current
    subscriber for the GVK admits the object, each once; [GVKsByOwner] exactly
    the owner's GVKs, each once. *)
Theorem index_refines ops :
  let s := foldl index_run NewSubscriberIndex ops in
  let m := foldl relation_run ∅ ops in
  (∀ gvk owner, Has gvk owner s = bool_decide (is_Some (m !! (gvk, owner)))) ∧
  (∀ gvk obj, NoDup (Subscribers gvk obj s) ∧ ∀ owner,
     owner ∈ Subscribers gvk obj s ↔
       ∃ sub, m !! (gvk, owner) = Some sub ∧ Subscriber_Match sub obj = true) ∧
  (∀ owner, NoDup (GVKsByOwner owner s) ∧ ∀ gvk,
     gvk ∈ GVKsByOwner owner s ↔ is_Some (m !! (gvk, owner))) ∧
  (∀ gvk, SubscriberCount gvk s = size (filter (λ e, e.1.1 = gvk) m)).
Proof.
  destruct (represents_runs NewSubscriberIndex ∅ ops) as [Hs Hm].
  { split; [apply coherent_New|]. intros gvk owner. unfold subscription. simpl.
    by rewrite !lookup_empty. }
  cbv zeta. generalize dependent (foldl relation_run ∅ ops).
  generalize dependent (foldl index_run NewSubscriberIndex ops). intros s Hs m Hm.
  split_and!.
  - intros gvk owner. rewrite Has_spec by done. by rewrite Hm.
  - intros gvk obj. split; [by apply Subscribers_NoDup|]. intros owner.
    rewrite Subscribers_spec by done. by rewrite Hm.
  - intros owner. split; [apply GVKsByOwner_NoDup|]. intros gvk.
    rewrite GVKsByOwner_spec by done. by rewrite Hm.
  - intros gvk. by apply SubscriberCount_spec.
Qed.
End refinement.
