(* ===== verification/Registry.v ===== *)
(** * internal/watcher/registry.go

    The registry of shared informers: at most one informer per GVK, counted by
    the owners subscribed to it. Every critical section of the source (the code
    between r.mu.Lock and r.mu.Unlock) is one function on the state; what the
    code does outside the lock is a function of its own. [RegistryConc.v]
    interleaves them, step by step where a section changes the index more than
    once, since dispatch reads it without r.mu.

    The state also holds what the code keeps on the heap or in goroutines: the
    in-flight start records, the informers running ([live]: started by the
    factory, not stopped), the metrics, and the owners enqueued so far. *)

From S2P Require Import Prelude GoStd ApiV1 K8s Fixtures Metrics SubscriberIndex.

(** ** Definitions *)

(** 30 * time.Second, in nanoseconds. *)
Definition DefaultSyncTimeout : Z := 30 * 1000000000.

Inductive EventType := EventAdd | EventUpdate | EventDelete | EventOther (n : Z).

Definition EventType_String (e : EventType) : string :=
  match e with
  | EventAdd => metric_EventAdd
  | EventUpdate => metric_EventUpdate
  | EventDelete => metric_EventDelete
  | EventOther _ => "unknown"
  end.

(** An informer handle and an in-flight record are pointers: numbers. *)
Abbreviation entry := nat.
Abbreviation inflight := nat.

(** [startInFlight]: [si_done] is whether the channel is closed. *)
Record startInFlight := { si_done : bool; si_err : option error }.

Record failedStart := { fs_err : error; fs_at : time }.

Section registry.
Context `{LabelsAPI} `{UnstructuredAPI} `{Formatting}.

Record Registry := {
  rg_index : SubscriberIndex;
  rg_SyncTimeout : Z;
  rg_FailureCooldown : Z;
  informers : gmap GroupVersionKind entry;
  refcount : gmap GroupVersionKind Z;
  starting : gmap GroupVersionKind inflight;
  failed : gmap GroupVersionKind failedStart;
  (** the heap, the goroutines and the other packages *)
  inflights : gmap inflight startInFlight;
  live : gset entry;
  rg_metrics : metrics;
  enqueued : list OwnerKey;
}.

Definition NewRegistry (syncTimeout failureCooldown : Z) : Registry :=
  Build_Registry NewSubscriberIndex syncTimeout failureCooldown ∅ ∅ ∅ ∅ ∅ ∅ ∅ [].

(** Field updates. *)
Definition set_index f (r : Registry) : Registry :=
  Build_Registry (f (rg_index r)) (rg_SyncTimeout r) (rg_FailureCooldown r) (informers r)
    (refcount r) (starting r) (failed r) (inflights r) (live r) (rg_metrics r) (enqueued r).
Definition set_informers f (r : Registry) : Registry :=
  Build_Registry (rg_index r) (rg_SyncTimeout r) (rg_FailureCooldown r) (f (informers r))
    (refcount r) (starting r) (failed r) (inflights r) (live r) (rg_metrics r) (enqueued r).
Definition set_refcount f (r : Registry) : Registry :=
  Build_Registry (rg_index r) (rg_SyncTimeout r) (rg_FailureCooldown r) (informers r)
    (f (refcount r)) (starting r) (failed r) (inflights r) (live r) (rg_metrics r) (enqueued r).
Definition set_starting f (r : Registry) : Registry :=
  Build_Registry (rg_index r) (rg_SyncTimeout r) (rg_FailureCooldown r) (informers r)
    (refcount r) (f (starting r)) (failed r) (inflights r) (live r) (rg_metrics r) (enqueued r).
Definition set_failed f (r : Registry) : Registry :=
  Build_Registry (rg_index r) (rg_SyncTimeout r) (rg_FailureCooldown r) (informers r)
    (refcount r) (starting r) (f (failed r)) (inflights r) (live r) (rg_metrics r) (enqueued r).
Definition set_inflights f (r : Registry) : Registry :=
  Build_Registry (rg_index r) (rg_SyncTimeout r) (rg_FailureCooldown r) (informers r)
    (refcount r) (starting r) (failed r) (f (inflights r)) (live r) (rg_metrics r) (enqueued r).
Definition set_live f (r : Registry) : Registry :=
  Build_Registry (rg_index r) (rg_SyncTimeout r) (rg_FailureCooldown r) (informers r)
    (refcount r) (starting r) (failed r) (inflights r) (f (live r)) (rg_metrics r) (enqueued r).
Definition set_rmetrics f (r : Registry) : Registry :=
  Build_Registry (rg_index r) (rg_SyncTimeout r) (rg_FailureCooldown r) (informers r)
    (refcount r) (starting r) (failed r) (inflights r) (live r) (f (rg_metrics r)) (enqueued r).
Definition set_enqueued f (r : Registry) : Registry :=
  Build_Registry (rg_index r) (rg_SyncTimeout r) (rg_FailureCooldown r) (informers r)
    (refcount r) (starting r) (failed r) (inflights r) (live r) (rg_metrics r) (f (enqueued r)).

(** A GVK's label values, and the calls on the metric vectors. *)
Definition gvk_labels (gvk : GroupVersionKind) : list string :=
  [Group gvk; Version gvk; Kind gvk].

Definition count_subscribe (gvk : GroupVersionKind) (result : string) : Registry → Registry :=
  set_rmetrics (Inc SubscribeTotal (gvk_labels gvk ++ [result])).

Definition refcount_of (r : Registry) (gvk : GroupVersionKind) : Z :=
  default 0%Z (refcount r !! gvk).

(** [entry.Stop()]. *)
Definition stop_entry (e : entry) : Registry → Registry := set_live (λ l, l ∖ {[e]}).

Definition delete_gauges (gvk : GroupVersionKind) (r : Registry) : Registry :=
  set_rmetrics (λ m, DeleteLabelValues Subscribers_vec (gvk_labels gvk)
    (DeleteLabelValues Informers (gvk_labels gvk) m)) r.

Definition set_subscribers_gauge (gvk : GroupVersionKind) (r : Registry) : Registry :=
  set_rmetrics (SetGauge Subscribers_vec (gvk_labels gvk) (refcount_of r gvk)) r.

(** *** Subscribe *)

Definition sync_timeout (r : Registry) : Z :=
  if (rg_SyncTimeout r <=? 0)%Z then DefaultSyncTimeout else rg_SyncTimeout r.

Definition cooldown (r : Registry) : Z :=
  if (rg_FailureCooldown r <=? 0)%Z then sync_timeout r else rg_FailureCooldown r.

Definition registerLocked (gvk : GroupVersionKind) (sub : Subscriber) (r : Registry)
    : Registry :=
  let r :=
    if Has gvk (Owner sub) (rg_index r) then r
    else set_subscribers_gauge gvk
           (set_refcount <[gvk := (refcount_of r gvk + 1)%Z]> r) in
  count_subscribe gvk SubscribeOK (set_index (Add gvk sub) r).

(** What one turn of Subscribe's loop decides under the lock: to return, to wait
    for a start in flight, or to own one. *)
Inductive attempt :=
  | AttemptReturn (err : option error)
  | AttemptWait (i : inflight)
  | AttemptOwn (i : inflight).

(** No informer and no live failure: follow the start in flight or own one. *)
Definition claim_start (gvk : GroupVersionKind) (r : Registry) : attempt * Registry :=
  match starting r !! gvk with
  | Some i => (AttemptWait i, r)
  | None =>
      let i := fresh (dom (inflights r)) in
      (AttemptOwn i,
       set_starting <[gvk := i]> (set_inflights <[i := Build_startInFlight false None]> r))
  end.

Definition start_error (gvk : GroupVersionKind) (what : string) (err : error) : error :=
  fmt_Errorf ("watcher: start informer for " +:+ GVK_String gvk +:+ what +:+ ": "
    +:+ err_Error err) [err].

Definition Subscribe_enter (gvk : GroupVersionKind) (sub : Subscriber) (now : time)
    : M Registry attempt := λ r,
  match informers r !! gvk with
  | Some _ => (AttemptReturn None, registerLocked gvk sub r)
  | None =>
    match failed r !! gvk with
    | Some f =>
        if (now <? fs_at f + cooldown r)%Z then
          (AttemptReturn (Some (start_error gvk " (cooling down after failure)" (fs_err f))),
           count_subscribe gvk SubscribeError r)
        else claim_start gvk (set_failed (delete gvk) r)
    | None => claim_start gvk r
    end
  end.

(** A follower after [<-inflight.done]: return the error, or loop ([None]). *)
Definition Subscribe_wake (gvk : GroupVersionKind) (i : inflight)
    : M Registry (option error) := λ r,
  match inflights r !! i ≫= si_err with
  | Some err => (Some (start_error gvk "" err), count_subscribe gvk SubscribeError r)
  | None => (None, r)
  end.

(** [ctx.Done()] won the select. *)
Definition cancel_error (gvk : GroupVersionKind) (ctxErr : error) : error :=
  fmt_Errorf ("watcher: subscribe " +:+ GVK_String gvk +:+ " cancelled: "
    +:+ err_Error ctxErr) [ctxErr].

(** factory.Start: a success leaves a new informer running, a failure none. *)
Definition factory_Start (outcome : result unit) : M Registry (result entry) := λ r,
  match outcome with
  | Err err => (Err err, r)
  | Ok _ => let e := fresh (live r ∪ list_to_set (map_to_list (informers r)).*2) in
            (Ok e, set_live (union {[e]}) r)
  end.

(** The critical section after factory.Start returned. *)
Definition Subscribe_finish (gvk : GroupVersionKind) (sub : Subscriber) (i : inflight)
    (res : result entry) (now : time) : M Registry (option error) := λ r,
  match res with
  | Err err =>
      (Some (start_error gvk "" err),
       count_subscribe gvk SubscribeError
         (set_failed <[gvk := Build_failedStart err now]>
           (set_inflights (alter (λ s, Build_startInFlight (si_done s) (Some err)) i) r)))
  | Ok e =>
      (None,
       registerLocked gvk sub
         (set_rmetrics (SetGauge Informers (gvk_labels gvk) 1)
           (set_informers <[gvk := e]> (set_failed (delete gvk) r))))
  end.

(** The deferred teardown: the in-flight entry goes, then the followers. *)
Definition Subscribe_release (gvk : GroupVersionKind) : Registry → Registry :=
  set_starting (delete gvk).

Definition Subscribe_close (i : inflight) : Registry → Registry :=
  set_inflights (alter (λ s, Build_startInFlight true (si_err s)) i).

(** *** Unsubscribe *)

Definition hasSubscriberLocked (gvk : GroupVersionKind) (owner : OwnerKey) (r : Registry)
    : bool := Has gvk owner (rg_index r).

Definition unsubscribeLocked (gvk : GroupVersionKind) (owner : OwnerKey) (r : Registry)
    : Registry :=
  if hasSubscriberLocked gvk owner r then
    let r := set_index (Remove gvk owner) r in
    let r := set_refcount <[gvk := (refcount_of r gvk - 1)%Z]> r in
    let r := set_rmetrics (Inc UnsubscribeTotal (gvk_labels gvk)) r in
    if (refcount_of r gvk <=? 0)%Z then
      let r := match informers r !! gvk with
               | Some e => set_informers (delete gvk) (stop_entry e r)
               | None => r
               end in
      delete_gauges gvk (set_refcount (delete gvk) r)
    else set_subscribers_gauge gvk r
  else r.

Definition Unsubscribe (gvk : GroupVersionKind) (owner : OwnerKey) (r : Registry) : Registry :=
  unsubscribeLocked gvk owner r.

Definition UnsubscribeAll (owner : OwnerKey) (r : Registry) : Registry :=
  foldl (λ r gvk, unsubscribeLocked gvk owner r) r (GVKsByOwner owner (rg_index r)).

(** *** Queries *)

(** [listing e]: what the informer's own lister answers. *)
Definition List_gvk (listing : entry → result (list Unstructured)) (gvk : GroupVersionKind)
    (r : Registry) : result (list Unstructured) :=
  match informers r !! gvk with
  | None => Err (fmt_Errorf ("watcher: no informer for " +:+ GVK_String gvk) [])
  | Some e => listing e
  end.

Definition Registry_SubscriberCount (gvk : GroupVersionKind) (r : Registry) : nat :=
  SubscriberCount gvk (rg_index r).

Definition GVKCount (r : Registry) : nat := size (informers r).

Definition Registry_GVKsByOwner (owner : OwnerKey) (r : Registry) : list GroupVersionKind :=
  GVKsByOwner owner (rg_index r).

(** *** Invalidation and shutdown *)

Definition gvk_of (group kind : string) (gvk : GroupVersionKind) : bool :=
  bool_decide (Group gvk = group) && bool_decide (Kind gvk = kind).

(** One matched GVK of the locked loop. *)
Definition drop_informer (gvk : GroupVersionKind) (r : Registry) : Registry :=
  set_index (ClearGVK gvk) (set_refcount (delete gvk) (set_informers (delete gvk) r)).

(** The critical section: the matched GVKs, with the entries to stop. *)
Definition Invalidate_locked (group kind : string)
    : M Registry (list (GroupVersionKind * entry)) := λ r,
  let r := set_failed (filter (λ f, gvk_of group kind f.1 = false)) r in
  let matched := filter (λ ge, gvk_of group kind ge.1 = true) (map_to_list (informers r)) in
  (matched, foldl (λ r ge, drop_informer ge.1 r) r matched).

(** After the unlock. *)
Definition Invalidate_stop (matched : list (GroupVersionKind * entry)) (r : Registry)
    : Registry := foldl (λ r ge, stop_entry ge.2 r) r matched.

Definition Invalidate_metrics (matched : list (GroupVersionKind * entry)) (r : Registry)
    : Registry := foldl (λ r ge, delete_gauges ge.1 r) r matched.

Definition InvalidateGroupKind (group kind : string) (r : Registry) : Registry :=
  let '(matched, r) := Invalidate_locked group kind r in
  Invalidate_metrics matched (Invalidate_stop matched r).

(** [Registry.Start] once its context is cancelled. *)
Definition Start_shutdown (r : Registry) : Registry :=
  let r := foldl (λ r ge, delete_gauges ge.1 (set_informers (delete ge.1) (stop_entry ge.2 r)))
             r (map_to_list (informers r)) in
  set_refcount (λ _, ∅) r.

(** *** Dispatch: one informer event wakes the admitting owners *)
Definition dispatch (gvk : GroupVersionKind) (ev : EventType) (obj : Unstructured)
    (r : Registry) : Registry :=
  let r := set_rmetrics (Inc InformerEvents (gvk_labels gvk ++ [EventType_String ev])) r in
  let r := foldl (λ r owner, set_enqueued (λ q, q ++ [owner]) r) r
             (Subscribers gvk obj (rg_index r)) in
  set_rmetrics (ObserveDispatch (Group gvk) (Version gvk) (Kind gvk)) r.

(** *** Subscribe on its own

    With no other goroutine in the registry: enter; if a start is owned, run
    the factory (answering [outcome]), finish, and tear down; if a start is in
    flight, block ([None]). [now1] and [now2] are the clock's two readings. *)
Definition Subscribe (gvk : GroupVersionKind) (sub : Subscriber) (outcome : result unit)
    (now1 now2 : time) (r : Registry) : option (option error * Registry) :=
  match Subscribe_enter gvk sub now1 r with
  | (AttemptReturn err, r) => Some (err, r)
  | (AttemptWait i, _) => None
  | (AttemptOwn i, r) =>
      let '(res, r) := factory_Start outcome r in
      let '(err, r) := Subscribe_finish gvk sub i res now2 r in
      Some (err, Subscribe_close i (Subscribe_release gvk r))
  end.
End registry.

(** ** Invariants *)

Section invariants.
Context `{LabelsAPI} `{UnstructuredAPI} `{Formatting}.
Implicit Types (r : Registry) (gvk g : GroupVersionKind).

Abbreviation scount r g := (SubscriberCount g (rg_index r)).

(** The refcount of a GVK is the number of its subscribers. *)
Definition counted r : Prop :=
  coherent (rg_index r) ∧
  ∀ g, refcount r !! g =
    if decide (scount r g = 0) then None else Some (Z.of_nat (scount r g)).

(** A GVK has an informer exactly while it has a subscriber. *)
Definition registered r : Prop := ∀ g, is_Some (informers r !! g) ↔ scount r g ≠ 0.

(** Registered informers are running, and each GVK has its own. *)
Definition owned r : Prop :=
  (∀ g e, informers r !! g = Some e → e ∈ live r) ∧
  (∀ g1 g2 e, informers r !! g1 = Some e → informers r !! g2 = Some e → g1 = g2).

Record reg_inv r : Prop := {
  reg_counted : counted r;
  reg_registered : registered r;
  reg_owned : owned r;
}.

(** The two gauges report the informers and the refcounts. *)
Definition gauged r : Prop := ∀ g,
  rg_metrics r !! (v_Name Informers, gvk_labels g) = (λ _, 1%Z) <$> informers r !! g ∧
  rg_metrics r !! (v_Name Subscribers_vec, gvk_labels g) = refcount r !! g.

(** ** Theorems *)

#[export] Instance gvk_labels_inj : Inj (=) (=) gvk_labels.
Proof. intros [] [] Heq. unfold gvk_labels in Heq. simpl in Heq. congruence. Qed.

Lemma gauge_key_eq (v : string) g1 g2 :
  (v, gvk_labels g1) = (v, gvk_labels g2) ↔ g1 = g2.
Proof. split; [|by intros ->]. intros E%(f_equal snd). by apply (inj gvk_labels). Qed.

Lemma refcount_of_counted r g : counted r → refcount_of r g = Z.of_nat (scount r g).
Proof. intros [_ Hc]. unfold refcount_of. rewrite Hc. by case_decide as E; rewrite ?E. Qed.

Lemma scount_registerLocked r gvk sub g :
  scount (registerLocked gvk sub r) g =
  if decide (g = gvk) then
    match subscription (rg_index r) gvk (Owner sub) with
    | Some _ => scount r gvk
    | None => S (scount r gvk)
    end
  else scount r g.
Proof.
  unfold registerLocked, count_subscribe. simpl.
  by destruct (Has _ _ _); simpl; rewrite SubscriberCount_Add.
Qed.

Lemma registerLocked_fields r gvk sub :
  informers (registerLocked gvk sub r) = informers r ∧
  live (registerLocked gvk sub r) = live r ∧
  starting (registerLocked gvk sub r) = starting r ∧
  failed (registerLocked gvk sub r) = failed r ∧
  inflights (registerLocked gvk sub r) = inflights r ∧
  rg_index (registerLocked gvk sub r) = Add gvk sub (rg_index r).
Proof. unfold registerLocked. by destruct (Has _ _ _). Qed.

Lemma scount_zero r gvk owner :
  counted r → scount r gvk = 0 → subscription (rg_index r) gvk owner = None.
Proof.
  intros Hc Hz. apply eq_None_not_Some. intros Hs%SubscriberCount_pos. lia.
Qed.

Lemma counted_registerLocked r gvk sub : counted r → counted (registerLocked gvk sub r).
Proof.
  intros Hc. pose proof (refcount_of_counted r gvk Hc) as Hn. destruct Hc as [Hcoh Hc].
  split; [destruct (registerLocked_fields r gvk sub) as (_ & _ & _ & _ & _ & ->); auto with go|].
  intros g. rewrite scount_registerLocked. unfold registerLocked. simpl.
  rewrite Has_spec by done. unfold is_Some.
  pose proof (SubscriberCount_pos (rg_index r) gvk (Owner sub)) as Hpos.
  destruct (subscription (rg_index r) gvk (Owner sub)) as [sub'|].
  - rewrite bool_decide_true by eauto. simpl. rewrite Hc. by destruct (decide (g = gvk)) as [->|].
  - rewrite bool_decide_false by naive_solver. simpl. destruct (decide (g = gvk)) as [->|].
    + rewrite lookup_insert_eq, Hn, decide_False by lia. f_equal. lia.
    + by rewrite lookup_insert_ne, Hc.
Qed.

(** Registering a subscriber of a running informer. *)
Lemma inv_registerLocked r gvk sub :
  counted r → owned r → is_Some (informers r !! gvk) →
  (∀ g, g ≠ gvk → is_Some (informers r !! g) ↔ scount r g ≠ 0) →
  reg_inv (registerLocked gvk sub r).
Proof.
  intros Hc Ho Hrun Hreg. destruct (registerLocked_fields r gvk sub) as (Hi & Hl & _).
  split.
  - by apply counted_registerLocked.
  - intros g. rewrite scount_registerLocked, Hi. case_decide as E; [subst|by apply Hreg].
    pose proof (SubscriberCount_pos (rg_index r) gvk (Owner sub)) as Hpos.
    destruct (subscription _ _ _); [|naive_solver]. split; [|done].
    intros _ Hz. specialize (Hpos ltac:(eauto)). lia.
  - unfold owned. by rewrite Hi, Hl.
Qed.

Lemma gauged_registerLocked r gvk sub : gauged r → gauged (registerLocked gvk sub r).
Proof.
  intros Hg g. destruct (Hg g) as [Hg1 Hg2]. unfold registerLocked. destruct (Has _ _ _); simpl.
  - rewrite !metric_lookup_Inc. by rewrite !decide_False by done.
  - rewrite !metric_lookup_Inc, !metric_lookup_Set.
    rewrite !(decide_False (P := (_, _) = (v_Name SubscribeTotal, _))) by done.
    rewrite decide_False by done. destruct (decide (g = gvk)) as [->|Hne].
    + rewrite decide_True by done. unfold refcount_of. simpl. by rewrite lookup_insert_eq.
    + rewrite decide_False by (by rewrite gauge_key_eq).
      by rewrite lookup_insert_ne.
Qed.
(** Storing a started informer and registering its first subscriber. *)
Lemma inv_Subscribe_finish r gvk sub i e now :
  reg_inv r → informers r !! gvk = None → e ∈ live r →
  (∀ g, informers r !! g ≠ Some e) →
  reg_inv (Subscribe_finish gvk sub i (Ok e) now r).2.
Proof.
  intros [Hc Hreg [Hlive Hinj]] Hnone He Hfresh. simpl. apply inv_registerLocked; simpl.
  - done.
  - split; simpl.
    + intros g e' [[_ <-]|[_ Hl]]%lookup_insert_Some; [done|by eapply Hlive].
    + intros g1 g2 e' [[<- <-]|[Hn1 Hi1]]%lookup_insert_Some [[<- E]|[Hn2 Hi2]]%lookup_insert_Some;
        [done|by destruct (Hfresh g2)|subst; by destruct (Hfresh g1)|by eapply Hinj].
  - by rewrite lookup_insert_eq.
  - intros g Hg. rewrite lookup_insert_ne by done. apply Hreg.
Qed.

Lemma gauged_Subscribe_finish r gvk sub i res now :
  gauged r → gauged (Subscribe_finish gvk sub i res now r).2.
Proof.
  intros Hg. destruct res as [e|err]; simpl.
  - apply gauged_registerLocked. intros g. destruct (Hg g) as [Hg1 Hg2]. simpl.
    rewrite !metric_lookup_Set. rewrite (decide_False (P := (v_Name Subscribers_vec, _) = _)) by done.
    split; [|done]. destruct (decide (g = gvk)) as [->|Hne].
    + by rewrite decide_True, lookup_insert_eq.
    + rewrite decide_False by (by rewrite gauge_key_eq). by rewrite lookup_insert_ne.
  - intros g. simpl. rewrite !metric_lookup_Inc, !decide_False by done. apply Hg.
Qed.

(** What [unsubscribeLocked] does when the owner is subscribed, whatever the
    refcount. *)
Lemma unsubscribeLocked_effect r gvk owner :
  coherent (rg_index r) →
  let r' := unsubscribeLocked gvk owner r in
  starting r' = starting r ∧ failed r' = failed r ∧ inflights r' = inflights r ∧
  match subscription (rg_index r) gvk owner with
  | None => r' = r
  | Some _ =>
      rg_index r' = Remove gvk owner (rg_index r) ∧
      if decide (refcount_of r gvk <= 1)%Z then
        refcount r' = delete gvk (refcount r) ∧ informers r' = delete gvk (informers r) ∧
        live r' = match informers r !! gvk with Some e => live r ∖ {[e]} | None => live r end
      else
        refcount r' = <[gvk := (refcount_of r gvk - 1)%Z]> (refcount r) ∧
        informers r' = informers r ∧ live r' = live r
  end.
Proof.
  intros Hcoh. unfold unsubscribeLocked, hasSubscriberLocked. rewrite Has_spec by done.
  destruct (subscription (rg_index r) gvk owner) as [sub|]; simpl; [|done].
  set (r1 := set_rmetrics _ _).
  assert (refcount_of r1 gvk = refcount_of r gvk - 1)%Z as Hr1.
  { unfold r1, refcount_of. simpl. by rewrite lookup_insert_eq. }
  rewrite Hr1. destruct (Z.leb_spec (refcount_of r gvk - 1) 0); case_decide as E; try lia.
  - unfold r1. simpl. destruct (informers r !! gvk) as [e|] eqn:Hi; simpl; rewrite ?Hi; simpl.
    + rewrite delete_insert_eq. by split_and!.
    + rewrite delete_insert_eq, (delete_id (informers r)) by done. by split_and!.
  - unfold r1, set_subscribers_gauge. simpl.
    change (refcount_of (set_index _ r) gvk) with (refcount_of r gvk). by split_and!.
Qed.

Lemma unsubscribeLocked_cases r gvk owner :
  counted r →
  let r' := unsubscribeLocked gvk owner r in
  starting r' = starting r ∧ failed r' = failed r ∧ inflights r' = inflights r ∧
  match subscription (rg_index r) gvk owner with
  | None => r' = r
  | Some _ =>
      rg_index r' = Remove gvk owner (rg_index r) ∧
      if decide (scount r gvk = 1) then
        refcount r' = delete gvk (refcount r) ∧ informers r' = delete gvk (informers r) ∧
        live r' = match informers r !! gvk with Some e => live r ∖ {[e]} | None => live r end
      else
        refcount r' = <[gvk := (Z.of_nat (scount r gvk) - 1)%Z]> (refcount r) ∧
        informers r' = informers r ∧ live r' = live r
  end.
Proof.
  intros Hc. pose proof (refcount_of_counted r gvk Hc) as Hn.
  pose proof (SubscriberCount_pos (rg_index r) gvk owner) as Hpos.
  pose proof (unsubscribeLocked_effect r gvk owner (proj1 Hc)) as He. cbv zeta in *.
  rewrite Hn in He. destruct (subscription (rg_index r) gvk owner) as [sub|]; [|done].
  specialize (Hpos ltac:(eauto)). destruct (decide (_ <= 1)%Z), (decide (scount r gvk = 1)); done || lia.
Qed.

Lemma inv_unsubscribeLocked r gvk owner : reg_inv r → reg_inv (unsubscribeLocked gvk owner r).
Proof.
  intros [Hc Hreg [Hlive Hinj]].
  pose proof (unsubscribeLocked_cases r gvk owner Hc) as Hcase. cbv zeta in Hcase.
  pose proof (SubscriberCount_pos (rg_index r) gvk owner) as Hpos.
  destruct Hcase as (_ & _ & _ & Hcase).
  destruct (subscription (rg_index r) gvk owner) as [sub|] eqn:Hsub; [|by rewrite Hcase].
  specialize (Hpos ltac:(eauto)).
  set (r' := unsubscribeLocked gvk owner r) in *. destruct Hcase as [Hidx Hcase].
  assert (∀ g, scount r' g = if decide (g = gvk) then pred (scount r gvk) else scount r g) as Hs.
  { intros g. rewrite Hidx, SubscriberCount_Remove, Hsub. done. }
  destruct Hc as [Hcoh Hc]. destruct (decide (scount r gvk = 1)) as [E|E];
    destruct Hcase as (Hrc & Hin & Hl); split.
  - split; [rewrite Hidx; auto with go|]. intros g. rewrite Hs, Hrc.
    destruct (decide (g = gvk)) as [->|]; [by rewrite lookup_delete_eq, E|].
    by rewrite lookup_delete_ne, Hc.
  - intros g. rewrite Hs, Hin. destruct (decide (g = gvk)) as [->|].
    + rewrite lookup_delete_eq, E, is_Some_alt. done.
    + rewrite lookup_delete_ne by done. apply Hreg.
  - unfold owned. rewrite Hin, Hl. split.
    + intros g e [Hne He]%lookup_delete_Some. destruct (informers r !! gvk) as [e'|] eqn:Hg;
        [|by eapply Hlive]. apply elem_of_difference. split; [by eapply Hlive|].
      intros ->%elem_of_singleton. by apply Hne, (Hinj gvk g e').
    + intros g1 g2 e [_ Hi1]%lookup_delete_Some [_ Hi2]%lookup_delete_Some. by eapply Hinj.
  - split; [rewrite Hidx; auto with go|]. intros g. rewrite Hs, Hrc.
    destruct (decide (g = gvk)) as [->|]; [|by rewrite lookup_insert_ne, Hc].
    rewrite lookup_insert_eq, decide_False by lia. f_equal. lia.
  - intros g. rewrite Hs, Hin. destruct (decide (g = gvk)) as [->|]; [|apply Hreg].
    rewrite (Hreg gvk). lia.
  - unfold owned. by rewrite Hin, Hl.
Qed.

Lemma inv_UnsubscribeAll r owner : reg_inv r → reg_inv (UnsubscribeAll owner r).
Proof.
  unfold UnsubscribeAll. generalize (GVKsByOwner owner (rg_index r)). intros l. revert r.
  induction l as [|g l IH]; intros r Hr; simpl; [done|]. by apply IH, inv_unsubscribeLocked.
Qed.
(** Dropping a list of informers, the loop of the locked part. *)
Abbreviation drops l r := (foldl (λ x ge, drop_informer (fst ge) x) r l).

Lemma drops_fields (l : list (GroupVersionKind * entry)) r :
  live (drops l r) = live r ∧ starting (drops l r) = starting r ∧
  failed (drops l r) = failed r ∧ inflights (drops l r) = inflights r ∧
  rg_metrics (drops l r) = rg_metrics r ∧
  rg_SyncTimeout (drops l r) = rg_SyncTimeout r ∧
  rg_FailureCooldown (drops l r) = rg_FailureCooldown r.
Proof.
  revert r. induction l as [|ge l IH]; intros r; simpl; [done|].
  destruct (IH (drop_informer ge.1 r)) as (-> & -> & -> & -> & -> & -> & ->). by split_and!.
Qed.

Lemma drops_lookup (l : list (GroupVersionKind * entry)) r g :
  informers (drops l r) !! g = (if decide (g ∈ l.*1) then None else informers r !! g) ∧
  refcount (drops l r) !! g = (if decide (g ∈ l.*1) then None else refcount r !! g) ∧
  (∀ owner, subscription (rg_index (drops l r)) g owner =
     if decide (g ∈ l.*1) then None else subscription (rg_index r) g owner) ∧
  scount (drops l r) g = (if decide (g ∈ l.*1) then 0 else scount r g).
Proof.
  revert r. induction l as [|[g' e] l IH]; intros r; [done|].
  rewrite fmap_cons. change (foldl _ r ((g', e) :: l)) with (drops l (drop_informer g' r)).
  destruct (IH (drop_informer g' r)) as (-> & -> & Hsub & ->).
  assert (g ∈ g' :: l.*1 ↔ g = g' ∨ g ∈ l.*1) as Hcons by apply elem_of_cons.
  unfold drop_informer. simpl informers. simpl refcount. simpl rg_index. simpl fst.
  split_and!; [| |intros owner; rewrite Hsub; simpl rg_index; rewrite subscription_ClearGVK
    |rewrite SubscriberCount_ClearGVK];
    destruct (decide (g ∈ l.*1)), (decide (g = g')) as [->|];
    rewrite ?decide_True by tauto; rewrite ?decide_False by tauto;
    rewrite ?lookup_delete_eq, ?lookup_delete_ne by done; done.
Qed.

Lemma coherent_drops (l : list (GroupVersionKind * entry)) r :
  coherent (rg_index r) → coherent (rg_index (drops l r)).
Proof.
  revert r. induction l as [|ge l IH]; intros r Hr; simpl; [done|]. apply IH. simpl. auto with go.
Qed.

Lemma inv_drops (l : list (GroupVersionKind * entry)) r : reg_inv r → reg_inv (drops l r).
Proof.
  intros [[Hcoh Hc] Hreg [Hlive Hinj]]. split.
  - split; [by apply coherent_drops|]. intros g.
    destruct (drops_lookup l r g) as (_ & -> & _ & ->). rewrite Hc. by repeat case_decide.
  - intros g. destruct (drops_lookup l r g) as (-> & _ & _ & ->).
    case_decide; [|apply Hreg]. rewrite is_Some_alt. done.
  - destruct (drops_fields l r) as (Hl & _). unfold owned. rewrite Hl. split.
    + intros g e. destruct (drops_lookup l r g) as (-> & _). case_decide; [done|]. apply Hlive.
    + intros g1 g2 e. destruct (drops_lookup l r g1) as (-> & _), (drops_lookup l r g2) as (-> & _).
      repeat case_decide; try done. apply Hinj.
Qed.

Lemma inv_set_failed f r : reg_inv r → reg_inv (set_failed f r).
Proof. intros [? ? ?]. by split. Qed.
Lemma inv_set_starting f r : reg_inv r → reg_inv (set_starting f r).
Proof. intros [? ? ?]. by split. Qed.
Lemma inv_set_inflights f r : reg_inv r → reg_inv (set_inflights f r).
Proof. intros [? ? ?]. by split. Qed.
Lemma inv_set_rmetrics f r : reg_inv r → reg_inv (set_rmetrics f r).
Proof. intros [? ? ?]. by split. Qed.

Lemma inv_Invalidate_locked group kind r :
  reg_inv r → reg_inv (Invalidate_locked group kind r).2.
Proof. intros Hr. simpl. by apply inv_drops, inv_set_failed. Qed.

(** Stopping entries that no GVK holds. *)
Lemma inv_stop_entry e r :
  reg_inv r → (∀ g, informers r !! g ≠ Some e) → reg_inv (stop_entry e r).
Proof.
  intros [Hc Hreg [Hlive Hinj]] He. split; [done..|]. split; [|done]. simpl.
  intros g e' Hg. apply elem_of_difference. split; [by eapply Hlive|].
  intros ->%elem_of_singleton. by eapply He.
Qed.

(** The GVKs and entries [Invalidate_locked] matched. *)
Lemma Invalidate_matched group kind r g e :
  (g, e) ∈ (Invalidate_locked group kind r).1 ↔
  informers r !! g = Some e ∧ Group g = group ∧ Kind g = kind.
Proof.
  simpl. rewrite list_elem_of_filter, elem_of_map_to_list. simpl. unfold gvk_of.
  rewrite andb_true_iff, !bool_decide_eq_true. tauto.
Qed.

Lemma Invalidate_matched_keys group kind r g :
  reg_inv r →
  g ∈ (Invalidate_locked group kind r).1.*1 ↔
  Group g = group ∧ Kind g = kind ∧ scount r g ≠ 0.
Proof.
  intros [_ Hreg _]. rewrite list_elem_of_fmap. rewrite <- (Hreg g). split.
  - intros ([g' e] & -> & Hin). apply Invalidate_matched in Hin as (Hi & ? & ?). simpl. eauto.
  - intros (Hg & Hk & [e Hi]). exists (g, e). split; [done|]. by apply Invalidate_matched.
Qed.

Abbreviation stops l r := (foldl (λ x ge, stop_entry (snd ge) x) r l).

Lemma stops_fields (l : list (GroupVersionKind * entry)) r :
  informers (stops l r) = informers r ∧ rg_index (stops l r) = rg_index r ∧
  refcount (stops l r) = refcount r ∧ starting (stops l r) = starting r ∧
  failed (stops l r) = failed r ∧ inflights (stops l r) = inflights r ∧
  rg_metrics (stops l r) = rg_metrics r ∧
  live (stops l r) = live r ∖ list_to_set l.*2.
Proof.
  revert r. induction l as [|ge l IH]; intros r; simpl.
  - split_and!; [done..|]. set_solver.
  - destruct (IH (stop_entry ge.2 r)) as (-> & -> & -> & -> & -> & -> & -> & ->).
    split_and!; [done..|]. simpl. set_solver.
Qed.

Lemma inv_stops (l : list (GroupVersionKind * entry)) r :
  reg_inv r → (∀ g e, (g, e) ∈ l → ∀ g', informers r !! g' ≠ Some e) → reg_inv (stops l r).
Proof.
  revert r. induction l as [|[g e] l IH]; intros r Hr Hl; simpl; [done|].
  apply IH; [apply inv_stop_entry; [done|]; apply (Hl g); set_solver|].
  intros g' e' Hin. simpl. apply (Hl g'). set_solver.
Qed.

Lemma delete_gauges_fields (l : list (GroupVersionKind * entry)) r :
  let r' := Invalidate_metrics l r in
  informers r' = informers r ∧ rg_index r' = rg_index r ∧ refcount r' = refcount r ∧
  starting r' = starting r ∧ failed r' = failed r ∧ inflights r' = inflights r ∧
  live r' = live r.
Proof.
  unfold Invalidate_metrics. revert r. induction l as [|ge l IH]; intros r; simpl; [done|].
  by destruct (IH (delete_gauges ge.1 r)) as (-> & -> & -> & -> & -> & -> & ->).
Qed.

(** After the critical section the dropped entries belong to no GVK. *)
Lemma Invalidate_dropped group kind r g e :
  reg_inv r → (g, e) ∈ (Invalidate_locked group kind r).1 →
  e ∈ live r ∧ ∀ g', informers (Invalidate_locked group kind r).2 !! g' ≠ Some e.
Proof.
  intros Hr Hin. destruct (reg_owned _ Hr) as [Hlive Hinj].
  pose proof Hin as (Hi & _)%Invalidate_matched. split; [by eapply Hlive|]. intros g'. simpl.
  destruct (drops_lookup (Invalidate_locked group kind r).1
    (set_failed (filter (λ f, gvk_of group kind f.1 = false)) r) g') as (Hd & _).
  simpl in Hd. rewrite Hd. case_decide as Hk; [done|]. intros He. apply Hk.
  rewrite (Hinj g' g e He Hi). apply list_elem_of_fmap. by exists (g, e).
Qed.

Lemma inv_InvalidateGroupKind group kind r :
  reg_inv r → reg_inv (InvalidateGroupKind group kind r).
Proof.
  intros Hr. unfold InvalidateGroupKind.
  pose proof (inv_Invalidate_locked group kind r Hr) as Hlocked.
  pose proof (λ g e, Invalidate_dropped group kind r g e Hr) as Hdrop.
  destruct (Invalidate_locked group kind r) as [matched r1]. simpl in *.
  assert (reg_inv (Invalidate_stop matched r1)) as [Hc Hreg Ho].
  { apply inv_stops; [done|]. intros g e Hin. by apply (Hdrop g e Hin). }
  destruct (delete_gauges_fields matched (Invalidate_stop matched r1)) as (Hi & Hx & Hf & _ & _ & _ & Hl).
  split; [|by intros g; rewrite Hi, Hx; apply Hreg|].
  - destruct Hc as [Hcoh Hc]. split; [by rewrite Hx|]. intros g. rewrite Hx, Hf. apply Hc.
  - unfold owned. by rewrite Hi, Hl.
Qed.
(** *** Gauges *)

Lemma delete_gauges_lookup gvk r g :
  rg_metrics (delete_gauges gvk r) !! (v_Name Informers, gvk_labels g) =
    (if decide (g = gvk) then None
     else rg_metrics r !! (v_Name Informers, gvk_labels g)) ∧
  rg_metrics (delete_gauges gvk r) !! (v_Name Subscribers_vec, gvk_labels g) =
    (if decide (g = gvk) then None
     else rg_metrics r !! (v_Name Subscribers_vec, gvk_labels g)).
Proof.
  simpl. rewrite !metric_lookup_Delete.
  rewrite (decide_False (P := (v_Name Informers, _) = (v_Name Subscribers_vec, _))) by done.
  rewrite (decide_False (P := (v_Name Subscribers_vec, _) = (v_Name Informers, _))) by done.
  by split; apply decide_ext, gauge_key_eq.
Qed.

Lemma gauged_unsubscribeLocked r gvk owner :
  gauged r → gauged (unsubscribeLocked gvk owner r).
Proof.
  intros Hr. unfold unsubscribeLocked. destruct (hasSubscriberLocked gvk owner r); [|done].
  set (r1 := set_rmetrics _ _).
  assert (∀ g, rg_metrics r1 !! (v_Name Informers, gvk_labels g) = (λ _, 1%Z) <$> informers r !! g ∧
    (g ≠ gvk → rg_metrics r1 !! (v_Name Subscribers_vec, gvk_labels g) = refcount r !! g)) as Hr1.
  { intros g. destruct (Hr g) as [Hg1 Hg2]. unfold r1. simpl.
    rewrite !metric_lookup_Inc, !decide_False by done. by split. }
  assert (informers r1 = informers r) as Hin by done.
  assert (refcount r1 = <[gvk := refcount_of r1 gvk]> (refcount r)) as Hrc.
  { unfold refcount_of at 1, r1. simpl. by rewrite lookup_insert_eq. }
  clearbody r1. destruct (refcount_of r1 gvk <=? 0)%Z.
  - intros g. match goal with |- context [delete_gauges gvk ?r] => set (r2 := r) end.
    destruct (delete_gauges_lookup gvk r2 g) as [Hd1 Hd2], (Hr1 g) as [Hg1 Hg2].
    rewrite Hd1, Hd2.
    assert (rg_metrics r2 = rg_metrics r1) as ->
      by (unfold r2; simpl; by destruct (informers _ !! _)).
    destruct (decide (g = gvk)) as [->|Hne].
    + unfold r2. simpl. destruct (informers r1 !! gvk) eqn:Hi; simpl;
        rewrite ?lookup_delete_eq, ?Hi; done.
    + rewrite Hg1, Hg2 by done. unfold r2. simpl. rewrite <- Hin.
      destruct (informers r1 !! gvk) eqn:Hi; simpl;
        rewrite !lookup_delete_ne, Hrc, ?lookup_insert_ne by done; done.
  - intros g. destruct (Hr1 g) as [Hg1 Hg2]. simpl. rewrite !metric_lookup_Set, Hin, Hrc.
    rewrite decide_False by done. split; [done|]. destruct (decide (g = gvk)) as [->|Hne].
    + by rewrite decide_True, lookup_insert_eq.
    + rewrite decide_False by (by rewrite gauge_key_eq). rewrite lookup_insert_ne by done. auto.
Qed.

Lemma gauged_UnsubscribeAll r owner : gauged r → gauged (UnsubscribeAll owner r).
Proof.
  unfold UnsubscribeAll. generalize (GVKsByOwner owner (rg_index r)). intros l. revert r.
  induction l as [|g l IH]; intros r Hr; simpl; [done|]. by apply IH, gauged_unsubscribeLocked.
Qed.

Lemma Invalidate_metrics_lookup (l : list (GroupVersionKind * entry)) r g :
  rg_metrics (Invalidate_metrics l r) !! (v_Name Informers, gvk_labels g) =
    (if decide (g ∈ l.*1) then None
     else rg_metrics r !! (v_Name Informers, gvk_labels g)) ∧
  rg_metrics (Invalidate_metrics l r) !! (v_Name Subscribers_vec, gvk_labels g) =
    (if decide (g ∈ l.*1) then None
     else rg_metrics r !! (v_Name Subscribers_vec, gvk_labels g)).
Proof.
  unfold Invalidate_metrics. revert r. induction l as [|[g' e] l IH]; intros r; [done|].
  rewrite fmap_cons. simpl foldl. destruct (IH (delete_gauges g' r)) as [-> ->].
  destruct (delete_gauges_lookup g' r g) as [-> ->]. simpl fst.
  assert (g ∈ g' :: l.*1 ↔ g = g' ∨ g ∈ l.*1) as Hcons by apply elem_of_cons.
  destruct (decide (g ∈ l.*1)), (decide (g = g')) as [->|];
    rewrite ?decide_True by tauto; rewrite ?decide_False by tauto; done.
Qed.

Lemma gauged_InvalidateGroupKind group kind r :
  gauged r → gauged (InvalidateGroupKind group kind r).
Proof.
  intros Hr g. unfold InvalidateGroupKind.
  destruct (Invalidate_locked group kind r) as [matched r1] eqn:Hl.
  assert (r1 = drops matched (set_failed (filter (λ f, gvk_of group kind f.1 = false)) r)) as Hr1.
  { unfold Invalidate_locked in Hl. by simplify_eq/=. }
  destruct (Invalidate_metrics_lookup matched (Invalidate_stop matched r1) g) as [-> ->].
  destruct (delete_gauges_fields matched (Invalidate_stop matched r1)) as (-> & _ & -> & _).
  destruct (stops_fields matched r1) as (Hi & _ & Hc & _ & _ & _ & Hm & _).
  unfold Invalidate_stop. rewrite Hi, Hc, Hm, Hr1.
  destruct (drops_lookup matched (set_failed (filter (λ f, gvk_of group kind f.1 = false)) r) g)
    as (-> & -> & _).
  destruct (drops_fields matched (set_failed (filter (λ f, gvk_of group kind f.1 = false)) r))
    as (_ & _ & _ & _ & -> & _).
  simpl. case_decide; [done|]. apply Hr.
Qed.
(** ** What each operation does *)

(** A recent failure keeps [Subscribe] from trying again. *)
Definition cooling r gvk (now : time) : Prop :=
  ∃ f, failed r !! gvk = Some f ∧ (now < fs_at f + cooldown r)%Z.

(** The state in which an owned start runs. *)
Definition claimed r gvk (i : inflight) : Registry :=
  set_starting <[gvk := i]> (set_inflights <[i := Build_startInFlight false None]>
    (set_failed (delete gvk) r)).

Lemma Subscribe_enter_cases r gvk sub now :
  starting r !! gvk = None →
  let '(a, r') := Subscribe_enter gvk sub now r in
  (is_Some (informers r !! gvk) ∧ a = AttemptReturn None ∧ r' = registerLocked gvk sub r) ∨
  (informers r !! gvk = None ∧ cooling r gvk now ∧ (∃ err, a = AttemptReturn (Some err)) ∧
     r' = count_subscribe gvk SubscribeError r) ∨
  (informers r !! gvk = None ∧ ¬ cooling r gvk now ∧
     (∃ i, a = AttemptOwn i ∧ (i ∉ dom (inflights r)) ∧ r' = claimed r gvk i)).
Proof.
  intros Hst. unfold Subscribe_enter, claim_start, cooling.
  destruct (informers r !! gvk) as [e|]; [left; eauto|].
  destruct (failed r !! gvk) as [f|] eqn:Hf.
  - destruct (Z.ltb_spec now (fs_at f + cooldown r)); [right; left; eauto 10|].
    simpl. rewrite Hst. right; right. split_and!; [done| |].
    + intros (f' & [= <-] & ?). lia.
    + eexists. split_and!; [done|apply is_fresh|done].
  - rewrite Hst. right; right. split_and!; [done|by intros (f & ? & _)|].
    eexists. split_and!; [done|apply is_fresh|]. unfold claimed, set_failed, set_inflights. simpl.
    by rewrite delete_id.
Qed.

Lemma subscription_registerLocked r gvk sub g o :
  subscription (rg_index (registerLocked gvk sub r)) g o =
  if decide (g = gvk ∧ o = Owner sub) then Some sub else subscription (rg_index r) g o.
Proof.
  destruct (registerLocked_fields r gvk sub) as (_ & _ & _ & _ & _ & ->).
  apply subscription_Add.
Qed.

Lemma Subscribe_cases r gvk sub outcome now1 now2 :
  reg_inv r → starting r !! gvk = None →
  ∃ err r', Subscribe gvk sub outcome now1 now2 r = Some (err, r') ∧ reg_inv r' ∧
    starting r' = starting r ∧
    (err = None ↔ (is_Some (informers r !! gvk) ∨ (¬ cooling r gvk now1 ∧ outcome = Ok tt))) ∧
    match err with
    | None =>
        (∀ g o, subscription (rg_index r') g o =
           if decide (g = gvk ∧ o = Owner sub) then Some sub
           else subscription (rg_index r) g o) ∧
        (∀ g, g ≠ gvk ∨ is_Some (informers r !! g) → informers r' !! g = informers r !! g) ∧
        is_Some (informers r' !! gvk)
    | Some _ =>
        rg_index r' = rg_index r ∧ informers r' = informers r ∧ live r' = live r ∧
        (cooling r gvk now1 ∧ failed r' = failed r ∨
         ∃ err, outcome = Err err ∧ failed r' !! gvk = Some (Build_failedStart err now2))
    end.
Proof.
  intros Hinv Hst. unfold Subscribe.
  pose proof (Subscribe_enter_cases r gvk sub now1 Hst) as Hc.
  destruct (Subscribe_enter gvk sub now1 r) as [a r1].
  destruct Hc as [(Hrun & -> & ->)|[(Hno & Hcool & [err ->] & ->)|(Hno & Hcool & i & -> & Hi & ->)]].
  - destruct (registerLocked_fields r gvk sub) as (Hin & _ & Hst' & _).
    eexists _, _. split_and!; [done|by apply inv_registerLocked; [apply Hinv..|done|intros; apply Hinv]
      |done|by intuition|].
    split_and!; [apply subscription_registerLocked|by rewrite Hin|by rewrite Hin].
  - eexists _, _. split_and!; [done|by apply inv_set_rmetrics|done| |].
    2: { split_and!; [done..|by left]. }
    rewrite Hno, is_Some_alt. naive_solver.
  - destruct outcome as [[]|err]; simpl.
    + set (e := fresh _). set (r1 := set_live (union {[e]}) (claimed r gvk i)).
      assert (reg_inv r1 ∧ e ∈ live r1 ∧ (∀ g, informers r1 !! g ≠ Some e)) as (Hr1 & He & Hf).
      { assert (e ∉ live r ∪ list_to_set (map_to_list (informers r)).*2) as Hfr by apply is_fresh.
        destruct Hinv as [Hc Hreg [Hlive Hinj]]. split_and!.
        - split; [done|done|split; [|done]]. simpl. intros g e' Hg%Hlive. set_solver.
        - simpl. set_solver.
        - simpl. intros g Hg. apply Hlive in Hg. set_solver. }
      pose proof (inv_Subscribe_finish r1 gvk sub i e now2 Hr1 Hno He Hf) as Hinv'. simpl in Hinv'.
      match goal with |- context [registerLocked gvk sub ?x] => set (r2 := x) in * end.
      destruct (registerLocked_fields r2 gvk sub) as (Hin & _ & Hst' & _).
      eexists _, _. split_and!; [done|by apply inv_set_inflights, inv_set_starting| | |simpl; split_and!].
      * trans (delete gvk (starting (registerLocked gvk sub r2))); [done|].
        rewrite Hst'. simpl. by rewrite delete_insert_id.
      * naive_solver.
      * intros g o. apply (subscription_registerLocked r2).
      * intros g Hg. trans (informers r2 !! g); [by rewrite <- Hin|]. simpl. destruct (decide (g = gvk)) as [->|];
          [|by rewrite lookup_insert_ne]. rewrite Hno, is_Some_alt in Hg. naive_solver.
      * assert (is_Some (informers (registerLocked gvk sub r2) !! gvk)) as Hs; [|done].
        rewrite Hin. simpl. by rewrite lookup_insert_eq.
    + eexists _, _. split_and!; [done| | | |].
      * by apply inv_set_inflights, inv_set_starting, inv_set_rmetrics, inv_set_failed,
          inv_set_inflights, inv_set_starting, inv_set_inflights, inv_set_failed.
      * simpl. by rewrite delete_insert_id.
      * rewrite Hno, is_Some_alt. naive_solver.
      * split_and!; [done..|]. right. exists err. split; [done|]. simpl. by rewrite lookup_insert_eq.
Qed.

(** [Subscribe], run alone, never blocks and preserves the registry's
    invariants. It succeeds exactly when the GVK's informer already runs, or no
    failure is cooling down and the factory starts one; then the owner's
    subscriber is the new one and nothing else changes, a running informer
    included. A failure registers nothing and leaves no informer; it is
    remembered with its time unless an earlier one is still cooling down, in
    which case the factory is not consulted. *)
Theorem Subscribe_spec r gvk sub outcome now1 now2 :
  reg_inv r → starting r !! gvk = None →
  ∃ err r', Subscribe gvk sub outcome now1 now2 r = Some (err, r') ∧ reg_inv r' ∧
    starting r' = starting r ∧
    (err = None ↔ (is_Some (informers r !! gvk) ∨ (¬ cooling r gvk now1 ∧ outcome = Ok tt))) ∧
    match err with
    | None =>
        (∀ g o, subscription (rg_index r') g o =
           if decide (g = gvk ∧ o = Owner sub) then Some sub
           else subscription (rg_index r) g o) ∧
        (∀ g, g ≠ gvk ∨ is_Some (informers r !! g) → informers r' !! g = informers r !! g) ∧
        is_Some (informers r' !! gvk)
    | Some _ =>
        rg_index r' = rg_index r ∧ informers r' = informers r ∧ live r' = live r ∧
        (cooling r gvk now1 ∧ failed r' = failed r ∨
         ∃ err, outcome = Err err ∧ failed r' !! gvk = Some (Build_failedStart err now2))
    end.
Proof. apply Subscribe_cases. Qed.
(** *** Unsubscription *)

(** An informer is kept, or it is dropped and stopped. *)
Definition kept_or_stopped r r' : Prop := ∀ g e, informers r !! g = Some e →
  informers r' !! g = Some e ∨ (informers r' !! g = None ∧ e ∉ live r').

(** Informers are only stopped and dropped together, and only registered ones. *)
Record only_stops r r' : Prop := {
  stops_live : live r' ⊆ live r;
  stops_informers g e : informers r' !! g = Some e → informers r !! g = Some e;
  stops_kept : kept_or_stopped r r';
  stops_others e : e ∈ live r → (∀ g, informers r !! g ≠ Some e) → e ∈ live r';
}.

Lemma only_stops_refl r : only_stops r r.
Proof. split; [done..|by left|done]. Qed.

Lemma only_stops_trans r1 r2 r3 : only_stops r1 r2 → only_stops r2 r3 → only_stops r1 r3.
Proof.
  intros [Hl1 Hi1 Hk1 Ho1] [Hl2 Hi2 Hk2 Ho2]. split; [set_solver|auto| |].
  - intros g e Hg. destruct (Hk1 g e Hg) as [H'|[Hn He]]; [by apply Hk2|]. right.
    split; [|set_solver].
    destruct (informers r3 !! g) as [e'|] eqn:H3; [|done]. apply Hi2 in H3. congruence.
  - intros e He Hno. apply Ho2; [by apply Ho1|]. intros g Hg%Hi1. by eapply Hno.
Qed.

Lemma unsubscribeLocked_only_stops r gvk owner :
  coherent (rg_index r) → owned r → only_stops r (unsubscribeLocked gvk owner r).
Proof.
  intros Hcoh [Hlive Hinj].
  pose proof (unsubscribeLocked_effect r gvk owner Hcoh) as Hcase. cbv zeta in Hcase.
  destruct Hcase as (_ & _ & _ & Hcase).
  destruct (subscription (rg_index r) gvk owner) as [sub|];
    [|rewrite Hcase; apply only_stops_refl].
  set (r' := unsubscribeLocked gvk owner r) in *. destruct Hcase as [_ Hcase].
  case_decide; destruct Hcase as (_ & Hi & Hl); split; unfold kept_or_stopped;
    rewrite ?Hi, ?Hl; [|by intros g e [_ ?]%lookup_delete_Some| | |done|done|by left|done].
  - destruct (informers r !! gvk); set_solver.
  - intros g e Hg. destruct (decide (g = gvk)) as [->|Hne].
    + right. rewrite lookup_delete_eq, Hg. set_solver.
    + left. by rewrite lookup_delete_ne.
  - intros e He Hno. destruct (informers r !! gvk) as [e'|] eqn:Hg; [|done].
    apply elem_of_difference. split; [done|]. intros ->%elem_of_singleton. by eapply Hno.
Qed.

Lemma unsubscribeLocked_subscription r gvk owner g o :
  coherent (rg_index r) →
  subscription (rg_index (unsubscribeLocked gvk owner r)) g o =
  if decide (g = gvk ∧ o = owner) then None else subscription (rg_index r) g o.
Proof.
  intros Hc. pose proof (unsubscribeLocked_effect r gvk owner Hc) as Hcase. cbv zeta in Hcase.
  destruct Hcase as (_ & _ & _ & Hcase).
  destruct (subscription (rg_index r) gvk owner) as [sub|] eqn:Hsub.
  - destruct Hcase as [-> _]. apply subscription_Remove.
  - rewrite Hcase. by case_decide as E; [destruct E as [-> ->]|].
Qed.

Lemma unsubscribes_spec (l : list GroupVersionKind) owner r :
  reg_inv r →
  let r' := foldl (λ r gvk, unsubscribeLocked gvk owner r) r l in
  reg_inv r' ∧ only_stops r r' ∧
  ∀ g o, subscription (rg_index r') g o =
    if decide (g ∈ l ∧ o = owner) then None else subscription (rg_index r) g o.
Proof.
  revert r. induction l as [|gvk l IH]; intros r Hr.
  - split_and!; [done|apply only_stops_refl|].
    intros g o. simpl foldl. by rewrite decide_False by set_solver.
  - destruct (IH (unsubscribeLocked gvk owner r)) as (Hinv & Hstop & Hsub);
      [by apply inv_unsubscribeLocked|]. split_and!; [done| |].
    + eapply only_stops_trans; [apply unsubscribeLocked_only_stops; apply Hr|done].
    + intros g o. rewrite Hsub, unsubscribeLocked_subscription by apply Hr.
      assert (g ∈ gvk :: l ↔ g = gvk ∨ g ∈ l) as Hcons by apply elem_of_cons.
      repeat case_decide; naive_solver.
Qed.

(** [UnsubscribeAll] ends every subscription of the owner and no other; an
    informer keeps running exactly while another owner is subscribed to its GVK,
    and every informer it drops is stopped. *)
Theorem UnsubscribeAll_spec r owner :
  reg_inv r →
  let r' := UnsubscribeAll owner r in
  reg_inv r' ∧
  (∀ g o, subscription (rg_index r') g o =
     if decide (o = owner) then None else subscription (rg_index r) g o) ∧
  (∀ g e, informers r !! g = Some e →
     ((∃ o, o ≠ owner ∧ is_Some (subscription (rg_index r) g o)) →
        informers r' !! g = Some e) ∧
     ((∀ o, is_Some (subscription (rg_index r) g o) → o = owner) →
        informers r' !! g = None ∧ (e ∉ live r'))).
Proof.
  intros Hr. unfold UnsubscribeAll. set (l := GVKsByOwner owner (rg_index r)).
  destruct (unsubscribes_spec l owner r Hr) as (Hinv & [_ _ Hkept _] & Hsub). cbv zeta in *.
  set (r' := foldl _ r l) in *.
  assert (∀ g o, subscription (rg_index r') g o =
     if decide (o = owner) then None else subscription (rg_index r) g o) as Hsub'.
  { intros g o. rewrite Hsub. destruct (decide (o = owner)) as [->|]; [|by rewrite decide_False by tauto].
    case_decide as Hd; [done|]. apply eq_None_not_Some. rewrite <- GVKsByOwner_spec by apply Hr.
    tauto. }
  split_and!; [done..|]. intros g e Hg.
  assert (is_Some (informers r' !! g) ↔
    ∃ o, o ≠ owner ∧ is_Some (subscription (rg_index r) g o)) as Hiff.
  { rewrite (reg_registered _ Hinv g), SubscriberCount_exists. setoid_rewrite Hsub'.
    split; intros [o Ho]; exists o; case_decide; rewrite ?is_Some_alt in *; naive_solver. }
  destruct (Hkept g e Hg) as [Hk|[Hn Hst]].
  - split; [done|]. intros Hall. exfalso. destruct Hiff as [(o & Hne & Ho%Hall) _]; eauto.
  - split; [|done]. intros [e' He']%Hiff. congruence.
Qed.
(** *** Invalidation *)

(** [InvalidateGroupKind] ends every subscription to every version of the
    kind, stops and drops their informers and forgets their failures; nothing
    about other kinds changes. No later [Subscribe] of the kind is cooling down. *)
Theorem InvalidateGroupKind_spec group kind r :
  reg_inv r →
  let r' := InvalidateGroupKind group kind r in
  reg_inv r' ∧
  (∀ g, Group g = group → Kind g = kind →
     informers r' !! g = None ∧ (∀ o, subscription (rg_index r') g o = None) ∧
     (∀ e, informers r !! g = Some e → e ∉ live r') ∧ (∀ now, ¬ cooling r' g now)) ∧
  (∀ g, ¬ (Group g = group ∧ Kind g = kind) →
     informers r' !! g = informers r !! g ∧ failed r' !! g = failed r !! g ∧
     (∀ o, subscription (rg_index r') g o = subscription (rg_index r) g o)).
Proof.
  intros Hr. pose proof (inv_InvalidateGroupKind group kind r Hr) as Hinv.
  unfold InvalidateGroupKind, cooling in *. pose proof (Invalidate_matched group kind r) as Hm.
  pose proof (λ g, Invalidate_matched_keys group kind r g Hr) as Hk.
  set (r0 := set_failed (filter (λ f, gvk_of group kind f.1 = false)) r) in *.
  assert ((Invalidate_locked group kind r).2 = drops (Invalidate_locked group kind r).1 r0) as E2
    by done.
  destruct (Invalidate_locked group kind r) as [matched r1]. simpl in Hm, Hk, E2.
  assert (informers r1 = informers (drops matched r0) ∧ failed r1 = failed r0 ∧
    rg_index r1 = rg_index (drops matched r0)) as (Di & Df & Dx).
  { destruct (drops_fields matched r0) as (_ & _ & Df & _). by rewrite E2, Df. }
  destruct (stops_fields matched r1) as (Si & Sx & _ & _ & Sf & _ & _ & Sl).
  fold (Invalidate_stop matched r1) in Si, Sx, Sf, Sl.
  destruct (delete_gauges_fields matched (Invalidate_stop matched r1))
    as (Hi & Hx & _ & _ & Hf & _ & Hl). cbv zeta in *.
  rewrite Si, Di in Hi. rewrite Sx, Dx in Hx. rewrite Sf, Df in Hf. rewrite Sl in Hl.
  clear Si Sx Sf Sl Di Dx Df E2.
  split; [done|]. split.
  - intros g Hg Hkd. rewrite Hi, Hx, Hf, Hl.
    destruct (drops_lookup matched r0 g) as (Hdi & _ & Hds & _).
    assert (g ∉ matched.*1 → SubscriberCount g (rg_index r) = 0) as Hz.
    { rewrite Hk. intros Hn. destruct (decide (SubscriberCount g (rg_index r) = 0)); tauto. }
    split_and!.
    + rewrite Hdi. case_decide; [done|]. apply eq_None_not_Some.
      change (informers r0) with (informers r). rewrite (reg_registered _ Hr g), Hz by done. tauto.
    + intros o. rewrite Hds. case_decide; [done|]. apply scount_zero; [apply Hr|by apply Hz].
    + intros e He. apply not_elem_of_difference. right. apply elem_of_list_to_set, list_elem_of_fmap.
      exists (g, e). split; [done|]. by apply Hm.
    + intros now (f & [_ Hgk]%map_lookup_filter_Some & _). simpl in Hgk. unfold gvk_of in Hgk.
      by rewrite !bool_decide_true in Hgk by done.
  - intros g Hg. rewrite Hi, Hx, Hf.
    destruct (drops_lookup matched r0 g) as (Hdi & _ & Hds & _).
    assert (g ∉ matched.*1) as Hnk by (rewrite Hk; tauto).
    split_and!.
    + by rewrite Hdi, decide_False.
    + simpl. apply option_eq. intros f. rewrite map_lookup_filter_Some. simpl. unfold gvk_of.
      rewrite andb_false_iff, !bool_decide_eq_false. split; [tauto|]. intros Hff. split; [done|].
      destruct (decide (Group g = group)); tauto.
    + intros o. by rewrite Hds, decide_False.
Qed.

(** *** Shutdown *)

Lemma shutdown_fold (l : list (GroupVersionKind * entry)) r :
  let r' := foldl (λ r ge, delete_gauges ge.1 (set_informers (delete ge.1) (stop_entry ge.2 r))) r l in
  live r' = live r ∖ list_to_set l.*2 ∧
  (∀ g, informers r' !! g = if decide (g ∈ l.*1) then None else informers r !! g) ∧
  (∀ g, g ∈ l.*1 → rg_metrics r' !! (v_Name Informers, gvk_labels g) = None) ∧
  (∀ g, rg_metrics r !! (v_Name Informers, gvk_labels g) = None →
     rg_metrics r' !! (v_Name Informers, gvk_labels g) = None).
Proof.
  revert r. induction l as [|[g' e] l IH]; intros r.
  - simpl foldl. split_and!; [set_solver| |set_solver|done]. intros g. by rewrite decide_False by set_solver.
  - simpl foldl. set (r1 := delete_gauges g' _).
    destruct (IH r1) as (Hl & Hi & Hm1 & Hm2). cbv zeta in *. set (r' := foldl _ r1 l) in *.
    assert (∀ g, rg_metrics r1 !! (v_Name Informers, gvk_labels g) =
      if decide (g = g') then None else rg_metrics r !! (v_Name Informers, gvk_labels g)) as Hr1.
    { intros g. unfold r1. by destruct (delete_gauges_lookup g' (set_informers (delete g') (stop_entry e r)) g) as [-> _]. }
    split_and!.
    + rewrite Hl. simpl. set_solver.
    + intros g. rewrite Hi. simpl informers.
      assert (g ∈ ((g', e) :: l).*1 ↔ g = g' ∨ g ∈ l.*1) as Hcons by apply elem_of_cons.
      destruct (decide (g ∈ l.*1)), (decide (g = g')) as [->|];
        rewrite ?decide_True by tauto; rewrite ?decide_False by tauto;
        rewrite ?lookup_delete_eq, ?lookup_delete_ne by done; done.
    + intros g [->|Hin]%elem_of_cons; [|auto]. simpl. apply Hm2. by rewrite Hr1, decide_True.
    + intros g Hg. apply Hm2. rewrite Hr1. by case_decide.
Qed.

(** when the manager shuts down, [Start] leaves no informer registered, none
    of the registered ones running, no refcount, and no informer gauge. *)
Theorem Start_shutdown_spec r :
  gauged r →
  let r' := Start_shutdown r in
  informers r' = ∅ ∧ refcount r' = ∅ ∧
  (∀ g e, informers r !! g = Some e → e ∉ live r') ∧
  (∀ g, rg_metrics r' !! (v_Name Informers, gvk_labels g) = None).
Proof.
  intros Hg. unfold Start_shutdown.
  destruct (shutdown_fold (map_to_list (informers r)) r) as (Hl & Hi & Hm1 & Hm2). cbv zeta in *.
  set (r' := foldl _ r _) in *. simpl.
  assert (∀ g, g ∈ (map_to_list (informers r)).*1 ↔ is_Some (informers r !! g)) as Hkeys.
  { intros g. rewrite list_elem_of_fmap. split.
    - intros ([g' e] & -> & Hin%elem_of_map_to_list). simpl. eauto.
    - intros [e He]. exists (g, e). by rewrite elem_of_map_to_list. }
  split_and!; [|done| |].
  - apply map_eq. intros g. rewrite Hi, lookup_empty. case_decide as Hin; [done|].
    rewrite Hkeys in Hin. by apply eq_None_not_Some.
  - intros g e He. rewrite Hl. apply not_elem_of_difference. right.
    apply elem_of_list_to_set, list_elem_of_fmap. exists (g, e). by rewrite elem_of_map_to_list.
  - intros g. destruct (decide (g ∈ (map_to_list (informers r)).*1)) as [Hin|Hin]; [by apply Hm1|].
    apply Hm2. destruct (Hg g) as [-> _]. rewrite Hkeys in Hin.
    by apply eq_None_not_Some in Hin as ->.
Qed.

Lemma shutdown_frame (l : list (GroupVersionKind * entry)) r :
  let r' := foldl (λ r ge, delete_gauges ge.1 (set_informers (delete ge.1) (stop_entry ge.2 r))) r l in
  rg_index r' = rg_index r ∧ starting r' = starting r ∧ inflights r' = inflights r ∧ enqueued r' = enqueued r.
Proof.
  revert r. induction l as [|ge l IH]; intros r; [done|].
  destruct (IH (delete_gauges ge.1 (set_informers (delete ge.1) (stop_entry ge.2 r)))) as (Hx & Hs & Hf & Hq).
  cbv zeta in *. simpl foldl. by rewrite Hx, Hs, Hf, Hq.
Qed.

Lemma Start_shutdown_fields r :
  rg_index (Start_shutdown r) = rg_index r ∧ starting (Start_shutdown r) = starting r ∧
  inflights (Start_shutdown r) = inflights r ∧ enqueued (Start_shutdown r) = enqueued r ∧
  informers (Start_shutdown r) = ∅ ∧ refcount (Start_shutdown r) = ∅ ∧
  ∀ e, e ∈ live (Start_shutdown r) ↔ e ∈ live r ∧ ∀ g, informers r !! g ≠ Some e.
Proof.
  unfold Start_shutdown. destruct (shutdown_frame (map_to_list (informers r)) r) as (Hx & Hs & Hf & Hq).
  destruct (shutdown_fold (map_to_list (informers r)) r) as (Hl & Hi & _). cbv zeta in *.
  set (r' := foldl _ r _) in *. simpl. split_and!; [done..| |done|].
  - apply map_eq. intros g. rewrite Hi, lookup_empty. case_decide as Hin; [done|].
    apply eq_None_not_Some. intros [e He]. apply Hin, list_elem_of_fmap. exists (g, e).
    by rewrite elem_of_map_to_list.
  - intros e. rewrite Hl, elem_of_difference, elem_of_list_to_set, list_elem_of_fmap. apply and_iff_compat_l.
    split.
    + intros Hn g Hg. apply Hn. exists (g, e). by rewrite elem_of_map_to_list.
    + intros Hn ([g e'] & -> & Hin%elem_of_map_to_list). by destruct (Hn g).
Qed.

(** *** What shutdown leaves of the invariant

    After shutdown the index still holds the subscriptions, while the informers
    and the refcounts are gone: [reg_inv] no longer holds. What every operation
    keeps from then on is that no refcount exceeds the number of subscribers and
    no kind without subscribers has an informer. *)
Record reg_safe r : Prop := {
  safe_coherent : coherent (rg_index r);
  safe_refcount g n : refcount r !! g = Some n → (0 < n <= Z.of_nat (scount r g))%Z;
  safe_informer g : is_Some (informers r !! g) → scount r g ≠ 0;
  safe_owned : owned r;
}.

Lemma reg_inv_safe r : reg_inv r → reg_safe r.
Proof.
  intros [[Hcoh Hc] Hreg Ho]. split; [done| |intros g; by apply Hreg|done].
  intros g n. rewrite Hc. case_decide; [done|]. intros [= <-]. lia.
Qed.

Lemma safe_same r r' :
  rg_index r' = rg_index r → refcount r' = refcount r → informers r' = informers r → live r' = live r →
  reg_safe r → reg_safe r'.
Proof.
  intros Hx Hc Hi Hl [Hcoh Hrc Hin Ho]. split; unfold owned in *; by rewrite ?Hx, ?Hc, ?Hi, ?Hl.
Qed.

Lemma refcount_of_safe r g : reg_safe r → (refcount_of r g <= Z.of_nat (scount r g))%Z.
Proof.
  intros Hr. unfold refcount_of. destruct (refcount r !! g) as [n|] eqn:Hg; simpl; [|lia].
  apply (safe_refcount _ Hr) in Hg. lia.
Qed.

Lemma safe_registerLocked r gvk sub :
  coherent (rg_index r) → (∀ g n, refcount r !! g = Some n → (0 < n <= Z.of_nat (scount r g))%Z) →
  (∀ g, g ≠ gvk → is_Some (informers r !! g) → scount r g ≠ 0) → owned r →
  reg_safe (registerLocked gvk sub r).
Proof.
  intros Hcoh Hrc Hin Ho. destruct (registerLocked_fields r gvk sub) as (Hi & Hl & _ & _ & _ & Hx).
  pose proof (SubscriberCount_pos (rg_index r) gvk (Owner sub)) as Hpos. split.
  - rewrite Hx. auto with go.
  - intros g n. rewrite scount_registerLocked. unfold registerLocked. simpl. rewrite Has_spec by done.
    destruct (subscription (rg_index r) gvk (Owner sub)) as [s|].
    + rewrite bool_decide_true by eauto. simpl. intros Hn%Hrc. by case_decide; subst.
    + rewrite bool_decide_false by (by intros []). simpl. destruct (decide (g = gvk)) as [->|].
      * rewrite lookup_insert_eq. intros [= <-]. unfold refcount_of.
        destruct (refcount r !! gvk) as [m|] eqn:Hm; simpl; [apply Hrc in Hm|]; lia.
      * rewrite lookup_insert_ne by done. apply Hrc.
  - intros g. rewrite scount_registerLocked, Hi. case_decide as E; [subst|by apply Hin].
    destruct (subscription _ _ _); [|done]. intros _ Hz. specialize (Hpos ltac:(eauto)). lia.
  - unfold owned. by rewrite Hi, Hl.
Qed.

Lemma safe_Subscribe_finish r gvk sub i e now :
  reg_safe r → e ∈ live r → (∀ g, informers r !! g ≠ Some e) →
  reg_safe (Subscribe_finish gvk sub i (Ok e) now r).2.
Proof.
  intros [Hcoh Hrc Hin [Hlive Hinj]] He Hfresh. simpl. apply safe_registerLocked; simpl; [done..| |].
  - intros g Hg. rewrite lookup_insert_ne by done. apply Hin.
  - split; simpl.
    + intros g e' [[_ <-]|[_ Hl]]%lookup_insert_Some; [done|by eapply Hlive].
    + intros g1 g2 e' [[<- <-]|[Hn1 Hi1]]%lookup_insert_Some [[<- E]|[Hn2 Hi2]]%lookup_insert_Some;
        [done|by destruct (Hfresh g2)|subst; by destruct (Hfresh g1)|by eapply Hinj].
Qed.

Lemma safe_unsubscribeLocked r gvk owner : reg_safe r → reg_safe (unsubscribeLocked gvk owner r).
Proof.
  intros Hr. pose proof (refcount_of_safe r gvk Hr) as Hle. destruct Hr as [Hcoh Hrc Hreg [Hlive Hinj]].
  pose proof (unsubscribeLocked_effect r gvk owner Hcoh) as Hcase. cbv zeta in Hcase.
  destruct Hcase as (_ & _ & _ & Hcase).
  destruct (subscription (rg_index r) gvk owner) as [sub|] eqn:Hsub; [|by rewrite Hcase; split].
  set (r' := unsubscribeLocked gvk owner r) in *. destruct Hcase as [Hidx Hcase].
  assert (∀ g, scount r' g = if decide (g = gvk) then pred (scount r gvk) else scount r g) as Hs.
  { intros g. rewrite Hidx, SubscriberCount_Remove, Hsub. done. }
  assert (coherent (rg_index r')) as Hcoh' by (rewrite Hidx; auto with go).
  case_decide as E; destruct Hcase as (Hc & Hi & Hl); split; [done|..|done| | |]; unfold owned; rewrite ?Hl, ?Hi.
  - intros g n. rewrite Hc, Hs, lookup_delete_Some. intros [Hne Hn]. rewrite decide_False by done. by apply Hrc.
  - intros g. rewrite Hs, lookup_delete_is_Some. intros [Hne Hn]. rewrite decide_False by done. by apply Hreg.
  - split.
    + intros g e [Hne He]%lookup_delete_Some. destruct (informers r !! gvk) as [e'|] eqn:Hg;
        [|by eapply Hlive]. apply elem_of_difference. split; [by eapply Hlive|].
      intros ->%elem_of_singleton. by apply Hne, (Hinj gvk g e').
    + intros g1 g2 e [_ Hi1]%lookup_delete_Some [_ Hi2]%lookup_delete_Some. by eapply Hinj.
  - intros g n. rewrite Hc, Hs, lookup_insert_Some. intros [[<- <-]|[Hne Hn]].
    + rewrite decide_True by done. lia.
    + rewrite decide_False by done. by apply Hrc.
  - intros g Hg%Hreg. rewrite Hs. case_decide; subst; [lia|done].
  - done.
Qed.

Lemma safe_drop_informer gvk r : reg_safe r → reg_safe (drop_informer gvk r).
Proof.
  intros [Hcoh Hrc Hreg [Hlive Hinj]]. unfold drop_informer. split; simpl.
  - auto with go.
  - intros g n. rewrite SubscriberCount_ClearGVK, lookup_delete_Some. intros [Hne Hn].
    rewrite decide_False by done. by apply Hrc.
  - intros g. rewrite SubscriberCount_ClearGVK, lookup_delete_is_Some. intros [Hne Hn].
    rewrite decide_False by done. by apply Hreg.
  - split; simpl; [intros g e [_ Hg]%lookup_delete_Some; by eapply Hlive|].
    intros g1 g2 e [_ Hi1]%lookup_delete_Some [_ Hi2]%lookup_delete_Some. by eapply Hinj.
Qed.

Lemma safe_stop_entry e r : reg_safe r → (∀ g, informers r !! g ≠ Some e) → reg_safe (stop_entry e r).
Proof.
  intros [Hcoh Hrc Hreg [Hlive Hinj]] He. split; [done..|]. split; [|done]. simpl.
  intros g e' Hg. apply elem_of_difference. split; [by eapply Hlive|].
  intros ->%elem_of_singleton. by eapply He.
Qed.

Lemma safe_shutdown r : reg_safe r → reg_safe (Start_shutdown r).
Proof.
  intros Hr. destruct (Start_shutdown_fields r) as (Hx & _ & _ & _ & Hi & Hc & _).
  split; unfold owned; rewrite ?Hx, ?Hi, ?Hc; [apply Hr|by intros g n ?%lookup_empty_Some|..].
  - by intros g [e ?%lookup_empty_Some].
  - split; [by intros g e ?%lookup_empty_Some|by intros g1 g2 e ?%lookup_empty_Some].
Qed.

Lemma shutdown_only_stops r : only_stops r (Start_shutdown r).
Proof.
  destruct (Start_shutdown_fields r) as (_ & _ & _ & _ & Hi & _ & Hl). split.
  - intros e He. by apply Hl in He as [? _].
  - intros g e. rewrite Hi. by intros ?%lookup_empty_Some.
  - intros g e Hg. right. rewrite Hi, Hl. split; [done|]. intros [_ Hn]. by destruct (Hn g).
  - intros e He Hn. by apply Hl.
Qed.

(** *** Dispatch *)

Lemma enqueue_fold (l : list OwnerKey) r :
  foldl (λ r owner, set_enqueued (λ q, q ++ [owner]) r) r l = set_enqueued (λ q, q ++ l) r.
Proof.
  revert r. induction l as [|o l IH]; intros r; simpl.
  - unfold set_enqueued. rewrite app_nil_r. by destruct r.
  - rewrite IH. unfold set_enqueued. simpl. by rewrite <- app_assoc.
Qed.

(** one informer event wakes exactly the owners subscribed to the GVK with a
    matcher admitting the object (or with none), each once, whatever the event;
    it registers and drops nothing. *)
Theorem dispatch_spec gvk ev obj r :
  coherent (rg_index r) →
  ∃ woken, enqueued (dispatch gvk ev obj r) = enqueued r ++ woken ∧ NoDup woken ∧
    (∀ o, o ∈ woken ↔ ∃ sub, subscription (rg_index r) gvk o = Some sub ∧
       (Matchers sub = [] ∨ ∃ m, m ∈ Matchers sub ∧ Matcher_Admit m obj = true)) ∧
    rg_index (dispatch gvk ev obj r) = rg_index r ∧
    informers (dispatch gvk ev obj r) = informers r.
Proof.
  intros Hc. exists (Subscribers gvk obj (rg_index r)). unfold dispatch. rewrite enqueue_fold. simpl.
  split_and!; [done|by apply Subscribers_NoDup| |done..]. intros o. rewrite Subscribers_spec by done.
  unfold Subscriber_Match. apply exist_proper. intros sub. apply and_iff_compat_l.
  destruct (Matchers sub) as [|m ms]; [naive_solver|]. rewrite existsb_elem. naive_solver.
Qed.
(** ** Calls one after another *)

Inductive registry_op :=
  | CallSubscribe (gvk : GroupVersionKind) (sub : Subscriber) (outcome : result unit)
      (now1 now2 : time)
  | CallUnsubscribe (gvk : GroupVersionKind) (owner : OwnerKey)
  | CallUnsubscribeAll (owner : OwnerKey)
  | CallInvalidate (group kind : string)
  | CallDispatch (gvk : GroupVersionKind) (ev : EventType) (obj : Unstructured).

Definition registry_call r (op : registry_op) : Registry :=
  match op with
  | CallSubscribe gvk sub outcome now1 now2 =>
      match Subscribe gvk sub outcome now1 now2 r with Some (_, r') => r' | None => r end
  | CallUnsubscribe gvk owner => Unsubscribe gvk owner r
  | CallUnsubscribeAll owner => UnsubscribeAll owner r
  | CallInvalidate group kind => InvalidateGroupKind group kind r
  | CallDispatch gvk ev obj => dispatch gvk ev obj r
  end.

Definition quiescent r : Prop := reg_inv r ∧ gauged r ∧ starting r = ∅.

Lemma gauged_rmetrics f r :
  gauged r →
  (∀ v g, v = v_Name Informers ∨ v = v_Name Subscribers_vec →
     f (rg_metrics r) !! (v, gvk_labels g) = rg_metrics r !! (v, gvk_labels g)) →
  gauged (set_rmetrics f r).
Proof. intros Hr Hf g. simpl. rewrite !Hf by auto. apply Hr. Qed.

Lemma gauged_count gvk res r : gauged r → gauged (count_subscribe gvk res r).
Proof.
  intros Hr. apply gauged_rmetrics; [done|]. intros v g Hv. rewrite metric_lookup_Inc.
  by rewrite decide_False by (destruct Hv as [->| ->]; done).
Qed.

Lemma quiescent_Subscribe gvk sub outcome now1 now2 r :
  quiescent r → quiescent (registry_call r (CallSubscribe gvk sub outcome now1 now2)).
Proof.
  intros (Hinv & Hg & Hst).
  assert (starting r !! gvk = None) as Hno by by rewrite Hst, lookup_empty.
  destruct (Subscribe_cases r gvk sub outcome now1 now2 Hinv Hno)
    as (err & r' & Hs & Hinv' & Hst' & _). simpl.
  rewrite Hs. split_and!; [done| |by rewrite Hst']. revert Hs. unfold Subscribe.
  pose proof (Subscribe_enter_cases r gvk sub now1 Hno) as Hc.
  destruct (Subscribe_enter gvk sub now1 r) as [a r1].
  destruct Hc as [(_ & -> & ->)|[(_ & _ & [err' ->] & ->)|(_ & _ & i & -> & _ & ->)]].
  - intros [= _ <-]. by apply gauged_registerLocked.
  - intros [= _ <-]. by apply gauged_count.
  - destruct (factory_Start outcome (claimed r gvk i)) as [res r2] eqn:Hf.
    assert (gauged r2) as Hg2.
    { unfold factory_Start in Hf. destruct outcome; simplify_eq; apply Hg. }
    pose proof (gauged_Subscribe_finish r2 gvk sub i res now2 Hg2) as Hg3.
    destruct (Subscribe_finish _ _ _ _ _ _) as [err' r3]. intros [= _ <-]. apply Hg3.
Qed.

Lemma starting_InvalidateGroupKind group kind r :
  starting (InvalidateGroupKind group kind r) = starting r.
Proof.
  unfold InvalidateGroupKind. simpl.
  match goal with |- context [Invalidate_metrics ?l ?r] =>
    destruct (delete_gauges_fields l r) as (_ & _ & _ & -> & _) end.
  unfold Invalidate_stop.
  match goal with |- context [stops ?l ?r] =>
    destruct (stops_fields l r) as (_ & _ & _ & -> & _) end.
  match goal with |- context [drops ?l ?r] =>
    destruct (drops_fields l r) as (_ & -> & _) end. done.
Qed.

Lemma inv_dispatch gvk ev obj r :
  reg_inv r → reg_inv (dispatch gvk ev obj r) ∧ starting (dispatch gvk ev obj r) = starting r.
Proof.
  intros Hinv. unfold dispatch. rewrite enqueue_fold. split; [|done].
  apply inv_set_rmetrics. destruct Hinv. by split.
Qed.

Lemma quiescent_call op r : quiescent r → quiescent (registry_call r op).
Proof.
  destruct op as [gvk sub outcome now1 now2|gvk owner|owner|group kind|gvk ev obj].
  - apply quiescent_Subscribe.
  - intros (Hinv & Hg & Hst). split_and!; simpl.
    + by apply inv_unsubscribeLocked.
    + by apply gauged_unsubscribeLocked.
    + destruct (unsubscribeLocked_cases r gvk owner (reg_counted _ Hinv)) as [Hs _].
      unfold Unsubscribe. by rewrite Hs.
  - intros (Hinv & Hg & Hst). split_and!; simpl.
    + by apply inv_UnsubscribeAll.
    + by apply gauged_UnsubscribeAll.
    + rewrite <- Hst. unfold UnsubscribeAll. clear Hg Hst.
      generalize (GVKsByOwner owner (rg_index r)). intros l. revert r Hinv.
      induction l as [|gvk l IH]; intros r Hinv; simpl; [done|].
      rewrite IH by by apply inv_unsubscribeLocked.
      by destruct (unsubscribeLocked_cases r gvk owner (reg_counted _ Hinv)) as [Hs _].
  - intros (Hinv & Hg & Hst). split_and!; simpl.
    + by apply inv_InvalidateGroupKind.
    + by apply gauged_InvalidateGroupKind.
    + by rewrite starting_InvalidateGroupKind.
  - intros (Hinv & Hg & Hst). simpl. destruct (inv_dispatch gvk ev obj r Hinv) as [Hinv' Hst'].
    split_and!; [done| |by rewrite Hst']. unfold dispatch. rewrite enqueue_fold.
    apply gauged_rmetrics; [apply (gauged_rmetrics _ r)|]; [done| |];
      intros v g Hv; simpl; [|unfold ObserveDispatch]; rewrite metric_lookup_Inc;
      by rewrite decide_False by (destruct Hv as [->| ->]; done).
Qed.

Lemma quiescent_run syncTimeout failureCooldown ops :
  quiescent (foldl registry_call (NewRegistry syncTimeout failureCooldown) ops).
Proof.
  assert (quiescent (NewRegistry syncTimeout failureCooldown)) as Hnew.
  { split_and!; [|intros g; done|done]. split.
    - split; [apply coherent_New|]. done.
    - intros g. simpl. rewrite lookup_empty, is_Some_alt. done.
    - by split. }
  revert Hnew. generalize (NewRegistry syncTimeout failureCooldown).
  induction ops as [|op l IH]; intros r Hr; simpl; [done|]. by apply IH, quiescent_call.
Qed.

(** after any sequence of calls on a new registry, every refcount is the
    number of the GVK's subscribers, a GVK has an informer (its own, running)
    exactly while it has subscribers, no start is left in flight, and the
    informers and subscribers gauges report exactly the informers and
    refcounts. *)
Theorem registry_invariant syncTimeout failureCooldown ops :
  let r := foldl registry_call (NewRegistry syncTimeout failureCooldown) ops in
  reg_inv r ∧ starting r = ∅ ∧
  (∀ g, rg_metrics r !! (v_Name Informers, gvk_labels g) =
          (if decide (scount r g = 0) then None else Some 1%Z) ∧
        rg_metrics r !! (v_Name Subscribers_vec, gvk_labels g) =
          (if decide (scount r g = 0) then None else Some (Z.of_nat (scount r g)))).
Proof.
  cbv zeta. destruct (quiescent_run syncTimeout failureCooldown ops) as (Hinv & Hg & Hst).
  split_and!; [done..|]. intros g.
  destruct (Hg g) as [-> ->]. destruct (reg_counted _ Hinv) as [_ Hc]. split; [|apply Hc].
  pose proof (reg_registered _ Hinv g) as Hreg. case_decide as Hz.
  - destruct (informers _ !! g); [|done]. exfalso. apply Hreg; eauto.
  - apply Hreg in Hz as [e ->]. done.
Qed.
End invariants.

(** ** A concrete registry: two owners share a GVK, one has a second GVK *)
Module RegistryFix.
#[local] Existing Instance Fix.labels.
#[local] Existing Instance Fix.unstructured.
#[local] Existing Instance Fix.formatting.

Definition pods : GroupVersionKind := GVK "" "v1" "Pod".
Definition widgets : GroupVersionKind := GVK "x.io" "v1" "Widget".
Definition alice : OwnerKey := Build_OwnerKey "Milestone" "ns" "alice".
Definition bob : OwnerKey := Build_OwnerKey "ClusterMilestone" "" "bob".
Definition app_matcher (app : string) : Matcher := Build_Matcher (Some [("app", app)]) None.

Definition history : list registry_op :=
  [ CallSubscribe pods (Build_Subscriber alice [app_matcher "a"]) (Ok tt) 0 1;
    CallSubscribe pods (Build_Subscriber bob []) (Ok tt) 2 3;
    CallSubscribe widgets (Build_Subscriber alice []) (Err (errors_New "no sync")) 4 5;
    CallSubscribe widgets (Build_Subscriber alice []) (Ok tt) 6 7;
    CallSubscribe widgets (Build_Subscriber alice []) (Ok tt) 100000000000 100000000001 ].

Definition shared : Registry := foldl registry_call (NewRegistry 0 0) history.

Definition pod : Unstructured := Fix.Build_object pods "ns" "p" {["app" := "b"]} false "Current" "".

(** The failure cools down for the default 30 seconds, then the start is retried. *)
Example shared_shape :
  (refcount_of shared pods, refcount_of shared widgets, size (live shared),
   Subscribers pods pod (rg_index shared)) = (2%Z, 1%Z, 2, [bob]).
Proof. vm_compute. reflexivity. Qed.

Lemma quiescent_shared : quiescent shared.
Proof. apply quiescent_run. Qed.

Lemma Subscribe_spec_witness :
  ∃ err r', Subscribe pods (Build_Subscriber bob []) (Ok tt) 0 1 shared = Some (err, r') ∧
    reg_inv r'.
Proof.
  destruct (Subscribe_spec shared pods (Build_Subscriber bob []) (Ok tt) 0 1)
    as (err & r' & Hs & Hinv & _).
  - apply quiescent_shared.
  - rewrite (proj2 (proj2 quiescent_shared)). reflexivity.
  - by exists err, r'.
Defined.

(** bob keeps the informer alice leaves. *)
Lemma UnsubscribeAll_spec_witness :
  informers shared !! pods = Some 0 ∧
  ∀ e, informers shared !! pods = Some e → informers (UnsubscribeAll alice shared) !! pods = Some e.
Proof.
  split; [vm_compute; reflexivity|].
  destruct (UnsubscribeAll_spec shared alice (proj1 quiescent_shared)) as (_ & _ & Hi).
  intros e He. apply (Hi pods e He). exists bob. split; [done|].
  exists (Build_Subscriber bob []). vm_compute. reflexivity.
Defined.

Lemma InvalidateGroupKind_spec_witness :
  informers (InvalidateGroupKind "x.io" "Widget" shared) !! widgets = None ∧
  informers (InvalidateGroupKind "x.io" "Widget" shared) !! pods = informers shared !! pods.
Proof.
  destruct (InvalidateGroupKind_spec "x.io" "Widget" shared (proj1 quiescent_shared))
    as (_ & Hin & Hout).
  split; [by apply Hin|]. apply Hout. by intros [? _].
Defined.

Lemma Start_shutdown_spec_witness : informers (Start_shutdown shared) = ∅.
Proof. apply (Start_shutdown_spec shared (proj1 (proj2 quiescent_shared))). Defined.

Lemma dispatch_spec_witness :
  ∃ woken, enqueued (dispatch pods EventDelete pod shared) = enqueued shared ++ woken ∧
    NoDup woken ∧ bob ∈ woken.
Proof.
  destruct (dispatch_spec pods EventDelete pod shared) as (woken & He & Hnd & Hin & _).
  - apply quiescent_shared.
  - exists woken. split_and!; [done..|]. apply Hin. exists (Build_Subscriber bob []).
    split; [vm_compute; reflexivity|by left].
Defined.
End RegistryFix.
