(* ===== verification/RegistryConc.v ===== *)
(** * internal/watcher/registry.go, concurrently

    Goroutines calling into one registry, interleaved. A thread is a program
    counter inside [Subscribe], [UnsubscribeAll], [InvalidateGroupKind] or
    [dispatch]. What changes the maps is done under r.mu, which one thread holds
    at a time; but [dispatch] takes only the index's own lock, so a critical
    section that changes the index more than once is as many steps, with the lock
    held in between. [Unsubscribe] and the shutdown of [Start] change the index
    at most once: each is a step. The scheduler, the clock, the order in which Go
    ranges over a map, the factory's answers, its panics and the cancellation of a
    follower's context are the steps' choices. *)

From S2P Require Import Prelude GoStd ApiV1 K8s Fixtures Metrics SubscriberIndex Registry.

(** ** Definitions *)

Section threads.
Context `{LabelsAPI} `{UnstructuredAPI} `{Formatting}.

(** What a [Subscribe] gives its caller: a result, or the panic of the factory. *)
Inductive sub_return := Returned (err : option error) | Panicking.

Inductive thread :=
  | Idle
  (** at the head of Subscribe's loop, lines 165-166 *)
  | SubHead (gvk : GroupVersionKind) (sub : Subscriber)
  (** in the select on the in-flight record, line 182 *)
  | SubWait (gvk : GroupVersionKind) (sub : Subscriber) (i : inflight)
  (** inside factory.Start, line 213 *)
  | SubStart (gvk : GroupVersionKind) (sub : Subscriber) (i : inflight)
  (** factory.Start returned, before r.mu.Lock, line 215 *)
  | SubStarted (gvk : GroupVersionKind) (sub : Subscriber) (i : inflight) (res : result entry)
  (** the deferred teardown: before its lock, line 205, and before close, line 208 *)
  | SubRelease (gvk : GroupVersionKind) (i : inflight) (ret : sub_return)
  | SubClose (i : inflight) (ret : sub_return)
  | SubDone (ret : sub_return)
  (** UnsubscribeAll, r.mu held: the kinds its loop has still to leave, line 255 *)
  | UnsubAll (owner : OwnerKey) (rest : list GroupVersionKind)
  (** InvalidateGroupKind, r.mu held: what the loop of line 314 has dropped and
      what it has still to drop *)
  | InvDrop (group kind : string) (dropped rest : list (GroupVersionKind * entry))
  (** after the unlock: the entries still to stop, line 329, and the kinds; then
      the label values still to delete, lines 333 and 334 *)
  | InvStop (rest : list (GroupVersionKind * entry)) (gvks : list GroupVersionKind)
  | InvGauges (rest : list (Vec * GroupVersionKind))
  (** dispatch: the owners still to enqueue, line 389 *)
  | Waking (gvk : GroupVersionKind) (rest : list OwnerKey).

(** The threads that hold r.mu, and those whose next step takes and releases it. *)
Definition locked (th : thread) : bool :=
  match th with UnsubAll _ _ | InvDrop _ _ _ _ => true | _ => false end.
Definition takes_lock (th : thread) : bool :=
  match th with SubHead _ _ | SubStarted _ _ _ _ | SubRelease _ _ _ => true | _ => false end.

(** Nobody holds r.mu. *)
Definition unlocked (ths : nat → thread) : Prop := ∀ t, locked (ths t) = false.

(** The gauges of kinds, in the order their deletion is written. *)
Definition gauges_of (gvks : list GroupVersionKind) : list (Vec * GroupVersionKind) :=
  gvks ≫= λ gvk, [(Informers, gvk); (Subscribers_vec, gvk)].

Inductive choice :=
  | ChooseRun (now : time)
  | ChooseFactory (outcome : result unit)
  | ChoosePanic
  | ChooseCancel (ctxErr : error).

Definition is_closed (i : inflight) (r : Registry) : bool :=
  match inflights r !! i with Some s => si_done s | None => false end.

(** The next step of a thread, when the choice allows one. *)
Definition thread_step (th : thread) (c : choice) (r : Registry) : option (thread * Registry) :=
  match th, c with
  | SubHead gvk sub, ChooseRun now =>
      Some match Subscribe_enter gvk sub now r with
           | (AttemptReturn err, r) => (SubDone (Returned err), r)
           | (AttemptWait i, r) => (SubWait gvk sub i, r)
           | (AttemptOwn i, r) => (SubStart gvk sub i, r)
           end
  | SubWait gvk sub i, ChooseRun _ =>
      if is_closed i r then
        Some match Subscribe_wake gvk i r with
             | (Some err, r) => (SubDone (Returned (Some err)), r)
             | (None, r) => (SubHead gvk sub, r)
             end
      else None
  | SubWait gvk sub i, ChooseCancel ctxErr =>
      Some (SubDone (Returned (Some (cancel_error gvk ctxErr))), r)
  | SubStart gvk sub i, ChooseFactory outcome =>
      let '(res, r) := factory_Start outcome r in Some (SubStarted gvk sub i res, r)
  | SubStart gvk sub i, ChoosePanic => Some (SubRelease gvk i Panicking, r)
  | SubStarted gvk sub i res, ChooseRun now =>
      let '(err, r) := Subscribe_finish gvk sub i res now r in
      Some (SubRelease gvk i (Returned err), r)
  | SubRelease gvk i ret, ChooseRun _ => Some (SubClose i ret, Subscribe_release gvk r)
  | SubClose i ret, ChooseRun _ => Some (SubDone ret, Subscribe_close i r)
  | UnsubAll owner (gvk :: rest), ChooseRun _ => Some (UnsubAll owner rest, unsubscribeLocked gvk owner r)
  | UnsubAll _ [], ChooseRun _ => Some (Idle, r)
  | InvDrop group kind dropped (ge :: rest), ChooseRun _ =>
      Some (InvDrop group kind (dropped ++ [ge]) rest, drop_informer ge.1 r)
  | InvDrop _ _ dropped [], ChooseRun _ => Some (InvStop dropped dropped.*1, r)
  | InvStop (ge :: rest) gvks, ChooseRun _ => Some (InvStop rest gvks, stop_entry ge.2 r)
  | InvStop [] gvks, ChooseRun _ => Some (InvGauges (gauges_of gvks), r)
  | InvGauges ((v, gvk) :: rest), ChooseRun _ =>
      Some (InvGauges rest, set_rmetrics (DeleteLabelValues v (gvk_labels gvk)) r)
  | InvGauges [], ChooseRun _ => Some (Idle, r)
  | Waking gvk (owner :: rest), ChooseRun _ =>
      Some (Waking gvk rest, set_enqueued (λ q, q ++ [owner]) r)
  | Waking gvk [], ChooseRun _ =>
      Some (Idle, set_rmetrics (ObserveDispatch (Group gvk) (Version gvk) (Kind gvk)) r)
  | _, _ => None
  end.

Abbreviation config := (Registry * (nat → thread))%type.

(** Reads and writes of the goroutine table. *)
Definition set_thread (t : nat) (th : thread) (ths : nat → thread) : nat → thread :=
  λ t', if decide (t' = t) then th else ths t'.

(** The failures of a kind are forgotten: the first loop of InvalidateGroupKind. *)
Definition forget_failures (group kind : string) : Registry → Registry :=
  set_failed (filter (λ f, gvk_of group kind f.1 = false)).

(** One step. The manager shuts the registry down only when it is [stopping]. *)
Inductive step (stopping : bool) : config → config → Prop :=
  | step_thread r ths t c th' r' :
      thread_step (ths t) c r = Some (th', r') → (takes_lock (ths t) = true → unlocked ths) →
      step stopping (r, ths) (r', set_thread t th' ths)
  | step_subscribe r ths t gvk sub :
      ths t = Idle → step stopping (r, ths) (r, set_thread t (SubHead gvk sub) ths)
  | step_unsubscribe r ths gvk owner :
      unlocked ths → step stopping (r, ths) (Unsubscribe gvk owner r, ths)
  | step_unsubscribe_all r ths t owner gvks :
      ths t = Idle → unlocked ths → gvks ≡ₚ GVKsByOwner owner (rg_index r) →
      step stopping (r, ths) (r, set_thread t (UnsubAll owner gvks) ths)
  | step_invalidate r ths t group kind matched :
      ths t = Idle → unlocked ths → matched ≡ₚ (Invalidate_locked group kind r).1 →
      step stopping (r, ths) (forget_failures group kind r, set_thread t (InvDrop group kind [] matched) ths)
  | step_dispatch r ths t gvk ev obj owners :
      ths t = Idle → owners ≡ₚ Subscribers gvk obj (rg_index r) →
      step stopping (r, ths) (set_rmetrics (Inc InformerEvents (gvk_labels gvk ++ [EventType_String ev])) r,
                     set_thread t (Waking gvk owners) ths)
  | step_shutdown r ths :
      stopping = true → unlocked ths → step stopping (r, ths) (Start_shutdown r, ths).

Definition initial (syncTimeout failureCooldown : Z) : config :=
  (NewRegistry syncTimeout failureCooldown, λ _, Idle).

Definition reached (stopping : bool) (c : config) : Prop :=
  ∃ syncTimeout failureCooldown, rtc (step stopping) (initial syncTimeout failureCooldown) c.

(** Anything that can happen; and before the manager shuts the registry down. *)
Definition reachable : config → Prop := reached true.
Definition serving : config → Prop := reached false.

(** ** The invariant *)

(** The start a thread owns, and the in-flight record it has yet to close. *)
Definition start_of (th : thread) : option (GroupVersionKind * inflight) :=
  match th with
  | SubStart gvk _ i | SubStarted gvk _ i _ | SubRelease gvk i _ => Some (gvk, i)
  | _ => None
  end.

Definition holds (th : thread) : option inflight :=
  match th with
  | SubStart _ _ i | SubStarted _ _ i _ | SubRelease _ i _ | SubClose i _ => Some i
  | _ => None
  end.

(** The GVK whose informer a thread is bringing up. *)
Definition unfinished (th : thread) : option GroupVersionKind :=
  match th with
  | SubStart gvk _ _ | SubStarted gvk _ _ _ => Some gvk
  | _ => None
  end.

(** The running informers a thread alone knows of. *)
Definition kept (th : thread) : list entry :=
  match th with
  | SubStarted _ _ _ (Ok e) => [e]
  | InvDrop _ _ dropped _ => dropped.*2
  | InvStop rest _ => rest.*2
  | _ => []
  end.

Definition waits (th : thread) : option inflight :=
  match th with SubWait _ _ i => Some i | _ => None end.

Definition open_inflight (r : Registry) (i : inflight) : Prop :=
  ∃ s, inflights r !! i = Some s ∧ si_done s = false.

Record conc_inv (r : Registry) (ths : nat → thread) : Prop := {
  c_reg : reg_safe r;
  c_start g i : starting r !! g = Some i ↔ ∃ t, start_of (ths t) = Some (g, i);
  c_hold i : open_inflight r i ↔ ∃ t, holds (ths t) = Some i;
  c_hold_inj t1 t2 i : holds (ths t1) = Some i → holds (ths t2) = Some i → t1 = t2;
  c_waits t i : waits (ths t) = Some i → is_Some (inflights r !! i);
  c_unfinished t g : unfinished (ths t) = Some g → informers r !! g = None;
  c_live e : e ∈ live r ↔ (∃ g, informers r !! g = Some e) ∨ ∃ t, e ∈ kept (ths t);
  c_kept t e g : e ∈ kept (ths t) → informers r !! g ≠ Some e;
  c_kept_inj t1 t2 e : e ∈ kept (ths t1) → e ∈ kept (ths t2) → t1 = t2;
  c_kept_nodup t : NoDup (kept (ths t));
}.

(** What the holder of r.mu can count on: nobody changes the maps under it. *)
Definition lock_ok (r : Registry) (th : thread) : Prop :=
  match th with
  | UnsubAll owner rest => ∀ g, is_Some (subscription (rg_index r) g owner) → g ∈ rest
  | InvDrop group kind dropped rest =>
      NoDup rest.*1 ∧
      ∀ g e, (g, e) ∈ rest ↔ informers r !! g = Some e ∧ Group g = group ∧ Kind g = kind
  | _ => True
  end.

Record lock_inv (r : Registry) (ths : nat → thread) : Prop := {
  l_one t1 t2 : locked (ths t1) = true → locked (ths t2) = true → t1 = t2;
  l_ok t : lock_ok r (ths t);
}.

(** ** Theorems *)

Implicit Types (r : Registry) (ths : nat → thread) (t : nat).

Lemma set_thread_eq t th ths : set_thread t th ths t = th.
Proof. unfold set_thread. by rewrite decide_True. Qed.

Lemma set_thread_ne t th ths t' : t' ≠ t → set_thread t th ths t' = ths t'.
Proof. intros. unfold set_thread. by rewrite decide_False. Qed.

(** Some thread satisfies [P], after and before an update of thread [t]. *)
Lemma exists_set_thread (P : thread → Prop) t th ths :
  (∃ t', P (set_thread t th ths t')) ↔ P th ∨ ∃ t', t' ≠ t ∧ P (ths t').
Proof.
  split.
  - intros [t' HP]. destruct (decide (t' = t)) as [->|].
    + rewrite set_thread_eq in HP. by left.
    + rewrite set_thread_ne in HP by done. right. eauto.
  - intros [HP|(t' & Hne & HP)]; [exists t; by rewrite set_thread_eq|].
    exists t'. by rewrite set_thread_ne.
Qed.

Lemma exists_thread_split (P : thread → Prop) t ths :
  (∃ t', P (ths t')) ↔ P (ths t) ∨ ∃ t', t' ≠ t ∧ P (ths t').
Proof.
  split; [|naive_solver]. intros [t' HP]. destruct (decide (t' = t)) as [->|]; eauto.
Qed.

(** A property unique to one thread stays so when the update adds no other. *)
Lemma inj_set_thread {A} (P : thread → A → Prop) t th ths :
  (∀ t1 t2 a, P (ths t1) a → P (ths t2) a → t1 = t2) →
  (∀ a, P th a → P (ths t) a ∨ ∀ t', t' ≠ t → ¬ P (ths t') a) →
  ∀ t1 t2 a, P (set_thread t th ths t1) a → P (set_thread t th ths t2) a → t1 = t2.
Proof.
  intros Hinj Hth t1 t2 a. unfold set_thread.
  destruct (decide (t1 = t)) as [->|], (decide (t2 = t)) as [->|]; [done|..|by apply Hinj].
  - intros HP HP2. destruct (Hth a HP) as [HP1|Hno]; [by eapply Hinj|by destruct (Hno t2)].
  - intros HP2 HP. destruct (Hth a HP) as [HP1|Hno]; [by eapply Hinj|by destruct (Hno t1)].
Qed.

Lemma forall_set_thread (P : nat → thread → Prop) t th ths :
  P t th → (∀ t', t' ≠ t → P t' (ths t')) → ∀ t', P t' (set_thread t th ths t').
Proof.
  intros Ht Hrest t'. unfold set_thread. destruct (decide (t' = t)) as [->|]; auto.
Qed.

(** Steps that leave the shared structure and the thread's part of it alone. *)
Lemma conc_frame r r' ths t th :
  conc_inv r ths → reg_safe r' →
  informers r' = informers r → live r' = live r → starting r' = starting r →
  (∀ i, open_inflight r' i ↔ open_inflight r i) →
  (∀ i, is_Some (inflights r !! i) → is_Some (inflights r' !! i)) →
  start_of th = start_of (ths t) → holds th = holds (ths t) → kept th = kept (ths t) →
  (unfinished th = None ∨ unfinished th = unfinished (ths t)) →
  (∀ i, waits th = Some i → is_Some (inflights r' !! i)) →
  conc_inv r' (set_thread t th ths).
Proof.
  intros Hc Hreg Hi Hl Hs Ho Hd E1 E2 E3 E4 Hw. destruct Hc. split.
  - done.
  - intros g i. rewrite Hs, c_start0, (exists_set_thread (λ th, start_of th = _)),
      (exists_thread_split (λ th, start_of th = _) t). by rewrite E1.
  - intros i. rewrite Ho, c_hold0, (exists_set_thread (λ th, holds th = _)),
      (exists_thread_split (λ th, holds th = _) t). by rewrite E2.
  - apply (inj_set_thread (λ th i, holds th = Some i)); [done|]. rewrite E2. by left.
  - apply (forall_set_thread (λ _ th, ∀ i, waits th = Some i → _)); [done|]. eauto.
  - rewrite Hi. apply (forall_set_thread (λ _ th, ∀ g, unfinished th = Some g → _)); [|eauto].
    intros g. destruct E4 as [->| ->]; [done|]. eauto.
  - intros e. rewrite Hl, Hi, c_live0, (exists_set_thread (λ th, e ∈ kept th)),
      (exists_thread_split (λ th, e ∈ kept th) t). by rewrite E3.
  - rewrite Hi. apply (forall_set_thread (λ _ th, ∀ e g, e ∈ kept th → _)); [|eauto].
    rewrite E3. eauto.
  - apply (inj_set_thread (λ th e, e ∈ kept th)); [done|]. rewrite E3. by left.
  - apply (forall_set_thread (λ _ th, NoDup (kept th))); [by rewrite E3|done].
Qed.

(** Steps that change the maps not at all. *)
Lemma conc_same r r' ths t th :
  conc_inv r ths → rg_index r' = rg_index r → refcount r' = refcount r →
  informers r' = informers r → live r' = live r → starting r' = starting r →
  inflights r' = inflights r →
  start_of th = start_of (ths t) → holds th = holds (ths t) → kept th = kept (ths t) →
  (unfinished th = None ∨ unfinished th = unfinished (ths t)) → waits th = None →
  conc_inv r' (set_thread t th ths).
Proof.
  intros Hc Hx Hrc Hi Hl Hs Hf E1 E2 E3 E4 E5. apply (conc_frame r); try done.
  - apply (safe_same r); [done..|apply Hc].
  - intros i. unfold open_inflight. by rewrite Hf.
  - intros i. by rewrite Hf.
  - by rewrite E5.
Qed.

(** Dropping and stopping registered informers. *)
Lemma conc_only_stops r r' ths :
  conc_inv r ths → reg_safe r' → only_stops r r' →
  starting r' = starting r → inflights r' = inflights r → conc_inv r' ths.
Proof.
  intros [Hreg Hst Hh Hhi Hw Hu Hl Hk Hki Hkn] Hreg' [Sl Si Sk So] Es Ei.
  split; unfold open_inflight in *; rewrite ?Es, ?Ei; try done.
  - intros t g Hg%Hu. apply eq_None_not_Some. intros [e He%Si]. congruence.
  - intros e. split.
    + intros He. destruct (Hl e) as [Hl1 _]. destruct (Hl1 (Sl e He)) as [[g Hg]|Ht]; [|by right].
      destruct (Sk g e Hg) as [Hg'|[_ Hn]]; [left; eauto|done].
    + intros [[g Hg]|[t Ht]]; [by eapply (safe_owned _ Hreg')|].
      apply So; [apply Hl; eauto|]. intros g. by eapply Hk.
  - intros t e g Hin Hg%Si. by eapply Hk.
Qed.

Lemma open_inflight_eq r r' i : inflights r' = inflights r → open_inflight r' i ↔ open_inflight r i.
Proof. unfold open_inflight. by intros ->. Qed.

(** An owned start: a fresh record, and its GVK has no informer. *)
Lemma conc_own r ths t gvk sub i :
  conc_inv r ths → start_of (ths t) = None → holds (ths t) = None → kept (ths t) = [] →
  informers r !! gvk = None → starting r !! gvk = None → i ∉ dom (inflights r) →
  conc_inv (claimed r gvk i) (set_thread t (SubStart gvk sub i) ths).
Proof.
  intros [Hreg Hst Hh Hhi Hw Hu Hl Hk Hki Hkn] E1 E2 E3 Hno Hnst Hfresh.
  apply not_elem_of_dom in Hfresh. split.
  - by apply (safe_same r).
  - intros g i'. rewrite (exists_set_thread (λ th, start_of th = _)).
    specialize (Hst g i'). rewrite (exists_thread_split (λ th, start_of th = _) t), E1 in Hst.
    simpl. rewrite lookup_insert_Some. rewrite Hst. split.
    + intros [[-> ->]|[_ [?|?]]]; [by left|done|by right].
    + intros [[= -> ->]|Hex]; [by left|]. right. split; [|by right]. intros ->.
      rewrite Hnst in Hst. destruct Hst as [_ Hst]. by discriminate Hst; right.
  - intros i'. rewrite (exists_set_thread (λ th, holds th = _)).
    specialize (Hh i'). rewrite (exists_thread_split (λ th, holds th = _) t), E2 in Hh.
    unfold open_inflight in *. simpl. destruct (decide (i' = i)) as [->|Hne].
    + rewrite lookup_insert_eq. split; [by left|]. intros _. eauto.
    + rewrite lookup_insert_ne by done. rewrite Hh. naive_solver.
  - apply (inj_set_thread (λ th i, holds th = Some i)); [done|]. intros i' [= <-]. right.
    intros t' _ Ht'. assert (open_inflight r i) as (s & Hs & _) by (apply Hh; eauto). congruence.
  - apply (forall_set_thread (λ _ th, ∀ i, waits th = Some i → _)); [done|].
    intros t' _ i' Hi'. simpl. rewrite lookup_insert_is_Some.
    destruct (decide (i = i')); [by left|right; eauto].
  - apply (forall_set_thread (λ _ th, ∀ g, unfinished th = Some g → _)); [by intros g [= <-]|].
    intros t' _ g. apply Hu.
  - intros e. simpl. rewrite Hl, (exists_set_thread (λ th, e ∈ kept th)),
      (exists_thread_split (λ th, e ∈ kept th) t), E3. simpl. set_solver.
  - apply (forall_set_thread (λ _ th, ∀ e g, e ∈ kept th → _)); [set_solver|]. eauto.
  - apply (inj_set_thread (λ th e, e ∈ kept th)); [done|]. set_solver.
  - apply (forall_set_thread (λ _ th, NoDup (kept th))); [by constructor|done].
Qed.

(** factory.Start succeeded: a new informer only this thread knows of. *)
Lemma conc_started r ths t gvk sub i e :
  conc_inv r ths → ths t = SubStart gvk sub i → e ∉ live r →
  conc_inv (set_live (union {[e]}) r) (set_thread t (SubStarted gvk sub i (Ok e)) ths).
Proof.
  intros [Hreg Hst Hh Hhi Hw Hu Hl Hk Hki Hkn] Et Hfresh.
  assert (∀ g, informers r !! g ≠ Some e) as Hno.
  { intros g Hg. by apply Hfresh, Hl; left; exists g. }
  assert (∀ t', e ∉ kept (ths t')) as Hnk by (intros t' Ht'; by apply Hfresh, Hl; right; exists t').
  split.
  - destruct Hreg as [Hcoh Hc Hr [Hlive Hinj]]. split; [done..|]. split; [|done].
    intros g e' Hg%Hlive. simpl. set_solver.
  - intros g i'. simpl. rewrite Hst, (exists_set_thread (λ th, start_of th = _)),
      (exists_thread_split (λ th, start_of th = _) t). by rewrite Et.
  - intros i'. rewrite (open_inflight_eq r) by done.
    rewrite Hh, (exists_set_thread (λ th, holds th = _)),
      (exists_thread_split (λ th, holds th = _) t). by rewrite Et.
  - apply (inj_set_thread (λ th i, holds th = Some i)); [done|]. rewrite Et. by left.
  - apply (forall_set_thread (λ _ th, ∀ i, waits th = Some i → _)); [done|]. eauto.
  - apply (forall_set_thread (λ _ th, ∀ g, unfinished th = Some g → _)); [|eauto].
    intros g [= <-]. apply (Hu t). by rewrite Et.
  - intros e'. simpl. rewrite elem_of_union, Hl, (exists_set_thread (λ th, e' ∈ kept th)),
      (exists_thread_split (λ th, e' ∈ kept th) t), Et. simpl. set_solver.
  - apply (forall_set_thread (λ _ th, ∀ e g, e ∈ kept th → _)); [|eauto].
    intros e' g ->%list_elem_of_singleton. apply Hno.
  - apply (inj_set_thread (λ th e, e ∈ kept th)); [done|].
    intros e' ->%list_elem_of_singleton. right. intros t' _. apply Hnk.
  - apply (forall_set_thread (λ _ th, NoDup (kept th))); [apply NoDup_singleton|done].
Qed.

(** At most one thread owns the start of a GVK. *)
Lemma start_of_holds th g i : start_of th = Some (g, i) → holds th = Some i.
Proof. by destruct th; intros; simplify_eq/=. Qed.

Lemma unfinished_start th g : unfinished th = Some g → ∃ i, start_of th = Some (g, i).
Proof. destruct th; intros; simplify_eq/=; eauto. Qed.

Lemma start_unique r ths t1 t2 g i1 i2 :
  conc_inv r ths → start_of (ths t1) = Some (g, i1) → start_of (ths t2) = Some (g, i2) → t1 = t2.
Proof.
  intros Hc H1' H2'. assert (starting r !! g = Some i1) as E1 by (apply (c_start _ _ Hc); eauto).
  assert (starting r !! g = Some i2) as E2 by (apply (c_start _ _ Hc); eauto).
  apply start_of_holds in H1', H2'. apply (c_hold_inj _ _ Hc t1 t2 i1); [done|congruence].
Qed.

(** The started informer is registered under the lock. *)
Lemma conc_finish_ok r ths t gvk sub i e now :
  conc_inv r ths → ths t = SubStarted gvk sub i (Ok e) →
  conc_inv (Subscribe_finish gvk sub i (Ok e) now r).2
    (set_thread t (SubRelease gvk i (Returned None)) ths).
Proof.
  intros [Hreg Hst Hh Hhi Hw Hu Hl Hk Hki Hkn] Et.
  assert (informers r !! gvk = None) as Hnone by (apply (Hu t); by rewrite Et).
  assert (e ∈ kept (ths t)) as Hke by (rewrite Et; set_solver).
  assert (reg_safe (Subscribe_finish gvk sub i (Ok e) now r).2) as Hreg'.
  { apply safe_Subscribe_finish; [done| |].
    - apply Hl. by right; exists t.
    - intros g. by apply (Hk t). }
  revert Hreg'. simpl. match goal with |- context [registerLocked gvk sub ?x] => set (r1 := x) end.
  destruct (registerLocked_fields r1 gvk sub) as (Ei & El & Es & _ & Ef & _).
  generalize dependent (registerLocked gvk sub r1). intros r2 Ei El Es Ef Hreg'.
  unfold r1 in *. simpl in *. split; unfold open_inflight in *; rewrite ?Ei, ?El, ?Es, ?Ef; try done.
  - intros g i'. rewrite Hst, (exists_set_thread (λ th, start_of th = _)),
      (exists_thread_split (λ th, start_of th = _) t). by rewrite Et.
  - intros i'. rewrite Hh, (exists_set_thread (λ th, holds th = _)),
      (exists_thread_split (λ th, holds th = _) t). by rewrite Et.
  - apply (inj_set_thread (λ th i, holds th = Some i)); [done|]. rewrite Et. by left.
  - apply (forall_set_thread (λ _ th, ∀ i, waits th = Some i → _)); [done|]. eauto.
  - apply (forall_set_thread (λ _ th, ∀ g, unfinished th = Some g → _)); [done|].
    intros t' Hne g Hg. pose proof (Hu t' g Hg) as Hug. rewrite lookup_insert_ne; [done|].
    intros <-. apply Hne. destruct (unfinished_start _ _ Hg) as [i' Hi'].
    apply (start_unique r ths t' t gvk i' i); [by split|done|by rewrite Et].
  - intros e'. rewrite Hl, (exists_set_thread (λ th, e' ∈ kept th)),
      (exists_thread_split (λ th, e' ∈ kept th) t), Et. simpl.
    rewrite list_elem_of_singleton. setoid_rewrite lookup_insert_Some. split.
    + intros [[g Hg]|[->|Hex]]; [|left; eauto|by right; right].
      left. exists g. right. split; [congruence|done].
    + intros [[g [[<- <-]|[_ Hg]]]|[Hin|Hex]]; [by right; left|left; eauto|set_solver|by right; right].
  - apply (forall_set_thread (λ _ th, ∀ e g, e ∈ kept th → _)); [set_solver|].
    intros t' Hne e' g Hin [[_ <-]|[_ Hg]]%lookup_insert_Some; [|by apply (Hk t' e' g)].
    apply Hne. by apply (Hki t' t e).
  - apply (inj_set_thread (λ th e, e ∈ kept th)); [done|]. set_solver.
  - apply (forall_set_thread (λ _ th, NoDup (kept th))); [by constructor|done].
Qed.

(** Teardown: the in-flight entry is removed, then its channel closed. *)
Lemma conc_release r ths t gvk i ret :
  conc_inv r ths → ths t = SubRelease gvk i ret →
  conc_inv (Subscribe_release gvk r) (set_thread t (SubClose i ret) ths).
Proof.
  intros Hc Et. pose proof Hc as [Hreg Hst Hh Hhi Hw Hu Hl Hk Hki Hkn]. split.
  - by apply (safe_same r).
  - intros g i'. simpl. rewrite (exists_set_thread (λ th, start_of th = _)). simpl.
    rewrite lookup_delete_Some, Hst, (exists_thread_split (λ th, start_of th = _) t), Et. simpl.
    split.
    + intros [Hne [?|Hex]]; [simplify_eq|by right].
    + intros [?|(t' & Hne & Ht')]; [done|]. split; [|right; eauto]. intros <-. apply Hne.
      apply (start_unique r ths t' t gvk i' i); [done..|by rewrite Et].
  - intros i'. rewrite (open_inflight_eq r) by done.
    rewrite Hh, (exists_set_thread (λ th, holds th = _)),
      (exists_thread_split (λ th, holds th = _) t). by rewrite Et.
  - apply (inj_set_thread (λ th i, holds th = Some i)); [done|]. rewrite Et. by left.
  - apply (forall_set_thread (λ _ th, ∀ i, waits th = Some i → _)); [done|]. eauto.
  - apply (forall_set_thread (λ _ th, ∀ g, unfinished th = Some g → _)); [done|].
    intros t' _ g. apply Hu.
  - intros e. simpl. rewrite Hl, (exists_set_thread (λ th, e ∈ kept th)),
      (exists_thread_split (λ th, e ∈ kept th) t), Et. simpl. set_solver.
  - apply (forall_set_thread (λ _ th, ∀ e g, e ∈ kept th → _)); [set_solver|]. eauto.
  - apply (inj_set_thread (λ th e, e ∈ kept th)); [done|]. set_solver.
  - apply (forall_set_thread (λ _ th, NoDup (kept th))); [by constructor|done].
Qed.

Lemma conc_close r ths t i ret :
  conc_inv r ths → ths t = SubClose i ret →
  conc_inv (Subscribe_close i r) (set_thread t (SubDone ret) ths).
Proof.
  intros [Hreg Hst Hh Hhi Hw Hu Hl Hk Hki Hkn] Et. split.
  - by apply (safe_same r).
  - intros g i'. simpl. rewrite Hst, (exists_set_thread (λ th, start_of th = _)),
      (exists_thread_split (λ th, start_of th = _) t). by rewrite Et.
  - intros i'. rewrite (exists_set_thread (λ th, holds th = _)). specialize (Hh i').
    rewrite (exists_thread_split (λ th, holds th = _) t), Et in Hh. unfold open_inflight in *.
    simpl in *. destruct (decide (i' = i)) as [->|Hne].
    + rewrite lookup_alter_eq. split.
      * intros (s & Hs & Hd). destruct (inflights r !! i); simplify_eq/=.
      * intros [?|(t' & Hne & Ht')]; [done|]. destruct Hne. apply (Hhi t' t i); [done|by rewrite Et].
    + rewrite lookup_alter_ne by done. rewrite Hh. naive_solver.
  - apply (inj_set_thread (λ th i, holds th = Some i)); [done|]. done.
  - apply (forall_set_thread (λ _ th, ∀ i, waits th = Some i → _)); [done|].
    intros t' _ i' Hi'. simpl. apply elem_of_dom. rewrite dom_alter. apply elem_of_dom. eauto.
  - apply (forall_set_thread (λ _ th, ∀ g, unfinished th = Some g → _)); [done|].
    intros t' _ g. apply Hu.
  - intros e. simpl. rewrite Hl, (exists_set_thread (λ th, e ∈ kept th)),
      (exists_thread_split (λ th, e ∈ kept th) t), Et. simpl. set_solver.
  - apply (forall_set_thread (λ _ th, ∀ e g, e ∈ kept th → _)); [set_solver|]. eauto.
  - apply (inj_set_thread (λ th e, e ∈ kept th)); [done|]. set_solver.
  - apply (forall_set_thread (λ _ th, NoDup (kept th))); [by constructor|done].
Qed.

(** Invalidation: a matched informer leaves the maps under the lock. *)
Lemma conc_drop r ths t group kind dropped g e rest :
  conc_inv r ths → ths t = InvDrop group kind dropped ((g, e) :: rest) → informers r !! g = Some e →
  conc_inv (drop_informer g r) (set_thread t (InvDrop group kind (dropped ++ [(g, e)]) rest) ths).
Proof.
  intros [Hreg Hst Hh Hhi Hw Hu Hl Hk Hki Hkn] Et He.
  assert (∀ e', e' ∈ kept (InvDrop group kind (dropped ++ [(g, e)]) rest) ↔ e' ∈ kept (ths t) ∨ e' = e) as Hkept.
  { intros e'. rewrite Et. simpl. rewrite fmap_app, elem_of_app. simpl. by rewrite list_elem_of_singleton. }
  assert (∀ t', e ∉ kept (ths t')) as Hnk by (intros t' Hin; by apply (Hk t' e g Hin)).
  split; unfold open_inflight in *; simpl; try done.
  - by apply safe_drop_informer.
  - intros g' i'. rewrite Hst, (exists_set_thread (λ th, start_of th = _)),
      (exists_thread_split (λ th, start_of th = _) t). by rewrite Et.
  - intros i'. rewrite Hh, (exists_set_thread (λ th, holds th = _)),
      (exists_thread_split (λ th, holds th = _) t). by rewrite Et.
  - apply (inj_set_thread (λ th i, holds th = Some i)); [done|]. done.
  - apply (forall_set_thread (λ _ th, ∀ i, waits th = Some i → _)); [done|]. eauto.
  - apply (forall_set_thread (λ _ th, ∀ g, unfinished th = Some g → _)); [done|].
    intros t' _ g' Hg. rewrite lookup_delete_None. right. by apply (Hu t').
  - intros e'. rewrite Hl, (exists_set_thread (λ th, e' ∈ kept th)),
      (exists_thread_split (λ th, e' ∈ kept th) t), Hkept. setoid_rewrite lookup_delete_Some. split.
    + intros [[g' Hg]|[?|Hex]]; [|by right; left; left|by right; right].
      destruct (decide (g = g')) as [<-|Hne]; [|left; eauto]. right. left. right. congruence.
    + intros [[g' [_ Hg]]|[[?| ->]|Hex]]; [left; eauto|by right; left|left; eauto|by right; right].
  - apply (forall_set_thread (λ _ th, ∀ e g, e ∈ kept th → _)).
    + intros e' g' [Hin| ->]%Hkept [Hne Hg]%lookup_delete_Some; [by apply (Hk t e' g')|].
      destruct (safe_owned _ Hreg) as [_ Hinj]. by apply Hne, (Hinj g g' e).
    + intros t' _ e' g' Hin [_ Hg]%lookup_delete_Some. by apply (Hk t' e' g').
  - apply (inj_set_thread (λ th e, e ∈ kept th)); [done|].
    intros e' [Hin| ->]%Hkept; [by left|]. right. intros t' _. apply Hnk.
  - apply (forall_set_thread (λ _ th, NoDup (kept th))); [|done]. specialize (Hkn t). specialize (Hnk t).
    rewrite Et in Hkn, Hnk. simpl in *. rewrite fmap_app. apply NoDup_app. split_and!; [done| |apply NoDup_singleton].
    by intros e' Hin ->%list_elem_of_singleton.
Qed.

(** After the unlock a dropped informer is stopped. *)
Lemma conc_stop r ths t g e rest gvks :
  conc_inv r ths → ths t = InvStop ((g, e) :: rest) gvks →
  conc_inv (stop_entry e r) (set_thread t (InvStop rest gvks) ths).
Proof.
  intros [Hreg Hst Hh Hhi Hw Hu Hl Hk Hki Hkn] Et.
  assert (∀ e', e' ∈ kept (ths t) ↔ e' = e ∨ e' ∈ rest.*2) as Hkept.
  { intros e'. rewrite Et. apply elem_of_cons. }
  pose proof (Hkn t) as Hnd. rewrite Et in Hnd. apply NoDup_cons in Hnd as [Hnin Hnd].
  assert (∀ g, informers r !! g ≠ Some e) as Hno by (intros g'; apply (Hk t), Hkept; by left).
  split; unfold open_inflight in *; simpl; try done.
  - by apply safe_stop_entry.
  - intros g' i'. rewrite Hst, (exists_set_thread (λ th, start_of th = _)),
      (exists_thread_split (λ th, start_of th = _) t). by rewrite Et.
  - intros i'. rewrite Hh, (exists_set_thread (λ th, holds th = _)),
      (exists_thread_split (λ th, holds th = _) t). by rewrite Et.
  - apply (inj_set_thread (λ th i, holds th = Some i)); [done|]. done.
  - apply (forall_set_thread (λ _ th, ∀ i, waits th = Some i → _)); [done|]. eauto.
  - apply (forall_set_thread (λ _ th, ∀ g, unfinished th = Some g → _)); [done|]. intros t' _ g'. apply Hu.
  - intros e'. rewrite elem_of_difference, elem_of_singleton, Hl,
      (exists_set_thread (λ th, e' ∈ kept th)), (exists_thread_split (λ th, e' ∈ kept th) t), Hkept.
    simpl. split.
    + intros [[?|[[?|?]|?]] Hn]; [by left|done|by right; left|by right; right].
    + intros [[g' Hg]|[Hin|(t' & Hne & Ht')]].
      * split; [eauto|]. intros ->. by apply (Hno g').
      * split; [eauto|]. by intros ->.
      * split; [eauto 10|]. intros ->. apply Hne, (Hki t' t e); [done|]. apply Hkept. by left.
  - apply (forall_set_thread (λ _ th, ∀ e g, e ∈ kept th → _)); [|by eauto].
    intros e' g' Hin. apply (Hk t), Hkept. by right.
  - apply (inj_set_thread (λ th e, e ∈ kept th)); [done|]. intros e' Hin. left. apply Hkept. by right.
  - by apply (forall_set_thread (λ _ th, NoDup (kept th))).
Qed.

(** *** Every step preserves the invariant *)

(** Recording an error does not close the channel. *)
Lemma open_alter_err r i err i' :
  open_inflight (set_inflights (alter (λ s, Build_startInFlight (si_done s) err) i) r) i' ↔
  open_inflight r i'.
Proof.
  unfold open_inflight. simpl. destruct (decide (i' = i)) as [->|Hne].
  - rewrite lookup_alter_eq. destruct (inflights r !! i) as [s|]; simpl; [|naive_solver].
    split; intros (s' & [= <-] & ?); eauto.
  - by rewrite lookup_alter_ne.
Qed.

Lemma conc_registers r ths t gvk sub :
  conc_inv r ths → ths t = SubHead gvk sub → is_Some (informers r !! gvk) →
  conc_inv (registerLocked gvk sub r) (set_thread t (SubDone (Returned None)) ths).
Proof.
  intros Hc Et Hi. pose proof (c_reg _ _ Hc) as Hreg.
  destruct (registerLocked_fields r gvk sub) as (Ei & El & Es & _ & Ef & _).
  apply (conc_frame r); rewrite ?Et, ?Ei, ?El, ?Es; try done.
  - apply safe_registerLocked; [apply Hreg..|intros g _; apply Hreg|apply Hreg].
  - intros j. by apply open_inflight_eq.
  - intros j. by rewrite Ef.
  - by left.
Qed.

Lemma conc_enter r ths t gvk sub now :
  conc_inv r ths → ths t = SubHead gvk sub →
  match Subscribe_enter gvk sub now r with
  | (AttemptReturn err, r') => conc_inv r' (set_thread t (SubDone (Returned err)) ths)
  | (AttemptWait i, r') => conc_inv r' (set_thread t (SubWait gvk sub i) ths)
  | (AttemptOwn i, r') => conc_inv r' (set_thread t (SubStart gvk sub i) ths)
  end.
Proof.
  intros Hc Et. pose proof (c_reg _ _ Hc) as Hreg.
  destruct (starting r !! gvk) as [i|] eqn:Hst.
  - assert (holds_i : is_Some (inflights r !! i)).
    { apply (c_start _ _ Hc) in Hst as [t' Ht']. apply start_of_holds in Ht'.
      assert (open_inflight r i) as (s & Hs & _) by (apply (c_hold _ _ Hc); eauto). eauto. }
    unfold Subscribe_enter, claim_start.
    destruct (informers r !! gvk) as [e|] eqn:Hi; [by apply conc_registers; rewrite ?Hi|].
    assert (∀ f, conc_inv (set_failed f r) (set_thread t (SubWait gvk sub i) ths)) as Hwait.
    { intros f. apply (conc_frame r); rewrite ?Et; try done.
      - by apply (safe_same r).
      - by left.
      - by intros j [= <-]. }
    assert (conc_inv r (set_thread t (SubWait gvk sub i) ths)) as Hwait'.
    { specialize (Hwait id). unfold set_failed in Hwait. by destruct r. }
    destruct (failed r !! gvk) as [f|]; [|by rewrite Hst].
    destruct (now <? fs_at f + cooldown r)%Z; [|simpl; by rewrite Hst].
    apply (conc_same r); rewrite ?Et; try done. by left.
  - pose proof (Subscribe_enter_cases r gvk sub now Hst) as Hcase.
    destruct (Subscribe_enter gvk sub now r) as [a r'].
    destruct Hcase as [(Hrun & -> & ->)|[(Hno & _ & [err ->] & ->)|(Hno & _ & i & -> & Hi & ->)]].
    + by apply conc_registers.
    + apply (conc_same r); rewrite ?Et; try done. by left.
    + apply conc_own; rewrite ?Et; done.
Qed.

(** The steps of [Subscribe]. *)
Lemma conc_subscribe_step r ths t c th' r' :
  conc_inv r ths → thread_step (ths t) c r = Some (th', r') →
  match ths t with
  | SubHead _ _ | SubWait _ _ _ | SubStart _ _ _ | SubStarted _ _ _ _ | SubRelease _ _ _ | SubClose _ _ => True
  | _ => False
  end →
  conc_inv r' (set_thread t th' ths).
Proof.
  intros Hc Hstep Hsub. pose proof (c_reg _ _ Hc) as Hreg.
  destruct (ths t) as [|gvk sub|gvk sub i|gvk sub i|gvk sub i res|gvk i ret|i ret| | | | | |]
    eqn:Et, c as [now|outcome| |ctxErr]; try done; simpl in Hstep; try done; revert Hstep.
  - pose proof (conc_enter r ths t gvk sub now Hc Et) as He.
    by destruct (Subscribe_enter gvk sub now r) as [[] r1]; intros [= <- <-].
  - destruct (is_closed i r); [|done]. unfold Subscribe_wake.
    destruct (inflights r !! i ≫= si_err) as [err|]; intros [= <- <-];
      apply (conc_same r); rewrite ?Et; try done; by left.
  - intros [= <- <-]. apply (conc_same r); rewrite ?Et; try done. by left.
  - destruct outcome as [[]|err]; simpl; intros [= <- <-].
    + apply conc_started; [done..|]. set (e := fresh _).
      assert (e ∉ live r ∪ list_to_set (map_to_list (informers r)).*2) by apply is_fresh. set_solver.
    + apply (conc_same r); rewrite ?Et; try done. by right.
  - intros [= <- <-]. apply (conc_same r); rewrite ?Et; try done. by left.
  - destruct res as [e|err].
    + pose proof (conc_finish_ok r ths t gvk sub i e now Hc Et) as Hf.
      simpl in Hf. simpl. by intros [= <- <-].
    + simpl. intros [= <- <-]. apply (conc_frame r); rewrite ?Et; try done.
      * by apply (safe_same r).
      * intros j. rewrite <- (open_alter_err r i (Some err)). by apply open_inflight_eq.
      * intros j Hj. simpl. apply elem_of_dom. rewrite dom_alter. by apply elem_of_dom.
      * by left.
  - intros [= <- <-]. by apply conc_release.
  - intros [= <- <-]. by eapply conc_close.
Qed.

(** Unsubscribing under the lock. *)
Lemma conc_unsubscribes r ths gvk owner : conc_inv r ths → conc_inv (unsubscribeLocked gvk owner r) ths.
Proof.
  intros Hc. pose proof (c_reg _ _ Hc) as Hreg.
  destruct (unsubscribeLocked_effect r gvk owner (safe_coherent _ Hreg)) as (Es & _ & Ef & _).
  apply (conc_only_stops r); [done|by apply safe_unsubscribeLocked|apply unsubscribeLocked_only_stops; apply Hreg|done..].
Qed.

Lemma set_thread_same t ths : ∀ t', set_thread t (ths t) ths t' = ths t'.
Proof. intros t'. unfold set_thread. by case_decide; subst. Qed.

Lemma conc_thread_step r ths t c th' r' :
  conc_inv r ths → lock_ok r (ths t) → thread_step (ths t) c r = Some (th', r') →
  conc_inv r' (set_thread t th' ths).
Proof.
  intros Hc Hok Hstep.
  destruct (ths t) as [| | | | | | | |owner rest|group kind dropped rest|rest gvks|rest|gvk rest] eqn:Et;
    try (eapply conc_subscribe_step; [done|by rewrite Et|by rewrite Et]); [done..| | | | |];
    destruct c as [now|outcome| |ctxErr]; simpl in Hstep; try (by destruct rest); try (by destruct rest as [|[]]).
  - destruct rest as [|gvk rest]; injection Hstep as <- <-;
      [|apply (conc_unsubscribes _ _ gvk owner) in Hc];
      apply (conc_same _ _ _ _ _ Hc); rewrite ?Et; try done; by left.
  - destruct rest as [|[g e] rest]; injection Hstep as <- <-.
    + apply (conc_same r); rewrite ?Et; try done. by left.
    + destruct Hok as [_ Hok]. apply (conc_drop r ths t group kind dropped g e rest); [done..|].
      apply Hok. by left.
  - destruct rest as [|[g e] rest]; injection Hstep as <- <-.
    + apply (conc_same r); rewrite ?Et; try done. by left.
    + by apply (conc_stop r ths t g e rest gvks).
  - destruct rest as [|[v g] rest]; injection Hstep as <- <-; apply (conc_same r); rewrite ?Et; try done; by left.
  - destruct rest as [|o rest]; injection Hstep as <- <-; apply (conc_same r); rewrite ?Et; try done; by left.
Qed.

(** *** The lock *)

Lemma unlocked_ok r th : locked th = false → lock_ok r th.
Proof. by destruct th. Qed.

(** A step of the only thread that may hold the lock. *)
Lemma lock_moves r ths t th :
  (∀ t', t' ≠ t → locked (ths t') = false) → lock_ok r th → lock_inv r (set_thread t th ths).
Proof.
  intros Hf Hok. split.
  - intros t1 t2. unfold set_thread. destruct (decide (t1 = t)) as [->|N1], (decide (t2 = t)) as [->|N2];
      rewrite ?Hf by done; done.
  - intros t'. unfold set_thread. destruct (decide (t' = t)) as [->|Hne]; [done|]. by apply unlocked_ok, Hf.
Qed.

Lemma lock_free r ths : unlocked ths → lock_inv r ths.
Proof. intros Hf. split; [intros t1 t2; by rewrite Hf|intros t; by apply unlocked_ok]. Qed.

(** A step without the lock. *)
Lemma lock_frame r r' ths t th :
  lock_inv r ths → rg_index r' = rg_index r → informers r' = informers r → locked th = false →
  lock_inv r' (set_thread t th ths).
Proof.
  intros [Hone Hok] Hx Hi Hth. split.
  - intros t1 t2. unfold set_thread. destruct (decide (t1 = t)), (decide (t2 = t)); [congruence..|]. apply Hone.
  - intros t'. unfold set_thread. case_decide; [by apply unlocked_ok|].
    specialize (Hok t'). unfold lock_ok in *. by rewrite Hx, Hi.
Qed.

(** What a thread does without the lock changes neither the index nor the informers. *)
Lemma free_step th c r th' r' :
  locked th = false → takes_lock th = false → thread_step th c r = Some (th', r') →
  locked th' = false ∧ rg_index r' = rg_index r ∧ informers r' = informers r ∧ refcount r' = refcount r.
Proof.
  destruct th as [| |gvk sub i|gvk sub i| | |i ret| | | |[|[g e] rest] gvks|[|[v g] rest]|gvk [|o rest]],
    c as [now|outcome| |ctxErr]; intros Hl Ht Hstep; simplify_eq/=; try done.
  - destruct (is_closed i r); [|done]. unfold Subscribe_wake in Hstep.
    by destruct (inflights r !! i ≫= si_err); simplify_eq/=.
  - by destruct outcome; simplify_eq/=.
Qed.

(** A step that takes the lock for its length ends without it. *)
Lemma taking_step th c r th' r' :
  takes_lock th = true → thread_step th c r = Some (th', r') → locked th' = false.
Proof.
  destruct th as [|gvk sub| | |gvk sub i res|gvk i ret| | | | | | |], c as [now|outcome| |ctxErr];
    intros Ht Hstep; simplify_eq/=; try done.
  - by destruct (Subscribe_enter gvk sub now r) as [[] r1]; simplify_eq/=.
  - by destruct (Subscribe_finish gvk sub i res now r); simplify_eq/=.
Qed.

(** The holder's own steps. *)
Lemma lock_ok_step r th c th' r' :
  coherent (rg_index r) → locked th = true → lock_ok r th → thread_step th c r = Some (th', r') → lock_ok r' th'.
Proof.
  intros Hcoh. destruct th as [| | | | | | | |owner rest|group kind dropped rest| | |]; try done; intros _ Hok Hstep;
    destruct c as [now|outcome| |ctxErr]; simpl in Hstep; try (by destruct rest).
  - destruct rest as [|gvk rest]; simplify_eq/=; [done|]. intros g.
    rewrite unsubscribeLocked_subscription by done. case_decide as Hd; [by intros []|]. intros Hs.
    specialize (Hok g Hs) as [->|]%elem_of_cons; [|done]. tauto.
  - destruct rest as [|[g e] rest]; simplify_eq/=; [done|]. destruct Hok as [Hnd Hok].
    apply NoDup_cons in Hnd as [Hnin Hnd]. split; [done|]. intros g' e'. rewrite lookup_delete_Some. split.
    + intros Hin. assert (g ≠ g') by (intros ->; apply Hnin; apply list_elem_of_fmap; by exists (g', e')).
      destruct (proj1 (Hok g' e')) as (? & ? & ?); [by right|done].
    + intros ([Hne Hg] & Hgr & Hk). assert ((g', e') ∈ (g, e) :: rest) as [Heq|]%elem_of_cons by (by apply Hok); [congruence|done].
Qed.

(** The matched informers, in any order, are those of the kind. *)
Lemma matched_ok r group kind matched :
  matched ≡ₚ (Invalidate_locked group kind r).1 →
  lock_ok (forget_failures group kind r) (InvDrop group kind [] matched).
Proof.
  intros Hp. split.
  - rewrite Hp. simpl. apply (NoDup_fmap_fst _).
    + intros g e1 e2 [_ Hg1]%list_elem_of_filter [_ Hg2]%list_elem_of_filter.
      apply elem_of_map_to_list in Hg1, Hg2. simpl in *. congruence.
    + apply NoDup_filter, NoDup_map_to_list.
  - intros g e. rewrite Hp. change (informers (forget_failures group kind r)) with (informers r).
    apply Invalidate_matched.
Qed.

Lemma lock_step stopping c c' :
  step stopping c c' → conc_inv c.1 c.2 → lock_inv c.1 c.2 → lock_inv c'.1 c'.2.
Proof.
  destruct 1 as [r ths t c th' r' Hs Ht|r ths t gvk sub Hi|r ths gvk owner Hu|r ths t owner gvks Hi Hu Hp
    |r ths t group kind matched Hi Hu Hp|r ths t gvk ev obj owners Hi Hp|r ths _ Hu]; simpl; intros Hc Hl.
  - destruct (locked (ths t)) eqn:El.
    + apply lock_moves.
      * intros t' Hne. destruct (locked (ths t')) eqn:El'; [|done]. by destruct Hne; apply (l_one _ _ Hl).
      * eapply lock_ok_step; [apply Hc|done|apply Hl|done].
    + destruct (takes_lock (ths t)) eqn:Etk.
      * apply lock_moves; [by intros t' _; apply Ht|]. by eapply unlocked_ok, taking_step.
      * destruct (free_step _ _ _ _ _ El Etk Hs) as (Hth & Hx & Hi & _). by apply (lock_frame r).
  - by apply (lock_frame r).
  - by apply lock_free.
  - apply lock_moves; [done|]. intros g Hg. rewrite Hp, GVKsByOwner_spec by apply Hc. done.
  - apply lock_moves; [done|]. by apply matched_ok.
  - by apply (lock_frame r).
  - by apply lock_free.
Qed.

Lemma conc_step stopping c c' :
  step stopping c c' → lock_inv c.1 c.2 → conc_inv c.1 c.2 → conc_inv c'.1 c'.2.
Proof.
  destruct 1 as [r ths t c th' r' Hs Ht|r ths t gvk sub Hi|r ths gvk owner Hu|r ths t owner gvks Hi Hu Hp
    |r ths t group kind matched Hi Hu Hp|r ths t gvk ev obj owners Hi Hp|r ths _ Hu]; simpl; intros Hl Hc;
    try (apply (conc_same r); rewrite ?Hi; done || by left).
  - eapply conc_thread_step; [done|apply Hl|done].
  - by apply conc_unsubscribes.
  - destruct (Start_shutdown_fields r) as (_ & Es & Ef & _).
    apply (conc_only_stops r); [done|by apply safe_shutdown, Hc|apply shutdown_only_stops|done..].
Qed.

Lemma conc_initial syncTimeout failureCooldown :
  conc_inv (NewRegistry syncTimeout failureCooldown) (λ _, Idle).
Proof.
  split; try done.
  - apply reg_inv_safe. by apply (quiescent_run syncTimeout failureCooldown []).
  - intros g i. split; [done|by intros []].
  - intros i. split; [by intros (? & ? & _)|by intros []].
  - intros e. split; [set_solver|]. intros [[]|[t Ht]]; [done|set_solver].
  - simpl. set_solver.
  - intros t. apply NoDup_nil_2.
Qed.

Lemma reached_inv stopping c : reached stopping c → conc_inv c.1 c.2 ∧ lock_inv c.1 c.2.
Proof.
  intros (st & fc & Hrtc). revert c Hrtc. apply (rtc_ind_r (λ c, conc_inv c.1 c.2 ∧ lock_inv c.1 c.2)).
  - split; [apply conc_initial|]. by apply lock_free.
  - intros c c' _ Hstep [Hc Hl]. split; [by eapply conc_step|by eapply lock_step].
Qed.

Lemma conc_reachable r ths : reachable (r, ths) → conc_inv r ths ∧ lock_inv r ths.
Proof. apply (reached_inv true (r, ths)). Qed.

(** Any step is a step while the manager stops. *)
Lemma serving_reachable c : serving c → reachable c.
Proof.
  intros (st & fc & Hrtc). exists st, fc. revert Hrtc. apply rtc_subrel. intros c1 c2.
  destruct 1 as [r ths t ch th' r' Hs Ht|r ths t gvk sub Hi|r ths gvk owner Hu|r ths t owner gvks Hi Hu Hp
    |r ths t group kind matched Hi Hu Hp|r ths t gvk ev obj owners Hi Hp|r ths Hst Hu];
    [by eapply step_thread|by apply step_subscribe|by apply step_unsubscribe|by apply step_unsubscribe_all
    |by apply step_invalidate|by eapply step_dispatch|done].
Qed.

(** *** While the manager runs, the full invariant *)

Lemma inv_same r r' :
  rg_index r' = rg_index r → refcount r' = refcount r → informers r' = informers r → live r' = live r →
  reg_inv r → reg_inv r'.
Proof.
  intros Hx Hrc Hi Hl [Hc Hr Ho]. split; unfold counted, registered, owned in *; by rewrite ?Hx, ?Hrc, ?Hi, ?Hl.
Qed.

Lemma inv_enter r ths gvk sub now : conc_inv r ths → reg_inv r → reg_inv (Subscribe_enter gvk sub now r).2.
Proof.
  intros Hc Hreg. unfold Subscribe_enter. destruct (informers r !! gvk) as [e|] eqn:Hi.
  { apply inv_registerLocked; [apply Hreg..|by rewrite Hi|intros; apply Hreg]. }
  assert (∀ x, reg_inv x → reg_inv (claim_start gvk x).2) as Hclaim.
  { intros x Hx. unfold claim_start. destruct (starting x !! gvk); [done|]. by apply (inv_same x). }
  destruct (failed r !! gvk) as [f|]; [|by apply Hclaim].
  destruct (now <? fs_at f + cooldown r)%Z; [by apply (inv_same r)|]. by apply Hclaim, (inv_same r).
Qed.

Lemma inv_thread_step r ths t c th' r' :
  conc_inv r ths → reg_inv r → thread_step (ths t) c r = Some (th', r') → reg_inv r'.
Proof.
  intros Hc Hreg Hstep.
  destruct (ths t) as [|gvk sub|gvk sub i|gvk sub i|gvk sub i res|gvk i ret|i ret| |owner [|gvk rest]
    |group kind dropped [|ge rest]|[|[g e] rest] gvks|[|[v g] rest]|gvk [|o rest]] eqn:Et,
    c as [now|outcome| |ctxErr]; simpl in Hstep; try discriminate Hstep;
    try (injection Hstep as <- <-); try done; try by apply (inv_same r).
  - pose proof (inv_enter r ths gvk sub now Hc Hreg) as He.
    by destruct (Subscribe_enter gvk sub now r) as [[] r1]; simplify_eq/=.
  - destruct (is_closed i r); [|done]. unfold Subscribe_wake in Hstep.
    destruct (inflights r !! i ≫= si_err); injection Hstep as <- <-; [by apply (inv_same r)|done].
  - destruct outcome as [[]|err]; simplify_eq/=; [|done]. destruct Hreg as [Hcn Hr [Hlive Hinj]].
    split; [done..|]. split; [|done]. intros g e' Hg%Hlive. simpl. set_solver.
  - destruct res as [e|err]; [|injection Hstep as <- <-; by apply (inv_same r)].
    assert (e ∈ kept (ths t)) as Hke by (rewrite Et; set_solver).
    assert (reg_inv (Subscribe_finish gvk sub i (Ok e) now r).2) as Hf.
    { apply inv_Subscribe_finish; [done| | |].
      - apply (c_unfinished _ _ Hc t). by rewrite Et.
      - apply (c_live _ _ Hc). by right; exists t.
      - intros g. by apply (c_kept _ _ Hc t). }
    destruct (Subscribe_finish _ _ _ _ _ _). by simplify_eq/=.
  - by apply inv_unsubscribeLocked.
  - by apply (inv_drops [ge]).
  - apply inv_stop_entry; [done|]. intros g'. apply (c_kept _ _ Hc t). rewrite Et. simpl. set_solver.
Qed.

Lemma inv_step c c' : step false c c' → conc_inv c.1 c.2 → reg_inv c.1 → reg_inv c'.1.
Proof.
  destruct 1 as [r ths t c th' r' Hs Ht|r ths t gvk sub Hi|r ths gvk owner Hu|r ths t owner gvks Hi Hu Hp
    |r ths t group kind matched Hi Hu Hp|r ths t gvk ev obj owners Hi Hp|r ths Hst Hu]; simpl; intros Hc Hreg;
    [|try by apply (inv_same r)..|done].
  - by eapply inv_thread_step.
  - by apply inv_unsubscribeLocked.
Qed.

Lemma serving_inv c : serving c → reg_inv c.1.
Proof.
  intros (st & fc & Hrtc). revert c Hrtc.
  apply (rtc_ind_r (λ c, reg_inv c.1)); [by apply (quiescent_run st fc [])|].
  intros c c' Hrtc Hstep Hreg. apply (inv_step c); [done|by apply (reached_inv false); exists st, fc|done].
Qed.

(** *** Safety *)

(** C7: however the goroutines interleave, until the manager shuts the registry
    down every refcount is the number of the GVK's subscribers, and a GVK has an
    informer (its own, running) exactly while it has subscribers. Shutdown empties
    the informers and the refcounts and leaves the index (Start, registry.go:347-359);
    from then on, and always, no refcount exceeds the GVK's number of subscribers
    and no informer is registered for a GVK without any, nor for two GVKs, nor
    stopped. At most one goroutine is bringing up an informer for a GVK, which
    then has none, and at most one is inside r.mu. *)
Theorem concurrent_safety r ths :
  reachable (r, ths) →
  (serving (r, ths) → reg_inv r) ∧
  (∀ g n, refcount r !! g = Some n → (0 < n <= Z.of_nat (SubscriberCount g (rg_index r)))%Z) ∧
  (∀ g e, informers r !! g = Some e →
     SubscriberCount g (rg_index r) ≠ 0 ∧ e ∈ live r ∧ ∀ g', informers r !! g' = Some e → g' = g) ∧
  (∀ t g, unfinished (ths t) = Some g → informers r !! g = None) ∧
  (∀ t1 t2 g, unfinished (ths t1) = Some g → unfinished (ths t2) = Some g → t1 = t2) ∧
  (∀ t1 t2, locked (ths t1) = true → locked (ths t2) = true → t1 = t2).
Proof.
  intros [Hc Hl]%conc_reachable. pose proof (c_reg _ _ Hc) as [_ Hrc Hi [Hlive Hinj]].
  split; [by intros Hs%serving_inv|]. split_and!; [done| |apply Hc| |apply Hl].
  - intros g e Hg. split_and!; [apply Hi; eauto|by eapply Hlive|]. intros g' Hg'. by apply (Hinj g' g e).
  - intros t1 t2 g Ha Hb.
    destruct (unfinished_start _ _ Ha) as [i1 Hi1], (unfinished_start _ _ Hb) as [i2 Hi2].
    by eapply start_unique.
Qed.

(** C25: no informer leaks: a running informer is registered for a GVK with
    subscribers, or a goroutine that has yet to register it or to stop it holds
    it. When every call has returned (or panicked), the running informers are
    exactly the registered ones and no start is in flight. *)
Theorem no_informer_leak r ths :
  reachable (r, ths) →
  (∀ e, e ∈ live r → (∃ g, informers r !! g = Some e ∧ SubscriberCount g (rg_index r) ≠ 0) ∨
     ∃ t, e ∈ kept (ths t)) ∧
  ((∀ t, ths t = Idle ∨ ∃ ret, ths t = SubDone ret) →
     (∀ e, e ∈ live r ↔ ∃ g, informers r !! g = Some e) ∧ starting r = ∅).
Proof.
  intros [Hc _]%conc_reachable. pose proof (c_reg _ _ Hc) as Hreg. split.
  - intros e [[g Hg]|Ht]%(c_live _ _ Hc); [|by right]. left. exists g. split; [done|].
    apply (safe_informer _ Hreg). eauto.
  - intros Hdone.
    assert (∀ t, kept (ths t) = [] ∧ start_of (ths t) = None) as Hnone.
    { intros t. by destruct (Hdone t) as [->|[ret ->]]. }
    split.
    + intros e. rewrite (c_live _ _ Hc). split; [|by left]. intros [Hg|[t Ht]]; [done|].
      destruct (Hnone t) as [E _]. rewrite E in Ht. set_solver.
    + apply map_eq. intros g. rewrite lookup_empty. apply eq_None_not_Some. intros [i Hi].
      apply (c_start _ _ Hc) in Hi as [t Ht]. destruct (Hnone t) as [_ E]. congruence.
Qed.

(** *** Liveness: a follower is never stranded *)

(** The steps a holder has left before it closes its record. *)
Definition remaining (th : thread) : nat :=
  match th with
  | SubStart _ _ _ => 4
  | SubStarted _ _ _ _ => 3
  | SubRelease _ _ _ => 2
  | SubClose _ _ => 1
  | _ => 0
  end.

Lemma holder_step r th i :
  holds th = Some i → is_Some (inflights r !! i) →
  (∃ c, is_Some (thread_step th c r)) ∧
  ∀ c th' r', thread_step th c r = Some (th', r') →
    remaining th' < remaining th ∧ (holds th' = Some i ∨ is_closed i r' = true).
Proof.
  intros Hh [s Hs].
  destruct th as [| | |gvk sub j|gvk sub j res|gvk j ret|j ret| | | | | |]; simplify_eq/=; split.
  - exists ChoosePanic. by eexists.
  - intros [] th' r' Hstep; simplify_eq/=; [|split; [lia|by left]].
    destruct outcome; simplify_eq/=; (split; [lia|by left]).
  - exists (ChooseRun 0). by destruct res; eexists.
  - intros [] th' r' Hstep; simplify_eq/=. destruct res; simplify_eq/=; (split; [lia|by left]).
  - exists (ChooseRun 0). by eexists.
  - intros [] th' r' Hstep; simplify_eq/=. split; [lia|by left].
  - exists (ChooseRun 0). by eexists.
  - intros [] th' r' Hstep; simplify_eq/=. split; [lia|right].
    unfold is_closed. simpl. by rewrite lookup_alter_eq, Hs.
Qed.

(** What the holder of r.mu has left to do under it. *)
Definition lock_left (th : thread) : nat :=
  match th with UnsubAll _ rest => S (length rest) | InvDrop _ _ _ rest => S (length rest) | _ => 0 end.

Lemma locker_step r th :
  locked th = true →
  (∃ c, is_Some (thread_step th c r)) ∧
  ∀ c th' r', thread_step th c r = Some (th', r') → lock_left th' < lock_left th.
Proof.
  destruct th as [| | | | | | | |owner [|gvk rest]|group kind dropped [|ge rest]| | |]; try done; intros _;
    (split; [exists (ChooseRun 0); by eexists|]);
    intros [] th' r' Hstep; try discriminate Hstep; injection Hstep as <- <-; simpl; lia.
Qed.

(** C24: a [Subscribe] that waits for another's start is never stranded: either
    the channel it waits on is closed and it can go on, or another goroutine
    holds the record, always has a step to take, and closes it within four steps
    of its own, the factory's panic included. Two of these steps take r.mu; a
    goroutine that holds it can always go on, and each of its steps brings it
    closer to the unlock. *)
Theorem follower_not_stranded r ths t gvk sub i :
  reachable (r, ths) → ths t = SubWait gvk sub i →
  ((is_closed i r = true ∧ ∀ now, is_Some (thread_step (ths t) (ChooseRun now) r)) ∨
  ∃ t', t' ≠ t ∧ holds (ths t') = Some i ∧ remaining (ths t') ≤ 4 ∧
    (∃ c, is_Some (thread_step (ths t') c r)) ∧
    ∀ c th' r', thread_step (ths t') c r = Some (th', r') →
      remaining th' < remaining (ths t') ∧ (holds th' = Some i ∨ is_closed i r' = true)) ∧
  ∀ t', locked (ths t') = true →
    (∃ c, is_Some (thread_step (ths t') c r)) ∧
    ∀ c th' r', thread_step (ths t') c r = Some (th', r') → lock_left th' < lock_left (ths t').
Proof.
  intros [Hc _]%conc_reachable Et. split; [|intros t'; by apply locker_step].
  destruct (c_waits _ _ Hc t i) as [s Hs]; [by rewrite Et|].
  destruct (si_done s) eqn:Hd.
  - left. assert (is_closed i r = true) as Hclosed by (unfold is_closed; by rewrite Hs).
    split; [done|]. intros now. rewrite Et. simpl. by rewrite Hclosed.
  - right. destruct (proj1 (c_hold _ _ Hc i)) as [t' Ht']; [by exists s|]. exists t'.
    split; [intros ->; by rewrite Et in Ht'|]. split; [done|].
    split; [destruct (ths t'); simpl; lia|]. by apply holder_step.
Qed.

(** A woken follower of a successful start registers, unless the informer is
    gone again; a woken follower of a failed one reports the failure. *)
Lemma follower_wakes r gvk sub i now s :
  inflights r !! i = Some s → si_done s = true →
  ∃ r', thread_step (SubWait gvk sub i) (ChooseRun now) r = Some (match si_err s with
    | Some err => SubDone (Returned (Some (start_error gvk "" err)))
    | None => SubHead gvk sub end, r') ∧ informers r' = informers r.
Proof.
  intros Hs Hd. simpl. unfold is_closed. rewrite Hs, Hd. unfold Subscribe_wake. rewrite Hs. simpl.
  destruct (si_err s); by eexists.
Qed.
End threads.

(** ** Runs of five goroutines *)
Module Traces.
#[local] Existing Instance Fix.labels.
#[local] Existing Instance Fix.unstructured.
#[local] Existing Instance Fix.formatting.

Definition gvk : GroupVersionKind := GVK "x.io" "v1" "Widget".
Definition owner : OwnerKey := Build_OwnerKey "Milestone" "ns" "m".
Definition sub : Subscriber := Build_Subscriber owner [].
Definition object : Unstructured := Fix.Build_object gvk "ns" "w" ∅ false "Current" "".

Abbreviation config := (Registry * (nat → thread))%type.

(** The goroutines a run uses. *)
Definition goroutines : list nat := [0; 1; 2; 3; 4].
Definition free (c : config) : bool := forallb (λ t, negb (locked (c.2 t))) goroutines.
Definition is_idle (th : thread) : bool := match th with Idle => true | _ => false end.

(** A goroutine goes on, or calls. *)
Inductive move :=
  | Go (t : nat) (c : choice)
  | GoSubscribe (t : nat)
  | GoUnsubscribeAll (t : nat)
  | GoInvalidate (t : nat)
  | GoDispatch (t : nat)
  | GoShutdown.

Definition mover (m : move) : nat :=
  match m with
  | Go t _ | GoSubscribe t | GoUnsubscribeAll t | GoInvalidate t | GoDispatch t => t
  | GoShutdown => 0
  end.

Definition perform (stopping : bool) (m : move) (c : config) : option config :=
  let th := c.2 (mover m) in
  let call (needs_lock : bool) r th' :=
    if is_idle th && (negb needs_lock || free c) then Some (r, set_thread (mover m) th' c.2) else None in
  match m with
  | Go t ch =>
      match thread_step th ch c.1 with
      | Some (th', r) => if negb (takes_lock th) || free c then Some (r, set_thread t th' c.2) else None
      | None => None
      end
  | GoSubscribe _ => call false c.1 (SubHead gvk sub)
  | GoUnsubscribeAll _ => call true c.1 (UnsubAll owner (GVKsByOwner owner (rg_index c.1)))
  | GoInvalidate _ =>
      call true (forget_failures "x.io" "Widget" c.1)
        (InvDrop "x.io" "Widget" [] (Invalidate_locked "x.io" "Widget" c.1).1)
  | GoDispatch _ =>
      call false (set_rmetrics (Inc InformerEvents (gvk_labels gvk ++ [EventType_String EventAdd])) c.1)
        (Waking gvk (Subscribers gvk object (rg_index c.1)))
  | GoShutdown => if stopping && free c then Some (Start_shutdown c.1, c.2) else None
  end.

Fixpoint run (stopping : bool) (l : list move) (c : config) : option config :=
  match l with
  | [] => Some c
  | m :: l => if bool_decide (mover m ∈ goroutines) then perform stopping m c ≫= run stopping l else None
  end.

(** The other goroutines are idle. *)
Definition few (c : config) : Prop := ∀ t, t ∉ goroutines → c.2 t = Idle.

Lemma few_set c r t th : few c → t ∈ goroutines → few (r, set_thread t th c.2).
Proof. intros Hf Ht t' Ht'. simpl. rewrite set_thread_ne; [by apply Hf|]. by intros ->. Qed.

Lemma free_unlocked c : few c → free c = true → unlocked c.2.
Proof.
  intros Hf Hfree t. destruct (decide (t ∈ goroutines)) as [Hin|Hin]; [|by rewrite Hf].
  unfold free in Hfree. rewrite forallb_forall in Hfree. apply list_elem_of_In in Hin.
  specialize (Hfree t Hin). by destruct (locked (c.2 t)).
Qed.

Lemma perform_step stopping m c c' :
  few c → mover m ∈ goroutines → perform stopping m c = Some c' → step stopping c c' ∧ few c'.
Proof.
  intros Hf Hin Hp. pose proof (free_unlocked c Hf) as Hu. destruct c as [r ths].
  assert (is_idle (ths (mover m)) = true → ths (mover m) = Idle) as Hidle by by destruct (ths (mover m)).
  unfold perform in Hp. destruct m as [t ch|t|t|t|t|]; cbn [mover fst snd] in *.
  - destruct (thread_step (ths t) ch r) as [[th' r']|] eqn:Hs; [|done].
    destruct (negb (takes_lock (ths t)) || free (r, ths)) eqn:Hl; [|done]. injection Hp as <-.
    split; [|by apply (few_set (r, ths))]. eapply step_thread; [done|]. intros Htk. rewrite Htk in Hl. by apply Hu.
  - destruct (is_idle (ths t)); [|done]. injection Hp as <-. split; [|by apply (few_set (r, ths))].
    by apply step_subscribe, Hidle.
  - destruct (is_idle (ths t)), (free (r, ths)); try done. injection Hp as <-.
    split; [|by apply (few_set (r, ths))]. exact (step_unsubscribe_all stopping r ths t owner _ (Hidle eq_refl) (Hu eq_refl) (Permutation_refl _)).
  - destruct (is_idle (ths t)), (free (r, ths)); try done. injection Hp as <-.
    split; [|by apply (few_set (r, ths))]. exact (step_invalidate stopping r ths t "x.io" "Widget" _ (Hidle eq_refl) (Hu eq_refl) (Permutation_refl _)).
  - destruct (is_idle (ths t)); [|done]. injection Hp as <-. split; [|by apply (few_set (r, ths))].
    exact (step_dispatch stopping r ths t gvk EventAdd object _ (Hidle eq_refl) (Permutation_refl _)).
  - destruct stopping, (free (r, ths)); try done. injection Hp as <-. split; [|done].
    apply step_shutdown; [done|by apply Hu].
Qed.

Lemma run_steps stopping l c c' : few c → run stopping l c = Some c' → rtc (step stopping) c c'.
Proof.
  revert c. induction l as [|m l IH]; intros c Hf; simpl; [by intros [= ->]|].
  case_bool_decide as Hin; [|done]. destruct (perform stopping m c) as [c1|] eqn:Hp; [|done]. intros Hrun.
  destruct (perform_step stopping m c c1 Hf Hin Hp) as [Hs Hf1]. eapply rtc_l; [exact Hs|]. by apply IH.
Qed.

Definition start : config := initial 0 0.
Definition after (stopping : bool) (l : list move) : config := default start (run stopping l start).
Definition runs (stopping : bool) (l : list move) : bool :=
  match run stopping l start with Some _ => true | None => false end.

Lemma after_reached stopping l : runs stopping l = true → reached stopping (after stopping l).
Proof.
  unfold runs, after. destruct (run stopping l start) as [c|] eqn:Hr; [|done]. intros _.
  exists 0%Z, 0%Z. by apply (run_steps stopping l).
Qed.

(** A goroutine subscribes from start to end: own the start, run the factory,
    finish, tear down. *)
Definition subscribing (t : nat) : list move :=
  [GoSubscribe t; Go t (ChooseRun 0); Go t (ChooseFactory (Ok tt)); Go t (ChooseRun 1); Go t (ChooseRun 2);
   Go t (ChooseRun 3)].
Definition going (n t : nat) : list move := replicate n (Go t (ChooseRun 4)).

(** Goroutine 1 invalidates the kind and loses the lock; 2 subscribes again; an
    event is dispatched while 1 deletes the gauges; 4 begins to unsubscribe. *)
Definition history : list move :=
  subscribing 0 ++ GoInvalidate 1 :: going 4 1 ++ subscribing 2 ++ GoDispatch 3 :: going 2 1 ++
  going 2 3 ++ going 1 1 ++ [GoUnsubscribeAll 4].
Definition busy : config := after false history.
Definition stopped : config := after true (history ++ going 2 4 ++ subscribing 3 ++ [GoShutdown]).
Definition done_all : config := after true (history ++ going 2 4).

Lemma busy_serving : serving busy.
Proof. apply after_reached. vm_compute. reflexivity. Qed.

Lemma stopped_reachable : reachable stopped.
Proof. apply after_reached. vm_compute. reflexivity. Qed.

Lemma done_reachable : reachable done_all.
Proof. apply after_reached. vm_compute. reflexivity. Qed.

(** After the shutdown the subscription is still there, without informer. *)
Example stopped_shape :
  (subscription (rg_index stopped.1) gvk owner, informers stopped.1 !! gvk, refcount stopped.1 !! gvk,
   size (live stopped.1)) = (Some sub, None, None, 0).
Proof. vm_compute. reflexivity. Qed.

Lemma done_idle t : done_all.2 t = Idle ∨ ∃ ret, done_all.2 t = SubDone ret.
Proof. destruct t as [|[|[|[|[|t]]]]]; vm_compute; eauto. Qed.

(** A second goroutine follows the start of the first. *)
Definition following : config := after true [GoSubscribe 0; Go 0 (ChooseRun 0); GoSubscribe 3; Go 3 (ChooseRun 1)].

Lemma following_reachable : reachable following.
Proof. apply after_reached. vm_compute. reflexivity. Qed.

Lemma reached_pair stopping c : reached stopping c → reached stopping (c.1, c.2).
Proof. by destruct c. Qed.

Definition followed : inflight := default 7 (waits (following.2 3)).

Lemma following_waits : following.2 3 = SubWait gvk sub followed.
Proof. vm_compute. reflexivity. Qed.

Lemma concurrent_safety_witness :
  (reg_inv busy.1 ∧ busy.2 4 = UnsubAll owner [gvk]) ∧
  ∀ g, is_Some (informers stopped.1 !! g) → SubscriberCount g (rg_index stopped.1) ≠ 0.
Proof.
  split.
  - split; [|vm_compute; reflexivity].
    apply (concurrent_safety busy.1 busy.2); [apply serving_reachable|]; exact (reached_pair _ _ busy_serving).
  - intros g [e He].
    destruct (concurrent_safety stopped.1 stopped.2 (reached_pair _ _ stopped_reachable)) as (_ & _ & Hi & _).
    by apply (Hi g e).
Defined.

Lemma no_informer_leak_witness :
  reachable done_all ∧ ∀ e, e ∈ live done_all.1 ↔ ∃ g, informers done_all.1 !! g = Some e.
Proof.
  split; [exact done_reachable|].
  apply (no_informer_leak done_all.1 done_all.2 (reached_pair _ _ done_reachable)).
  exact done_idle.
Defined.

Lemma follower_not_stranded_witness :
  (is_closed followed following.1 = true ∧
     ∀ now, is_Some (thread_step (following.2 3) (ChooseRun now) following.1)) ∨
  ∃ t', t' ≠ 3 ∧ holds (following.2 t') = Some followed.
Proof.
  destruct (follower_not_stranded following.1 following.2 3 gvk sub followed
    (reached_pair _ _ following_reachable) following_waits) as [[Hl|(t' & Hne & Hh & _)] _];
    [by left|right; eauto].
Defined.
End Traces.
