(* ===== verification/RegistryRace.v ===== *)
(** * The gauges race

    [InvalidateGroupKind] deletes the gauges of a kind after it released r.mu. A
    [Subscribe] that starts the kind's informer anew in between has its gauges
    deleted, and the informer gauge stays absent while that informer runs. *)

From S2P Require Import Prelude GoStd ApiV1 K8s Fixtures Metrics SubscriberIndex Registry RegistryConc.

Section race.
Context `{LabelsAPI} `{UnstructuredAPI} `{Formatting}.
Implicit Types (r : Registry) (ths : nat → thread) (t : nat) (g gvk : GroupVersionKind).

Definition informers_gauge r g : option Z := rg_metrics r !! (v_Name Informers, gvk_labels g).
Definition subscribers_gauge r g : option Z := rg_metrics r !! (v_Name Subscribers_vec, gvk_labels g).

(** ** Runs of one goroutine *)

(** Every other goroutine stays where it is. *)
Definition only (t : nat) (ths ths' : nat → thread) : Prop := ∀ t', t' ≠ t → ths' t' = ths t'.

Lemma only_trans t ths1 ths2 ths3 : only t ths1 ths2 → only t ths2 ths3 → only t ths1 ths3.
Proof. intros Ha Hb t' Hne. by rewrite Hb, Ha. Qed.

Lemma only_set t th ths : only t ths (set_thread t th ths).
Proof. intros t' Hne. by apply set_thread_ne. Qed.

Lemma unlocked_only t ths ths' : unlocked ths → only t ths ths' → locked (ths' t) = false → unlocked ths'.
Proof. intros Hu Ho Ht t'. destruct (decide (t' = t)) as [->|Hne]; [done|]. by rewrite Ho. Qed.

(** A step of a goroutine that needs no lock, or finds it free, and what it does
    from there. *)
Lemma run_on stopping r ths t c th1 r1 r' (P : thread → Prop) :
  thread_step (ths t) c r = Some (th1, r1) → (takes_lock (ths t) = true → unlocked ths) →
  (∀ ths1, only t ths ths1 → ths1 t = th1 →
     ∃ ths', rtc (step stopping) (r1, ths1) (r', ths') ∧ only t ths1 ths' ∧ P (ths' t)) →
  ∃ ths', rtc (step stopping) (r, ths) (r', ths') ∧ only t ths ths' ∧ P (ths' t).
Proof.
  intros Hs Hl Hrest. destruct (Hrest (set_thread t th1 ths)) as (ths' & Hrun & Ho & HP);
    [apply only_set|apply set_thread_eq|].
  exists ths'. split; [|by split; [eapply only_trans; [apply only_set|done]|]].
  eapply rtc_l; [by eapply step_thread|done].
Qed.

Lemma run_done stopping r ths t (P : thread → Prop) :
  P (ths t) → ∃ ths', rtc (step stopping) (r, ths) (r, ths') ∧ only t ths ths' ∧ P (ths' t).
Proof. intros HP. exists ths. by split; [apply rtc_refl|]. Qed.

Abbreviation drops l r := (foldl (λ x ge, drop_informer (fst ge) x) r l).
Abbreviation stops l r := (foldl (λ x ge, stop_entry (snd ge) x) r l).
Abbreviation deletes l r :=
  (foldl (λ x vg, set_rmetrics (DeleteLabelValues (fst vg) (gvk_labels (snd vg))) x) r l).

Lemma run_stops stopping r ths t rest gvks :
  ths t = InvStop rest gvks →
  ∃ ths', rtc (step stopping) (r, ths) (stops rest r, ths') ∧ only t ths ths' ∧ ths' t = InvGauges (gauges_of gvks).
Proof.
  revert r ths. induction rest as [|ge rest IH]; intros r ths Et.
  - eapply (run_on _ _ _ _ (ChooseRun 0) _ _ _ (λ th, th = _)); [by rewrite Et|by rewrite Et|].
    intros ths1 _ Et1. by apply (run_done _ _ _ _ (λ th, th = _)).
  - eapply (run_on _ _ _ _ (ChooseRun 0) _ _ _ (λ th, th = _)); [by rewrite Et|by rewrite Et|].
    intros ths1 _ Et1. by apply IH.
Qed.

(** The loops of an invalidation, to the deletions. *)
Lemma run_drops stopping r ths t group kind dropped rest :
  ths t = InvDrop group kind dropped rest →
  ∃ ths', rtc (step stopping) (r, ths) (stops (dropped ++ rest) (drops rest r), ths') ∧ only t ths ths' ∧
    ths' t = InvGauges (gauges_of (dropped ++ rest).*1).
Proof.
  revert r ths dropped. induction rest as [|ge rest IH]; intros r ths dropped Et.
  - eapply (run_on _ _ _ _ (ChooseRun 0) _ _ _ (λ th, th = _)); [by rewrite Et|by rewrite Et|].
    intros ths1 _ Et1. rewrite app_nil_r. by apply run_stops.
  - eapply (run_on _ _ _ _ (ChooseRun 0) _ _ _ (λ th, th = _)); [by rewrite Et|by rewrite Et|].
    intros ths1 _ Et1. rewrite (cons_middle ge dropped rest), (assoc_L (++)). by apply IH.
Qed.

Lemma run_deletes stopping r ths t rest :
  ths t = InvGauges rest →
  ∃ ths', rtc (step stopping) (r, ths) (deletes rest r, ths') ∧ only t ths ths' ∧ ths' t = Idle.
Proof.
  revert r ths. induction rest as [|[v g] rest IH]; intros r ths Et.
  - eapply (run_on _ _ _ _ (ChooseRun 0) _ _ _ (λ th, th = _)); [by rewrite Et|by rewrite Et|].
    intros ths1 _ Et1. by apply (run_done _ _ _ _ (λ th, th = _)).
  - eapply (run_on _ _ _ _ (ChooseRun 0) _ _ _ (λ th, th = _)); [by rewrite Et|by rewrite Et|].
    intros ths1 _ Et1. by apply IH.
Qed.

Lemma deletes_fields (l : list (Vec * GroupVersionKind)) r :
  informers (deletes l r) = informers r ∧ refcount (deletes l r) = refcount r ∧
  (∀ k, rg_metrics r !! k = None → rg_metrics (deletes l r) !! k = None) ∧
  ∀ v g, (v, g) ∈ l → rg_metrics (deletes l r) !! (v_Name v, gvk_labels g) = None.
Proof.
  revert r. induction l as [|[v g] l IH]; intros r.
  - split_and!; [done..|]. intros v g Hin. destruct (not_elem_of_nil _ Hin).
  - destruct (IH (set_rmetrics (DeleteLabelValues v (gvk_labels g)) r)) as (Hi & Hc & Hk & Hd).
    split_and!; [exact Hi|exact Hc| |].
    + intros k Hn. apply Hk. simpl. rewrite metric_lookup_Delete. by case_decide.
    + intros v' g' [[= -> ->]|Hin]%elem_of_cons; [|by apply Hd]. apply Hk. simpl.
      rewrite metric_lookup_Delete. by rewrite decide_True.
Qed.

Lemma run_unsubscribes stopping r ths t owner rest :
  ths t = UnsubAll owner rest →
  ∃ ths', rtc (step stopping) (r, ths) (foldl (λ r gvk, unsubscribeLocked gvk owner r) r rest, ths') ∧
    only t ths ths' ∧ ths' t = Idle.
Proof.
  revert r ths. induction rest as [|gvk rest IH]; intros r ths Et.
  - eapply (run_on _ _ _ _ (ChooseRun 0) _ _ _ (λ th, th = _)); [by rewrite Et|by rewrite Et|].
    intros ths1 _ Et1. by apply (run_done _ _ _ _ (λ th, th = _)).
  - eapply (run_on _ _ _ _ (ChooseRun 0) _ _ _ (λ th, th = _)); [by rewrite Et|by rewrite Et|].
    intros ths1 _ Et1. by apply IH.
Qed.

Lemma run_wakes stopping r ths t gvk rest :
  ths t = Waking gvk rest →
  ∃ ths', rtc (step stopping) (r, ths)
      (set_rmetrics (ObserveDispatch (Group gvk) (Version gvk) (Kind gvk))
         (foldl (λ r owner, set_enqueued (λ q, q ++ [owner]) r) r rest), ths') ∧
    only t ths ths' ∧ ths' t = Idle.
Proof.
  revert r ths. induction rest as [|o rest IH]; intros r ths Et.
  - eapply (run_on _ _ _ _ (ChooseRun 0) _ _ _ (λ th, th = _)); [by rewrite Et|by rewrite Et|].
    intros ths1 _ Et1. by apply (run_done _ _ _ _ (λ th, th = _)).
  - eapply (run_on _ _ _ _ (ChooseRun 0) _ _ _ (λ th, th = _)); [by rewrite Et|by rewrite Et|].
    intros ths1 _ Et1. by apply IH.
Qed.

Lemma deletes_gauges (l : list (GroupVersionKind * entry)) r :
  deletes (gauges_of l.*1) r = Invalidate_metrics l r.
Proof. unfold Invalidate_metrics. revert r. induction l as [|ge l IH]; intros r; [done|]. apply IH. Qed.

(** A step, then a run of the goroutine it sets going. *)
Lemma run_call stopping r ths t r1 th1 r' (P : thread → Prop) :
  step stopping (r, ths) (r1, set_thread t th1 ths) →
  (∀ ths1, ths1 t = th1 → ∃ ths', rtc (step stopping) (r1, ths1) (r', ths') ∧ only t ths1 ths' ∧ P (ths' t)) →
  ∃ ths', rtc (step stopping) (r, ths) (r', ths') ∧ only t ths ths' ∧ P (ths' t).
Proof.
  intros Hs Hrest. destruct (Hrest _ (set_thread_eq t th1 ths)) as (ths' & Hrun & Ho & HP). exists ths'.
  split; [by eapply rtc_l|]. split; [eapply only_trans; [apply only_set|done]|done].
Qed.

(** Run to its end, each call is the function [Registry.v] defines: what the
    steps add is what may happen in between. *)
Lemma calls_alone stopping r ths t :
  unlocked ths → ths t = Idle →
  let ends r' := ∃ ths', rtc (step stopping) (r, ths) (r', ths') ∧ only t ths ths' ∧ ths' t = Idle in
  (∀ owner, ends (UnsubscribeAll owner r)) ∧ (∀ group kind, ends (InvalidateGroupKind group kind r)) ∧
  ∀ gvk ev obj, ends (dispatch gvk ev obj r).
Proof.
  intros Hu Et ends. split_and!.
  - intros owner. eapply (run_call _ _ _ _ _ _ _ (λ th, th = Idle)); [by apply step_unsubscribe_all|]. intros ths1. apply run_unsubscribes.
  - intros group kind. eapply (run_call _ _ _ _ _ _ _ (λ th, th = Idle)); [by apply step_invalidate|]. intros ths1 Et1.
    destruct (run_drops stopping (forget_failures group kind r) ths1 t group kind []
      (Invalidate_locked group kind r).1 Et1) as (ths2 & Hrun2 & Ho2 & Et2).
    destruct (run_deletes stopping (stops (Invalidate_locked group kind r).1
      (drops (Invalidate_locked group kind r).1 (forget_failures group kind r))) ths2 t _ Et2)
      as (ths3 & Hrun3 & Ho3 & Et3).
    rewrite (deletes_gauges ([] ++ (Invalidate_locked group kind r).1)) in Hrun3. exists ths3.
    split; [by etrans|]. split; [by eapply only_trans|done].
  - intros gvk ev obj. eapply (run_call _ _ _ _ _ _ _ (λ th, th = Idle)); [by eapply (step_dispatch _ _ _ _ gvk ev obj)|]. intros ths1. apply run_wakes.
Qed.

(** What the locked half of an invalidation leaves of a kind it matched. *)
Lemma dropped_state r ths g e owner stopping :
  reached stopping (r, ths) → informers r !! g = Some e → starting r !! g = None →
  let matched := (Invalidate_locked (Group g) (Kind g) r).1 in
  let r1 := stops matched (drops matched (forget_failures (Group g) (Kind g) r)) in
  informers r1 !! g = None ∧ refcount r1 !! g = None ∧ failed r1 !! g = None ∧ starting r1 !! g = None ∧
  Has g owner (rg_index r1) = false.
Proof.
  intros [Hc _]%(reached_inv stopping) He Hst matched r1. simpl in Hc.
  pose proof (safe_coherent _ (c_reg _ _ Hc)) as Hcoh. set (r0 := forget_failures (Group g) (Kind g) r) in *.
  assert (g ∈ matched.*1) as Hgm.
  { apply list_elem_of_fmap. exists (g, e). split; [done|]. by apply Invalidate_matched. }
  destruct (stops_fields matched (drops matched r0)) as (Hi & Hx & Hrc & Hs & Hf & _).
  destruct (drops_fields matched r0) as (_ & Hs0 & Hf0 & _).
  destruct (drops_lookup matched r0 g) as (Hi0 & Hrc0 & Hx0 & _).
  fold r1 in Hi, Hx, Hrc, Hs, Hf. rewrite Hi, Hrc, Hf, Hs, Hx, Hf0, Hs0, Hi0, Hrc0, !decide_True by done.
  split_and!; [done..| |done|].
  - simpl. rewrite map_lookup_filter_None. right. intros f _. simpl. unfold gvk_of. by rewrite !bool_decide_true.
  - rewrite Has_spec by (apply (coherent_drops matched r0); done). rewrite Hx0, decide_True by done.
    apply bool_decide_false. by intros [].
Qed.

(** A [Subscribe] that starts the kind's informer, from call to return. *)
Lemma run_subscribe stopping r ths t gvk sub :
  unlocked ths → ths t = SubHead gvk sub →
  informers r !! gvk = None → failed r !! gvk = None → starting r !! gvk = None →
  Has gvk (Owner sub) (rg_index r) = false → refcount r !! gvk = None →
  ∃ r' ths', rtc (step stopping) (r, ths) (r', ths') ∧ only t ths ths' ∧ ths' t = SubDone (Returned None) ∧
    is_Some (informers r' !! gvk) ∧ refcount r' !! gvk = Some 1%Z.
Proof.
  intros Hu Et Hi Hf Hst Hhas Hc.
  set (i := fresh (dom (inflights r))).
  set (r1 := set_starting <[gvk := i]> (set_inflights <[i := Build_startInFlight false None]> r)).
  set (e := fresh (live r1 ∪ list_to_set (map_to_list (informers r1)).*2)).
  set (r2 := set_live (union {[e]}) r1).
  set (r3 := (Subscribe_finish gvk sub i (Ok e) 0 r2).2).
  assert (∀ th ths1, only t ths ths1 → ths1 t = th → locked th = false → unlocked ths1) as Hfree.
  { intros th ths1 Ho Eth Hl. apply (unlocked_only t ths); [done..|]. by rewrite Eth. }
  exists (Subscribe_close i (Subscribe_release gvk r3)).
  assert (∃ ths', rtc (step stopping) (r, ths) (Subscribe_close i (Subscribe_release gvk r3), ths') ∧
    only t ths ths' ∧ ths' t = SubDone (Returned None)) as (ths' & Hrun & Ho & Et').
  { eapply (run_on _ r ths t (ChooseRun 0) (SubStart gvk sub i) r1 _ (λ th, th = _)); [|by intros _|].
    { rewrite Et. simpl. unfold Subscribe_enter. rewrite Hi, Hf. unfold claim_start. by rewrite Hst. }
    intros ths1 Ho1 Et1.
    eapply (run_on _ r1 ths1 t (ChooseFactory (Ok tt)) (SubStarted gvk sub i (Ok e)) r2 _ (λ th, th = _));
      [by rewrite Et1|by rewrite Et1|].
    intros ths2 Ho2 Et2. assert (only t ths ths2) as Ho12 by by eapply only_trans.
    eapply (run_on _ r2 ths2 t (ChooseRun 0) (SubRelease gvk i (Returned None)) r3 _ (λ th, th = _));
      [by rewrite Et2|by intros _; eapply Hfree|].
    intros ths3 Ho3 Et3. assert (only t ths ths3) as Ho13 by by eapply only_trans.
    eapply (run_on _ r3 ths3 t (ChooseRun 0) (SubClose i (Returned None)) _ _ (λ th, th = _));
      [by rewrite Et3|by intros _; eapply Hfree|].
    intros ths4 Ho4 Et4.
    eapply (run_on _ _ ths4 t (ChooseRun 0) (SubDone (Returned None)) _ _ (λ th, th = _));
      [by rewrite Et4|by rewrite Et4|].
    intros ths5 Ho5 Et5. by apply (run_done _ _ _ _ (λ th, th = _)). }
  exists ths'. split_and!; [done..| |].
  - simpl. unfold registerLocked. simpl. rewrite Hhas. simpl. rewrite lookup_insert_eq. by eexists.
  - simpl. unfold registerLocked. simpl. rewrite Hhas. simpl. rewrite lookup_insert_eq. unfold refcount_of. simpl.
    by rewrite Hc.
Qed.

(** ** Without a gauge, no step brings it back *)

Lemma gauge_registerLocked r gvk sub g : informers_gauge (registerLocked gvk sub r) g = informers_gauge r g.
Proof.
  unfold informers_gauge, registerLocked. simpl. rewrite metric_lookup_Inc, decide_False by done.
  destruct (Has _ _ _); [done|]. simpl. by rewrite metric_lookup_Set, decide_False.
Qed.

Lemma gauge_unsubscribeLocked r gvk owner g :
  informers_gauge r g = None → informers_gauge (unsubscribeLocked gvk owner r) g = None.
Proof.
  intros Hg. unfold unsubscribeLocked. destruct (hasSubscriberLocked _ _ _); [|done]. cbv zeta.
  set (r1 := set_rmetrics _ _).
  assert (informers_gauge r1 g = None) as Hg1.
  { unfold informers_gauge, r1. simpl. by rewrite metric_lookup_Inc, decide_False. }
  clearbody r1. destruct (refcount_of r1 gvk <=? 0)%Z.
  - unfold informers_gauge in *. match goal with |- context [delete_gauges gvk ?x] => set (r2 := x) end.
    destruct (delete_gauges_lookup gvk r2 g) as [-> _]. case_decide; [done|]. unfold r2. simpl.
    by destruct (informers r1 !! gvk).
  - unfold informers_gauge in *. simpl. by rewrite metric_lookup_Set, decide_False.
Qed.

Lemma gauge_inc r g v values :
  v_Name v ≠ v_Name Informers → informers_gauge (set_rmetrics (Inc v values) r) g = informers_gauge r g.
Proof.
  intros Hv. unfold informers_gauge. simpl. rewrite metric_lookup_Inc, decide_False; [done|].
  intros Heq%(f_equal fst). by apply Hv.
Qed.

Lemma gauge_enter r gvk sub now g :
  informers_gauge (Subscribe_enter gvk sub now r).2 g = informers_gauge r g.
Proof.
  unfold Subscribe_enter, claim_start. destruct (informers r !! gvk); [apply gauge_registerLocked|].
  destruct (failed r !! gvk) as [f|]; [|by destruct (starting r !! gvk)].
  destruct (now <? fs_at f + cooldown r)%Z; [by apply gauge_inc|]. by destruct (starting _ !! gvk).
Qed.

Lemma gauge_finish r gvk sub i res now g :
  g ≠ gvk → informers_gauge (Subscribe_finish gvk sub i res now r).2 g = informers_gauge r g.
Proof.
  intros Hne. destruct res as [e|err]; simpl; [|unfold count_subscribe; by rewrite gauge_inc].
  rewrite gauge_registerLocked. unfold informers_gauge. simpl. rewrite metric_lookup_Set, decide_False; [done|].
  by rewrite gauge_key_eq.
Qed.

Lemma gauge_thread_step r ths t c th' r' g :
  conc_inv r ths → thread_step (ths t) c r = Some (th', r') → is_Some (informers r !! g) →
  informers_gauge r g = None → informers_gauge r' g = None.
Proof.
  intros Hc Hstep Hi Hg.
  destruct (ths t) as [|gvk sub|gvk sub i|gvk sub i|gvk sub i res|gvk i ret|i ret| |owner [|gvk rest]
    |group kind dropped [|ge rest]|[|[g' e] rest] gvks|[|[v g'] rest]|gvk [|o rest]] eqn:Et,
    c as [now|outcome| |ctxErr]; simpl in Hstep; try discriminate Hstep;
    try (injection Hstep as <- <-); try exact Hg.
  - pose proof (gauge_enter r gvk sub now g) as He.
    destruct (Subscribe_enter gvk sub now r) as [[] r1]; injection Hstep as <- <-; by rewrite <- Hg.
  - destruct (is_closed i r); [|done]. unfold Subscribe_wake in Hstep.
    destruct (inflights r !! i ≫= si_err); injection Hstep as <- <-; [|done]. unfold count_subscribe. by rewrite gauge_inc.
  - destruct outcome as [[]|err]; by injection Hstep as <- <-.
  - assert (g ≠ gvk) as Hne.
    { intros ->. rewrite (c_unfinished _ _ Hc t gvk) in Hi by by rewrite Et. by destruct Hi. }
    pose proof (gauge_finish r gvk sub i res now g Hne) as Hf.
    destruct (Subscribe_finish gvk sub i res now r) as [err r1]; injection Hstep as <- <-. simpl in Hf. by rewrite Hf.
  - by apply gauge_unsubscribeLocked.
  - unfold informers_gauge in *. simpl. rewrite metric_lookup_Delete. by case_decide.
  - unfold ObserveDispatch. by rewrite gauge_inc.
Qed.

Lemma gauge_step stopping c c' g :
  step stopping c c' → conc_inv c.1 c.2 → is_Some (informers c.1 !! g) →
  informers_gauge c.1 g = None → informers_gauge c'.1 g = None.
Proof.
  destruct 1 as [r ths t c th' r' Hs Ht|r ths t gvk sub Hi|r ths gvk owner Hu|r ths t owner gvks Hi Hu Hp
    |r ths t group kind matched Hi Hu Hp|r ths t gvk ev obj owners Hi Hp|r ths _ Hu]; simpl; intros Hc Hin Hg;
    try exact Hg.
  - by eapply gauge_thread_step.
  - by apply gauge_unsubscribeLocked.
  - by rewrite gauge_inc.
  - destruct (shutdown_fold (map_to_list (informers r)) r) as (_ & _ & _ & Hm). by apply Hm.
Qed.

(** Steps during which the kind's informer stays registered. *)
Definition running (stopping : bool) (g : GroupVersionKind) : relation (Registry * (nat → thread)) :=
  λ c c', step stopping c c' ∧ is_Some (informers c'.1 !! g).

Lemma gauge_stays stopping g c c' :
  rtc (running stopping g) c c' → reached stopping c → is_Some (informers c.1 !! g) →
  informers_gauge c.1 g = None → informers_gauge c'.1 g = None.
Proof.
  induction 1 as [|c1 c2 c3 [Hs Hi2] _ IH]; [done|]. intros Hr Hi Hg. apply IH; [|done|].
  - destruct Hr as (st & fc & Hrun). exists st, fc. by eapply rtc_r.
  - eapply gauge_step; [done| |done..]. by apply (reached_inv stopping).
Qed.

(** C37: the gauges race. Whenever a kind's informer is running, nobody holds the
    lock and no start of the kind is in flight, an InvalidateGroupKind of it and
    a Subscribe to it, of any owner, can interleave so that both return, the
    Subscribe with nil, and the kind's new informer runs with one subscriber while
    the informer gauge and the subscriber gauge report nothing. And whatever any
    goroutine does next, the informer gauge stays absent for as long as the kind
    has an informer. *)
Theorem gauges_lost stopping r ths t1 t2 g e (sub : Subscriber) :
  reached stopping (r, ths) → unlocked ths → t1 ≠ t2 → ths t1 = Idle → ths t2 = Idle →
  informers r !! g = Some e → starting r !! g = None →
  ∃ r' ths',
    rtc (step stopping) (r, ths) (r', ths') ∧
    ths' t1 = Idle ∧ ths' t2 = SubDone (Returned None) ∧ (∀ t, t ≠ t1 → t ≠ t2 → ths' t = ths t) ∧
    is_Some (informers r' !! g) ∧ refcount r' !! g = Some 1%Z ∧
    informers_gauge r' g = None ∧ subscribers_gauge r' g = None ∧
    ∀ c, rtc (running stopping g) (r', ths') c → informers_gauge c.1 g = None.
Proof.
  intros Hr Hu Hne Ei1 Ei2 He Hst.
  set (matched := (Invalidate_locked (Group g) (Kind g) r).1).
  set (r0 := forget_failures (Group g) (Kind g) r).
  set (tha := set_thread t1 (InvDrop (Group g) (Kind g) [] matched) ths).
  assert (g ∈ matched.*1) as Hgm.
  { apply list_elem_of_fmap. exists (g, e). split; [done|]. by apply Invalidate_matched. }
  assert (step stopping (r, ths) (r0, tha)) as Hstep1 by by apply step_invalidate.
  destruct (run_drops stopping r0 tha t1 (Group g) (Kind g) [] matched) as (thb & Hrun2 & Ho2 & Etb);
    [apply set_thread_eq|]. simpl in Hrun2, Etb. set (r1 := stops matched (drops matched r0)) in *.
  assert (only t1 ths thb) as Ho by (eapply only_trans; [apply only_set|done]).
  assert (thb t2 = Idle) as Etb2 by by rewrite Ho.
  assert (informers r1 !! g = None ∧ refcount r1 !! g = None ∧ failed r1 !! g = None ∧ starting r1 !! g = None ∧
    Has g (Owner sub) (rg_index r1) = false) as (Hi1 & Hc1 & Hf1 & Hst1 & Hh1) by (by eapply dropped_state).
  set (thc := set_thread t2 (SubHead g sub) thb).
  destruct (run_subscribe stopping r1 thc t2 g sub) as (r2 & thd & Hrun3 & Ho3 & Etd2 & Hi2 & Hc2); [| |done..|].
  { intros t. unfold thc, set_thread. case_decide; [done|]. destruct (decide (t = t1)) as [->|]; [by rewrite Etb|].
    by rewrite Ho. }
  { apply set_thread_eq. }
  assert (thd t1 = InvGauges (gauges_of matched.*1)) as Etd1.
  { rewrite Ho3 by done. unfold thc. by rewrite set_thread_ne. }
  destruct (run_deletes stopping r2 thd t1 _ Etd1) as (the & Hrun4 & Ho4 & Ete1).
  destruct (deletes_fields (gauges_of matched.*1) r2) as (Hi3 & Hc3 & _ & Hgone).
  set (r3 := deletes (gauges_of matched.*1) r2) in *.
  assert (rtc (step stopping) (r, ths) (r3, the)) as Hrun.
  { eapply rtc_l; [done|]. etrans; [done|]. eapply rtc_l; [by apply (step_subscribe _ r1 thb t2 g sub)|]. by etrans. }
  assert (∀ v, v ∈ [Informers; Subscribers_vec] → rg_metrics r3 !! (v_Name v, gvk_labels g) = None) as Hv.
  { intros v Hv. apply Hgone, list_elem_of_bind. exists g. split; [|done].
    apply elem_of_cons in Hv as [->|Hv%list_elem_of_singleton]; [by left|]. subst v. right. by left. }
  assert (informers_gauge r3 g = None) as Hg3 by (apply (Hv Informers); by left).
  exists r3, the. split; [done|]. split; [done|]. split; [by rewrite Ho4|]. split.
  { intros t N1 N2. rewrite Ho4, Ho3 by done. unfold thc. by rewrite set_thread_ne, Ho. }
  rewrite Hi3, Hc3. split_and!; [done..|apply (Hv Subscribers_vec); right; by left|].
  intros c Hrest. apply (gauge_stays stopping g _ _ Hrest); [|cbn [fst]; by rewrite Hi3|done].
  destruct Hr as (st & fc & Hr). exists st, fc. by etrans.
Qed.
End race.

(** ** One owner subscribed *)
Module RaceFix.
Import Traces.
#[local] Existing Instance Fix.labels.
#[local] Existing Instance Fix.unstructured.
#[local] Existing Instance Fix.formatting.

Definition subscribed : Registry * (nat → thread) := after false (subscribing 0).

Lemma subscribed_serving : reached false (subscribed.1, subscribed.2).
Proof. apply (reached_pair false subscribed), after_reached. vm_compute. reflexivity. Qed.

Lemma subscribed_unlocked : unlocked subscribed.2.
Proof. intros t. destruct t as [|t]; vm_compute; reflexivity. Qed.

Lemma gauges_lost_witness :
  informers subscribed.1 !! gvk = Some 0 ∧ informers_gauge subscribed.1 gvk = Some 1%Z ∧
  ∃ r' ths', rtc (step false) (subscribed.1, subscribed.2) (r', ths') ∧ ths' 2 = SubDone (Returned None) ∧
    is_Some (informers r' !! gvk) ∧ informers_gauge r' gvk = None.
Proof.
  assert (informers subscribed.1 !! gvk = Some 0) as Hi by (vm_compute; reflexivity).
  split; [exact Hi|]. split; [vm_compute; reflexivity|].
  destruct (gauges_lost false subscribed.1 subscribed.2 1 2 gvk 0 sub subscribed_serving subscribed_unlocked
    ltac:(done) ltac:(vm_compute; reflexivity) ltac:(vm_compute; reflexivity) Hi ltac:(vm_compute; reflexivity))
    as (r' & ths' & Hrun & _ & Hd & _ & Hi' & _ & Hg & _).
  exists r', ths'. exact (conj Hrun (conj Hd (conj Hi' Hg))).
Defined.
End RaceFix.
