(* ===== verification/RegistryLinear.v ===== *)
(** * The registry as its callers see it

    [RegistryConc.v] interleaves goroutines inside the registry: a [Subscribe]
    may wait, start an informer outside the lock and come back; an
    [UnsubscribeAll] or [InvalidateGroupKind] goes through its kinds under the
    lock, and an event may be dispatched between two of them. Seen from outside
    the registry is simpler: a table of subscriptions, on which a Subscribe or an
    Unsubscribe acts at a single moment between its call and its return; a removal
    of several subscriptions is a span in which nobody else changes the table,
    but an event may find it partly done; and there is an informer for every kind
    somebody is subscribed to. *)

From S2P Require Import Prelude GoStd ApiV1 K8s Fixtures Metrics SubscriberIndex Registry RegistryConc.

(** ** The registry as its callers see it *)

Section linear.
Context `{LabelsAPI} `{UnstructuredAPI} `{Formatting}.

Record table := {
  tb_subs : GroupVersionKind → OwnerKey → option Subscriber;
  tb_enqueued : list OwnerKey;
}.

(** What a removal of several subscriptions takes away. *)
Inductive removal :=
  | OfOwner (owner : OwnerKey)
  | OfKind (group kind : string).
Definition covers (w : removal) (g : GroupVersionKind) (o : OwnerKey) : Prop :=
  match w with OfOwner owner => o = owner | OfKind group kind => Group g = group ∧ Kind g = kind end.
#[export] Instance covers_dec w g o : Decision (covers w g o).
Proof. destruct w; unfold covers; apply _. Defined.

(** A goroutine: outside the registry, in a [Subscribe], answered by one,
    removing subscriptions, or with owners to enqueue. *)
Inductive client :=
  | Free
  | Calling (gvk : GroupVersionKind) (sub : Subscriber)
  | Answered (ret : sub_return)
  | Removing (w : removal)
  | Delivering (rest : list OwnerKey).

Definition set_subs (f : GroupVersionKind → OwnerKey → option Subscriber) (s : table) : table :=
  Build_table f (tb_enqueued s).
Definition set_client (t : nat) (c : client) (cs : nat → client) : nat → client :=
  λ t', if decide (t' = t) then c else cs t'.

Definition admits (sub : Subscriber) (obj : Unstructured) : Prop :=
  Matchers sub = [] ∨ ∃ m, m ∈ Matchers sub ∧ Matcher_Admit m obj = true.

(** Nobody is removing subscriptions. *)
Definition quiet (cs : nat → client) : Prop := ∀ t w, cs t ≠ Removing w.

(** What can happen to the table, at one moment. While somebody is removing
    subscriptions nobody else changes the table. *)
Inductive act : table * (nat → client) → table * (nat → client) → Prop :=
  | act_call s cs t gvk sub : cs t = Free → act (s, cs) (s, set_client t (Calling gvk sub) cs)
  | act_subscribe s cs t gvk sub :
      cs t = Calling gvk sub → quiet cs →
      act (s, cs) (set_subs (λ g o, if decide (g = gvk ∧ o = Owner sub) then Some sub else tb_subs s g o) s,
                   set_client t (Answered (Returned None)) cs)
  | act_refuse s cs t gvk sub ret :
      cs t = Calling gvk sub → ret ≠ Returned None → act (s, cs) (s, set_client t (Answered ret) cs)
  | act_unsubscribe s cs gvk owner :
      quiet cs →
      act (s, cs) (set_subs (λ g o, if decide (g = gvk ∧ o = owner) then None else tb_subs s g o) s, cs)
  | act_remove s cs t w : cs t = Free → quiet cs → act (s, cs) (s, set_client t (Removing w) cs)
  | act_remove_kind s cs t w g0 :
      cs t = Removing w →
      act (s, cs) (set_subs (λ g o, if decide (g = g0 ∧ covers w g o) then None else tb_subs s g o) s, cs)
  | act_removed s cs t w :
      cs t = Removing w → (∀ g o, covers w g o → tb_subs s g o = None) →
      act (s, cs) (s, set_client t Free cs)
  | act_event s cs t gvk obj woken :
      cs t = Free → NoDup woken →
      (∀ o, o ∈ woken ↔ ∃ sub, tb_subs s gvk o = Some sub ∧ admits sub obj) →
      act (s, cs) (s, set_client t (Delivering woken) cs)
  | act_deliver s cs t o rest :
      cs t = Delivering (o :: rest) →
      act (s, cs) (Build_table (tb_subs s) (tb_enqueued s ++ [o]), set_client t (Delivering rest) cs)
  | act_delivered s cs t : cs t = Delivering [] → act (s, cs) (s, set_client t Free cs).

(** ** What a goroutine's program counter shows *)

Definition client_of (th : thread) : client :=
  match th with
  | Idle | InvStop _ _ | InvGauges _ => Free
  | UnsubAll owner _ => Removing (OfOwner owner)
  | InvDrop group kind _ _ => Removing (OfKind group kind)
  | Waking _ rest => Delivering rest
  | SubHead gvk sub | SubWait gvk sub _ | SubStart gvk sub _ | SubStarted gvk sub _ _ => Calling gvk sub
  | SubRelease _ _ ret | SubClose _ ret | SubDone ret => Answered ret
  end.

(** The table of a registry, and the clients of its goroutines. *)
Definition shows (c : Registry * (nat → thread)) (s : table * (nat → client)) : Prop :=
  (∀ g o, tb_subs s.1 g o = subscription (rg_index c.1) g o) ∧ tb_enqueued s.1 = enqueued c.1 ∧
  ∀ t, s.2 t = client_of (c.2 t).

Implicit Types (r : Registry) (ths : nat → thread) (s : table) (cs : nat → client).

(** The index and the queue are as they were. *)
Definition unseen r r' : Prop := rg_index r' = rg_index r ∧ enqueued r' = enqueued r.

Lemma shows_thread r r' ths s cs t th' :
  shows (r, ths) (s, cs) → unseen r r' → client_of th' = client_of (ths t) →
  shows (r', set_thread t th' ths) (s, cs).
Proof.
  intros (Hs & Hq & Hc) [Hx He] Ht. split_and!; simpl in *; [by rewrite Hx|by rewrite He|].
  intros t'. rewrite Hc. unfold set_thread. by case_decide; subst.
Qed.

Lemma shows_client r r' ths s s' cs t th' :
  shows (r, ths) (s, cs) → (∀ g o, tb_subs s' g o = subscription (rg_index r') g o) → tb_enqueued s' = enqueued r' →
  shows (r', set_thread t th' ths) (s', set_client t (client_of th') cs).
Proof.
  intros (_ & _ & Hc) Hs Hq. split_and!; [done..|]. intros t'. unfold set_client, set_thread. simpl. by case_decide.
Qed.

(** A step either shows nothing or is one act. *)
Definition at_most_one (a b : table * (nat → client)) : Prop := a = b ∨ act a b.

Lemma claim_start_unseen gvk r : unseen r (claim_start gvk r).2 ∧ ∀ err, (claim_start gvk r).1 ≠ AttemptReturn err.
Proof. unfold claim_start. by destruct (starting r !! gvk). Qed.

Lemma unsubscribeLocked_enqueued gvk owner r : enqueued (unsubscribeLocked gvk owner r) = enqueued r.
Proof.
  unfold unsubscribeLocked. destruct (hasSubscriberLocked _ _ _); [|done]. cbv zeta. case_match; [|done].
  by destruct (informers _ !! _).
Qed.

Lemma Subscribe_enter_effect gvk sub now r :
  let '(a, r') := Subscribe_enter gvk sub now r in
  enqueued r' = enqueued r ∧
  match a with
  | AttemptReturn None => ∀ g o, subscription (rg_index r') g o =
      if decide (g = gvk ∧ o = Owner sub) then Some sub else subscription (rg_index r) g o
  | _ => rg_index r' = rg_index r
  end.
Proof.
  unfold Subscribe_enter. destruct (informers r !! gvk).
  - split; [unfold registerLocked; by destruct (Has _ _ _)|apply subscription_registerLocked].
  - assert (∀ r1, unseen r r1 → let '(a, r') := claim_start gvk r1 in
      enqueued r' = enqueued r ∧ match a with
      | AttemptReturn None => ∀ g o, subscription (rg_index r') g o =
          if decide (g = gvk ∧ o = Owner sub) then Some sub else subscription (rg_index r) g o
      | _ => rg_index r' = rg_index r end) as Hclaim.
    { intros r1 [Hx1 Hq1]. destruct (claim_start_unseen gvk r1) as [[Hx Hq] Hne].
      destruct (claim_start _ _) as [[err|i|i] r']; [by destruct (Hne err)|simpl in *; split; congruence..]. }
    destruct (failed r !! gvk) as [f|]; [|by apply Hclaim].
    destruct (now <? fs_at f + cooldown r)%Z; [done|by apply Hclaim].
Qed.

Lemma Subscribe_finish_effect gvk sub i res now r :
  let '(err, r') := Subscribe_finish gvk sub i res now r in
  enqueued r' = enqueued r ∧
  match err with
  | None => ∀ g o, subscription (rg_index r') g o =
      if decide (g = gvk ∧ o = Owner sub) then Some sub else subscription (rg_index r) g o
  | Some _ => rg_index r' = rg_index r
  end.
Proof.
  unfold Subscribe_finish. destruct res as [e|err]; [|done].
  split; [unfold registerLocked; by destruct (Has _ _ _)|]. intros g o. etrans; [apply subscription_registerLocked|done].
Qed.

Lemma quiet_unlocked r ths s cs : shows (r, ths) (s, cs) → unlocked ths → quiet cs.
Proof.
  intros (_ & _ & Hc) Hu t w. simpl in Hc. rewrite Hc. specialize (Hu t). by destruct (ths t).
Qed.

(** The steps of [Subscribe]. *)
Lemma subscribe_shows r ths s cs t c th' r' :
  shows (r, ths) (s, cs) → thread_step (ths t) c r = Some (th', r') → (takes_lock (ths t) = true → unlocked ths) →
  match ths t with
  | SubHead _ _ | SubWait _ _ _ | SubStart _ _ _ | SubStarted _ _ _ _ | SubRelease _ _ _ | SubClose _ _ => True
  | _ => False
  end →
  ∃ a, at_most_one (s, cs) a ∧ shows (r', set_thread t th' ths) a.
Proof.
  intros Hsh Hstep Hlock Hsub. pose proof Hsh as (Hs & Hq & Hc). simpl in Hs, Hq. specialize (Hc t). simpl in Hc.
  assert (∀ ret, client_of th' = Answered ret → ret ≠ Returned None →
    unseen r r' → (∃ gvk sub, client_of (ths t) = Calling gvk sub) →
    ∃ a, at_most_one (s, cs) a ∧ shows (r', set_thread t th' ths) a) as Hrefuse.
  { intros ret Ha Hne [Hx He] (gvk & sub & Hcall). exists (s, set_client t (Answered ret) cs).
    split; [right; eapply act_refuse; [by rewrite Hc|done]|]. rewrite <- Ha.
    apply (shows_client r _ _ s); [done| |by rewrite He]. intros g o. by rewrite Hx. }
  assert (unseen r r' → client_of th' = client_of (ths t) →
    ∃ a, at_most_one (s, cs) a ∧ shows (r', set_thread t th' ths) a) as Hsame.
  { intros Hu Ht. exists (s, cs). split; [by left|]. by apply (shows_thread r). }
  assert (∀ gvk sub, client_of (ths t) = Calling gvk sub → takes_lock (ths t) = true →
    client_of th' = Answered (Returned None) →
    enqueued r' = enqueued r → (∀ g o, subscription (rg_index r') g o =
      if decide (g = gvk ∧ o = Owner sub) then Some sub else subscription (rg_index r) g o) →
    ∃ a, at_most_one (s, cs) a ∧ shows (r', set_thread t th' ths) a) as Htake.
  { intros gvk sub Hcall Htk Ha Hq1 Hx1. eexists.
    split; [right; apply (act_subscribe s cs t gvk sub); [by rewrite Hc|by eapply quiet_unlocked, Hlock]|].
    rewrite <- Ha. apply (shows_client r _ _ s); [done| |by rewrite Hq1]. intros g o. simpl. by rewrite Hx1, Hs. }
  clear Hlock. destruct (ths t) as [|gvk sub|gvk sub i|gvk sub i|gvk sub i res|gvk i ret|i ret| | | | | |]
    eqn:Et, c as [now|outcome| |ctxErr]; try done; simpl in Hstep; try done; revert Hstep.
  - pose proof (Subscribe_enter_effect gvk sub now r) as He.
    destruct (Subscribe_enter gvk sub now r) as [[[err|]|i|i] r1]; destruct He as [Hq1 Hx1]; intros [= <- <-];
      [by apply (Hrefuse (Returned (Some err))); eauto|by apply (Htake gvk sub)|by apply Hsame..].
  - destruct (is_closed i r); [|done]. unfold Subscribe_wake. destruct (inflights r !! i ≫= si_err) as [err|];
      intros [= <- <-]; [by eapply Hrefuse; eauto|by apply Hsame].
  - intros [= <- <-]. by eapply Hrefuse; eauto.
  - destruct outcome; intros [= <- <-]; by apply Hsame.
  - intros [= <- <-]. by eapply Hrefuse; eauto.
  - pose proof (Subscribe_finish_effect gvk sub i res now r) as He.
    destruct (Subscribe_finish gvk sub i res now r) as [[err|] r1]; destruct He as [Hq1 Hx1]; intros [= <- <-];
      [by eapply Hrefuse; eauto|by apply (Htake gvk sub)].
  - intros [= <- <-]. by apply Hsame.
  - intros [= <- <-]. by apply Hsame.
Qed.

(** The removals, kind by kind, and their ends. *)
Lemma removal_shows r ths s cs t c th' r' :
  reg_inv r → lock_ok r (ths t) → locked (ths t) = true → shows (r, ths) (s, cs) →
  thread_step (ths t) c r = Some (th', r') →
  ∃ a, at_most_one (s, cs) a ∧ shows (r', set_thread t th' ths) a.
Proof.
  intros Hreg Hok Hl Hsh Hstep. pose proof Hsh as (Hs & Hq & Hc). simpl in Hs, Hq. pose proof (Hc t) as Hct. simpl in Hct.
  assert (∀ w g0, cs t = Removing w → client_of th' = Removing w → enqueued r' = enqueued r →
    (∀ g o, subscription (rg_index r') g o =
       if decide (g = g0 ∧ covers w g o) then None else subscription (rg_index r) g o) →
    ∃ a, at_most_one (s, cs) a ∧ shows (r', set_thread t th' ths) a) as Hone.
  { intros w g0 Hw Hw' Hq1 Hx1. eexists. split; [right; by apply (act_remove_kind s cs t w g0)|]. split_and!.
    - intros g o. simpl. by rewrite Hx1, Hs.
    - simpl. by rewrite Hq1.
    - intros t'. simpl. unfold set_thread. case_decide; [subst; congruence|apply Hc]. }
  assert (∀ w, cs t = Removing w → client_of th' = Free → r' = r →
    (∀ g o, covers w g o → subscription (rg_index r) g o = None) →
    ∃ a, at_most_one (s, cs) a ∧ shows (r', set_thread t th' ths) a) as Hend.
  { intros w Hw Hw' -> Hall. exists (s, set_client t Free cs). split.
    - right. apply (act_removed s cs t w); [done|]. intros g o. rewrite Hs. apply Hall.
    - rewrite <- Hw'. by apply (shows_client r _ _ s). }
  destruct (ths t) as [| | | | | | | |owner rest|group kind dropped rest| | |] eqn:Et; try done;
    destruct c as [now|outcome| |ctxErr]; simpl in Hstep; try (by destruct rest).
  - destruct rest as [|gvk rest]; injection Hstep as <- <-.
    + apply (Hend (OfOwner owner)); [done..|]. intros g o ->. apply eq_None_not_Some. intros Hsome.
      destruct (not_elem_of_nil g (Hok g Hsome)).
    + apply (Hone (OfOwner owner) gvk); [done..|apply unsubscribeLocked_enqueued|]. intros g o.
      apply unsubscribeLocked_subscription, Hreg.
  - destruct rest as [|[g0 e] rest]; injection Hstep as <- <-; destruct Hok as [_ Hok].
    + apply (Hend (OfKind group kind)); [done..|]. intros g o [Hg Hk]. apply scount_zero; [apply Hreg|].
      destruct (decide (SubscriberCount g (rg_index r) = 0)) as [|Hne]; [done|].
      apply (reg_registered _ Hreg) in Hne as [e He]. destruct (not_elem_of_nil (g, e)). by apply Hok.
    + apply (Hone (OfKind group kind) g0); [done..|]. intros g o. simpl. rewrite subscription_ClearGVK.
      destruct (proj1 (Hok g0 e)) as (_ & Hg & Hk); [by left|].
      destruct (decide (g = g0)) as [->|Hne]; [by rewrite decide_True|by rewrite decide_False by tauto].
Qed.

(** What is left: the stops and deletions after an invalidation, and the
    enqueues of a dispatch. *)
Lemma thread_shows r ths s cs t c th' r' :
  reg_inv r → lock_ok r (ths t) → shows (r, ths) (s, cs) →
  thread_step (ths t) c r = Some (th', r') → (takes_lock (ths t) = true → unlocked ths) →
  ∃ a, at_most_one (s, cs) a ∧ shows (r', set_thread t th' ths) a.
Proof.
  intros Hreg Hok Hsh Hstep Hlock. pose proof Hsh as (Hs & Hq & Hc). simpl in Hs, Hq. pose proof (Hc t) as Hct. simpl in Hct.
  assert (unseen r r' → client_of th' = client_of (ths t) →
    ∃ a, at_most_one (s, cs) a ∧ shows (r', set_thread t th' ths) a) as Hsame.
  { intros Hu Ht. exists (s, cs). split; [by left|]. by apply (shows_thread r). }
  destruct (ths t) as [| | | | | | | | | |[|[g e] rest] gvks|[|[v g] rest]|gvk [|o rest]] eqn:Et; try done;
    try (by eapply subscribe_shows; [done| |by rewrite Et|by rewrite Et]; rewrite Et);
    try (by eapply removal_shows; [done| | |done|]; rewrite Et);
    destruct c as [now|outcome| |ctxErr]; try discriminate Hstep; injection Hstep as <- <-;
    try (by apply Hsame).
  - exists (s, set_client t Free cs). split; [right; by apply act_delivered|]. by apply (shows_client r _ _ s _ _ _ Idle).
  - eexists. split; [right; by apply (act_deliver s cs t o rest)|].
    apply (shows_client r _ _ s _ _ _ (Waking gvk rest)); [done..|]. simpl. by rewrite Hq.
Qed.

Lemma step_shows c c' a : serving c → step false c c' → shows c a → ∃ a', at_most_one a a' ∧ shows c' a'.
Proof.
  intros Hserv Hstep Hsh. destruct c as [r ths], a as [s cs].
  pose proof (serving_inv _ Hserv) as Hreg. destruct (reached_inv _ _ Hserv) as [_ Hl]. simpl in Hreg, Hl.
  pose proof Hsh as (Hs & Hq & Hc). simpl in Hs, Hq, Hc.
  inversion Hstep as [r0 ths0 t c th' r' Ht Htk|r0 ths0 t gvk sub Hi|r0 ths0 gvk owner Hu|r0 ths0 t owner gvks Hi Hu Hp
    |r0 ths0 t group kind matched Hi Hu Hp|r0 ths0 t gvk ev obj owners Hi Hp|r0 ths0 Hst Hu]; subst.
  - by eapply thread_shows; [done|apply Hl|..].
  - exists (s, set_client t (Calling gvk sub) cs). split; [right; apply act_call; by rewrite Hc, Hi|].
    by apply (shows_client r _ _ s _ _ _ (SubHead gvk sub)).
  - eexists. split; [right; apply (act_unsubscribe s cs gvk owner); by eapply quiet_unlocked|].
    split_and!; [|cbn [fst]|done].
    + intros g o. cbn [fst]. unfold Unsubscribe. rewrite unsubscribeLocked_subscription by apply Hreg. simpl. by rewrite Hs.
    + unfold Unsubscribe. by rewrite unsubscribeLocked_enqueued.
  - exists (s, set_client t (Removing (OfOwner owner)) cs).
    split; [right; apply act_remove; [by rewrite Hc, Hi|by eapply quiet_unlocked]|].
    by apply (shows_client r _ _ s _ _ _ (UnsubAll owner gvks)).
  - exists (s, set_client t (Removing (OfKind group kind)) cs).
    split; [right; apply act_remove; [by rewrite Hc, Hi|by eapply quiet_unlocked]|].
    by apply (shows_client r _ _ s _ _ _ (InvDrop group kind [] matched)).
  - exists (s, set_client t (Delivering owners) cs). split.
    + right. apply (act_event s cs t gvk obj owners); [by rewrite Hc, Hi| |].
      * rewrite Hp. by apply Subscribers_NoDup, Hreg.
      * intros o. rewrite Hp, Subscribers_spec by apply Hreg. setoid_rewrite Hs. apply exist_proper. intros sub.
        apply and_iff_compat_l. unfold Subscriber_Match, admits.
        destruct (Matchers sub) as [|m ms]; [naive_solver|]. rewrite existsb_elem. naive_solver.
    + by apply (shows_client r _ _ s _ _ _ (Waking gvk owners)).
  - done.
Qed.

Definition nobody : table * (nat → client) := (Build_table (λ _ _, None) [], λ _, Free).

Lemma run_shows syncTimeout failureCooldown c :
  rtc (step false) (initial syncTimeout failureCooldown) c → ∃ a, rtc act nobody a ∧ shows c a.
Proof.
  revert c. apply (rtc_ind_r (λ c, ∃ a, rtc act nobody a ∧ shows c a)).
  - exists nobody. split; [apply rtc_refl|]. by split_and!.
  - intros c1 c2 Hrun Hstep (a & Hacts & Ha).
    destruct (step_shows c1 c2 a) as (a' & [->|Hact] & Ha'); [by exists syncTimeout, failureCooldown|done..| |].
    + by exists a'.
    + exists a'. split; [by eapply rtc_r|done].
Qed.

(** C8: until the manager shuts it down, the registry is a table of
    subscriptions to its callers. However goroutines interleave inside it, what
    they see is a run of acts on the table, in the same order: every step of a
    goroutine shows nothing or is one act. A Subscribe that answers nil adds its
    subscription at one moment between its call and its return; one that answers
    an error, or panics with the factory, adds none; Unsubscribe takes its own
    away at one moment. UnsubscribeAll and InvalidateGroupKind take theirs away
    kind by kind, and return from the loop with all of them gone; meanwhile nobody
    else changes the table, though an event may be dispatched half-way. A
    dispatched event queues, one by one, exactly the owners that are in the table
    at one moment with a matcher admitting the object, each once. And at every
    moment an informer is registered for exactly the kinds the table has
    subscriptions of, and GVKsByOwner answers an owner's kinds in it. *)
Theorem linearizable c :
  serving c →
  (∃ a, rtc act nobody a ∧ shows c a) ∧
  ∀ a, shows c a →
    (∀ c', step false c c' → ∃ a', at_most_one a a' ∧ shows c' a') ∧
    (∀ g, is_Some (informers c.1 !! g) ↔ ∃ o, is_Some (tb_subs a.1 g o)) ∧
    ∀ o g, g ∈ Registry_GVKsByOwner o c.1 ↔ is_Some (tb_subs a.1 g o).
Proof.
  intros Hserv. split; [by destruct Hserv as (st & fc & Hrun); eapply run_shows|].
  intros a Ha. split; [intros c' Hstep; by eapply step_shows|].
  pose proof (serving_inv _ Hserv) as Hreg. destruct Ha as [Hs _]. split.
  - intros g. rewrite (reg_registered _ Hreg g), SubscriberCount_exists. by setoid_rewrite Hs.
  - intros o g. rewrite Hs. apply GVKsByOwner_spec, Hreg.
Qed.
End linear.

(** ** An invalidation, a new subscription, an event, and a removal under way *)
Module LinearFix.
Import Traces.
#[local] Existing Instance Fix.labels.
#[local] Existing Instance Fix.unstructured.
#[local] Existing Instance Fix.formatting.

Definition busy_subs : option Subscriber := subscription (rg_index busy.1) gvk owner.

Lemma linearizable_witness :
  ∃ a, rtc act nobody a ∧ tb_subs a.1 gvk owner = Some sub ∧ is_Some (informers busy.1 !! gvk) ∧
    tb_enqueued a.1 = [owner] ∧ a.2 0 = Answered (Returned None) ∧ a.2 1 = Free ∧ a.2 4 = Removing (OfOwner owner).
Proof.
  assert (busy_subs = Some sub) as Hsub by (vm_compute; reflexivity).
  destruct (linearizable busy busy_serving) as [(a & Hacts & Hsh) Hall]. exists a. split; [exact Hacts|].
  destruct (Hall a Hsh) as (_ & Hrun & _). destruct Hsh as (Hs & Hq & Hc).
  assert (tb_subs a.1 gvk owner = Some sub) as Hin by (rewrite Hs; exact Hsub).
  split; [exact Hin|]. split; [apply Hrun; exists owner; rewrite Hin; by eexists|].
  rewrite Hq, !Hc. vm_compute. split_and!; reflexivity.
Defined.
End LinearFix.
