(* ===== verification/StatusHelpers.v ===== *)
(** * internal/controller/reconciler.go, the pure helpers

    The canonical forms that keep consecutive reconciles equal: the capped,
    deduplicated and sorted not-ready list, the sorted rollups, and the bounded,
    single-line, valid UTF-8 error texts. *)

From S2P Require Import Prelude GoStd ApiV1 K8s Status.
From Stdlib Require Import Ascii.

(** ** Definitions *)

Definition defaultResourceCap : Z := 50.
Definition defaultStalledErrorCap : Z := 50.
Definition maxStalledErrChars : nat := 256.
Definition maxStalledTotalChars : nat := 4096.

(** [resourceCap] and [stalledErrorCap]: zero or less means the default. *)
Definition resourceCap (ResourceCap : Z) : Z :=
  if (ResourceCap <=? 0)%Z then defaultResourceCap else ResourceCap.
Definition stalledErrorCap (StalledErrorCap : Z) : Z :=
  if (StalledErrorCap <=? 0)%Z then defaultStalledErrorCap else StalledErrorCap.

(** *** Not-ready resources *)

(** One iteration of the loop of [notReadyResourcesOf]. *)
Definition not_ready_status (m : Resource) : ResourceStatus :=
  let '(reason, message) :=
    if IsCurrent m then (ReasonSuspended, "spec.suspend is true")
    else (r_Reason m, r_Message m) in
  Build_ResourceStatus (r_Group m) (r_Version m) (r_Kind m) (r_Namespace m) (r_Name m)
    (r_Status m) reason message.

Definition notReadyResourcesOf (resources : list Resource) (policy : SuspendPolicy)
    : list ResourceStatus :=
  not_ready_status <$> filter (λ m, Blocks m policy = true) resources.

(** [in[:cap]] of a nil slice is nil. *)
Definition capResources (l : slice ResourceStatus) (cap : Z) : slice ResourceStatus * bool :=
  if (Z.of_nat (length (elems l)) <=? cap)%Z then (l, false)
  else (take (Z.to_nat cap) <$> l, true).

Definition identity (r : ResourceStatus) : string * string * string * string * string :=
  (rs_Group r, rs_Version r, rs_Kind r, rs_Namespace r, rs_Name r).

(** The loop with the [seen] set. *)
Fixpoint dedupe (seen : gset (string * string * string * string * string))
    (l : list ResourceStatus) : list ResourceStatus :=
  match l with
  | [] => []
  | r :: l =>
      if decide (identity r ∈ seen) then dedupe seen l
      else r :: dedupe ({[identity r]} ∪ seen) l
  end.

(** The comparison of the sort, key by key. *)
Definition resource_less : ResourceStatus → ResourceStatus → bool :=
  lex_lt [rs_Group; rs_Kind; rs_Namespace; rs_Name; rs_Version].

Definition dedupeAndSortResources (l : list ResourceStatus) : slice ResourceStatus :=
  match l with
  | [] => None
  | _ => Some (sort_slice resource_less (dedupe ∅ l))
  end.

(** *** Rollups *)

Definition name_less (a b : DependencyStatus) : bool := str_lt (ds_Name a) (ds_Name b).

(** [entries] lists the map in the order its iteration takes. *)
Definition sorted_entries (entries : list (string * DependencyStatus)) : slice DependencyStatus :=
  match entries with
  | [] => None
  | _ => Some (sort_slice name_less entries.*2)
  end.

Definition sortedDependencyStatuses (rollups : gmap string DependencyStatus)
    : slice DependencyStatus := sorted_entries (map_to_list rollups).

(** *** Error texts *)

(** [utf8.RuneStart]: not a continuation byte 10xxxxxx. *)
Definition byte_of (c : ascii) : Z := Z.of_N (N_of_ascii c).
Definition RuneStart (c : ascii) : bool := negb (Z.land (byte_of c) 192 =? 128)%Z.

Definition ellipsis : string := "…".

(** [for cut > 0 && !utf8.RuneStart(s[cut]) { cut-- }]. *)
Fixpoint cut_back (s : string) (cut : nat) : nat :=
  match cut with
  | O => O
  | S c => if match String.get cut s with Some b => RuneStart b | None => true end
           then cut else cut_back s c
  end.

Definition truncateWithEllipsis (s : string) (maxBytes : nat) : string :=
  if decide (String.length s ≤ maxBytes) then s
  else if decide (maxBytes < String.length ellipsis) then ""
  else
    let cut := cut_back s (maxBytes - String.length ellipsis) in
    String.substring 0 cut s +:+ ellipsis.

Definition CR : ascii := "013"%char.
Definition LF : ascii := "010"%char.

(** [strings.ContainsAny(s, "\r\n")]. *)
Fixpoint has_newline (s : string) : bool :=
  match s with
  | "" => false
  | String c s => bool_decide (c = CR) || bool_decide (c = LF) || has_newline s
  end.

(** [strings.ReplaceAll(s, old, new)] for a non-empty [old]: leftmost, not
    overlapping; [skip] bytes of a match are still to be consumed. *)
Fixpoint replace_from (old new s : string) (skip : nat) : string :=
  match s with
  | "" => ""
  | String c s' =>
      match skip with
      | S skip => replace_from old new s' skip
      | O => if String.prefix old s then new +:+ replace_from old new s' (String.length old - 1)
             else String c (replace_from old new s' 0)
      end
  end.
Definition ReplaceAll (s old new : string) : string := replace_from old new s 0.

Definition CRLF_str : string := String CR (String LF "").

Definition sanitiseErrText (err : option error) : string :=
  match err with
  | None => ""
  | Some err =>
      let s := err_Error err in
      let s := if has_newline s then
          ReplaceAll (ReplaceAll (ReplaceAll s CRLF_str " ") (String LF "") " ") (String CR "") " "
        else s in
      truncateWithEllipsis s maxStalledErrChars
  end.

(** *** Conditions *)

Definition strip_condition (c : Condition) : Condition :=
  Build_Condition (c_Type c) (c_Status c) 0 0 (c_Reason c) (c_Message c).

(** The result is never nil. *)
Definition stripTransitionTimes (l : slice Condition) : slice Condition :=
  Some (strip_condition <$> elems l).

Definition strip_status (a : MilestoneStatusBase) : MilestoneStatusBase :=
  Build_MilestoneStatusBase (ObservedGeneration a) (stripTransitionTimes (Conditions a))
    (sb_Summary a) (DependsOn a) (NotReadyResources a) (Truncated a) 0.

(** [reflect.DeepEqual] tells nil slices from empty ones, as equality does. *)
Definition statusEqualIgnoringTimestamp (a b : MilestoneStatusBase) : bool :=
  bool_decide (strip_status a = strip_status b).

Definition readyConditionStatus `{ConditionsAPI} (sb : MilestoneStatusBase) : ConditionStatus :=
  match FindStatusCondition (Conditions sb) ConditionReady with
  | Some c => c_Status c
  | None => ConditionUnknown
  end.

(** ** The not-ready list *)

(** Entries about the same object are the same entry, as they are when they come
    from one reading of the informer caches. *)
Definition consistent (l : list ResourceStatus) : Prop :=
  ∀ x y, x ∈ l → y ∈ l → identity x = identity y → x = y.

Lemma elem_of_dedupe_sub seen l x : x ∈ dedupe seen l → x ∈ l ∧ identity x ∉ seen.
Proof.
  revert seen. induction l as [|r l IH]; intros seen; simpl; [set_solver|].
  case_decide as Hs; [intros [? ?]%IH; set_solver|].
  intros [->|Hin]%elem_of_cons; [set_solver|]. apply IH in Hin. set_solver.
Qed.

Lemma dedupe_covers seen l x :
  x ∈ l → identity x ∉ seen → ∃ y, y ∈ dedupe seen l ∧ identity y = identity x.
Proof.
  revert seen. induction l as [|r l IH]; intros seen; simpl; [set_solver|].
  intros [->|Hin]%elem_of_cons Hs.
  - rewrite decide_False by done. exists r. split; [by left|done].
  - case_decide as Hr; [by apply IH|].
    destruct (decide (identity x = identity r)) as [E|E]; [exists r; split; [by left|done]|].
    destruct (IH ({[identity r]} ∪ seen) Hin) as (y & Hy & Ey);
      [by rewrite not_elem_of_union, not_elem_of_singleton|].
    exists y. split; [by right|done].
Qed.

Lemma dedupe_NoDup seen l : NoDup (identity <$> dedupe seen l).
Proof.
  revert seen. induction l as [|r l IH]; intros seen; simpl; [constructor|].
  case_decide; [done|]. simpl. constructor; [|done].
  intros (y & Ey & Hy)%list_elem_of_fmap. apply elem_of_dedupe_sub in Hy as [_ Hy].
  apply Hy, elem_of_union_l. by apply elem_of_singleton.
Qed.

Lemma elem_of_dedupe l x : consistent l → x ∈ dedupe ∅ l ↔ x ∈ l.
Proof.
  intros Hc. split; [by intros [? _]%elem_of_dedupe_sub|]. intros Hx.
  destruct (dedupe_covers ∅ l x Hx) as (y & Hy & Ey); [apply not_elem_of_empty|].
  rewrite (Hc x y); [done|done| |done]. by apply elem_of_dedupe_sub in Hy as [? _].
Qed.

Lemma resource_less_tie a b :
  resource_less a b = false → resource_less b a = false → identity a = identity b.
Proof.
  intros Hab Hba. pose proof (lex_lt_silent _ _ _ Hab Hba) as Hall.
  rewrite !Forall_cons in Hall. destruct Hall as (E1 & E2 & E3 & E4 & E5 & _).
  unfold identity. by rewrite E1, E2, E3, E4, E5.
Qed.

Lemma dedupe_sort_same l1 l2 :
  consistent l1 → (∀ x, x ∈ l1 ↔ x ∈ l2) →
  dedupeAndSortResources l1 = dedupeAndSortResources l2.
Proof.
  intros Hc Heq. assert (consistent l2) as Hc2 by (intros x y; rewrite <- !Heq; apply Hc).
  unfold dedupeAndSortResources.
  destruct l1 as [|x1 l1], l2 as [|x2 l2]; [done| | |f_equal].
  { exfalso. apply (not_elem_of_nil x2), Heq. by left. }
  { exfalso. apply (not_elem_of_nil x1), Heq. by left. }
  apply (sort_slice_unique resource_less).
  - intros a b Ha Hb Hab Hba. rewrite elem_of_dedupe in Ha, Hb by done.
    apply Hc; [done..|]. by apply resource_less_tie.
  - apply NoDup_Permutation; [by eapply NoDup_fmap_1, dedupe_NoDup..|].
    intros x. by rewrite !elem_of_dedupe.
Qed.

Lemma dedupe_elems r l :
  elems (dedupeAndSortResources (r :: l)) = sort_slice resource_less (dedupe ∅ (r :: l)).
Proof. done. Qed.

(** the owner's not-ready list lists each object once, sorted by group, kind,
    namespace, name and version, and depends only on the set of entries
    collected: neither the informer cache's iteration order nor an object
    matched by several dependencies changes it. *)
Theorem dedupeAndSortResources_canonical l :
  consistent l →
  (∀ l', (∀ x, x ∈ l' ↔ x ∈ l) → dedupeAndSortResources l' = dedupeAndSortResources l) ∧
  (∀ x, x ∈ elems (dedupeAndSortResources l) ↔ x ∈ l) ∧
  NoDup (identity <$> elems (dedupeAndSortResources l)) ∧
  StronglySorted (in_order resource_less) (elems (dedupeAndSortResources l)) ∧
  (dedupeAndSortResources l = None ↔ l = []).
Proof.
  intros Hc. split_and!.
  - intros l' Heq. symmetry. apply dedupe_sort_same; [done|]. naive_solver.
  - intros x. destruct l as [|r l]; [done|]. rewrite dedupe_elems, sort_slice_perm.
    by apply elem_of_dedupe.
  - destruct l as [|r l]; [constructor|]. rewrite dedupe_elems, sort_slice_perm. apply dedupe_NoDup.
  - destruct l as [|r l]; [constructor|]. apply sort_slice_sorted. apply _.
  - by destruct l.
Qed.

Lemma dedupeAndSortResources_canonical_witness :
  let a := Build_ResourceStatus "" "v1" "Pod" "ns" "a" "Failed" "" "" in
  let b := Build_ResourceStatus "" "v1" "Pod" "ns" "b" "Failed" "" "" in
  dedupeAndSortResources [b; a; b] = dedupeAndSortResources [a; b] ∧
  dedupeAndSortResources [b; a; b] = Some [a; b].
Proof.
  intros a b. split; [|vm_compute; reflexivity].
  apply (dedupeAndSortResources_canonical [a; b]).
  - intros x y. rewrite !elem_of_cons. intros [->|[->|[]%not_elem_of_nil]];
      intros [->|[->|[]%not_elem_of_nil]]; done.
  - intros x. set_solver.
Defined.

(** Which resources are listed: the blocking ones; a Current one only because
    it is suspended, and then with that reason. *)
Lemma notReadyResourcesOf_spec resources policy :
  (notReadyResourcesOf resources policy = [] ↔ Forall (λ m, Blocks m policy = false) resources) ∧
  ∀ m, m ∈ resources → Blocks m policy = true →
    not_ready_status m ∈ notReadyResourcesOf resources policy ∧
    (IsCurrent m = true → rs_Reason (not_ready_status m) = ReasonSuspended) ∧
    (IsCurrent m = false → rs_Reason (not_ready_status m) = r_Reason m ∧
       rs_Message (not_ready_status m) = r_Message m).
Proof.
  unfold notReadyResourcesOf. split.
  - induction resources as [|m l IH]; [done|]. rewrite filter_cons, Forall_cons.
    destruct (Blocks m policy); simpl; [|rewrite IH; naive_solver]. naive_solver.
  - intros m Hm Hb. split_and!.
    + apply list_elem_of_fmap. exists m. split; [done|]. by apply list_elem_of_filter.
    + intros Hc. unfold not_ready_status. by rewrite Hc.
    + intros Hc. unfold not_ready_status. by rewrite Hc.
Qed.

(** ** The rollups *)

#[export] Instance name_less_order : LessOrder name_less.
Proof.
  unfold name_less. split; intros *; [apply less_irrefl|apply less_cotrans|apply less_asym].
Qed.

Lemma sorted_entries_perm l1 l2 :
  NoDup (ds_Name <$> l1.*2) → l1 ≡ₚ l2 → sorted_entries l1 = sorted_entries l2.
Proof.
  intros Hnd Hp. unfold sorted_entries. pose proof (Permutation_length Hp) as Hlen.
  destruct l1 as [|e1 l1], l2 as [|e2 l2]; [done..|]. f_equal.
  apply (sort_slice_unique name_less); [|by rewrite Hp].
  intros a b Ha Hb Hab Hba. eapply (NoDup_fmap_elem ds_Name); [exact Hnd|done..|].
  by apply str_lt_antisym.
Qed.

(** ** Texts *)

(** Well-formed UTF-8, by its runes: a rune is a lead byte and its continuation
    bytes, as many as the lead byte announces, and only they fail [RuneStart]. *)
Definition in_range (lo hi : Z) (c : ascii) : bool :=
  ((lo <=? byte_of c) && (byte_of c <=? hi))%Z.
Definition is_cont : ascii → bool := in_range 128 191.

(** Table 3-7 of the Unicode standard, as unicode/utf8 implements it. *)
Definition is_rune (s : string) : bool :=
  match s with
  | String a "" => in_range 0 127 a
  | String a (String b "") => in_range 194 223 a && is_cont b
  | String a (String b (String c "")) =>
      ((in_range 224 224 a && in_range 160 191 b) ||
       ((in_range 225 236 a || in_range 238 239 a) && is_cont b) ||
       (in_range 237 237 a && in_range 128 159 b)) && is_cont c
  | String a (String b (String c (String d ""))) =>
      ((in_range 240 240 a && in_range 144 191 b) ||
       (in_range 241 243 a && is_cont b) ||
       (in_range 244 244 a && in_range 128 143 b)) && is_cont c && is_cont d
  | _ => false
  end.

Inductive utf8_valid : string → Prop :=
  | utf8_empty : utf8_valid ""
  | utf8_rune r s : is_rune r = true → utf8_valid s → utf8_valid (r +:+ s).

Definition all_ascii : list ascii :=
  map (λ n, ascii_of_N (N.of_nat n)) (seq 0 256).

(** A fact about one byte holds if it holds of all 256. *)
Lemma all_bytes (f : ascii → bool) : forallb f all_ascii = true → ∀ c, f c = true.
Proof.
  intros Hf c. rewrite forallb_forall in Hf. apply Hf.
  unfold all_ascii. apply in_map_iff. exists (N.to_nat (N_of_ascii c)).
  rewrite N2Nat.id, ascii_N_embedding. split; [done|]. apply in_seq.
  pose proof (N_ascii_bounded c). lia.
Qed.

Lemma is_cont_not_start c : is_cont c = true → RuneStart c = false.
Proof.
  pose proof (all_bytes (λ c, negb (is_cont c) || negb (RuneStart c)) eq_refl c) as Hc.
  simpl in Hc. intros Hcont. rewrite Hcont in Hc. simpl in Hc. by apply negb_true_iff in Hc.
Qed.

Lemma range_cont lo hi c :
  (128 <= lo)%Z → (hi <= 191)%Z → in_range lo hi c = true → is_cont c = true.
Proof.
  unfold is_cont, in_range. rewrite !andb_true_iff, !Z.leb_le. lia.
Qed.

(** Every byte of a rune but the first is a continuation byte. *)
Lemma rune_shape r :
  is_rune r = true → ∃ a t, r = String a t ∧ String.length t ≤ 3 ∧
    ∀ n b, String.get n t = Some b → RuneStart b = false.
Proof.
  intros Hr. destruct r as [|a t]; [done|]. exists a, t. split; [done|].
  enough (String.length t ≤ 3 ∧ ∀ n b, String.get n t = Some b → is_cont b = true) as [Hl Hc].
  { split; [done|]. intros n b Hb. by apply is_cont_not_start, (Hc n). }
  destruct t as [|b [|c [|d []]]]; simpl in Hr; [| | | |by repeat case_match]; bsimp;
    (split; [simpl; lia|]).
  - done.
  - intros [|[]] x; simpl; intros [= <-] || done. done.
  - assert (is_cont b = true) as Hb.
    { rewrite !orb_true_iff, !andb_true_iff in *.
      destruct H as [[[_ Hb]|[_ Hb]]|[_ Hb]]; [by eapply range_cont in Hb|done|by eapply range_cont in Hb]. }
    intros [|[|[]]] x; simpl; intros; by simplify_eq.
  - assert (is_cont b = true) as Hb.
    { rewrite !orb_true_iff, !andb_true_iff in *.
      destruct H as [[[_ Hb]|[_ Hb]]|[_ Hb]]; [by eapply range_cont in Hb|done|by eapply range_cont in Hb]. }
    intros [|[|[|[]]]] x; simpl; intros; by simplify_eq.
Qed.

(** Its first byte is not. *)
Lemma rune_starts a t : is_rune (String a t) = true → RuneStart a = true.
Proof.
  intros Hr. assert (in_range 0 127 a = true ∨ in_range 194 244 a = true) as Ha.
  { destruct t as [|b [|c [|d []]]]; simpl in Hr; [| | | |by repeat case_match];
      unfold is_cont, in_range in *; rewrite ?andb_true_iff, ?orb_true_iff, ?Z.leb_le in *; lia. }
  pose proof (all_bytes (λ c, negb (in_range 0 127 c || in_range 194 244 c) || RuneStart c)
    eq_refl a) as Hc. simpl in Hc.
  destruct (in_range 0 127 a), (in_range 194 244 a); simpl in Hc; naive_solver.
Qed.

(** *** Strings and their prefixes *)

Lemma string_length_app s1 s2 : String.length (s1 +:+ s2) = String.length s1 + String.length s2.
Proof. induction s1 as [|c s1 IH]; simpl; [done|]. by rewrite IH. Qed.

Lemma string_app_assoc s1 s2 s3 : s1 +:+ (s2 +:+ s3) = (s1 +:+ s2) +:+ s3.
Proof. induction s1 as [|c s1 IH]; [done|]. exact (f_equal (String c) IH). Qed.

Lemma string_app_empty s : s +:+ "" = s.
Proof. induction s as [|c s IH]; [done|]. exact (f_equal (String c) IH). Qed.

Lemma substring_length n s : n ≤ String.length s → String.length (String.substring 0 n s) = n.
Proof.
  revert n. induction s as [|c s IH]; intros [|n]; simpl; [done|lia|done|].
  intros Hn. by rewrite IH by lia.
Qed.

Lemma substring_app n s1 s2 :
  String.length s1 ≤ n →
  String.substring 0 n (s1 +:+ s2) = s1 +:+ String.substring 0 (n - String.length s1) s2.
Proof.
  revert n. induction s1 as [|c s1 IH]; intros n; simpl; [by rewrite Nat.sub_0_r|].
  destruct n as [|n]; [lia|]. intros Hn. simpl. by rewrite IH by lia.
Qed.

Lemma get_app_l n s1 s2 : n < String.length s1 → String.get n (s1 +:+ s2) = String.get n s1.
Proof.
  revert n. induction s1 as [|c s1 IH]; intros [|n]; simpl; [lia..|done|].
  intros. apply IH. lia.
Qed.

Lemma get_app_r n s1 s2 :
  String.length s1 ≤ n → String.get n (s1 +:+ s2) = String.get (n - String.length s1) s2.
Proof.
  revert n. induction s1 as [|c s1 IH]; intros n; simpl; [by rewrite Nat.sub_0_r|].
  destruct n as [|n]; [lia|]. intros. simpl. apply IH. lia.
Qed.

Lemma get_Some n s : n < String.length s → ∃ b, String.get n s = Some b.
Proof.
  revert n. induction s as [|c s IH]; intros [|n]; simpl; [lia..|eauto|].
  intros. apply IH. lia.
Qed.

Lemma utf8_valid_app s1 s2 : utf8_valid s1 → utf8_valid s2 → utf8_valid (s1 +:+ s2).
Proof.
  induction 1 as [|r s Hr Hs IH]; intros H2; [done|].
  rewrite <- string_app_assoc. constructor; [done|]. by apply IH.
Qed.

Lemma utf8_rune_valid r : is_rune r = true → utf8_valid r.
Proof. intros Hr. rewrite <- (string_app_empty r). by repeat constructor. Qed.

(** A position where a rune may begin. *)
Definition boundary (s : string) (n : nat) : Prop :=
  n = 0 ∨ ∃ b, String.get n s = Some b ∧ RuneStart b = true.

Lemma utf8_valid_prefix s n :
  utf8_valid s → n < String.length s → boundary s n → utf8_valid (String.substring 0 n s).
Proof.
  intros Hs. revert n. induction Hs as [|r s Hr Hs IH]; intros n Hn Hb; [by inversion Hn|].
  destruct (decide (n = 0)) as [->|Hn0].
  { destruct (r +:+ s); constructor. }
  destruct Hb as [|(b & Hb & Hst)]; [done|].
  destruct (rune_shape r Hr) as (a & t & -> & Ht & Hcont).
  destruct (decide (n < String.length (String a t))) as [Hlt|Hge].
  - rewrite get_app_l in Hb by done. destruct n as [|n]; [done|]. simpl in Hb.
    apply Hcont in Hb. congruence.
  - rewrite substring_app by lia. constructor; [done|].
    rewrite get_app_r in Hb by lia. rewrite string_length_app in Hn.
    apply IH; [lia|]. right. eauto.
Qed.

(** Boundaries are at most four bytes apart. *)
Lemma boundary_near s n :
  utf8_valid s → n < String.length s → ∃ k, k ≤ n ∧ n ≤ k + 3 ∧ boundary s k.
Proof.
  intros Hs. revert n. induction Hs as [|r s Hr Hs IH]; intros n Hn; [by inversion Hn|].
  destruct (rune_shape r Hr) as (a & t & Er & Ht & Hcont).
  assert (String.length r ≤ 4) by (subst r; simpl; lia).
  destruct (decide (n < String.length r)) as [Hlt|Hge].
  - exists 0. split; [lia|]. split; [lia|by left].
  - rewrite string_length_app in Hn.
    destruct (IH (n - String.length r)) as (k & Hk1 & Hk2 & Hb); [lia|].
    destruct Hb as [->|(b & Hb & Hst)].
    + destruct s as [|b s]; [simpl in Hn; lia|].
      exists (String.length r). split; [lia|]. split; [lia|]. right. exists b.
      rewrite get_app_r, Nat.sub_diag by lia. split; [done|].
      inversion Hs as [|r' s' Hr' Hs' E]. destruct r' as [|b' t']; [done|].
      change (String b' (t' +:+ s') = String b s) in E. simplify_eq. by eapply rune_starts.
    + exists (k + String.length r). split; [lia|]. split; [lia|]. right. exists b.
      split; [|done]. rewrite get_app_r by lia. by rewrite Nat.add_sub.
Qed.

(** *** truncateWithEllipsis *)

Lemma cut_back_spec s n :
  cut_back s n ≤ n ∧
  (n < String.length s → boundary s (cut_back s n) ∧
     ∀ k, k ≤ n → boundary s k → k ≤ cut_back s n).
Proof.
  induction n as [|n IH]; simpl.
  - split; [lia|]. intros _. split; [by left|]. lia.
  - destruct (String.get (S n) s) as [b|] eqn:Hg; [destruct (RuneStart b) eqn:Hb|].
    + split; [lia|]. intros Hn. split; [right; eauto|]. lia.
    + destruct IH as [Hle IH]. split; [lia|]. intros Hn. destruct IH as [Hbd Hmax]; [lia|].
      split; [done|]. intros k Hk Hkb. apply Hmax; [|done].
      destruct (decide (k = S n)) as [->|]; [|lia].
      destruct Hkb as [|(b' & Hb' & ?)]; [done|]. congruence.
    + split; [lia|]. intros Hn. apply get_Some in Hn as [b Hb]. congruence.
Qed.

Lemma truncate_spec s max :
  let t := truncateWithEllipsis s max in
  String.length t ≤ max ∧ (String.length s ≤ max → t = s) ∧ (utf8_valid s → utf8_valid t).
Proof.
  cbv zeta. unfold truncateWithEllipsis. change (String.length ellipsis) with 3.
  destruct (decide (String.length s ≤ max)) as [Hfit|Hlong]; [by split_and!|].
  destruct (decide (max < 3)) as [Hsmall|Hbig].
  { split_and!; [simpl; lia|lia|]. intros _. constructor. }
  destruct (cut_back_spec s (max - 3)) as [Hle Hcut].
  destruct Hcut as [Hbd _]; [lia|]. split_and!.
  - rewrite string_length_app, substring_length by lia. simpl. lia.
  - lia.
  - intros Hv. apply utf8_valid_app; [|by apply utf8_rune_valid].
    apply utf8_valid_prefix; [done|lia|done].
Qed.

(** [truncateWithEllipsis] keeps a text that fits; otherwise the result is a
    prefix and an ellipsis, within the limit, and of a valid UTF-8 text it is
    valid UTF-8 that gives up at most three bytes more than it must. *)
Theorem truncateWithEllipsis_spec s max :
  let t := truncateWithEllipsis s max in
  String.length t ≤ max ∧
  (String.length s ≤ max → t = s) ∧
  (max < String.length s → 3 ≤ max → ∃ cut, t = String.substring 0 cut s +:+ ellipsis ∧
     (utf8_valid s → max ≤ cut + 6)) ∧
  (utf8_valid s → utf8_valid t).
Proof.
  destruct (truncate_spec s max) as (Hlen & Hsame & Hv). cbv zeta. split_and!; [done..| |done].
  intros Hlong Hbig. unfold truncateWithEllipsis. change (String.length ellipsis) with 3.
  rewrite !decide_False by lia. exists (cut_back s (max - 3)). split; [done|]. intros Hval.
  destruct (cut_back_spec s (max - 3)) as [_ Hcut]. destruct Hcut as [_ Hmax]; [lia|].
  destruct (boundary_near s (max - 3) Hval) as (k & Hk1 & Hk2 & Hkb); [lia|].
  specialize (Hmax k Hk1 Hkb). lia.
Qed.

Lemma truncateWithEllipsis_spec_witness :
  truncateWithEllipsis "naïveté" 6 = "na…" ∧ utf8_valid (truncateWithEllipsis "naïveté" 6).
Proof.
  split; [vm_compute; reflexivity|].
  destruct (truncateWithEllipsis_spec "naïveté" 6) as (_ & _ & _ & Hv). apply Hv.
  apply (utf8_rune "n" "aïveté"); [done|]. apply (utf8_rune "a" "ïveté"); [done|].
  apply (utf8_rune "ï" "veté"); [done|]. apply (utf8_rune "v" "eté"); [done|].
  apply (utf8_rune "e" "té"); [done|]. apply (utf8_rune "t" "é"); [done|].
  by apply utf8_rune_valid.
Defined.

(** *** sanitiseErrText *)

Lemma has_newline_app s1 s2 : has_newline (s1 +:+ s2) = has_newline s1 || has_newline s2.
Proof.
  induction s1 as [|c s1 IH]; [done|].
  change (has_newline (String c (s1 +:+ s2)) = has_newline (String c s1) || has_newline s2).
  simpl. by rewrite IH, orb_assoc.
Qed.

Fixpoint has_char (x : ascii) (s : string) : bool :=
  match s with "" => false | String c s => bool_decide (c = x) || has_char x s end.

Lemma has_newline_chars s : has_newline s = has_char CR s || has_char LF s.
Proof.
  induction s as [|c s IH]; [done|]. simpl. rewrite IH.
  by destruct (bool_decide (c = CR)), (bool_decide (c = LF)), (has_char CR s), (has_char LF s).
Qed.

(** Replacing one character by a space is a map. *)
Fixpoint map_char (x : ascii) (s : string) : string :=
  match s with
  | "" => ""
  | String c s => String (if decide (c = x) then " "%char else c) (map_char x s)
  end.

Lemma ReplaceAll_char x s : ReplaceAll s (String x "") " " = map_char x s.
Proof.
  unfold ReplaceAll. induction s as [|c s IH]; [done|]. simpl.
  destruct (ascii_dec x c) as [->|Hne].
  - rewrite decide_True by done. replace (String.prefix "" s) with true by (by destruct s).
    exact (f_equal (String " ") IH).
  - rewrite decide_False by done. by rewrite IH.
Qed.

Lemma map_char_length x s : String.length (map_char x s) = String.length s.
Proof. induction s as [|c s IH]; simpl; [done|]. by rewrite IH. Qed.

Lemma has_char_map x y s :
  x ≠ " "%char → y ≠ " "%char →
  has_char y (map_char x s) = if decide (y = x) then false else has_char y s.
Proof.
  intros Hx Hy. induction s as [|c s IH]; simpl; [by case_decide|]. rewrite IH.
  destruct (decide (c = x)) as [->|Hc], (decide (y = x)) as [->|Hyx];
    rewrite ?(bool_decide_false (" "%char = _)) by done;
    rewrite ?(bool_decide_false (x = _)) by done; rewrite ?(bool_decide_false (c = x)) by done; done.
Qed.

Lemma has_newline_substring n s : has_newline s = false → has_newline (String.substring 0 n s) = false.
Proof.
  revert n. induction s as [|c s IH]; intros [|n]; simpl; [done..|].
  rewrite !orb_false_iff. intros [? ?]. auto.
Qed.

Lemma has_newline_truncate s n : has_newline s = false → has_newline (truncateWithEllipsis s n) = false.
Proof.
  intros Hs. unfold truncateWithEllipsis. repeat case_decide; [done..|].
  by rewrite has_newline_app, has_newline_substring.
Qed.

(** A rune of more than one byte has no ASCII byte. *)
Lemma byte_ascii_eq c x : byte_of c ≠ byte_of x → c ≠ x.
Proof. by intros Hne ->. Qed.

Lemma rune_single_or_high r :
  is_rune r = true →
  (∃ a, r = String a "" ∧ in_range 0 127 a = true) ∨
  (∀ n b, String.get n r = Some b → (128 <= byte_of b)%Z).
Proof.
  intros Hr. destruct r as [|a [|b [|c [|d [|e t]]]]]; simpl in Hr; [done|left; eauto|right..];
    [| | |by repeat case_match]; unfold is_cont, in_range in Hr;
    rewrite ?andb_true_iff, ?orb_true_iff, ?Z.leb_le in Hr.
  - intros [|[|n]] x; simpl; intros [= <-] || (by destruct n); lia.
  - intros [|[|[|n]]] x; simpl; intros [= <-] || (by destruct n); lia.
  - intros [|[|[|[|n]]]] x; simpl; intros [= <-] || (by destruct n); lia.
Qed.

Lemma map_char_app x s1 s2 : map_char x (s1 +:+ s2) = map_char x s1 +:+ map_char x s2.
Proof.
  induction s1 as [|c s1 IH]; [done|].
  exact (f_equal (String (if decide (c = x) then " "%char else c)) IH).
Qed.

Lemma map_char_high x s :
  (byte_of x < 128)%Z → (∀ n b, String.get n s = Some b → (128 <= byte_of b)%Z) → map_char x s = s.
Proof.
  intros Hx. induction s as [|c s IH]; intros Hs; simpl; [done|]. rewrite decide_False.
  - f_equal. apply IH. intros n. apply (Hs (S n)).
  - intros ->. specialize (Hs 0 x eq_refl). lia.
Qed.

Lemma map_char_valid x s : (byte_of x < 128)%Z → utf8_valid s → utf8_valid (map_char x s).
Proof.
  intros Hx. induction 1 as [|r s Hr Hs IH]; [constructor|]. rewrite map_char_app.
  constructor; [|done]. destruct (rune_single_or_high r Hr) as [(a & -> & Ha)|Hhigh].
  - simpl. by case_decide.
  - by rewrite map_char_high.
Qed.

(** The text after an ASCII byte of a valid text is valid. *)
Lemma utf8_valid_tail a s :
  in_range 0 127 a = true → utf8_valid (String a s) → utf8_valid s.
Proof.
  intros Ha Hv. inversion Hv as [|r s' Hr Hs' E]. destruct (rune_single_or_high r Hr) as [(b & -> & _)|Hhigh].
  - change (String b s' = String a s) in E. by simplify_eq.
  - destruct r as [|b r]; [done|]. change (String b (r +:+ s') = String a s) in E. simplify_eq.
    specialize (Hhigh 0 a eq_refl). unfold in_range in Ha.
    rewrite andb_true_iff, !Z.leb_le in Ha. lia.
Qed.

Lemma prefix_CRLF a s :
  String.prefix CRLF_str (String a s) = true → a = CR ∧ ∃ s', s = String LF s'.
Proof.
  unfold CRLF_str. cbn [String.prefix]. destruct (ascii_dec CR a) as [<-|]; [|done].
  destruct s as [|b s]; cbn [String.prefix]; [done|].
  destruct (ascii_dec LF b) as [<-|]; [|done]. eauto.
Qed.

Lemma replace_copy old new c s :
  String.prefix old (String c s) = false →
  replace_from old new (String c s) 0 = String c (replace_from old new s 0).
Proof. intros Hp. cbn [replace_from]. by rewrite Hp. Qed.

Lemma replace_CRLF_high r s :
  (∀ n b, String.get n r = Some b → (128 <= byte_of b)%Z) →
  replace_from CRLF_str " " (r +:+ s) 0 = r +:+ replace_from CRLF_str " " s 0.
Proof.
  induction r as [|c r IH]; intros Hr; [done|].
  change (replace_from CRLF_str " " (String c (r +:+ s)) 0 =
          String c (r +:+ replace_from CRLF_str " " s 0)).
  rewrite replace_copy.
  - f_equal. apply IH. intros n. apply (Hr (S n)).
  - apply not_true_iff_false. intros [-> _]%prefix_CRLF.
    specialize (Hr 0 CR eq_refl). by vm_compute in Hr.
Qed.

Lemma replace_CRLF_valid n s :
  String.length s ≤ n → utf8_valid s → utf8_valid (ReplaceAll s CRLF_str " ").
Proof.
  unfold ReplaceAll. revert s. induction n as [|n IH]; intros s Hn Hs.
  { destruct s; [constructor|simpl in Hn; lia]. }
  destruct Hs as [|r s Hr Hs]; [constructor|]. rewrite string_length_app in Hn.
  destruct (rune_single_or_high r Hr) as [(a & -> & Ha)|Hhigh].
  - change (utf8_valid (replace_from CRLF_str " " (String a s) 0)). simpl in Hn.
    destruct (String.prefix CRLF_str (String a s)) eqn:Hp.
    + pose proof Hp as (-> & s' & ->)%prefix_CRLF.
      cbn [replace_from]. rewrite Hp. cbn [String.length CRLF_str Nat.sub].
      apply (utf8_rune " " (replace_from CRLF_str " " s' 0)); [done|].
      simpl in Hn. apply IH; [lia|]. by eapply utf8_valid_tail, Hs.
    + rewrite replace_copy by done.
      apply (utf8_rune (String a "")); [done|]. apply IH; [lia|done].
  - rewrite replace_CRLF_high by done. constructor; [done|]. apply IH; [|done].
    destruct r; simpl in *; [done|lia].
Qed.

(** an error text in the Stalled message is one line of at most 256 bytes,
    and valid UTF-8 when the error's text is; a short single-line text is kept
    as it is. *)
Theorem sanitiseErrText_spec err :
  let t := sanitiseErrText (Some err) in
  has_newline t = false ∧ String.length t ≤ maxStalledErrChars ∧
  (utf8_valid (err_Error err) → utf8_valid t) ∧
  (has_newline (err_Error err) = false → String.length (err_Error err) ≤ maxStalledErrChars →
     t = err_Error err).
Proof.
  cbv zeta. unfold sanitiseErrText. generalize (err_Error err). intros s.
  set (flat := if has_newline s then _ else s).
  assert (has_newline flat = false) as Hnl.
  { unfold flat. destruct (has_newline s) eqn:Hs; [|done].
    rewrite !ReplaceAll_char, has_newline_chars, !has_char_map by done.
    by rewrite !decide_True, !decide_False by done. }
  assert (utf8_valid s → utf8_valid flat) as Hval.
  { intros Hs. unfold flat. destruct (has_newline s); [|done]. rewrite !ReplaceAll_char.
    apply map_char_valid; [done|]. apply map_char_valid; [done|]. by eapply replace_CRLF_valid. }
  destruct (truncate_spec flat maxStalledErrChars) as (Hlen & Hsame & Hv).
  split_and!; [by apply has_newline_truncate|done|auto|].
  intros Hs Hfit. unfold flat in *. rewrite Hs in *. auto.
Qed.

Lemma sanitiseErrText_spec_witness :
  sanitiseErrText (Some (errors_New (String "a" (String CR (String LF "b"))))) = "a b" ∧
  sanitiseErrText (Some (errors_New "plain")) = "plain".
Proof.
  split; [vm_compute; reflexivity|].
  apply (sanitiseErrText_spec (errors_New "plain")); [done|]. vm_compute. lia.
Defined.
