(* ===== verification/Text.v ===== *)
(** * The parts of Go's [strings], [unicode/utf8] and [path/filepath] milestonectl
    uses

    Strings are byte strings. What depends on the Unicode case tables is exact
    for ASCII strings and a parameter beyond; white space and rune counting are
    exact for every string. *)

From S2P Require Import Prelude GoStd StatusHelpers.
From Stdlib Require Import Ascii.

(** ** Definitions *)

(** *** Bytes *)

Definition is_ascii_byte : ascii → bool := in_range 0 127.

Fixpoint is_ascii (s : string) : bool :=
  match s with "" => true | String c s => is_ascii_byte c && is_ascii s end.

(** 'A' to 'Z' become 'a' to 'z'. *)
Definition lower_byte (c : ascii) : ascii :=
  if in_range 65 90 c then ascii_of_N (N_of_ascii c + 32) else c.

Fixpoint lower (s : string) : string :=
  match s with "" => "" | String c s => String (lower_byte c) (lower s) end.

(** The case tables beyond ASCII: strings.ToLower and strings.EqualFold when a
    string has a byte of 128 or more. *)
Class UnicodeTables := {
  unicode_ToLower : string → string;
  unicode_EqualFold : string → string → bool;
}.

Definition strings_ToLower `{UnicodeTables} (s : string) : string :=
  if is_ascii s then lower s else unicode_ToLower s.

Definition strings_EqualFold `{UnicodeTables} (s t : string) : bool :=
  if is_ascii s && is_ascii t then bool_decide (lower s = lower t) else unicode_EqualFold s t.

(** strings.Cut, for a separator of one byte. *)
Fixpoint strings_Cut (s : string) (sep : ascii) : string * string * bool :=
  match s with
  | "" => ("", "", false)
  | String c s' =>
      if decide (c = sep) then ("", s', true)
      else let '(before, after, found) := strings_Cut s' sep in
           if found then (String c before, after, true) else (s, "", false)
  end.

(** strings.Contains, for a string of one byte. *)
Fixpoint contains_byte (s : string) (c : ascii) : bool :=
  match s with "" => false | String c' s => bool_decide (c' = c) || contains_byte s c end.

(** The pieces between separators. *)
Fixpoint split_on (sep : ascii) (s : string) : list string :=
  match s with
  | "" => [""]
  | String c s =>
      if decide (c = sep) then "" :: split_on sep s
      else match split_on sep s with
           | p :: ps => String c p :: ps
           | [] => [String c ""]
           end
  end.

(** *** Runes *)

(** The number of bytes of the rune [s] starts with; a byte that starts none is
    a rune of its own (utf8.RuneError of width 1). *)
Definition rune_width (s : string) : nat :=
  if is_rune (String.substring 0 1 s) then 1
  else if is_rune (String.substring 0 2 s) then 2
  else if is_rune (String.substring 0 3 s) then 3
  else if is_rune (String.substring 0 4 s) then 4
  else 1.

(** The runes of [s], as byte strings; [fuel] is the length of [s]. *)
Fixpoint split_runes (fuel : nat) (s : string) : list string :=
  match fuel, s with
  | S fuel, String _ _ =>
      let n := rune_width s in
      String.substring 0 n s :: split_runes fuel (String.substring n (String.length s - n) s)
  | _, _ => []
  end.

Definition runes (s : string) : list string := split_runes (String.length s) s.

Definition RuneCountInString (s : string) : nat := length (runes s).

Definition bytes (l : list Z) : string :=
  foldr (λ b s, String (ascii_of_N (Z.to_N b)) s) "" l.

(** unicode.IsSpace, on the bytes of a rune: \t, \n, \v, \f, \r, space, U+0085,
    U+00A0 and the Unicode White_Space runes beyond Latin-1. *)
Definition space_runes : list string :=
  (λ b, bytes [b]) <$> [9; 10; 11; 12; 13; 32]%Z.

Definition wide_spaces : list string :=
  [bytes [194; 133]; bytes [194; 160]; bytes [225; 154; 128]]%Z ++
  ((λ b, bytes [226; 128; b]) <$> [128; 129; 130; 131; 132; 133; 134; 135; 136; 137; 138; 168; 169; 175])%Z ++
  [bytes [226; 129; 159]; bytes [227; 128; 128]]%Z.

Definition IsSpace (r : string) : bool := bool_decide (r ∈ space_runes) || bool_decide (r ∈ wide_spaces).

(** *** Lists of runes *)

Section runs.
Context {A : Type} (f : A → bool).

Fixpoint drop_while (l : list A) : list A :=
  match l with
  | [] => []
  | x :: l' => if f x then drop_while l' else l
  end.

Definition drop_right_while (l : list A) : list A := reverse (drop_while (reverse l)).

(** The maximal runs of elements that fail [f]. *)
Fixpoint fields_from (cur : list A) (l : list A) : list (list A) :=
  match l with
  | [] => match cur with [] => [] | _ => [reverse cur] end
  | x :: l => if f x then match cur with [] => fields_from [] l | _ => reverse cur :: fields_from [] l end
              else fields_from (x :: cur) l
  end.
End runs.

Definition concat_runes (l : list string) : string := foldr String.append "" l.

Definition strings_TrimSpace (s : string) : string :=
  concat_runes (drop_right_while IsSpace (drop_while IsSpace (runes s))).

Definition strings_Fields (s : string) : list string :=
  concat_runes <$> fields_from IsSpace [] (runes s).

(** strings.TrimRight, for a cutset of ASCII bytes. *)
Definition strings_TrimRight (s : string) (cutset : list ascii) : string :=
  String.string_of_list_ascii (drop_right_while (λ c, bool_decide (c ∈ cutset)) (String.list_ascii_of_string s)).

(** strings.Repeat of a string. *)
Fixpoint strings_Repeat (s : string) (n : nat) : string :=
  match n with O => "" | S n => s +:+ strings_Repeat s n end.

(** strings.TrimSuffix. *)
Definition strings_TrimSuffix (s suffix : string) : string :=
  let n := String.length s - String.length suffix in
  if decide (String.length suffix ≤ String.length s ∧ String.substring n (String.length suffix) s = suffix)
  then String.substring 0 n s else s.

(** ** Theorems *)

Lemma is_ascii_app s t : is_ascii (s +:+ t) = is_ascii s && is_ascii t.
Proof.
  induction s as [|c s IH]; [done|]. simpl. rewrite <- andb_assoc. exact (f_equal (andb _) IH).
Qed.

Lemma lower_app s t : lower (s +:+ t) = lower s +:+ lower t.
Proof. induction s as [|c s IH]; [done|]. exact (f_equal (String _) IH). Qed.

Lemma lower_byte_idem c : lower_byte (lower_byte c) = lower_byte c.
Proof.
  pose proof (all_bytes (λ c, bool_decide (lower_byte (lower_byte c) = lower_byte c)) eq_refl c) as Hc.
  by apply bool_decide_eq_true in Hc.
Qed.

Lemma lower_idem s : lower (lower s) = lower s.
Proof. induction s as [|c s IH]; simpl; [done|]. by rewrite lower_byte_idem, IH. Qed.

Lemma str_app_nil s : "" +:+ s = s.
Proof. done. Qed.

Lemma str_app_cons c s t : String c s +:+ t = String c (s +:+ t).
Proof. done. Qed.

Lemma strings_Cut_found s sep before after :
  strings_Cut s sep = (before, after, true) ↔
  s = before +:+ String sep after ∧ contains_byte before sep = false.
Proof.
  revert before. induction s as [|c s IH]; intros before; simpl.
  - split; [done|]. intros [Hs _]. by destruct before.
  - case_decide as Hc; [subst c|].
    + split; [by intros [= <- <-]|]. intros [Hs Hb].
      destruct before as [|c before]; rewrite ?str_app_nil, ?str_app_cons in Hs; simplify_eq/=; [done|].
      by rewrite bool_decide_eq_true_2 in Hb.
    + split.
      * destruct (strings_Cut s sep) as [[b a] [|]]; [|done]. intros [= <- <-].
        destruct (proj1 (IH b) eq_refl) as [-> Hb]. simpl. by rewrite bool_decide_eq_false_2.
      * intros [Hs Hb]. destruct before as [|c' before]; rewrite ?str_app_nil, ?str_app_cons in Hs; simplify_eq/=.
        apply orb_false_iff in Hb as [_ Hb]. by rewrite (proj2 (IH before) (conj eq_refl Hb)).
Qed.

Lemma strings_Cut_missing s sep :
  (∃ before after, strings_Cut s sep = (before, after, true)) ∨
  (strings_Cut s sep = (s, "", false) ∧ contains_byte s sep = false).
Proof.
  induction s as [|c s IH]; simpl; [by right|]. case_decide as Hc; [left; eauto|].
  destruct IH as [(b & a & ->)|[-> Hs]]; [left; eauto|].
  right. split; [done|]. by rewrite bool_decide_eq_false_2.
Qed.

(** *** ASCII strings *)

Lemma substring_whole s : String.substring 0 (String.length s) s = s.
Proof. induction s as [|c s IH]; simpl; [done|]. by rewrite IH. Qed.

Lemma split_runes_ascii fuel s :
  is_ascii s = true → String.length s ≤ fuel →
  split_runes fuel s = (λ c, String c "") <$> String.list_ascii_of_string s.
Proof.
  revert s. induction fuel as [|fuel IH]; intros [|c s] Ha Hf; [done|simpl in Hf; lia|done|].
  apply andb_true_iff in Ha as [Hc Ha]. simpl String.list_ascii_of_string. rewrite fmap_cons.
  assert (rune_width (String c s) = 1) as Hw.
  { unfold rune_width. change (String.substring 0 1 (String c s)) with (String c (String.substring 0 0 s)).
    replace (String.substring 0 0 s) with "" by by destruct s. simpl. unfold is_ascii_byte in Hc. by rewrite Hc. }
  cbn [split_runes]. rewrite Hw. f_equal.
  - simpl. by destruct s.
  - simpl. rewrite Nat.sub_0_r, substring_whole. apply IH; [done|]. simpl in Hf. lia.
Qed.

Lemma runes_ascii s : is_ascii s = true → runes s = (λ c, String c "") <$> String.list_ascii_of_string s.
Proof. intros Hs. by apply split_runes_ascii. Qed.

(** *** Trimming *)

Section trimming.
Context {A : Type} (f : A → bool).

Lemma drop_while_prefix l1 l2 :
  Forall (λ x, f x = true) l1 → drop_while f (l1 ++ l2) = drop_while f l2.
Proof. induction 1 as [|x l1 Hx _ IH]; simpl; [done|]. by rewrite Hx. Qed.

Lemma drop_while_keep l : (∀ x, head l = Some x → f x = false) → drop_while f l = l.
Proof. destruct l as [|x l]; intros Hl; simpl; [done|]. by rewrite (Hl x). Qed.

Lemma drop_while_split l : ∃ pre, l = pre ++ drop_while f l ∧ Forall (λ x, f x = true) pre.
Proof.
  induction l as [|x l (pre & Hl & Hpre)]; [by exists []|]. simpl. destruct (f x) eqn:Hx.
  - exists (x :: pre). split; [by rewrite Hl at 1|]. by constructor.
  - by exists [].
Qed.

Lemma drop_right_while_split l : ∃ post, l = drop_right_while f l ++ post ∧ Forall (λ x, f x = true) post.
Proof.
  destruct (drop_while_split (reverse l)) as (pre & Hl & Hpre).
  exists (reverse pre). unfold drop_right_while. split.
  - rewrite <- reverse_app, <- Hl. by rewrite reverse_involutive.
  - by apply Forall_reverse.
Qed.

Lemma drop_right_while_suffix l post :
  Forall (λ x, f x = true) post → (∀ x, last l = Some x → f x = false) → drop_right_while f (l ++ post) = l.
Proof.
  intros Hpost Hl. unfold drop_right_while.
  rewrite reverse_app, drop_while_prefix by by apply Forall_reverse.
  rewrite drop_while_keep by (intros x; rewrite head_reverse; apply Hl). apply reverse_involutive.
Qed.

Lemma drop_right_while_app l post :
  Forall (λ x, f x = true) post → drop_right_while f (l ++ post) = drop_right_while f l.
Proof.
  intros Hpost. unfold drop_right_while. by rewrite reverse_app, drop_while_prefix by by apply Forall_reverse.
Qed.

(** Trimming both sides of a list whose middle neither starts nor ends with [f]. *)
Lemma trim_middle pre l post :
  Forall (λ x, f x = true) pre → Forall (λ x, f x = true) post → Forall (λ x, f x = false) l →
  drop_right_while f (drop_while f (pre ++ l ++ post)) = l.
Proof.
  intros Hpre Hpost Hl. rewrite drop_while_prefix by done. destruct l as [|x l].
  - simpl. by rewrite <- (app_nil_r post), drop_while_prefix.
  - rewrite (drop_while_keep ((x :: l) ++ post)).
    + apply drop_right_while_suffix; [done|]. intros y Hy%last_Some_elem_of.
      rewrite Forall_forall in Hl. by apply Hl.
    + intros y [= <-]. by inversion Hl.
Qed.
End trimming.

Lemma drop_while_fmap {A B} (f : B → bool) (g : A → B) l :
  drop_while f (g <$> l) = g <$> drop_while (λ x, f (g x)) l.
Proof. induction l as [|x l IH]; [done|]. rewrite fmap_cons. simpl. by case_match. Qed.

Lemma drop_right_while_fmap {A B} (f : B → bool) (g : A → B) l :
  drop_right_while f (g <$> l) = g <$> drop_right_while (λ x, f (g x)) l.
Proof. unfold drop_right_while. by rewrite <- !fmap_reverse, drop_while_fmap, fmap_reverse. Qed.

Lemma concat_bytes l : concat_runes ((λ c, String c "") <$> l) = String.string_of_list_ascii l.
Proof. induction l as [|c l IH]; [done|]. rewrite fmap_cons. simpl. exact (f_equal (String c) IH). Qed.

Definition space_byte (c : ascii) : bool := IsSpace (String c "").

Lemma TrimSpace_ascii s :
  is_ascii s = true →
  strings_TrimSpace s = String.string_of_list_ascii
    (drop_right_while space_byte (drop_while space_byte (String.list_ascii_of_string s))).
Proof.
  intros Hs. unfold strings_TrimSpace. rewrite runes_ascii by done.
  by rewrite drop_while_fmap, drop_right_while_fmap, concat_bytes.
Qed.

(** White space only, and none. *)
Definition blank (s : string) : bool := forallb space_byte (String.list_ascii_of_string s).
Definition spaceless (s : string) : bool :=
  forallb (λ c, negb (space_byte c)) (String.list_ascii_of_string s).

Lemma list_ascii_app s t :
  String.list_ascii_of_string (s +:+ t) = String.list_ascii_of_string s ++ String.list_ascii_of_string t.
Proof. induction s as [|c s IH]; [done|]. exact (f_equal (cons c) IH). Qed.

Lemma string_of_app l1 l2 :
  String.string_of_list_ascii (l1 ++ l2) = String.string_of_list_ascii l1 +:+ String.string_of_list_ascii l2.
Proof. induction l1 as [|c l IH]; [done|]. exact (f_equal (String c) IH). Qed.

Lemma forallb_Forall_true {A} (f : A → bool) l : forallb f l = true ↔ Forall (λ x, f x = true) l.
Proof. by rewrite forallb_elem, Forall_forall. Qed.

Lemma space_byte_lower c : space_byte (lower_byte c) = space_byte c.
Proof.
  pose proof (all_bytes (λ c, Bool.eqb (space_byte (lower_byte c)) (space_byte c)) eq_refl c) as Hc.
  by apply eqb_prop in Hc.
Qed.

Lemma spaceless_lower s : spaceless (lower s) = spaceless s.
Proof.
  unfold spaceless. induction s as [|c s IH]; [done|]. simpl. rewrite space_byte_lower. by rewrite IH.
Qed.

Lemma TrimSpace_padded ws1 s ws2 :
  is_ascii (ws1 +:+ s +:+ ws2) = true → blank ws1 = true → blank ws2 = true → spaceless s = true →
  strings_TrimSpace (ws1 +:+ s +:+ ws2) = s.
Proof.
  intros Ha H1 H2 Hs. rewrite TrimSpace_ascii, !list_ascii_app by done.
  rewrite trim_middle.
  - apply String.string_of_list_ascii_of_string.
  - by apply forallb_Forall_true.
  - by apply forallb_Forall_true.
  - apply forallb_Forall_true in Hs. eapply Forall_impl; [exact Hs|]. intros c. apply negb_true_iff.
Qed.

Lemma TrimSpace_split s :
  is_ascii s = true →
  ∃ ws1 ws2, s = ws1 +:+ strings_TrimSpace s +:+ ws2 ∧ blank ws1 = true ∧ blank ws2 = true.
Proof.
  intros Hs. rewrite TrimSpace_ascii by done. set (l := String.list_ascii_of_string s).
  destruct (drop_while_split space_byte l) as (pre & Hl & Hpre).
  destruct (drop_right_while_split space_byte (drop_while space_byte l)) as (post & Hd & Hpost).
  exists (String.string_of_list_ascii pre), (String.string_of_list_ascii post).
  unfold blank. rewrite !String.list_ascii_of_string_of_list_ascii, !forallb_Forall_true.
  split_and!; [|done..]. rewrite <- !string_of_app, <- Hd, <- Hl. symmetry.
  apply String.string_of_list_ascii_of_string.
Qed.
