(* ===== verification/StatusPatch.v ===== *)
(** * internal/controller/status_patch.go

    The merge patch that replaces an owner's whole status: every key the status
    can emit is present, the omitted ones as explicit nulls. [merge] is RFC 7386,
    what the apiserver does with the patch. *)

From S2P Require Import Prelude GoStd ApiV1 K8s.
From Stdlib Require Import Ascii.

(** ** Definitions *)

(** JSON documents; an object is its members, in order. *)
Inductive json :=
  | JNull
  | JBool (b : bool)
  | JNumber (n : Z)
  | JString (s : string)
  | JArray (l : list json)
  | JObject (members : list (string * json)).

(** *** Reflection: the Go types [jsonKeysOf] walks *)

Inductive gotype :=
  | GoStruct (name : string) (fields : list gofield)
  | GoPointer (elem : gotype)
  | GoOther
with gofield :=
  | Field (name : string) (exported anonymous : bool) (json_tag : string) (type : gotype).

(** [ft] after the dereferencing loop is a struct. *)
Fixpoint elem_is_struct (t : gotype) : bool :=
  match t with GoStruct _ _ => true | GoPointer t => elem_is_struct t | GoOther => false end.

(** The text before the first comma: [strings.Cut(tag, ",")]. *)
Fixpoint before_comma (s : string) : string :=
  match s with
  | "" => ""
  | String c s => if decide (c = ","%char) then "" else String c (before_comma s)
  end.

(** [jsonKeysOf] of the element type of [t]; [None] is its panic. *)
Fixpoint elem_keys (t : gotype) : option (list string) :=
  match t with
  | GoOther => None
  | GoPointer t => elem_keys t
  | GoStruct _ fields =>
      (fix go (fs : list gofield) : option (list string) :=
         match fs with
         | [] => Some []
         | Field _ exported anonymous tag ft :: fs =>
             let name := before_comma tag in
             if (anonymous && negb exported && negb (elem_is_struct ft)) ||
                (negb anonymous && negb exported) || bool_decide (name = "-")
             then go fs
             else if decide (name = "") then
               if anonymous && elem_is_struct ft then
                 ks ← elem_keys ft; ks' ← go fs; Some (ks ++ ks')
               else None
             else ks ← go fs; Some (name :: ks)
         end) fields
  end.

Definition jsonKeysOf (t : gotype) : option (list string) :=
  match t with GoStruct _ _ => elem_keys t | _ => None end.

(** [reflect.TypeFor[apiv1.MilestoneStatusBase]()]. *)
Definition Summary_type : gotype :=
  GoStruct "Summary"
    (map (λ n, Field n true false n GoOther)
       ["total"; "current"; "inProgress"; "failed"; "notFound"; "terminating"; "unknown"; "suspended"]).

Definition MilestoneStatusBase_type : gotype :=
  GoStruct "MilestoneStatusBase"
    [ Field "ObservedGeneration" true false "observedGeneration,omitempty" GoOther;
      Field "Conditions" true false "conditions,omitempty" GoOther;
      Field "Summary" true false "summary,omitempty" Summary_type;
      Field "DependsOn" true false "dependsOn,omitempty" GoOther;
      Field "NotReadyResources" true false "notReadyResources,omitempty" GoOther;
      Field "Truncated" true false "truncated,omitempty" GoOther;
      Field "LastEvaluatedTime" true false "lastEvaluatedTime,omitempty" (GoStruct "Time" []) ].

Definition statusJSONKeys : list string := default [] (jsonKeysOf MilestoneStatusBase_type).

(** *** json.Marshal of the status

    [omit_if b k v]: the member [k], left out by omitempty when [b]. The
    encodings of metav1.Time and metav1.Condition are the library's. *)
Class MetaJSON := {
  Time_json : time → json;
  Condition_json : Condition → json;
}.

(** A metav1.Time is a string, or null when zero. *)
Class MetaJSONLaws `{MetaJSON} : Prop := {
  Time_json_scalar t : Time_json t = JNull ∨ ∃ s, Time_json t = JString s;
}.

Definition omit_if (b : bool) (k : string) (v : json) : list (string * json) :=
  if b then [] else [(k, v)].

Definition omit_empty (k s : string) : list (string * json) :=
  omit_if (bool_decide (s = "")) k (JString s).

Definition Summary_json (s : Summary) : json :=
  JObject [ ("total", JNumber (Total s)); ("current", JNumber (Current s));
            ("inProgress", JNumber (InProgress s)); ("failed", JNumber (Failed s));
            ("notFound", JNumber (NotFound s)); ("terminating", JNumber (Terminating s));
            ("unknown", JNumber (Unknown s)); ("suspended", JNumber (Suspended s)) ].

Definition DependencyStatus_json (d : DependencyStatus) : json :=
  JObject ([("name", JString (ds_Name d))] ++ omit_empty "group" (ds_Group d) ++
           omit_empty "version" (ds_Version d) ++ [("kind", JString (ds_Kind d))] ++
           [("ready", JString (ds_Ready d))] ++ omit_empty "reason" (ds_Reason d) ++
           [("summary", Summary_json (ds_Summary d))]).

Definition ResourceStatus_json (r : ResourceStatus) : json :=
  JObject (omit_empty "group" (rs_Group r) ++ [("version", JString (rs_Version r))] ++
           [("kind", JString (rs_Kind r))] ++ omit_empty "namespace" (rs_Namespace r) ++
           [("name", JString (rs_Name r))] ++ [("status", JString (rs_Status r))] ++
           omit_empty "reason" (rs_Reason r) ++ omit_empty "message" (rs_Message r)).

Definition omit_slice {A} (k : string) (f : A → json) (l : slice A) : list (string * json) :=
  omit_if (bool_decide (length (elems l) = 0)) k (JArray (map f (elems l))).

(** omitempty never omits a struct. *)
Definition MilestoneStatusBase_members `{MetaJSON} (sb : MilestoneStatusBase)
    : list (string * json) :=
  omit_if (bool_decide (ObservedGeneration sb = 0%Z)) "observedGeneration"
    (JNumber (ObservedGeneration sb)) ++
  omit_slice "conditions" Condition_json (Conditions sb) ++
  [("summary", Summary_json (sb_Summary sb))] ++
  omit_slice "dependsOn" DependencyStatus_json (DependsOn sb) ++
  omit_slice "notReadyResources" ResourceStatus_json (NotReadyResources sb) ++
  omit_if (negb (Truncated sb)) "truncated" (JBool (Truncated sb)) ++
  [("lastEvaluatedTime", Time_json (LastEvaluatedTime sb))].

(** *** The patch: the document under "status"

    A status always marshals, and its own output always decodes, so the two
    error returns are not reachable. *)
Definition fill_null (fields : gmap string json) (k : string) : gmap string json :=
  match fields !! k with Some _ => fields | None => <[k := JNull]> fields end.

Definition statusMergePatch `{MetaJSON} (sb : MilestoneStatusBase) : gmap string json :=
  foldl fill_null (list_to_map (MilestoneStatusBase_members sb)) statusJSONKeys.

(** ** RFC 7386 *)

Definition members_of (j : json) : list (string * json) :=
  match j with JObject ms => ms | _ => [] end.

Fixpoint get (k : string) (ms : list (string * json)) : option json :=
  match ms with
  | [] => None
  | (k', v) :: ms => if decide (k = k') then Some v else get k ms
  end.

(** Remove, or set, one member. *)
Definition remove_member (k : string) (ms : list (string * json)) : list (string * json) :=
  filter (λ kv, kv.1 ≠ k) ms.

Definition set_member (k : string) (v : json) (ms : list (string * json)) : list (string * json) :=
  (k, v) :: remove_member k ms.

Fixpoint merge (target patch : json) {struct patch} : json :=
  match patch with
  | JObject ps =>
      JObject ((fix go (ps : list (string * json)) (ms : list (string * json)) :=
        match ps with
        | [] => ms
        | (k, v) :: ps =>
            go ps match v with
                  | JNull => remove_member k ms
                  | _ => set_member k (merge (default JNull (get k ms)) v) ms
                  end
        end) ps (members_of target))
  | _ => patch
  end.

(** ** Theorems *)

(** One member of a patch object applied to the target's members. *)
Definition merge_member (ms : list (string * json)) (kv : string * json) : list (string * json) :=
  match kv.2 with
  | JNull => remove_member kv.1 ms
  | v => set_member kv.1 (merge (default JNull (get kv.1 ms)) v) ms
  end.

Lemma merge_object target ps :
  merge target (JObject ps) = JObject (foldl merge_member (members_of target) ps).
Proof.
  simpl. f_equal. generalize (members_of target). induction ps as [|[k v] ps IH]; intros ms; [done|].
  cbn [foldl]. rewrite <- IH. unfold merge_member. by destruct v.
Qed.

Lemma get_remove k k' ms : get k (remove_member k' ms) = if decide (k = k') then None else get k ms.
Proof.
  unfold remove_member. induction ms as [|[k1 v] ms IH]; [by case_decide|].
  rewrite filter_cons. destruct (decide ((k1, v).1 ≠ k')) as [Hne|He]; simpl in *.
  - rewrite IH. repeat case_decide; congruence.
  - rewrite IH. destruct (decide (k1 = k')); [|done]. repeat case_decide; congruence.
Qed.

Lemma get_set k k' v ms : get k (set_member k' v ms) = if decide (k = k') then Some v else get k ms.
Proof. unfold set_member. simpl. rewrite get_remove. by repeat case_decide. Qed.

Lemma get_elem k v ms : NoDup ms.*1 → get k ms = Some v ↔ (k, v) ∈ ms.
Proof.
  induction ms as [|[k1 v1] ms IH]; simpl; [set_solver|].
  intros [Hn Hnd]%NoDup_cons. case_decide as E.
  - subst. split; [intros [= <-]; by left|]. intros [[= <-]|Hin]%elem_of_cons; [done|].
    destruct Hn. apply list_elem_of_fmap. by exists (k1, v).
  - rewrite IH by done. rewrite elem_of_cons. split; [by right|]. intros [[= ? ?]|?]; [congruence|done].
Qed.

Lemma get_None k ms : get k ms = None ↔ k ∉ ms.*1.
Proof.
  induction ms as [|[k1 v1] ms IH]; simpl; [set_solver|]. rewrite not_elem_of_cons.
  case_decide; [naive_solver|]. rewrite IH. naive_solver.
Qed.

(** What a patch does to each member: absent members stay, nulls delete, others
    are merged in. *)
Definition patched (old : option json) (p : option json) : option json :=
  match p with
  | None => old
  | Some JNull => None
  | Some v => Some (merge (default JNull old) v)
  end.

Lemma get_merge k ps ms :
  NoDup ps.*1 → get k (foldl merge_member ms ps) = patched (get k ms) (get k ps).
Proof.
  revert ms. induction ps as [|[k1 v1] ps IH]; intros ms; simpl; [done|].
  intros [Hn Hnd]%NoDup_cons. rewrite IH by done. unfold merge_member. simpl.
  destruct (decide (k = k1)) as [->|Hne].
  - rewrite (proj2 (get_None k1 ps) Hn). simpl.
    destruct v1; rewrite ?get_remove, ?get_set, ?decide_True by done; done.
  - destruct v1; rewrite ?get_remove, ?get_set, ?decide_False by done; done.
Qed.

(** The keys by which the patch is filled are those the status can emit. *)
Example statusJSONKeys_value :
  statusJSONKeys = ["observedGeneration"; "conditions"; "summary"; "dependsOn";
                    "notReadyResources"; "truncated"; "lastEvaluatedTime"].
Proof. vm_compute. reflexivity. Qed.

Section patch.
Context `{MetaJSON}.
Implicit Types (sb : MilestoneStatusBase) (fields : gmap string json).

Lemma fill_nulls_lookup ks fields k :
  foldl fill_null fields ks !! k =
  match fields !! k with
  | Some v => Some v
  | None => if decide (k ∈ ks) then Some JNull else None
  end.
Proof.
  revert fields. induction ks as [|k1 ks IH]; intros fields.
  { cbn [foldl]. destruct (fields !! k); [done|]. by rewrite decide_False by apply not_elem_of_nil. }
  cbn [foldl]. rewrite IH. unfold fill_null.
  assert (k ∈ k1 :: ks ↔ k = k1 ∨ k ∈ ks) as Hc by apply elem_of_cons.
  destruct (fields !! k1) eqn:H1'.
  - destruct (fields !! k) eqn:Hk; [done|].
    destruct (decide (k ∈ ks)); [by rewrite decide_True by tauto|].
    rewrite decide_False; [done|]. intros [->|?]%Hc; [congruence|done].
  - destruct (decide (k = k1)) as [->|Hne].
    + rewrite lookup_insert_eq, H1'. by rewrite decide_True by tauto.
    + rewrite lookup_insert_ne by done. destruct (fields !! k); [done|].
      repeat case_decide; tauto.
Qed.

Lemma members_NoDup sb : NoDup (MilestoneStatusBase_members sb).*1.
Proof.
  unfold MilestoneStatusBase_members, omit_slice, omit_if.
  do 5 (case_match; [|]); apply (bool_decide_unpack _); vm_compute; done.
Qed.

Lemma members_keys sb : (MilestoneStatusBase_members sb).*1 ⊆ statusJSONKeys.
Proof.
  rewrite statusJSONKeys_value. unfold MilestoneStatusBase_members, omit_slice, omit_if.
  do 5 (case_match; [|]); simpl; set_solver.
Qed.

Lemma patch_lookup sb k :
  statusMergePatch sb !! k =
  match get k (MilestoneStatusBase_members sb) with
  | Some v => Some v
  | None => if decide (k ∈ statusJSONKeys) then Some JNull else None
  end.
Proof.
  unfold statusMergePatch. rewrite fill_nulls_lookup.
  replace (list_to_map (MilestoneStatusBase_members sb) !! k)
    with (get k (MilestoneStatusBase_members sb)); [done|].
  generalize (MilestoneStatusBase_members sb). intros ms.
  induction ms as [|[k1 v1] ms IH]; simpl; [by rewrite lookup_empty|].
  case_decide as E; [subst; by rewrite lookup_insert_eq|by rewrite lookup_insert_ne].
Qed.

Lemma get_map_to_list fields k : get k (map_to_list fields) = fields !! k.
Proof.
  destruct (fields !! k) as [v|] eqn:Hk.
  - apply get_elem; [apply NoDup_fst_map_to_list|]. by apply elem_of_map_to_list.
  - apply get_None. intros ([k' v] & -> & Hin)%list_elem_of_fmap.
    apply elem_of_map_to_list in Hin. simpl in *. congruence.
Qed.

Lemma merge_scalar target v : (∀ ms, v ≠ JObject ms) → merge target v = v.
Proof. intros Hv. destruct v as [| | | | |ms]; [done..|by destruct (Hv ms)]. Qed.

Lemma get_app k ms1 ms2 :
  get k (ms1 ++ ms2) = match get k ms1 with Some v => Some v | None => get k ms2 end.
Proof. induction ms1 as [|[k1 v1] ms1 IH]; simpl; [done|]. by case_decide. Qed.

(** Apart from the summary every member is a scalar or a list. *)
Lemma members_scalar `{!MetaJSONLaws} sb k v :
  get k (MilestoneStatusBase_members sb) = Some v → k ≠ "summary" → ∀ ms, v ≠ JObject ms.
Proof.
  intros Hget Hk. assert (NoDup (MilestoneStatusBase_members sb).*1) as Hnd by apply members_NoDup.
  apply get_elem in Hget; [|done]. revert Hget.
  unfold MilestoneStatusBase_members, omit_slice, omit_if. rewrite !elem_of_app.
  destruct (Time_json_scalar (LastEvaluatedTime sb)) as [Ht|[s Ht]]; rewrite Ht;
    repeat case_match; rewrite ?elem_of_cons, ?elem_of_nil; naive_solver.
Qed.

Lemma get_summary sb :
  get "summary" (MilestoneStatusBase_members sb) = Some (Summary_json (sb_Summary sb)).
Proof.
  apply get_elem; [apply members_NoDup|]. unfold MilestoneStatusBase_members.
  rewrite !elem_of_app. right. right. left. by left.
Qed.

Definition summary_keys : list string := (members_of (Summary_json Summary_zero)).*1.

Lemma merge_summary old s :
  (∀ v, old = Some v → (members_of v).*1 ⊆ summary_keys) →
  ∃ ms, merge (default JNull old) (Summary_json s) = JObject ms ∧
    ∀ k, get k ms = get k (members_of (Summary_json s)).
Proof.
  intros Hold. unfold Summary_json at 1. rewrite merge_object. eexists. split; [done|]. intros k.
  rewrite get_merge by (apply (bool_decide_unpack _); vm_compute; done).
  change [("total", _); _; _; _; _; _; _; _] with (members_of (Summary_json s)).
  destruct (get k (members_of (Summary_json s))) as [v|] eqn:Hk.
  - simpl in Hk. simpl. by repeat (case_decide; [by simplify_eq|]).
  - simpl. apply get_None. apply get_None in Hk. intros Hin. apply Hk.
    destruct old as [v|]; [|by apply not_elem_of_nil in Hin].
    exact (Hold v eq_refl k Hin).
Qed.

(** C36: the status patch has replacement semantics: applied by RFC 7386 to any
    earlier status of these types, it leaves exactly the members the new status
    marshals to, a key omitted as empty is gone whatever was stored, and the
    summary's counters are the new ones. *)
Theorem statusMergePatch_replaces `{!MetaJSONLaws} sb prior :
  prior.*1 ⊆ statusJSONKeys →
  (∀ v, get "summary" prior = Some v → (members_of v).*1 ⊆ summary_keys) →
  let after := members_of (merge (JObject prior) (JObject (map_to_list (statusMergePatch sb)))) in
  (∀ k, k ≠ "summary" →
     get k after = match get k (MilestoneStatusBase_members sb) with
                   | Some JNull => None
                   | o => o
                   end) ∧
  ∃ ms, get "summary" after = Some (JObject ms) ∧
    ∀ k, get k ms = get k (members_of (Summary_json (sb_Summary sb))).
Proof.
  intros Hprior Hsum. rewrite merge_object. cbv zeta. simpl members_of.
  assert (∀ k, get k (foldl merge_member prior (map_to_list (statusMergePatch sb))) =
    patched (get k prior) (statusMergePatch sb !! k)) as Hget.
  { intros k. rewrite get_merge by apply NoDup_fst_map_to_list. by rewrite get_map_to_list. }
  split.
  - intros k Hk. rewrite Hget, patch_lookup.
    destruct (get k (MilestoneStatusBase_members sb)) as [v|] eqn:Hv.
    + pose proof (members_scalar sb k v Hv Hk) as Hsc.
      destruct v; simpl; rewrite ?merge_scalar; try done. by destruct (Hsc members).
    + case_decide as Hin; [done|]. simpl. apply get_None. intros Hp. by apply Hin, Hprior.
  - rewrite Hget, patch_lookup, get_summary.
    destruct (merge_summary (get "summary" prior) (sb_Summary sb) Hsum) as (ms & Hms & Heq).
    exists ms. split; [|done]. by rewrite <- Hms.
Qed.
End patch.

(** ** An example: a cleared list is gone *)
Module PatchFix.
#[local] Instance meta_json : MetaJSON := {|
  Time_json := λ t, if decide (t = 0%Z) then JNull else JString "2026-01-01T00:00:00Z";
  Condition_json := λ c, JObject [("type", JString (c_Type c)); ("status", JString (c_Status c))];
|}.

#[local] Instance meta_json_laws : MetaJSONLaws.
Proof. split. intros t. simpl. case_decide; [by left|right; eauto]. Qed.

Definition cleared : MilestoneStatusBase :=
  Build_MilestoneStatusBase 2 None Summary_zero None None false 5.

Definition stored : list (string * json) :=
  [("observedGeneration", JNumber 1); ("notReadyResources", JArray [JNull]);
   ("truncated", JBool true); ("summary", Summary_json (Build_Summary 1 0 0 1 0 0 0 0))].

Lemma statusMergePatch_replaces_witness :
  let after := members_of (merge (JObject stored) (JObject (map_to_list (statusMergePatch cleared)))) in
  get "notReadyResources" after = None ∧ get "truncated" after = None ∧
  get "observedGeneration" after = Some (JNumber 2).
Proof.
  destruct (statusMergePatch_replaces cleared stored) as [Hk _].
  - apply (bool_decide_unpack _). vm_compute. done.
  - intros v [= <-]. apply (bool_decide_unpack _). vm_compute. done.
  - cbv zeta in *. by rewrite !Hk.
Defined.
End PatchFix.
