(* ===== verification/Reconciler.v ===== *)
(** * internal/controller: reconciler.go, owner_adapter.go and the two adapters

    The reconcile pipeline shared by Milestone and ClusterMilestone, in the
    state monad over a world [W]: the registry, the API client, the clock and
    the metrics are interfaces on [W]; the object being reconciled is a value
    threaded through the pipeline, as the Go code mutates it through a pointer. *)

From stdpp Require Import pretty.
From S2P Require Import Prelude GoStd ApiV1 K8s Metrics Status Membership Discovery Normalize SubscriberIndex StatusHelpers StatusPatch.

(** ** Definitions *)

(** 30 * time.Second. *)
Definition stalledRequeue : Z := 30 * 1000000000.

(** *** Interfaces *)

(** owner_adapter.go: [RegistryAPI]. *)
Class RegistryAPI (W : Type) `{LabelsAPI} `{UnstructuredAPI} := {
  reg_Subscribe : GroupVersionKind → RESTScopeName → Subscriber → M W (option error);
  reg_Unsubscribe : GroupVersionKind → OwnerKey → M W unit;
  reg_UnsubscribeAll : OwnerKey → M W unit;
  reg_List : GroupVersionKind → M W (result (list Unstructured));
  reg_GVKsByOwner : OwnerKey → M W (list GroupVersionKind);
}.

(** What a registry promises: [subs] is who subscribes to what. A failed
    Subscribe changes no subscription; queries change nothing. *)
Class RegistryLaws (W : Type) `{RegistryAPI W} (inv : W → Prop)
    (subs : W → GroupVersionKind → OwnerKey → option Subscriber) : Prop := {
  subscribe_inv gvk scope sub w : inv w → inv (reg_Subscribe gvk scope sub w).2;
  subscribe_ok gvk scope sub w g o :
    inv w → (reg_Subscribe gvk scope sub w).1 = None →
    subs (reg_Subscribe gvk scope sub w).2 g o =
      if decide (g = gvk ∧ o = Owner sub) then Some sub else subs w g o;
  subscribe_err gvk scope sub w err g o :
    inv w → (reg_Subscribe gvk scope sub w).1 = Some err →
    subs (reg_Subscribe gvk scope sub w).2 g o = subs w g o;
  unsubscribe_inv gvk owner w : inv w → inv (reg_Unsubscribe gvk owner w).2;
  unsubscribe_subs gvk owner w g o :
    inv w → subs (reg_Unsubscribe gvk owner w).2 g o =
      if decide (g = gvk ∧ o = owner) then None else subs w g o;
  unsubscribe_all_inv owner w : inv w → inv (reg_UnsubscribeAll owner w).2;
  unsubscribe_all_subs owner w g o :
    inv w → subs (reg_UnsubscribeAll owner w).2 g o = if decide (o = owner) then None else subs w g o;
  gvks_by_owner owner w g :
    inv w → g ∈ (reg_GVKsByOwner owner w).1 ↔ is_Some (subs w g owner);
  gvks_state owner w : inv w → (reg_GVKsByOwner owner w).2 = w;
  list_inv gvk w : inv w → inv (reg_List gvk w).2;
  list_subs gvk w g o : inv w → subs (reg_List gvk w).2 g o = subs w g o;
}.

(** controller-runtime's client for one owner type [T]: Get by name, Update, and
    Status().Patch with a merge patch; a write returns the object as the call
    leaves it. *)
Class OwnerClient (W T : Type) := {
  client_Get : string → string → M W (result T);
  client_Update : T → M W (T * option error);
  client_PatchStatus : T → gmap string json → M W (T * option error);
}.

(** The names of the Namespaces matching a selector, from the client. *)
Class NamespaceClient (W : Type) `{LabelsAPI} := {
  client_ListNamespaces : Selector → M W (result (list string));
}.

(** The wall clock and the metrics. *)
Class Runtime (W : Type) := {
  wall_clock : M W time;
  record : (metrics → metrics) → M W unit;
}.

Section reconciler.
Context {W : Type} `{LabelsAPI} `{UnstructuredAPI} `{Formatting} `{ApiErrors} `{ConditionsAPI}
  `{FinalizerAPI} `{MetaJSON}.
Context `{!RegistryAPI W} `{!NamespaceClient W} `{!Runtime W}.

(** *** OwnerAdapter, and its two implementations *)

Record OwnerAdapter (T : Type) := {
  oa_Meta : T → ObjectMeta;
  oa_set_Finalizers : list string → T → T;
  oa_OwnerKey : T → OwnerKey;
  oa_Dependencies : T → option (Resolver W) → M W (list Dependency * list MError);
  oa_Status : T → MilestoneStatusBase;
  oa_set_Status : MilestoneStatusBase → T → T;
}.

Definition set_Finalizers (fs : list string) (m : ObjectMeta) : ObjectMeta :=
  Build_ObjectMeta (om_Name m) (om_Namespace m) (om_Generation m) (om_Labels m) fs
    (om_DeletionTimestamp m) (om_CreationTimestamp m).

Definition MilestoneAdapter : OwnerAdapter (Milestone LabelSelector) := {|
  oa_Meta := m_Meta;
  oa_set_Finalizers := λ fs m,
    Build_Milestone _ (set_Finalizers fs (m_Meta m)) (m_DependsOn m) (m_Status m);
  oa_OwnerKey := λ m,
    Build_OwnerKey "Milestone" (om_Namespace (m_Meta m)) (om_Name (m_Meta m));
  oa_Dependencies := λ m dr, NormalizeMilestone dr m;
  oa_Status := m_Status;
  oa_set_Status := λ sb m, Build_Milestone _ (m_Meta m) (m_DependsOn m) sb;
|}.

Definition ClusterMilestoneAdapter : OwnerAdapter (ClusterMilestone LabelSelector) := {|
  oa_Meta := cm_Meta;
  oa_set_Finalizers := λ fs m,
    Build_ClusterMilestone _ (set_Finalizers fs (cm_Meta m)) (cm_DependsOn m) (cm_Status m);
  oa_OwnerKey := λ m, Build_OwnerKey "ClusterMilestone" "" (om_Name (cm_Meta m));
  oa_Dependencies := λ m dr, NormalizeClusterMilestone dr (Some client_ListNamespaces) m;
  oa_Status := cm_Status;
  oa_set_Status := λ sb m, Build_ClusterMilestone _ (cm_Meta m) (cm_DependsOn m) sb;
|}.

(** *** The Reconciler *)

Record Reconciler (T : Type) := {
  rc_Resolver : option (Resolver W);
  rc_Adapter : OwnerAdapter T;
  rc_Controller : string;
  rc_FluxNotifier : option (T → M W unit);
  rc_Now : option (M W time);
  rc_ResourceCap : Z;
  rc_StalledErrorCap : Z;
}.

(** [r.now()]. *)
Definition rc_now {T} (r : Reconciler T) : M W time := default wall_clock (rc_Now _ r).

(** A stage timed by a deferred [r.observe(stage)()]. *)
Definition observed {A} (controller stage : string) (body : M W A) : M W A :=
  x ← body;
  record (ObserveStage controller stage);;
  mret x.

Fixpoint count_errors (controller : string) (errs : list MError) : M W unit :=
  match errs with
  | [] => mret tt
  | e :: errs =>
      record (Inc TargetResolveErrors [controller; e_Reason e]);;
      count_errors controller errs
  end.

(** *** Subscriptions *)

Record group := {
  g_scope : RESTScopeName;
  g_matchers : list Matcher;
  g_deps : list Dependency;
}.

Definition matcher_of (d : Dependency) : Matcher :=
  Build_Matcher (d_Selector d) (d_NamespaceMatcher d).

(** The loop that groups the dependencies by GVK, in order of appearance. *)
Definition add_to_group (acc : list GroupVersionKind * gmap GroupVersionKind group)
    (d : Dependency) : list GroupVersionKind * gmap GroupVersionKind group :=
  let '(order, groups) := acc in
  let '(order, g) := match groups !! d_GVK d with
                     | Some g => (order, g)
                     | None => (order ++ [d_GVK d], Build_group (d_Scope d) [] [])
                     end in
  (order, <[d_GVK d := Build_group (g_scope g) (g_matchers g ++ [matcher_of d])
                         (g_deps g ++ [d])]> groups).

Definition group_dependencies (desired : list Dependency)
    : list GroupVersionKind * gmap GroupVersionKind group :=
  foldl add_to_group ([], ∅) desired.

Definition watch_error (gvk : GroupVersionKind) (err : error) (d : Dependency) : MError :=
  Build_MError (d_Name d) (Group gvk) (Version gvk) (Kind gvk) ReasonWatchSetupFailed err.

Fixpoint subscribe_groups (owner : OwnerKey) (groups : gmap GroupVersionKind group)
    (order : list GroupVersionKind) (errs : list MError) : M W (list MError) :=
  match order with
  | [] => mret errs
  | gvk :: order =>
      match groups !! gvk with
      | None => subscribe_groups owner groups order errs
      | Some g =>
          err ← reg_Subscribe gvk (g_scope g) (Build_Subscriber owner (g_matchers g));
          subscribe_groups owner groups order
            (errs ++ match err with
                     | Some err => watch_error gvk err <$> g_deps g
                     | None => []
                     end)
      end
  end.

Fixpoint drop_stale (owner : OwnerKey) (groups : gmap GroupVersionKind group)
    (prior : list GroupVersionKind) : M W unit :=
  match prior with
  | [] => mret tt
  | gvk :: prior =>
      match groups !! gvk with Some _ => mret tt | None => reg_Unsubscribe gvk owner end;;
      drop_stale owner groups prior
  end.

Definition reconcileSubscriptions (controller : string) (owner : OwnerKey)
    (desired : list Dependency) : M W (list MError) :=
  observed controller StageSubscriptions
    (let '(gvkOrder, groups) := group_dependencies desired in
     priorGVKs ← reg_GVKsByOwner owner;
     errs ← subscribe_groups owner groups gvkOrder [];
     drop_stale owner groups priorGVKs;;
     mret errs).

(** *** Evaluation *)

Definition listAndCompute (controller : string) (d : Dependency) : M W (result (list Resource)) :=
  objs ← observed controller StageList
           (o ← reg_List (d_GVK d);
            mret match o with
                 | Err err => Err err
                 | Ok o => Ok (filter (λ u, Admits d (GetNamespace u) (GetLabels u) = true) o)
                 end);
  match objs with
  | Err err => mret (Err err)
  | Ok objs => observed controller StageCompute (mret (Ok (Compute <$> objs)))
  end.

(** [None] in the code's map is a name without a failure. *)
Definition failedDependencyReasons (errs : list MError) : gmap string string :=
  foldl (λ out e, if decide (e_Name e = "") then out
                  else match out !! e_Name e with
                       | Some _ => out
                       | None => <[e_Name e := e_Reason e]> out
                       end) ∅ errs.

Definition evaluation : Type :=
  gmap string DependencyStatus * list ResourceStatus * list MError.

Definition list_error (d : Dependency) (err : error) : MError :=
  NewError (d_Name d) (d_GVK d) ReasonListFailed err.

(** The body of the loop of [evaluateDependencies]. *)
Definition evaluate_one (controller : string) (failedReasons : gmap string string)
    (d : Dependency) (acc : evaluation) : M W evaluation :=
  let '(rollups, notReady, listErrs) := acc in
  match failedReasons !! d_Name d with
  | Some reason =>
      mret (<[d_Name d := FailedRollup (d_Name d) (d_GVK d) reason]> rollups, notReady, listErrs)
  | None =>
      resources ← listAndCompute controller d;
      match resources with
      | Err err =>
          mret (<[d_Name d := FailedRollup (d_Name d) (d_GVK d) ReasonListFailed]> rollups,
                notReady, listErrs ++ [list_error d err])
      | Ok resources =>
          rollup ← observed controller StageReduce
            (mret (ReduceDependency (d_Name d) (Group (d_GVK d)) (Version (d_GVK d))
                     (Kind (d_GVK d)) resources (d_EmptySetPolicy d) (d_SuspendPolicy d)));
          mret (<[d_Name d := rollup]> rollups,
                notReady ++ notReadyResourcesOf resources (d_SuspendPolicy d), listErrs)
      end
  end.

Fixpoint evaluate_loop (controller : string) (failedReasons : gmap string string)
    (deps : list Dependency) (acc : evaluation) : M W evaluation :=
  match deps with
  | [] => mret acc
  | d :: deps =>
      acc ← evaluate_one controller failedReasons d acc;
      evaluate_loop controller failedReasons deps acc
  end.

Definition evaluateDependencies (controller : string) (deps : list Dependency)
    (failedReasons : gmap string string) : M W evaluation :=
  evaluate_loop controller failedReasons deps (∅, [], []).

(** *** Status *)

Definition setCondition (now : time) (sb : MilestoneStatusBase) (condType : string)
    (st : ConditionStatus) (reason message : string) : MilestoneStatusBase :=
  Build_MilestoneStatusBase (ObservedGeneration sb)
    (SetStatusCondition now (Conditions sb)
       (Build_Condition condType st (ObservedGeneration sb) 0 reason message))
    (sb_Summary sb) (DependsOn sb) (NotReadyResources sb) (Truncated sb) (LastEvaluatedTime sb).

(** The errors sorted by dependency name, stably. *)
Definition error_less (a b : MError) : bool := str_lt (e_Name a) (e_Name b).

Definition stalled_part (e : MError) : string :=
  e_Group e +:+ "." +:+ e_Version e +:+ "/" +:+ e_Kind e +:+ " [" +:+ e_Reason e +:+ "]: "
    +:+ sanitiseErrText (Some (e_Err e)).

Definition stalled_message (sorted : list MError) (cap : Z) : string :=
  let '(visible, overflow) :=
    if (cap <? Z.of_nat (length sorted))%Z
    then (take (Z.to_nat cap) sorted, (Z.of_nat (length sorted) - cap)%Z)
    else (sorted, 0%Z) in
  let message := strings_Join (stalled_part <$> visible) "; " in
  let message := if (0 <? overflow)%Z
    then message +:+ "; … " +:+ pretty overflow +:+ " more" else message in
  truncateWithEllipsis message maxStalledTotalChars.

Definition applyStalledFromErrors (StalledErrorCap : Z) (now : time) (sb : MilestoneStatusBase)
    (errs : list MError) : MilestoneStatusBase :=
  match sort_slice error_less errs with
  | [] => setCondition now sb ConditionStalled ConditionFalse ReasonReconcileComplete ""
  | (first :: _) as sorted =>
      setCondition now sb ConditionStalled ConditionTrue (e_Reason first)
        (stalled_message sorted (stalledErrorCap StalledErrorCap))
  end.

(** [applyStatus] with the two instants SetStatusCondition reads. *)
Definition apply_status (ResourceCap StalledErrorCap : Z) (now1 now2 : time)
    (sb : MilestoneStatusBase) (generation : Z) (rollups : gmap string DependencyStatus)
    (notReady : list ResourceStatus) (errs : list MError) : MilestoneStatusBase :=
  let rollups := Rollups rollups errs in
  let '(resources, truncated) :=
    capResources (dedupeAndSortResources notReady) (resourceCap ResourceCap) in
  let sb := Build_MilestoneStatusBase generation (Conditions sb) (SummarizeOwner rollups)
              (sortedDependencyStatuses rollups) resources truncated (LastEvaluatedTime sb) in
  let '(readyStatus, readyReason, readyMessage) := ReduceOwner rollups in
  let sb := setCondition now1 sb ConditionReady readyStatus readyReason readyMessage in
  applyStalledFromErrors StalledErrorCap now2 sb errs.

Section pipeline.
Context {T : Type} `{!OwnerClient W T} (r : Reconciler T).

Abbreviation controller := (rc_Controller _ r).
Abbreviation Status := (oa_Status _ (rc_Adapter _ r)).
Abbreviation set_Status := (oa_set_Status _ (rc_Adapter _ r)).
Abbreviation Meta := (oa_Meta _ (rc_Adapter _ r)).

Definition applyStatus (sb : MilestoneStatusBase) (generation : Z)
    (rollups : gmap string DependencyStatus) (notReady : list ResourceStatus)
    (errs : list MError) : M W MilestoneStatusBase :=
  now1 ← wall_clock;
  now2 ← wall_clock;
  mret (apply_status (rc_ResourceCap _ r) (rc_StalledErrorCap _ r) now1 now2 sb generation
          rollups notReady errs).

(** The adapters' PatchStatus: the whole status as a merge patch. *)
Definition PatchStatus (obj : T) : M W (T * option error) :=
  client_PatchStatus obj (statusMergePatch (Status obj)).

Definition patchStatus (obj : T) : M W (T * option error) :=
  observed controller StagePatch (PatchStatus obj).

Definition notifyFluxOnTransition (obj : T) (priorReady : ConditionStatus)
    (current : MilestoneStatusBase) : M W unit :=
  match rc_FluxNotifier _ r with
  | None => mret tt
  | Some notify =>
      if decide (priorReady = readyConditionStatus current) then mret tt else notify obj
  end.

Definition finalize (obj : T) (ownerKey : OwnerKey) : M W (T * result Z) :=
  if ContainsFinalizer (om_Finalizers (Meta obj)) Finalizer then
    reg_UnsubscribeAll ownerKey;;
    let obj := oa_set_Finalizers _ (rc_Adapter _ r)
                 (RemoveFinalizer (om_Finalizers (Meta obj)) Finalizer) obj in
    '(obj, err) ← client_Update obj;
    mret match err with
         | Some err =>
             if IsConflict err then (obj, Ok 0%Z)
             else (obj, Err (fmt_Errorf ("remove finalizer: " +:+ err_Error err) [err]))
         | None => (obj, Ok 0%Z)
         end
  else mret (obj, Ok 0%Z).

(** Lines 110 to 128. *)
Definition add_finalizer (obj : T) : M W (T * result Z) :=
  let obj := oa_set_Finalizers _ (rc_Adapter _ r)
               (AddFinalizer (om_Finalizers (Meta obj)) Finalizer) obj in
  '(obj, err) ← client_Update obj;
  mret match err with
       | Some err =>
           if IsNotFound err then (obj, Ok 0%Z)
           else if IsConflict err then (obj, Ok 0%Z)
           else (obj, Err (fmt_Errorf ("add finalizer: " +:+ err_Error err) [err]))
       | None => (obj, Ok 0%Z)
       end.

(** Lines 130 to 170: the new status, not yet written. *)
Definition compute_status (obj : T) : M W T :=
  '(deps, depErrs) ← observed controller StageDiscovery
                       (oa_Dependencies _ (rc_Adapter _ r) obj (rc_Resolver _ r));
  count_errors controller depErrs;;
  subscribeErrs ← reconcileSubscriptions controller (oa_OwnerKey _ (rc_Adapter _ r) obj) deps;
  count_errors controller subscribeErrs;;
  '(rollups, notReady, listErrs) ←
    evaluateDependencies controller deps (failedDependencyReasons subscribeErrs);
  count_errors controller listErrs;;
  sb ← applyStatus (Status obj) (om_Generation (Meta obj)) rollups notReady
         (depErrs ++ subscribeErrs ++ listErrs);
  mret (set_Status sb obj).

Definition set_LastEvaluatedTime (t : time) (sb : MilestoneStatusBase) : MilestoneStatusBase :=
  Build_MilestoneStatusBase (ObservedGeneration sb) (Conditions sb) (sb_Summary sb) (DependsOn sb)
    (NotReadyResources sb) (Truncated sb) t.

(** Lines 197 to 201. *)
Definition requeue (obj : T) : T * result Z :=
  if IsStatusConditionTrue (Conditions (Status obj)) ConditionStalled
  then (obj, Ok stalledRequeue) else (obj, Ok 0%Z).

(** Lines 172 to 201: write the status if it changed. *)
Definition write_status (prior : MilestoneStatusBase) (obj : T) : M W (T * result Z) :=
  if statusEqualIgnoringTimestamp prior (Status obj) then
    record (Inc StatusPatchTotal [controller; PatchUnchanged]);;
    mret (requeue (set_Status (set_LastEvaluatedTime (LastEvaluatedTime prior) (Status obj)) obj))
  else
    now ← rc_now r;
    '(obj, err) ← patchStatus (set_Status (set_LastEvaluatedTime now (Status obj)) obj);
    match err with
    | Some err =>
        if IsConflict err then
          record (Inc StatusPatchTotal [controller; PatchConflict]);;
          mret (requeue obj)
        else
          record (Inc StatusPatchTotal [controller; PatchError]);;
          mret (obj, Err err)
    | None =>
        record (Inc StatusPatchTotal [controller; PatchChanged]);;
        notifyFluxOnTransition obj (readyConditionStatus prior) (Status obj);;
        mret (requeue obj)
    end.

(** [!obj.GetDeletionTimestamp().IsZero()]. *)
Definition is_deleted (m : ObjectMeta) : bool :=
  match om_DeletionTimestamp m with Some t => negb (t =? 0)%Z | None => false end.

Definition ReconcileObject (obj : T) : M W (T * result Z) :=
  let ownerKey := oa_OwnerKey _ (rc_Adapter _ r) obj in
  if is_deleted (Meta obj) then finalize obj ownerKey
  else if ContainsFinalizer (om_Finalizers (Meta obj)) Finalizer then
    obj' ← compute_status obj;
    write_status (Status obj) obj'
  else add_finalizer obj.

(** Reconcile's result: RequeueAfter, or an error. *)
Definition AsReconcileFunc (namespace name : string) : M W (result Z) :=
  obj ← client_Get namespace name;
  match obj with
  | Err err => mret (if IsNotFound err then Ok 0%Z else Err err)
  | Ok obj => res ← ReconcileObject obj; mret res.2
  end.
End pipeline.
End reconciler.
