(* ===== verification/ReconcilerSpec.v ===== *)
(** * The reconcile pipeline: what it guarantees

    The theorems about [Reconciler.v], proved against its interfaces: the laws a
    registry promises, and the laws of time. [R w w'] says that world [w'] comes
    after [w]; every effect of the pipeline other than a write moves along [R]. *)

From S2P Require Import Prelude GoStd ApiV1 K8s Metrics Status Membership Discovery Normalize SubscriberIndex StatusHelpers StatusPatch Reconciler.

(** ** The laws *)

(** The clock and the metrics are not the registry's business. *)
Class RuntimeLaws (W : Type) `{Runtime W} `{LabelsAPI} (inv : W → Prop)
    (subs : W → GroupVersionKind → OwnerKey → option Subscriber) : Prop := {
  record_inv f w : inv w → inv (record f w).2;
  record_subs f w : subs (record f w).2 = subs w;
  clock_inv w : inv w → inv (wall_clock w).2;
  clock_subs w : subs (wall_clock w).2 = subs w;
}.

(** Reading, counting and subscribing only let time pass. *)
Class TimeLaws (W : Type) `{RegistryAPI W} `{!Runtime W} (R : relation W) : Prop := {
  time_order :: PreOrder R;
  time_record f w : R w (record f w).2;
  time_clock w : R w (wall_clock w).2;
  time_subscribe gvk scope sub w : R w (reg_Subscribe gvk scope sub w).2;
  time_unsubscribe gvk owner w : R w (reg_Unsubscribe gvk owner w).2;
  time_unsubscribe_all owner w : R w (reg_UnsubscribeAll owner w).2;
  time_list gvk w : R w (reg_List gvk w).2;
  time_gvks owner w : R w (reg_GVKsByOwner owner w).2;
}.

(** Reading and counting alone. *)
Class QuietLaws (W : Type) `{RegistryAPI W} `{!Runtime W} (R : relation W) : Prop := {
  quiet_order :: PreOrder R;
  quiet_record f w : R w (record f w).2;
  quiet_clock w : R w (wall_clock w).2;
  quiet_list gvk w : R w (reg_List gvk w).2;
}.

#[export] Instance time_quiet {W} `{RegistryAPI W} `{!Runtime W} (R : relation W) `{!TimeLaws W R} : QuietLaws W R.
Proof.
  split; [apply time_order|apply time_record|apply time_clock|apply time_list].
Qed.

(** The registry and its subscriptions are as they were. *)
Definition still `{LabelsAPI} {W} (inv : W → Prop)
    (subs : W → GroupVersionKind → OwnerKey → option Subscriber) : relation W :=
  λ w w', inv w → inv w' ∧ ∀ g o, subs w' g o = subs w g o.

#[export] Instance still_quiet {W} `{RegistryAPI W} `{!Runtime W} inv subs
    `{!RegistryLaws W inv subs} `{!RuntimeLaws W inv subs} : QuietLaws W (still inv subs).
Proof.
  split.
  - split; [by intros w|]. intros w1 w2 w3 H12 H23 Hw. destruct (H12 Hw) as [Hw2 E2].
    destruct (H23 Hw2) as [Hw3 E3]. split; [done|]. intros g o. by rewrite E3.
  - intros f w Hw. split; [by apply (record_inv (subs := subs))|]. by rewrite (record_subs (inv := inv)).
  - intros w Hw. split; [by apply (clock_inv (subs := subs))|]. by rewrite (clock_subs (inv := inv)).
  - intros gvk w Hw. split; [by apply (list_inv (subs := subs))|]. intros g o. by apply (list_subs (inv := inv)).
Qed.

(** Between [w] and [w'] the call was made, and it answered [a]. *)
Definition happened {W A} (R : relation W) (w w' : W) (call : M W A) (a : A) : Prop :=
  ∃ wi, R w wi ∧ R (call wi).2 w' ∧ (call wi).1 = a.

Section happened.
Context {W : Type} (R : relation W) `{!PreOrder R}.

Lemma happened_now {A} w w' (call : M W A) : R (call w).2 w' → happened R w w' call (call w).1.
Proof. intros Hr. exists w. split_and!; [reflexivity|done|done]. Qed.

Lemma happened_before {A} w0 w w' (call : M W A) a :
  R w0 w → happened R w w' call a → happened R w0 w' call a.
Proof. intros Hr (wi & ? & ? & ?). exists wi. split_and!; [by etrans|done|done]. Qed.

Lemma happened_after {A} w w' w1 (call : M W A) a :
  R w' w1 → happened R w w' call a → happened R w w1 call a.
Proof. intros Hr (wi & ? & ? & ?). exists wi. split_and!; [done|by etrans|done]. Qed.
End happened.

(** ** Grouping *)

Section grouping.
Context `{LabelsAPI}.
Implicit Types (deps : list Dependency) (g : GroupVersionKind).

(** The dependencies on one GVK, in the order of the spec. *)
Definition deps_of g deps : list Dependency := filter (λ d, d_GVK d = g) deps.

Definition scope_of g deps : RESTScopeName := default "" (d_Scope <$> head (deps_of g deps)).

(** The one subscription an owner wants on a GVK: every matcher it declares. *)
Definition subscriber_for (owner : OwnerKey) deps g : Subscriber :=
  Build_Subscriber owner (matcher_of <$> deps_of g deps).

Lemma deps_of_snoc g deps d :
  deps_of g (deps ++ [d]) = deps_of g deps ++ (if decide (d_GVK d = g) then [d] else []).
Proof. unfold deps_of. rewrite filter_app, filter_cons, filter_nil. done. Qed.

Lemma elem_of_deps_of g deps d : d ∈ deps_of g deps ↔ d ∈ deps ∧ d_GVK d = g.
Proof. unfold deps_of. rewrite list_elem_of_filter. tauto. Qed.

Lemma deps_of_nil g deps : deps_of g deps = [] ↔ ¬ ∃ d, d ∈ deps ∧ d_GVK d = g.
Proof.
  setoid_rewrite <- elem_of_deps_of. destruct (deps_of g deps) as [|d ds]; [set_solver|].
  split; [done|]. intros []. exists d. by left.
Qed.

Lemma group_dependencies_spec deps :
  let '(order, groups) := group_dependencies deps in
  NoDup order ∧ (∀ g, g ∈ order ↔ deps_of g deps ≠ []) ∧
  ∀ g, groups !! g =
    if decide (deps_of g deps = []) then None
    else Some (Build_group (scope_of g deps) (matcher_of <$> deps_of g deps) (deps_of g deps)).
Proof.
  unfold group_dependencies. induction deps as [|d deps IH] using rev_ind.
  { split_and!; [constructor|set_solver|done]. }
  rewrite foldl_snoc_fix. destruct (foldl _ _ deps) as [order groups]. destruct IH as (Hnd & Ho & Hg).
  unfold add_to_group. rewrite Hg. pose proof (λ g, deps_of_snoc g deps d) as Hs.
  destruct (decide (deps_of (d_GVK d) deps = [])) as [Hnil|Hnil].
  - split_and!.
    + apply NoDup_app. split_and!; [done| |by apply NoDup_singleton].
      intros g Hin ->%list_elem_of_singleton. by apply Ho in Hin.
    + intros g. rewrite elem_of_app, Ho, list_elem_of_singleton, Hs. case_decide as E.
      * subst. rewrite Hnil. naive_solver.
      * rewrite app_nil_r. naive_solver.
    + intros g. unfold scope_of. rewrite Hs. destruct (decide (d_GVK d = g)) as [<-|Hne].
      * rewrite lookup_insert_eq, Hnil. done.
      * rewrite lookup_insert_ne, app_nil_r by done. apply Hg.
  - split_and!; [done| |].
    + intros g. rewrite Ho, Hs. case_decide as E; [subst|by rewrite app_nil_r].
      split; [|done]. intros _ Heq. by apply app_eq_nil in Heq as [_ ?].
    + intros g. unfold scope_of. rewrite Hs. destruct (decide (d_GVK d = g)) as [<-|Hne].
      * rewrite lookup_insert_eq, decide_False by (by intros [_ ?]%app_eq_nil).
        rewrite fmap_app. unfold scope_of. simpl. by destruct (deps_of (d_GVK d) deps).
      * rewrite lookup_insert_ne, app_nil_r by done. apply Hg.
Qed.
End grouping.

(** ** Subscriptions *)

Section subscriptions.
Context {W : Type} `{LabelsAPI} `{UnstructuredAPI} `{!RegistryAPI W} `{!Runtime W}.
Context (R : relation W) `{!TimeLaws W R}.
Context (inv : W → Prop) (subs : W → GroupVersionKind → OwnerKey → option Subscriber)
  `{!RegistryLaws W inv subs} `{!RuntimeLaws W inv subs}.
Implicit Types (deps : list Dependency) (g gvk : GroupVersionKind).

(** What a failed Subscribe leaves behind: an error per dependency on the GVK. *)
Definition subscribe_errors (fails : gmap GroupVersionKind error) deps g : list MError :=
  match fails !! g with
  | Some err => watch_error g err <$> deps_of g deps
  | None => []
  end.

(** Subscribing to [order], of which [fails] failed. *)
Definition subscribed (order : list GroupVersionKind) (fails : gmap GroupVersionKind error)
    owner deps (w w' : W) : Prop :=
  (∀ g, g ∈ order → ∃ wi, R w wi ∧ R (reg_Subscribe g (scope_of g deps) (subscriber_for owner deps g) wi).2 w' ∧
     (reg_Subscribe g (scope_of g deps) (subscriber_for owner deps g) wi).1 = fails !! g) ∧
  (∀ g, is_Some (fails !! g) → g ∈ order) ∧
  (inv w → inv w' ∧ ∀ g o, subs w' g o =
     if decide (g ∈ order ∧ fails !! g = None ∧ o = owner)
     then Some (subscriber_for owner deps g) else subs w g o).

(** The errors of the kinds still to come do not depend on this kind's answer. *)
Lemma subscribe_errors_other gvk err fails deps order :
  gvk ∉ order →
  (order ≫= subscribe_errors (partial_alter (λ _, err) gvk fails) deps) = order ≫= subscribe_errors fails deps.
Proof.
  intros Hnot. induction order as [|g order IH]; [done|]. rewrite !bind_cons, IH by set_solver.
  f_equal. unfold subscribe_errors. rewrite lookup_partial_alter_ne by set_solver. done.
Qed.

Lemma subscribe_groups_run owner deps order errs w :
  NoDup order → (∀ g, g ∈ order → deps_of g deps ≠ []) →
  let '(errs', w') := subscribe_groups owner (group_dependencies deps).2 order errs w in
  R w w' ∧ ∃ fails, subscribed order fails owner deps w w' ∧
    errs' = errs ++ (order ≫= subscribe_errors fails deps).
Proof.
  pose proof (group_dependencies_spec deps) as Hg.
  destruct (group_dependencies deps) as [order0 groups]. destruct Hg as (_ & _ & Hg). simpl.
  revert errs w. induction order as [|gvk order IH]; intros errs w Hnd Hin.
  { split; [reflexivity|]. exists ∅. split; [|by rewrite app_nil_r]. split_and!.
    - set_solver.
    - intros g [? ?]. done.
    - intros Hw. split; [done|]. intros g o. rewrite decide_False by set_solver. done. }
  apply NoDup_cons in Hnd as [Hnot Hnd]. simpl subscribe_groups.
  rewrite Hg, decide_False by (apply Hin; by left). unfold_M.
  change (Build_Subscriber owner (matcher_of <$> deps_of gvk deps)) with (subscriber_for owner deps gvk).
  pose proof (time_subscribe gvk (scope_of gvk deps) (subscriber_for owner deps gvk) w) as Ht.
  destruct (reg_Subscribe gvk _ _ w) as [err w1] eqn:Hsub. simpl in Ht.
  set (new := match err with Some err => _ | None => _ end).
  specialize (IH (errs ++ new) w1 Hnd ltac:(intros; apply Hin; by right)).
  destruct (subscribe_groups _ _ order _ w1) as [errs' w']. destruct IH as (Hr & fails & Hf & ->).
  split; [by etrans|]. destruct Hf as (Hcalls & Hdom & Hsubs).
  assert (fails !! gvk = None) as Hno by (apply eq_None_not_Some; intros ?; by apply Hnot, Hdom).
  exists (partial_alter (λ _, err) gvk fails). split; [split_and!|].
  - intros g [->|Hing]%elem_of_cons.
    + exists w. rewrite Hsub, lookup_partial_alter_eq. by split_and!.
    + destruct (Hcalls g Hing) as (wi & Hi & ? & ?). exists wi.
      rewrite lookup_partial_alter_ne by (by intros ->). split_and!; [by etrans|done..].
  - intros g. destruct (decide (g = gvk)) as [->|Hne]; [by left|].
    rewrite lookup_partial_alter_ne by done. intros ?. right. by apply Hdom.
  - intros Hw.
    assert (inv w1) as Hw1 by (change w1 with (err, w1).2; rewrite <- Hsub; by apply subscribe_inv).
    destruct (Hsubs Hw1) as [Hw' Hs]. split; [done|]. intros g o. rewrite Hs.
    assert (subs w1 g o = if decide (g = gvk ∧ err = None ∧ o = owner)
                          then Some (subscriber_for owner deps g) else subs w g o) as ->.
    { change w1 with (err, w1).2. rewrite <- Hsub. destruct err as [err|].
      - rewrite decide_False by naive_solver. by eapply subscribe_err; [|by rewrite Hsub].
      - rewrite subscribe_ok by (done || by rewrite Hsub). simpl.
        repeat case_decide; naive_solver. }
    assert (g ∈ gvk :: order ↔ g = gvk ∨ g ∈ order) as Hcons by apply elem_of_cons.
    destruct (decide (g = gvk)) as [->|Hne].
    + rewrite lookup_partial_alter_eq. repeat case_decide; naive_solver.
    + rewrite lookup_partial_alter_ne by done. repeat case_decide; naive_solver.
  - match goal with |- _ = errs ++ ?l =>
      change l with ((gvk :: order) ≫= subscribe_errors (partial_alter (λ _, err) gvk fails) deps) end.
    rewrite bind_cons, <- app_assoc, subscribe_errors_other by done. f_equal. f_equal.
    unfold subscribe_errors. by rewrite lookup_partial_alter_eq.
Qed.

Lemma drop_stale_run owner groups prior w :
  let w' := (drop_stale owner groups prior w).2 in
  R w w' ∧ (inv w → inv w' ∧ ∀ g o, subs w' g o =
    if decide (g ∈ prior ∧ groups !! g = None ∧ o = owner) then None else subs w g o).
Proof.
  revert w. induction prior as [|gvk prior IH]; intros w; cbv zeta.
  { split; [reflexivity|]. intros Hw. split; [done|]. intros g o. by rewrite decide_False by set_solver. }
  assert (∀ g, g ∈ gvk :: prior ↔ g = gvk ∨ g ∈ prior) as Hcons by (intros; apply elem_of_cons).
  simpl drop_stale. unfold_M. destruct (groups !! gvk) as [gr|] eqn:Hg.
  - destruct (IH w) as [Hr Hi]. split; [done|]. intros Hw. destruct (Hi Hw) as [? Hs].
    split; [done|]. intros g o. rewrite Hs. specialize (Hcons g). repeat case_decide; naive_solver.
  - pose proof (time_unsubscribe gvk owner w) as Ht.
    pose proof (unsubscribe_inv (subs := subs) gvk owner w) as Hui.
    pose proof (unsubscribe_subs (subs := subs) gvk owner w) as Hus.
    destruct (reg_Unsubscribe gvk owner w) as [u w1]. simpl in *.
    destruct (IH w1) as [Hr Hi]. split; [by etrans|]. intros Hw.
    destruct (Hi (Hui Hw)) as [? Hs]. split; [done|]. intros g o. rewrite Hs, Hus by done.
    specialize (Hcons g). repeat case_decide; naive_solver.
Qed.

(** The errors [reconcileSubscriptions] reports when [fails] failed. *)
Definition watch_errors (fails : gmap GroupVersionKind error) deps : list MError :=
  (group_dependencies deps).1 ≫= subscribe_errors fails deps.

Lemma elem_of_watch_errors fails deps e :
  e ∈ watch_errors fails deps ↔
  ∃ d err, d ∈ deps ∧ fails !! d_GVK d = Some err ∧ e = watch_error (d_GVK d) err d.
Proof.
  unfold watch_errors. pose proof (group_dependencies_spec deps) as Hg.
  destruct (group_dependencies deps) as [order groups]. destruct Hg as (_ & Ho & _). simpl.
  rewrite list_elem_of_bind. setoid_rewrite Ho. unfold subscribe_errors. split.
  - intros (g & Hin & _). destruct (fails !! g) as [err|] eqn:Hf; [|by apply not_elem_of_nil in Hin].
    apply list_elem_of_fmap in Hin as (d & -> & [Hd <-]%elem_of_deps_of). eauto.
  - intros (d & err & Hd & Hf & ->). exists (d_GVK d). rewrite Hf. split.
    + apply list_elem_of_fmap. exists d. by rewrite elem_of_deps_of.
    + intros Hnil%deps_of_nil. eauto.
Qed.

(** The subscriptions when [owner] has asked for its dependencies', [fails] of
    which failed. *)
Definition resubscribed (fails : gmap GroupVersionKind error) (owner : OwnerKey) deps (w w' : W) : Prop :=
  ∀ g o, subs w' g o =
    if decide (o = owner) then
      if decide (deps_of g deps = []) then None
      else match fails !! g with
           | Some _ => subs w g o
           | None => Some (subscriber_for owner deps g)
           end
    else subs w g o.

(** All of [reconcileSubscriptions]: one Subscribe per GVK, in order of
    appearance, then the stale subscriptions dropped. *)
Lemma reconcileSubscriptions_run controller owner deps w :
  let '(errs, w') := reconcileSubscriptions controller owner deps w in
  R w w' ∧ ∃ fails, errs = watch_errors fails deps ∧
  (∀ g, deps_of g deps ≠ [] →
     happened R w w' (reg_Subscribe g (scope_of g deps) (subscriber_for owner deps g)) (fails !! g)) ∧
  (∀ g, deps_of g deps = [] → fails !! g = None) ∧
  (inv w → inv w' ∧ resubscribed fails owner deps w w').
Proof.
  unfold reconcileSubscriptions, observed, watch_errors. pose proof (group_dependencies_spec deps) as Hg.
  pose proof (subscribe_groups_run owner deps (group_dependencies deps).1 []) as Hrun.
  destruct (group_dependencies deps) as [order groups]. destruct Hg as (Hnd & Ho & Hg). unfold_M.
  pose proof (time_gvks owner w) as Htg. pose proof (gvks_state (inv := inv) (subs := subs) owner w) as Hgs.
  pose proof (gvks_by_owner (inv := inv) (subs := subs) owner w) as Hprior.
  destruct (reg_GVKsByOwner owner w) as [prior w0]. simpl in *.
  specialize (Hrun w0 Hnd ltac:(intros g Hin; by apply Ho)).
  destruct (subscribe_groups owner groups order [] w0) as [errs w1].
  destruct Hrun as (Hr1 & fails & (Hcalls & Hdom & Hsubs) & ->).
  pose proof (drop_stale_run owner groups prior w1) as Hdrop. cbv zeta in Hdrop.
  destruct (drop_stale owner groups prior w1) as [u w2]. simpl in *. destruct Hdrop as [Hr2 Hdrop].
  pose proof (time_record (ObserveStage controller StageSubscriptions) w2) as Hr3.
  pose proof (record_inv (subs := subs) (ObserveStage controller StageSubscriptions) w2) as Hi3.
  pose proof (record_subs (inv := inv) (ObserveStage controller StageSubscriptions) w2) as Hs3.
  destruct (record _ w2) as [u3 w3]. simpl in *.
  assert (R w1 w3) as Hr13 by (by transitivity w2).
  split; [by transitivity w0; [|transitivity w1]|]. exists fails. split_and!; [done| | |].
  - intros g Hne. apply Ho in Hne. destruct (Hcalls g Hne) as (wi & ? & ? & ?).
    exists wi. split_and!; [by transitivity w0|by transitivity w1|done].
  - intros g Hnil. apply eq_None_not_Some. intros Hs. apply Hdom, Ho in Hs. done.
  - intros Hw. specialize (Hgs Hw). subst w0.
    destruct (Hsubs Hw) as [Hw1 Hs1]. destruct (Hdrop Hw1) as [Hw2 Hs2]. split; [by apply Hi3|]. intros g o. rewrite Hs3, Hs2, Hs1.
    pose proof (Ho g) as Hog. pose proof (Hprior g Hw) as Hpg. rewrite Hg.
    destruct (decide (o = owner)) as [->|Hne]; [|by rewrite !decide_False by naive_solver].
    destruct (decide (deps_of g deps = [])) as [Hnil|Hnn].
    + destruct (subs w g owner) eqn:Hsub.
      * by rewrite decide_True by naive_solver.
      * rewrite decide_False by (by intros [[? ?]%Hpg _]). by rewrite decide_False by tauto.
    + rewrite decide_False by naive_solver. destruct (fails !! g) eqn:Hf.
      * by rewrite decide_False by naive_solver.
      * by rewrite decide_True by naive_solver.
Qed.

(** C10: after [reconcileSubscriptions], the owner is subscribed exactly to the
    GVKs its dependencies name, each with every matcher declared for it in
    order, but for a GVK whose Subscribe failed: its earlier subscription, if
    any, stays, and each of its dependencies gets one WatchSetupFailed error
    carrying what Subscribe answered. No other owner's subscription changes. *)
Theorem reconcileSubscriptions_spec controller owner deps w errs w' :
  inv w → reconcileSubscriptions controller owner deps w = (errs, w') →
  inv w' ∧ ∃ fails : gmap GroupVersionKind error,
    (∀ g, (∃ d, d ∈ deps ∧ d_GVK d = g) →
       happened R w w' (reg_Subscribe g (scope_of g deps) (subscriber_for owner deps g)) (fails !! g)) ∧
    (∀ g o, o ≠ owner → subs w' g o = subs w g o) ∧
    (∀ g, (¬ ∃ d, d ∈ deps ∧ d_GVK d = g) → subs w' g owner = None) ∧
    (∀ g, (∃ d, d ∈ deps ∧ d_GVK d = g) → fails !! g = None →
       subs w' g owner = Some (Build_Subscriber owner (matcher_of <$> filter (λ d, d_GVK d = g) deps))) ∧
    (∀ g, is_Some (fails !! g) → subs w' g owner = subs w g owner) ∧
    (∀ e, e ∈ errs ↔ ∃ d err, d ∈ deps ∧ fails !! d_GVK d = Some err ∧
       e = Build_MError (d_Name d) (Group (d_GVK d)) (Version (d_GVK d)) (Kind (d_GVK d))
             ReasonWatchSetupFailed err).
Proof.
  intros Hw Hrun. pose proof (reconcileSubscriptions_run controller owner deps w) as Hs.
  rewrite Hrun in Hs. destruct Hs as (_ & fails & -> & Hcalls & Hnone & Hinv).
  destruct (Hinv Hw) as [Hw' Hsubs]. split; [done|]. exists fails.
  assert (∀ g, (∃ d, d ∈ deps ∧ d_GVK d = g) → deps_of g deps ≠ []) as Hne.
  { by intros g Hd Hnil%deps_of_nil. }
  split_and!.
  - intros g Hd. by apply Hcalls, Hne.
  - intros g o Ho. by rewrite Hsubs, decide_False.
  - intros g Hd. by rewrite Hsubs, decide_True, decide_True by (done || by apply deps_of_nil).
  - intros g Hd Hf. by rewrite Hsubs, decide_True, decide_False, Hf by auto.
  - intros g Hf. rewrite Hsubs, decide_True by done. case_decide as Hnil.
    + rewrite Hnone in Hf by done. by destruct Hf.
    + by destruct Hf as [? ->].
  - apply elem_of_watch_errors.
Qed.
End subscriptions.

(** ** Evaluation *)

(** What the reconcile saw of one dependency: its watch could not be set up, or
    its GVK was listed. *)
Inductive observation `{UnstructuredAPI} :=
  | WatchFailed
  | Listed (res : result (list Unstructured)).

Section evaluation.
Context {W : Type} `{LabelsAPI} `{UnstructuredAPI} `{!RegistryAPI W} `{!Runtime W}.
Context (R : relation W) `{!QuietLaws W R}.
Implicit Types (deps : list Dependency) (d : Dependency).

Lemma count_errors_time controller errs w : R w (count_errors controller errs w).2.
Proof.
  revert w. induction errs as [|e errs IH]; intros w; [reflexivity|]. simpl. unfold mbind, M_bind.
  pose proof (quiet_record (Inc TargetResolveErrors [controller; e_Reason e]) w) as Ht.
  destruct (record _ w) as [u w1]. simpl in Ht. by transitivity w1.
Qed.

Lemma observed_time {A} controller stage (body : M W A) w :
  R w (body w).2 →
  (observed controller stage body w).1 = (body w).1 ∧ R w (observed controller stage body w).2.
Proof.
  unfold observed. unfold_M. destruct (body w) as [x w1]. simpl. intros Hr.
  pose proof (quiet_record (ObserveStage controller stage) w1) as Ht.
  destruct (record _ w1) as [u w2]. simpl in *. split; [done|]. by transitivity w1.
Qed.

(** The members of a listing: the objects the dependency admits. *)
Definition members d (objs : list Unstructured) : list Resource :=
  Compute <$> filter (λ u, Admits d (GetNamespace u) (GetLabels u) = true) objs.

Definition rollup_of d o : DependencyStatus :=
  match o with
  | WatchFailed => FailedRollup (d_Name d) (d_GVK d) ReasonWatchSetupFailed
  | Listed (Err _) => FailedRollup (d_Name d) (d_GVK d) ReasonListFailed
  | Listed (Ok objs) =>
      ReduceDependency (d_Name d) (Group (d_GVK d)) (Version (d_GVK d)) (Kind (d_GVK d))
        (members d objs) (d_EmptySetPolicy d) (d_SuspendPolicy d)
  end.

Definition not_ready_of d o : list ResourceStatus :=
  match o with
  | Listed (Ok objs) => notReadyResourcesOf (members d objs) (d_SuspendPolicy d)
  | _ => []
  end.

Definition list_errors_of d o : list MError :=
  match o with
  | Listed (Err err) => [list_error d err]
  | _ => []
  end.

(** [o] is what happened to [d] between [w] and [w']. *)
Definition seen (fr : gmap string string) (w w' : W) d o : Prop :=
  match o with
  | WatchFailed => fr !! d_Name d = Some ReasonWatchSetupFailed
  | Listed res => fr !! d_Name d = None ∧ happened R w w' (reg_List (d_GVK d)) res
  end.

Lemma seen_within fr w0 w w' w1 d o : R w0 w → R w' w1 → seen fr w w' d o → seen fr w0 w1 d o.
Proof.
  intros Hr Hr'. destruct o as [|res]; [done|]. intros [? Hh]. split; [done|].
  eapply happened_before; [apply _|done|]. by eapply happened_after; [apply _|..].
Qed.

Lemma seen_mono (R' : relation W) fr w w' d o :
  (∀ w1 w2, R w1 w2 → R' w1 w2) → seen fr w w' d o →
  match o with
  | WatchFailed => fr !! d_Name d = Some ReasonWatchSetupFailed
  | Listed res => fr !! d_Name d = None ∧ happened R' w w' (reg_List (d_GVK d)) res
  end.
Proof. intros Hm. destruct o as [|res]; [done|]. intros (? & wi & ? & ? & ?). split; [done|]. exists wi. auto. Qed.

Lemma listAndCompute_run controller d w :
  let '(res, w') := listAndCompute controller d w in
  ∃ o, happened R w w' (reg_List (d_GVK d)) o ∧ R w w' ∧
    res = match o with Ok objs => Ok (members d objs) | Err err => Err err end.
Proof.
  unfold listAndCompute, observed. unfold_M.
  pose proof (quiet_list (d_GVK d) w) as Ht. destruct (reg_List (d_GVK d) w) as [o w1] eqn:Hl.
  pose proof (quiet_record (ObserveStage controller StageList) w1) as Ht2.
  destruct (record _ w1) as [u w2]. simpl in *. destruct o as [objs|err].
  - pose proof (quiet_record (ObserveStage controller StageCompute) w2) as Ht3.
    destruct (record _ w2) as [u3 w3]. simpl in *. exists (Ok objs).
    assert (R w1 w3) by by etrans.
    split_and!; [|by transitivity w1|done]. exists w. rewrite Hl. split_and!; [reflexivity|done..].
  - exists (Err err). split_and!; [|by transitivity w1|done]. exists w. rewrite Hl.
    split_and!; [reflexivity|done..].
Qed.

Lemma evaluate_one_run controller fr d acc w :
  map_Forall (λ _ reason, reason = ReasonWatchSetupFailed) fr →
  let '(acc', w') := evaluate_one controller fr d acc w in
  R w w' ∧ ∃ o, seen fr w w' d o ∧
    acc' = (<[d_Name d := rollup_of d o]> acc.1.1, acc.1.2 ++ not_ready_of d o,
            acc.2 ++ list_errors_of d o).
Proof.
  intros Hfr. destruct acc as [[rollups notReady] listErrs]. unfold evaluate_one, observed.
  destruct (fr !! d_Name d) as [reason|] eqn:Hf.
  - unfold_M. split; [reflexivity|]. exists WatchFailed. pose proof (Hfr _ _ Hf) as ->.
    simpl. by rewrite !app_nil_r.
  - unfold_M. pose proof (listAndCompute_run controller d w) as Hl.
    destruct (listAndCompute controller d w) as [res w1]. destruct Hl as (o & Hh & Hr & ->).
    destruct o as [objs|err].
    + pose proof (quiet_record (ObserveStage controller StageReduce) w1) as Ht.
      destruct (record _ w1) as [u w2]. simpl in *. split; [by transitivity w1|].
      exists (Listed (Ok objs)). split; [|by rewrite app_nil_r].
      split; [done|]. by eapply happened_after; [apply _|..].
    + split; [done|]. exists (Listed (Err err)). simpl. by rewrite app_nil_r.
Qed.

(** Only listing, whatever was skipped. *)
Lemma evaluate_loop_quiet controller fr deps acc w : R w (evaluate_loop controller fr deps acc w).2.
Proof.
  revert acc w. induction deps as [|d deps IH]; intros acc w; [reflexivity|].
  simpl. unfold mbind at 1, M_bind.
  assert (R w (evaluate_one controller fr d acc w).2) as Hone.
  { destruct acc as [[rollups notReady] listErrs]. unfold evaluate_one.
    destruct (fr !! d_Name d); [reflexivity|]. unfold_M.
    pose proof (listAndCompute_run controller d w) as Hl.
    destruct (listAndCompute controller d w) as [res w1]. destruct Hl as (o & _ & Hr & _).
    destruct res as [resources|err]; [|done].
    pose proof (quiet_record (ObserveStage controller StageReduce) w1) as Ht. unfold observed. unfold_M.
    destruct (record _ w1) as [u w2]. simpl in *. by etrans. }
  destruct (evaluate_one controller fr d acc w) as [acc1 w1]. by transitivity w1.
Qed.

(** The loop's accumulators after observing [obs]. *)
Definition rollups_of (base : gmap string DependencyStatus) (pairs : list (Dependency * observation))
    : gmap string DependencyStatus :=
  foldl (λ m p, <[d_Name p.1 := rollup_of p.1 p.2]> m) base pairs.

Lemma evaluate_loop_run controller fr deps acc w :
  map_Forall (λ _ reason, reason = ReasonWatchSetupFailed) fr →
  let '(acc', w') := evaluate_loop controller fr deps acc w in
  R w w' ∧ ∃ obs, Forall2 (seen fr w w') deps obs ∧
    acc' = (rollups_of acc.1.1 (zip deps obs),
            acc.1.2 ++ (zip deps obs ≫= λ p, not_ready_of p.1 p.2),
            acc.2 ++ (zip deps obs ≫= λ p, list_errors_of p.1 p.2)).
Proof.
  intros Hfr. revert acc w. induction deps as [|d deps IH]; intros acc w.
  { split; [reflexivity|]. exists []. split; [constructor|]. destruct acc as [[? ?] ?].
    simpl. by rewrite !app_nil_r. }
  pose proof (evaluate_one_run controller fr d acc w Hfr) as Hone.
  simpl evaluate_loop. unfold mbind at 1, M_bind.
  destruct (evaluate_one controller fr d acc w) as [acc1 w1]. destruct Hone as (Hr1 & o & Ho & ->).
  specialize (IH (<[d_Name d := rollup_of d o]> acc.1.1, acc.1.2 ++ not_ready_of d o,
                  acc.2 ++ list_errors_of d o) w1).
  destruct (evaluate_loop _ _ deps _ w1) as [acc2 w2]. destruct IH as (Hr2 & obs & Hobs & ->).
  split; [by transitivity w1|]. exists (o :: obs). split.
  - constructor; [by eapply seen_within; [reflexivity|..]|].
    eapply Forall2_impl; [done|]. intros d' o' Hs. by eapply seen_within; [..|reflexivity|].
  - change (zip (d :: deps) (o :: obs)) with ((d, o) :: zip deps obs).
    rewrite !bind_cons, !app_assoc. done.
Qed.
End evaluation.


(** ** The status a reconcile computes *)

Section rollups.
Context `{LabelsAPI} `{UnstructuredAPI}.
Implicit Types (deps : list Dependency) (pairs : list (Dependency * observation)).

Lemma rollups_of_other base pairs name :
  name ∉ d_Name <$> pairs.*1 → rollups_of base pairs !! name = base !! name.
Proof.
  revert base. induction pairs as [|[d o] pairs IH]; intros base Hn; [done|].
  simpl in Hn. rewrite not_elem_of_cons in Hn. destruct Hn as [Hd Hn].
  unfold rollups_of. simpl foldl. fold (rollups_of (<[d_Name d := rollup_of d o]> base) pairs).
  rewrite IH by done. by rewrite lookup_insert_ne.
Qed.

Lemma rollups_of_lookup base pairs d o :
  NoDup (d_Name <$> pairs.*1) → (d, o) ∈ pairs →
  rollups_of base pairs !! d_Name d = Some (rollup_of d o).
Proof.
  revert base. induction pairs as [|[d' o'] pairs IH]; intros base Hnd Hin; [by apply not_elem_of_nil in Hin|].
  simpl in Hnd. apply NoDup_cons in Hnd as [Hnot Hnd].
  unfold rollups_of. simpl foldl. fold (rollups_of (<[d_Name d' := rollup_of d' o']> base) pairs).
  apply elem_of_cons in Hin as [[= -> ->]|Hin]; [|by apply IH].
  rewrite rollups_of_other by done. by rewrite lookup_insert_eq.
Qed.

Lemma failedDependencyReasons_lookup errs name :
  failedDependencyReasons errs !! name =
  if decide (name = "") then None else e_Reason <$> first_error errs name.
Proof.
  unfold failedDependencyReasons.
  assert (∀ acc : gmap string string, acc !! "" = None →
    foldl (λ out e, if decide (e_Name e = "") then out
                    else match out !! e_Name e with
                         | Some _ => out
                         | None => <[e_Name e := e_Reason e]> out
                         end) acc errs !! name =
    match acc !! name with
    | Some r => Some r
    | None => if decide (name = "") then None else e_Reason <$> first_error errs name
    end) as Hgen.
  { induction errs as [|e errs IH]; intros acc Hacc; simpl; [by repeat case_match|].
    rewrite first_error_cons. destruct (decide (e_Name e = "")) as [He|He].
    - rewrite IH by done. repeat case_decide; naive_solver.
    - destruct (acc !! e_Name e) as [r|] eqn:Hl; rewrite IH; try done.
      + destruct (decide (e_Name e = name)) as [<-|]; [by rewrite Hl|done].
      + destruct (decide (e_Name e = name)) as [<-|Hne].
        * by rewrite lookup_insert_eq, Hl, decide_False.
        * by rewrite lookup_insert_ne.
      + by rewrite lookup_insert_ne. }
  by rewrite Hgen.
Qed.

(** The names of a spec: of the dependencies that normalised, and of the errors
    of those that did not. *)
Definition names_ok deps (depErrs : list MError) : Prop :=
  NoDup ((d_Name <$> deps) ++ (e_Name <$> depErrs)) ∧ "" ∉ (d_Name <$> deps) ++ (e_Name <$> depErrs).

(** The rollups of a reconcile: one per observed dependency, one stand-in per
    dependency that did not normalise. *)
Definition is_rollup pairs (depErrs : list MError) (st : DependencyStatus) : Prop :=
  (∃ d o, (d, o) ∈ pairs ∧ st = rollup_of d o) ∨ ∃ e, e ∈ depErrs ∧ st = error_rollup e.

Lemma ds_Name_ReduceDependency name group version kind l policy suspendPolicy :
  ds_Name (ReduceDependency name group version kind l policy suspendPolicy) = name.
Proof. unfold ReduceDependency. by repeat case_match. Qed.

Lemma ds_Name_rollup_of d o : ds_Name (rollup_of d o) = d_Name d.
Proof. destruct o as [|[objs|err]]; [done| |done]. apply ds_Name_ReduceDependency. Qed.

Lemma final_rollups deps obs depErrs later name st :
  names_ok deps depErrs → length deps = length obs →
  (∀ e, e ∈ later → e_Name e ∈ d_Name <$> deps) →
  Rollups (rollups_of ∅ (zip deps obs)) (depErrs ++ later) !! name = Some st ↔
  name = ds_Name st ∧ is_rollup (zip deps obs) depErrs st.
Proof.
  intros [Hnd Hne] Hlen Hlater. apply NoDup_app in Hnd as (Hd & Hde & Herr).
  assert ((zip deps obs).*1 = deps) as Hfst by (apply fst_zip; lia). rewrite Rollups_lookup.
  assert (∀ e, e ∈ depErrs → ∀ e', e' ∈ depErrs → e_Name e = e_Name e' → e = e') as Hinj.
  { intros. by eapply (NoDup_fmap_elem e_Name depErrs). }
  destruct (decide (name ∈ d_Name <$> deps)) as [Hin|Hin].
  - apply list_elem_of_fmap in Hin as (d & -> & Hin). rewrite <- Hfst in Hin.
    apply list_elem_of_fmap in Hin as ([d' o] & -> & Hin). simpl.
    rewrite (rollups_of_lookup ∅ _ d' o) by (by rewrite ?Hfst). split.
    + intros [= <-]. rewrite ds_Name_rollup_of. split; [done|]. left. eauto.
    + intros [Hname [(d & o' & Hin' & ->)|(e & He & ->)]].
      * rewrite ds_Name_rollup_of in Hname. f_equal.
        rewrite <- (ds_Name_rollup_of d' o), <- (ds_Name_rollup_of d o') in Hname.
        pose proof (rollups_of_lookup ∅ (zip deps obs) d' o ltac:(by rewrite Hfst) Hin) as E1.
        pose proof (rollups_of_lookup ∅ (zip deps obs) d o' ltac:(by rewrite Hfst) Hin') as E2.
        rewrite !ds_Name_rollup_of in Hname. congruence.
      * exfalso. apply (Hde (d_Name d')).
        -- apply list_elem_of_fmap. exists d'. split; [done|]. rewrite <- Hfst.
           apply list_elem_of_fmap. by exists (d', o).
        -- rewrite Hname. simpl. by apply list_elem_of_fmap_2.
  - rewrite rollups_of_other by (by rewrite Hfst). rewrite lookup_empty.
    assert (∀ d o, (d, o) ∈ zip deps obs → d_Name d ≠ name) as Hno.
    { intros d o Hp <-. apply Hin, list_elem_of_fmap. exists d. split; [done|].
      rewrite <- Hfst. apply list_elem_of_fmap. by exists (d, o). }
    case_decide as Hempty.
    + split; [done|]. intros [-> [(d & o & Hp & ->)|(e & He & ->)]].
      * rewrite ds_Name_rollup_of in Hno. by destruct (Hno d o).
      * destruct Hne. rewrite elem_of_app. right. simpl in Hempty. rewrite <- Hempty.
        by apply list_elem_of_fmap_2.
    + split.
      * intros (e & Hf & ->)%fmap_Some. apply first_error_Some in Hf as [He <-].
        split; [done|]. right. exists e. split; [|done].
        apply elem_of_app in He as [He|He]; [done|]. by apply Hlater in He.
      * intros [-> [(d & o & Hp & ->)|(e & He & ->)]].
        { rewrite ds_Name_rollup_of in Hno. by destruct (Hno d o). }
        simpl. destruct (first_error _ _) as [e'|] eqn:Hf.
        -- simpl. apply first_error_Some in Hf as [He' Hname]. f_equal. f_equal.
           apply elem_of_app in He' as [He'|He']; [by apply Hinj|].
           apply Hlater in He'. rewrite Hname in He'. done.
        -- rewrite first_error_None in Hf. destruct (Hf e); [|done]. rewrite elem_of_app. by left.
Qed.
End rollups.

Section status.
Context `{ConditionsLaws} `{LabelsAPI}.
Implicit Types (rollups : gmap string DependencyStatus) (errs : list MError).

(** The two conditions [apply_status] sets. *)
Definition ready_condition (generation : Z) rollups : Condition :=
  let '(readyStatus, readyReason, readyMessage) := ReduceOwner rollups in
  Build_Condition ConditionReady readyStatus generation 0 readyReason readyMessage.

Definition stalled_condition (StalledErrorCap generation : Z) errs : Condition :=
  match sort_slice error_less errs with
  | [] => Build_Condition ConditionStalled ConditionFalse generation 0 ReasonReconcileComplete ""
  | (first :: _) as sorted =>
      Build_Condition ConditionStalled ConditionTrue generation 0 (e_Reason first)
        (stalled_message sorted (stalledErrorCap StalledErrorCap))
  end.

(** [apply_status], field by field. *)
Lemma apply_status_eq ResourceCap StalledErrorCap now1 now2 sb generation rollups notReady errs :
  let all := Rollups rollups errs in
  let '(resources, truncated) :=
    capResources (dedupeAndSortResources notReady) (resourceCap ResourceCap) in
  apply_status ResourceCap StalledErrorCap now1 now2 sb generation rollups notReady errs =
  Build_MilestoneStatusBase generation
    (SetStatusCondition now2
       (SetStatusCondition now1 (Conditions sb) (ready_condition generation all))
       (stalled_condition StalledErrorCap generation errs))
    (SummarizeOwner all) (sortedDependencyStatuses all) resources truncated (LastEvaluatedTime sb).
Proof.
  cbv zeta. unfold apply_status, ready_condition, stalled_condition, applyStalledFromErrors, setCondition.
  destruct (capResources _ _) as [resources truncated].
  destruct (ReduceOwner _) as [[? ?] ?]. by destruct (sort_slice error_less errs).
Qed.

Lemma ready_condition_type generation rollups : c_Type (ready_condition generation rollups) = ConditionReady.
Proof. unfold ready_condition. by destruct (ReduceOwner _) as [[? ?] ?]. Qed.

Lemma stalled_condition_type cap generation errs :
  c_Type (stalled_condition cap generation errs) = ConditionStalled.
Proof. unfold stalled_condition. by destruct (sort_slice _ _). Qed.

Lemma stalled_condition_status cap generation errs :
  c_Status (stalled_condition cap generation errs) = ConditionTrue ↔ errs ≠ [].
Proof.
  unfold stalled_condition. pose proof (sort_slice_nil error_less errs) as Hn.
  destruct (sort_slice error_less errs); naive_solver.
Qed.

Lemma apply_status_ready ResourceCap StalledErrorCap now1 now2 sb generation rollups notReady errs :
  readyConditionStatus
    (apply_status ResourceCap StalledErrorCap now1 now2 sb generation rollups notReady errs) =
  (ReduceOwner (Rollups rollups errs)).1.1.
Proof.
  pose proof (apply_status_eq ResourceCap StalledErrorCap now1 now2 sb generation rollups notReady errs) as E.
  cbv zeta in E. destruct (capResources _ _). rewrite E. unfold readyConditionStatus. simpl Conditions.
  rewrite find_set_ne by by rewrite stalled_condition_type.
  pose proof (find_set_eq now1 (Conditions sb) (ready_condition generation (Rollups rollups errs))) as Hf.
  rewrite ready_condition_type in Hf. destruct Hf as (c & -> & _ & -> & _).
  unfold ready_condition. by destruct (ReduceOwner _) as [[? ?] ?].
Qed.

Lemma apply_status_stalled ResourceCap StalledErrorCap now1 now2 sb generation rollups notReady errs :
  IsStatusConditionTrue (Conditions
    (apply_status ResourceCap StalledErrorCap now1 now2 sb generation rollups notReady errs))
    ConditionStalled = true ↔ errs ≠ [].
Proof.
  pose proof (apply_status_eq ResourceCap StalledErrorCap now1 now2 sb generation rollups notReady errs) as E.
  cbv zeta in E. destruct (capResources _ _). rewrite E. simpl Conditions.
  rewrite <- (stalled_condition_status StalledErrorCap generation errs).
  rewrite <- (is_true_set_eq now2 (SetStatusCondition now1 (Conditions sb)
    (ready_condition generation (Rollups rollups errs)))).
  by rewrite stalled_condition_type.
Qed.

(** status.dependsOn lists the values of the map, sorted by name. *)
Lemma elem_of_sortedDependencyStatuses rollups st :
  st ∈ elems (sortedDependencyStatuses rollups) ↔ ∃ name, rollups !! name = Some st.
Proof.
  transitivity (st ∈ (map_to_list rollups).*2).
  - unfold sortedDependencyStatuses, sorted_entries. destruct (map_to_list rollups) as [|e l]; [done|].
    change (st ∈ sort_slice name_less (e :: l).*2 ↔ st ∈ (e :: l).*2). by rewrite sort_slice_perm.
  - rewrite list_elem_of_fmap. split.
    + intros ([name st'] & -> & Hin%elem_of_map_to_list). eauto.
    + intros [name Hl%elem_of_map_to_list]. by exists (name, st).
Qed.

Lemma sortedDependencyStatuses_sorted rollups :
  StronglySorted (in_order name_less) (elems (sortedDependencyStatuses rollups)).
Proof.
  unfold sortedDependencyStatuses, sorted_entries. destruct (map_to_list rollups); [constructor|].
  apply sort_slice_sorted. apply _.
Qed.

(** Ready, read off the published entries. *)
Lemma apply_status_ready_entries ResourceCap StalledErrorCap now1 now2 sb generation rollups notReady errs :
  let sb' := apply_status ResourceCap StalledErrorCap now1 now2 sb generation rollups notReady errs in
  readyConditionStatus sb' = ConditionTrue ↔
  elems (DependsOn sb') ≠ [] ∧ ∀ st, st ∈ elems (DependsOn sb') → ds_Ready st = ConditionTrue.
Proof.
  cbv zeta. rewrite apply_status_ready, ReduceOwner_True_iff.
  pose proof (apply_status_eq ResourceCap StalledErrorCap now1 now2 sb generation rollups notReady errs) as E.
  cbv zeta in E. destruct (capResources _ _). rewrite E. cbn [DependsOn].
  pose proof (elem_of_sortedDependencyStatuses (Rollups rollups errs)) as Hs.
  generalize dependent (Rollups rollups errs). intros all _ Hs. setoid_rewrite Hs. split; intros [Hne Hall].
  - split; [|intros st [name Hl]; by eapply Hall]. intros Hnil. apply Hne, map_empty. intros name.
    apply eq_None_not_Some. intros [st Hl]. apply (not_elem_of_nil st). rewrite <- Hnil. apply Hs. eauto.
  - split; [|intros name st Hl; apply Hall; eauto]. intros ->. apply Hne.
    destruct (elems _) as [|st l] eqn:El; [done|]. destruct (proj1 (Hs st)) as [name Hl]; [try rewrite El; by left|].
    done.
Qed.
End status.

Section compute.
Context {W : Type} `{LabelsAPI} `{UnstructuredAPI} `{Formatting} `{ApiErrors} `{ConditionsLaws}
  `{FinalizerAPI} `{MetaJSON}.
Context `{!RegistryAPI W} `{!NamespaceClient W} `{!Runtime W}.
Context (R : relation W) `{!TimeLaws W R}.
Context {T : Type} (r : Reconciler (W := W) T).

Abbreviation controller := (rc_Controller _ r).
Abbreviation adapter := (rc_Adapter _ r).

(** The adapter's Status() points into the object, and normalising the spec
    only lets time pass. *)
Hypothesis status_lens : ∀ sb obj, oa_Status _ adapter (oa_set_Status _ adapter sb obj) = sb.
Hypothesis normalize_time : ∀ obj w, R w (oa_Dependencies _ adapter obj (rc_Resolver _ r) w).2.

(** What [o] reports about [d]: its watch's Subscribe failed, or its GVK was
    subscribed and then listed, between [w] and [w']. *)
Definition observed_as (owner : OwnerKey) (deps : list Dependency) (w w' : W)
    (d : Dependency) (o : observation) : Prop :=
  let subscribe := reg_Subscribe (d_GVK d) (scope_of (d_GVK d) deps)
                     (subscriber_for owner deps (d_GVK d)) in
  match o with
  | WatchFailed => ∃ err, happened R w w' subscribe (Some err)
  | Listed res => happened R w w' subscribe None ∧ happened R w w' (reg_List (d_GVK d)) res
  end.

(** The dependency's members are all unblocked; without members, its policy is
    Ready. *)
Definition satisfied (d : Dependency) (o : observation) : Prop :=
  match o with
  | Listed (Ok objs) =>
      match members d objs with
      | [] => d_EmptySetPolicy d = EmptySetReady
      | ms => ∀ m, m ∈ ms → Blocks m (d_SuspendPolicy d) = false
      end
  | _ => False
  end.

Definition observation_failed (o : observation) : bool :=
  match o with Listed (Ok _) => false | _ => true end.

(** Fewer than 2^31 objects in a listing. *)
Definition countable_listing (o : observation) : Prop :=
  match o with Listed (Ok objs) => (Z.of_nat (length objs) < 2 ^ 31)%Z | _ => True end.

Lemma rollup_of_ready d o :
  countable_listing o → ds_Ready (rollup_of d o) = ConditionTrue ↔ satisfied d o.
Proof.
  destruct o as [|[objs|err]]; simpl; [naive_solver| |naive_solver]. intros Hlen.
  destruct (members d objs) as [|m ms] eqn:Hm.
  - unfold ReduceDependency. simpl. repeat case_decide; naive_solver.
  - apply ReduceDependency_ready_iff; [done|]. rewrite <- Hm. unfold members. rewrite length_fmap.
    pose proof (length_filter (λ u, Admits d (GetNamespace u) (GetLabels u) = true) objs). lia.
Qed.

(** [reconcileSubscriptions], its calls alone. *)
Lemma reconcileSubscriptions_calls owner deps w :
  let '(errs, w') := reconcileSubscriptions controller owner deps w in
  R w w' ∧ ∃ fails, errs = watch_errors fails deps ∧
  ∀ g, deps_of g deps ≠ [] →
    happened R w w' (reg_Subscribe g (scope_of g deps) (subscriber_for owner deps g)) (fails !! g).
Proof.
  assert (RegistryLaws W (λ _, False) (λ _ _ _, None)) by by split.
  assert (RuntimeLaws W (λ _, False) (λ _ _ _, None)) by by split.
  pose proof (reconcileSubscriptions_run R (λ _, False) (λ _ _ _, None) controller owner deps w) as Hrun.
  destruct (reconcileSubscriptions _ _ _ w) as [errs w']. naive_solver.
Qed.

(** The names whose evaluation is skipped are those of a failed watch. *)
Lemma skipped_names fails deps depErrs d :
  names_ok deps depErrs → d ∈ deps →
  failedDependencyReasons (watch_errors fails deps) !! d_Name d =
  (λ _, ReasonWatchSetupFailed) <$> fails !! d_GVK d.
Proof.
  intros [Hnd Hne] Hd. apply NoDup_app in Hnd as (Hnd & _). rewrite failedDependencyReasons_lookup.
  assert (d_Name d ∈ d_Name <$> deps) as Hin by (by apply list_elem_of_fmap_2).
  rewrite decide_False by (intros E; apply Hne; rewrite elem_of_app, <- E; by left).
  destruct (first_error _ _) as [e|] eqn:Hf.
  - apply first_error_Some in Hf as [He Hname].
    apply elem_of_watch_errors in He as (d' & err & Hd' & Hf & ->). simpl in Hname.
    assert (d' = d) as -> by (by eapply (NoDup_fmap_elem d_Name deps)). by rewrite Hf.
  - destruct (fails !! d_GVK d) as [err|] eqn:Hl; [|done]. exfalso.
    rewrite first_error_None in Hf. apply (Hf (watch_error (d_GVK d) err d)); [|done].
    apply elem_of_watch_errors. eauto.
Qed.

Lemma skipped_reason fails deps :
  map_Forall (λ _ reason, reason = ReasonWatchSetupFailed)
    (failedDependencyReasons (watch_errors fails deps)).
Proof.
  intros name reason. rewrite failedDependencyReasons_lookup. case_decide; [done|].
  intros (e & Hf & ->)%fmap_Some. apply first_error_Some in Hf as [He _].
  by apply elem_of_watch_errors in He as (d & err & _ & _ & ->).
Qed.

(** What the evaluation saw of a dependency, in terms of the registry's answers. *)
Lemma seen_observed owner fails deps depErrs w w1 w2 w' d o :
  names_ok deps depErrs → d ∈ deps → R w w1 → R w2 w' →
  happened R w w' (reg_Subscribe (d_GVK d) (scope_of (d_GVK d) deps)
    (subscriber_for owner deps (d_GVK d))) (fails !! d_GVK d) →
  seen R (failedDependencyReasons (watch_errors fails deps)) w1 w2 d o →
  observed_as owner deps w w' d o ∧ (o = WatchFailed ↔ is_Some (fails !! d_GVK d)).
Proof.
  intros Hnames Hd Hr Hr' Hsub Hseen. unfold observed_as.
  pose proof (skipped_names fails deps depErrs d Hnames Hd) as Hskip.
  destruct o as [|res]; simpl in Hseen; rewrite Hskip in Hseen.
  - destruct (fails !! d_GVK d) as [err|]; [|done]. split; [by exists err|by eauto].
  - destruct Hseen as [Hno Hl]. destruct (fails !! d_GVK d); [done|]. split; [|by split; [|intros []]].
    split; [done|]. eapply happened_before; [apply _|done|]. by eapply happened_after; [apply _|..].
Qed.

Lemma seen_all obj fails deps depErrs obs w w2 w3 w4 w5 w' :
  let owner := oa_OwnerKey _ adapter obj in
  names_ok deps depErrs → R w w2 → R w3 w' → R w w4 → R w5 w' →
  (∀ g, deps_of g deps ≠ [] →
     happened R w2 w3 (reg_Subscribe g (scope_of g deps) (subscriber_for owner deps g)) (fails !! g)) →
  Forall2 (seen R (failedDependencyReasons (watch_errors fails deps)) w4 w5) deps obs →
  Forall2 (observed_as owner deps w w') deps obs ∧
  Forall2 (λ d o, o = WatchFailed ↔ is_Some (fails !! d_GVK d)) deps obs.
Proof.
  intros owner Hnames Hr2 Hr3 Hr4 Hr5 Hcalls Hobs.
  assert (Forall2 (λ d o, observed_as owner deps w w' d o ∧
    (o = WatchFailed ↔ is_Some (fails !! d_GVK d))) deps obs) as Hboth.
  { apply Forall2_same_length_lookup in Hobs as [Hlen Hobs].
    apply Forall2_same_length_lookup. split; [done|]. intros i d o Hi Ho.
    pose proof (Hobs i d o Hi Ho) as Hseen. apply list_elem_of_lookup_2 in Hi.
    apply (seen_observed _ _ _ depErrs _ w4 w5); try done.
    apply (happened_before R w w2); [done|]. apply (happened_after R w2 w3); [done|].
    apply Hcalls. intros Hnil%deps_of_nil. eauto. }
  split; (eapply Forall2_impl; [exact Hboth|]); by intros d o [].
Qed.

(** The clock answered [t] at some moment. *)
Definition clock_answer (t : time) : Prop := ∃ w, (wall_clock w).1 = t.

(** The whole computation: what was observed determines the new status, and the
    owner's subscriptions are those of its dependencies. *)
Section run.
Context (inv : W → Prop) (subs : W → GroupVersionKind → OwnerKey → option Subscriber)
  `{!RegistryLaws W inv subs} `{!RuntimeLaws W inv subs}.

Abbreviation calm := (λ w w', R w w' ∧ still inv subs w w').

#[local] Instance calm_quiet : QuietLaws W calm.
Proof.
  split; [|intros; split; [apply quiet_record|apply (quiet_record (R := still inv subs))]
          |intros; split; [apply quiet_clock|apply (quiet_clock (R := still inv subs))]
          |intros; split; [apply quiet_list|apply (quiet_list (R := still inv subs))]].
  pose proof (quiet_order (R := still inv subs)).
  split; [by split|]. intros w1 w2 w3 [] []. split; by etrans.
Qed.

(** The registry's answers come first; from then on only quiet steps. [Q] says
    which, when that is more than being quiet. *)
Section phases.
Context (Q : relation W) `{!QuietLaws W Q}.
Hypothesis quiet_calm : ∀ w w', Q w w' → calm w w'.

Lemma compute_status_phases obj w deps depErrs :
  (oa_Dependencies _ adapter obj (rc_Resolver _ r) w).1 = (deps, depErrs) →
  names_ok deps depErrs →
  still inv subs w (oa_Dependencies _ adapter obj (rc_Resolver _ r) w).2 →
  let '(obj', w') := compute_status r obj w in
  ∃ asking asked obs fails now1 now2,
    let listErrs := zip deps obs ≫= λ p, list_errors_of p.1 p.2 in
    (R w asking ∧ still inv subs w asking ∧
     reconcileSubscriptions controller (oa_OwnerKey _ adapter obj) deps asking = (watch_errors fails deps, asked)) ∧
    R w asked ∧ Q asked w' ∧
    Forall2 (seen Q (failedDependencyReasons (watch_errors fails deps)) asked w') deps obs ∧
    Forall2 (observed_as (oa_OwnerKey _ adapter obj) deps w w') deps obs ∧
    Forall2 (λ d o, o = WatchFailed ↔ is_Some (fails !! d_GVK d)) deps obs ∧
    (clock_answer now1 ∧ clock_answer now2) ∧
    (inv w → inv asked ∧ resubscribed subs fails (oa_OwnerKey _ adapter obj) deps w asked) ∧
    obj' = oa_set_Status _ adapter
      (apply_status (rc_ResourceCap _ r) (rc_StalledErrorCap _ r) now1 now2 (oa_Status _ adapter obj)
         (om_Generation (oa_Meta _ adapter obj)) (rollups_of ∅ (zip deps obs))
         (zip deps obs ≫= λ p, not_ready_of p.1 p.2)
         (depErrs ++ watch_errors fails deps ++ listErrs)) obj.
Proof.
  intros Hdeps Hnames Hstill. unfold compute_status. unfold_M.
  destruct (observed_time calm controller StageDiscovery
    (oa_Dependencies _ adapter obj (rc_Resolver _ r)) w) as [Hd1 [Ht1 Hs1]]; [by split|]. rewrite Hdeps in Hd1.
  destruct (observed _ _ _ w) as [de w1]. simpl in Hd1, Ht1, Hs1. subst de.
  destruct (quiet_calm _ _ (count_errors_time Q controller depErrs w1)) as [Ht2 Hs2].
  destruct (count_errors _ depErrs w1) as [u2 w2]. simpl in Ht2, Hs2.
  pose proof (reconcileSubscriptions_run R inv subs controller (oa_OwnerKey _ adapter obj) deps w2) as Hsub.
  destruct (reconcileSubscriptions _ _ deps w2) as [subErrs asked] eqn:Hcall.
  destruct Hsub as (Ht3 & fails & -> & Hcalls & _ & Hsubs).
  pose proof (count_errors_time Q controller (watch_errors fails deps) asked) as Hq4.
  destruct (count_errors _ (watch_errors fails deps) asked) as [u4 w4]. simpl in Hq4.
  unfold evaluateDependencies.
  pose proof (evaluate_loop_run Q controller _ deps (∅, [], []) w4 (skipped_reason fails deps)) as Hev.
  destruct (evaluate_loop _ _ deps _ w4) as [[[rollups notReady] listErrs] w5].
  destruct Hev as (Hq5 & obs & Hobs & [= -> -> ->]).
  set (listErrs := zip deps obs ≫= λ p, list_errors_of p.1 p.2).
  pose proof (count_errors_time Q controller listErrs w5) as Hq6.
  unfold applyStatus. unfold_M. fold listErrs.
  destruct (count_errors _ listErrs w5) as [u6 w6]. simpl in Hq6.
  pose proof (quiet_clock (R := Q) w6) as Hq7. destruct (wall_clock w6) as [now1 w7] eqn:Hc1. simpl in Hq7.
  pose proof (quiet_clock (R := Q) w7) as Hq8. destruct (wall_clock w7) as [now2 w8] eqn:Hc2. simpl in Hq8.
  assert (Q w5 w8) as Hq58 by chain. assert (Q asked w8) as Hq48 by chain.
  assert (∀ v v', Q v v' → R v v') as HQ by (intros v v' Hv; by apply quiet_calm).
  exists w2, asked, obs, fails, now1, now2.
  destruct (seen_all obj fails deps depErrs obs w w2 asked w4 w5 w8) as [? ?];
    [done|by etrans|by apply HQ|by transitivity w2; [by etrans|transitivity asked; [done|by apply HQ]]|by apply HQ
    |exact Hcalls| |].
  { eapply Forall2_impl; [exact Hobs|]. intros d o Hs. apply (seen_mono Q R) in Hs; [exact Hs|exact HQ]. }
  assert (still inv subs w w2) as Hbefore by (by etrans).
  split_and!; [by etrans|done|done|by transitivity w2; [etrans|]|done| |done|done|by exists w6; rewrite Hc1|by exists w7; rewrite Hc2| |done].
  - eapply Forall2_impl; [exact Hobs|]. intros d o Hs. by apply (seen_within Q _ asked w4 w5 w8).
  - intros Hw. destruct (Hbefore Hw) as [Hw2 E2], (Hsubs Hw2) as [Hw3 E3]. split; [done|]. intros g o.
    rewrite E3. by rewrite !E2.
Qed.
End phases.

Lemma compute_status_run_subs obj w deps depErrs :
  (oa_Dependencies _ adapter obj (rc_Resolver _ r) w).1 = (deps, depErrs) →
  names_ok deps depErrs →
  still inv subs w (oa_Dependencies _ adapter obj (rc_Resolver _ r) w).2 →
  let '(obj', w') := compute_status r obj w in
  R w w' ∧ ∃ obs fails now1 now2,
    let listErrs := zip deps obs ≫= λ p, list_errors_of p.1 p.2 in
    Forall2 (observed_as (oa_OwnerKey _ adapter obj) deps w w') deps obs ∧
    Forall2 (λ d o, o = WatchFailed ↔ is_Some (fails !! d_GVK d)) deps obs ∧
    (clock_answer now1 ∧ clock_answer now2) ∧
    (inv w → inv w' ∧ resubscribed subs fails (oa_OwnerKey _ adapter obj) deps w w') ∧
    obj' = oa_set_Status _ adapter
      (apply_status (rc_ResourceCap _ r) (rc_StalledErrorCap _ r) now1 now2 (oa_Status _ adapter obj)
         (om_Generation (oa_Meta _ adapter obj)) (rollups_of ∅ (zip deps obs))
         (zip deps obs ≫= λ p, not_ready_of p.1 p.2)
         (depErrs ++ watch_errors fails deps ++ listErrs)) obj.
Proof.
  intros Hdeps Hnames Hstill.
  pose proof (compute_status_phases calm (λ _ _ Hc, Hc) obj w deps depErrs Hdeps Hnames Hstill) as Hrun.
  destruct (compute_status r obj w) as [obj' w'].
  destruct Hrun as (_ & asked & obs & fails & now1 & now2 & _ & Hr & [Hr' Hs'] & _ & ? & ? & ? & Hsubs & ?).
  split; [by etrans|]. exists obs, fails, now1, now2. split_and!; [done..|tauto|tauto| |done]. intros Hw.
  destruct (Hsubs Hw) as [Ha Ea], (Hs' Ha) as [Hw' E']. split; [done|]. intros g o. by rewrite E', Ea.
Qed.
End run.

Lemma compute_status_run obj w deps depErrs :
  (oa_Dependencies _ adapter obj (rc_Resolver _ r) w).1 = (deps, depErrs) →
  names_ok deps depErrs →
  let '(obj', w') := compute_status r obj w in
  R w w' ∧ ∃ obs fails now1 now2,
    let listErrs := zip deps obs ≫= λ p, list_errors_of p.1 p.2 in
    Forall2 (observed_as (oa_OwnerKey _ adapter obj) deps w w') deps obs ∧
    Forall2 (λ d o, o = WatchFailed ↔ is_Some (fails !! d_GVK d)) deps obs ∧
    (clock_answer now1 ∧ clock_answer now2) ∧
    obj' = oa_set_Status _ adapter
      (apply_status (rc_ResourceCap _ r) (rc_StalledErrorCap _ r) now1 now2 (oa_Status _ adapter obj)
         (om_Generation (oa_Meta _ adapter obj)) (rollups_of ∅ (zip deps obs))
         (zip deps obs ≫= λ p, not_ready_of p.1 p.2)
         (depErrs ++ watch_errors fails deps ++ listErrs)) obj.
Proof.
  intros Hdeps Hnames.
  assert (RegistryLaws W (λ _, False) (λ _ _ _, None)) by by split.
  assert (RuntimeLaws W (λ _, False) (λ _ _ _, None)) by by split.
  pose proof (compute_status_run_subs (λ _, False) (λ _ _ _, None) obj w deps depErrs Hdeps Hnames) as Hrun.
  destruct (compute_status r obj w) as [obj' w'].
  destruct Hrun as (? & obs & fails & now1 & now2 & ? & ? & ? & _ & ?); [by intros []|].
  split; [done|]. by exists obs, fails, now1, now2.
Qed.

(** The errors of the later stages carry dependency names. *)
Lemma later_names fails deps obs e :
  length deps = length obs →
  e ∈ watch_errors fails deps ++ (zip deps obs ≫= λ p, list_errors_of p.1 p.2) →
  e_Name e ∈ d_Name <$> deps.
Proof.
  intros Hlen. rewrite elem_of_app, elem_of_watch_errors, list_elem_of_bind.
  intros [(d & err & Hd & _ & ->)|([d o] & He & Hp)].
  - change (d_Name d ∈ d_Name <$> deps). by apply list_elem_of_fmap_2.
  - destruct o as [|[objs|err]]; simpl in He;
      [by apply not_elem_of_nil in He..|]. apply list_elem_of_singleton in He as ->.
    apply elem_of_zip_l in Hp. change (d_Name d ∈ d_Name <$> deps). by apply list_elem_of_fmap_2.
Qed.

(** Some error is reported exactly when a dependency did not normalise or could
    not be observed. *)
Lemma errors_nil fails deps obs depErrs :
  Forall2 (λ d o, o = WatchFailed ↔ is_Some (fails !! d_GVK d)) deps obs →
  depErrs ++ watch_errors fails deps ++ (zip deps obs ≫= λ p, list_errors_of p.1 p.2) ≠ [] ↔
  depErrs ≠ [] ∨ ∃ o, o ∈ obs ∧ observation_failed o = true.
Proof.
  intros Hf. pose proof (Forall2_length _ _ _ Hf) as Hlen. split.
  - intros Hne. destruct depErrs as [|e errs]; [right|by left]. simpl in Hne.
    destruct (_ ++ _) as [|e errs] eqn:E; [done|]. clear Hne.
    assert (e ∈ watch_errors fails deps ++ (zip deps obs ≫= λ p, list_errors_of p.1 p.2)) as Hin
      by (rewrite E; by left).
    rewrite elem_of_app, elem_of_watch_errors, list_elem_of_bind in Hin.
    destruct Hin as [(d & err & Hd & Hl & _)|([d o] & He & Hp)].
    + apply list_elem_of_lookup in Hd as [i Hi].
      destruct (Forall2_lookup_l _ _ _ _ _ Hf Hi) as (o & Ho & Hiff). exists o.
      split; [by eapply list_elem_of_lookup_2|]. destruct Hiff as [_ ->]; [done|]. by rewrite Hl.
    + exists o. split; [by eapply elem_of_zip_r|]. by destruct o as [|[]]; [|apply not_elem_of_nil in He|].
  - intros [Hne|(o & Ho & Hfail)] Hnil; [by apply app_eq_nil in Hnil as [? _]|].
    apply app_eq_nil in Hnil as [_ [Hw Hl]%app_eq_nil].
    apply list_elem_of_lookup in Ho as [i Hi].
    destruct (Forall2_lookup_r _ _ _ _ _ Hf Hi) as (d & Hd & Hiff).
    pose proof (list_elem_of_lookup_2 _ _ _ Hd) as Hin. destruct o as [|[objs|err]]; [|done|].
    + destruct Hiff as [Hiff _]. destruct (Hiff eq_refl) as [err He].
      apply (not_elem_of_nil (watch_error (d_GVK d) err d)). rewrite <- Hw.
      apply elem_of_watch_errors. eauto.
    + apply (not_elem_of_nil (list_error d err)). rewrite <- Hl.
      apply list_elem_of_bind. exists (d, Listed (Err err)). split; [by left|].
      apply list_elem_of_lookup. exists i. rewrite lookup_zip_with, Hd, Hi. done.
Qed.

(** The published rollups, as a set. *)
Lemma final_statuses fails deps obs depErrs st :
  names_ok deps depErrs → length deps = length obs →
  st ∈ elems (sortedDependencyStatuses (Rollups (rollups_of ∅ (zip deps obs))
         (depErrs ++ watch_errors fails deps ++ (zip deps obs ≫= λ p, list_errors_of p.1 p.2)))) ↔
  is_rollup (zip deps obs) depErrs st.
Proof.
  intros Hnames Hlen. rewrite elem_of_sortedDependencyStatuses.
  pose proof (λ name, final_rollups deps obs depErrs _ name st Hnames Hlen
    (λ e, later_names fails deps obs e Hlen)) as Hl.
  split; [intros [name ?]; by eapply Hl|]. intros ?. exists (ds_Name st). by apply Hl.
Qed.

(** What compute_status publishes, one entry per dependency. *)
Lemma compute_status_entries obj w deps depErrs :
  (oa_Dependencies _ adapter obj (rc_Resolver _ r) w).1 = (deps, depErrs) →
  names_ok deps depErrs →
  let '(obj', w') := compute_status r obj w in
  ∃ obs, Forall2 (observed_as (oa_OwnerKey _ adapter obj) deps w w') deps obs ∧
    ∀ st, st ∈ elems (DependsOn (oa_Status _ adapter obj')) ↔ is_rollup (zip deps obs) depErrs st.
Proof.
  intros Hdeps Hnames. pose proof (compute_status_run obj w deps depErrs Hdeps Hnames) as Hs.
  destruct (compute_status r obj w) as [obj' w'].
  destruct Hs as (_ & obs & fails & now1 & now2 & Hobs & _ & _ & ->). exists obs. split; [done|].
  rewrite status_lens. intros st. match goal with |- context [apply_status ?a ?b ?c ?d ?e ?f ?g ?h ?i] =>
    pose proof (apply_status_eq a b c d e f g h i) as E end. cbv zeta in E.
  destruct (capResources _ _) as [resources truncated]. rewrite E. simpl.
  by apply final_statuses; [|eapply Forall2_length].
Qed.

(** C2: a reconcile of an active object publishes what it observed. Every
    dependency that normalised was observed in the meantime (its Subscribe
    failed, or it was subscribed and listed); status.dependsOn is exactly the
    rollups of those observations plus one stand-in per dependency that did not
    normalise, sorted by name; notReadyResources lists the blocking members, in
    canonical form and capped; Stalled is True exactly when a dependency did not
    normalise, was not watched or was not listed. *)
Theorem compute_status_spec obj w deps depErrs obj' w' :
  (oa_Dependencies _ adapter obj (rc_Resolver _ r) w).1 = (deps, depErrs) →
  names_ok deps depErrs → compute_status r obj w = (obj', w') →
  let sb := oa_Status _ adapter obj' in
  ∃ obs, Forall2 (observed_as (oa_OwnerKey _ adapter obj) deps w w') deps obs ∧
    ObservedGeneration sb = om_Generation (oa_Meta _ adapter obj) ∧
    (∀ st, st ∈ elems (DependsOn sb) ↔ is_rollup (zip deps obs) depErrs st) ∧
    StronglySorted (in_order name_less) (elems (DependsOn sb)) ∧
    (NotReadyResources sb, Truncated sb) =
      capResources (dedupeAndSortResources (zip deps obs ≫= λ p, not_ready_of p.1 p.2))
        (resourceCap (rc_ResourceCap _ r)) ∧
    (IsStatusConditionTrue (Conditions sb) ConditionStalled = true ↔
       depErrs ≠ [] ∨ ∃ o, o ∈ obs ∧ observation_failed o = true).
Proof.
  intros Hdeps Hnames Hrun. pose proof (compute_status_run obj w deps depErrs Hdeps Hnames) as Hs.
  rewrite Hrun in Hs. destruct Hs as (_ & obs & fails & now1 & now2 & Hobs & Hfails & _ & ->).
  cbv zeta. rewrite status_lens. exists obs. split; [done|].
  rewrite apply_status_stalled, (errors_nil fails) by done.
  set (errs := depErrs ++ _). set (nr := zip deps obs ≫= _).
  pose proof (apply_status_eq (rc_ResourceCap _ r) (rc_StalledErrorCap _ r) now1 now2
    (oa_Status _ adapter obj) (om_Generation (oa_Meta _ adapter obj)) (rollups_of ∅ (zip deps obs))
    nr errs) as E. cbv zeta in E.
  destruct (capResources _ _) as [resources truncated]. rewrite E. simpl.
  split_and!; [done| |apply sortedDependencyStatuses_sorted|done|done].
  intros st. by apply final_statuses; [|eapply Forall2_length].
Qed.

(** C1: Ready means ready. The Ready condition a reconcile computes is True
    exactly when there is at least one dependency, every dependency normalised,
    and every dependency was subscribed and listed in the meantime with members
    none of which blocks (or with no member and emptySetPolicy Ready); a
    discovery, watch or list failure is never mistaken for an empty set. *)
Theorem ready_iff_satisfied obj w deps depErrs obj' w' :
  (oa_Dependencies _ adapter obj (rc_Resolver _ r) w).1 = (deps, depErrs) →
  names_ok deps depErrs → compute_status r obj w = (obj', w') →
  ∃ obs, Forall2 (observed_as (oa_OwnerKey _ adapter obj) deps w w') deps obs ∧
    (Forall countable_listing obs →
       readyConditionStatus (oa_Status _ adapter obj') = ConditionTrue ↔
       depErrs = [] ∧ deps ≠ [] ∧ Forall2 satisfied deps obs).
Proof.
  intros Hdeps Hnames Hrun. pose proof (compute_status_run obj w deps depErrs Hdeps Hnames) as Hs.
  rewrite Hrun in Hs. destruct Hs as (_ & obs & fails & now1 & now2 & Hobs & Hfails & _ & ->).
  exists obs. split; [done|]. intros Hcount. rewrite status_lens, apply_status_ready, ReduceOwner_True_iff.
  pose proof (Forall2_length _ _ _ Hobs) as Hlen.
  pose proof (λ name st, final_rollups deps obs depErrs _ name st Hnames Hlen
    (λ e, later_names fails deps obs e Hlen)) as Hl.
  set (all := Rollups _ _) in *. clearbody all.
  assert (∀ i d o, deps !! i = Some d → obs !! i = Some o → (d, o) ∈ zip deps obs) as Hzip.
  { intros i d o Hd Ho. apply list_elem_of_lookup. exists i. by rewrite lookup_zip_with, Hd, Ho. }
  split.
  - intros [Hne Hall].
    assert (∀ st, is_rollup (zip deps obs) depErrs st → ds_Ready st = ConditionTrue) as Hready.
    { intros st Hst. apply (Hall (ds_Name st)). by apply Hl. }
    assert (depErrs = []) as Herr.
    { destruct depErrs as [|e errs]; [done|]. specialize (Hready (error_rollup e)).
      discriminate Hready. right. exists e. split; [by left|done]. }
    split_and!; [done| |].
    + intros ->. apply Hne, map_empty. intros name. apply eq_None_not_Some. intros [st Hst].
      apply Hl in Hst as [_ [(d & o & Hp & _)|(e & He & _)]]; [by apply not_elem_of_nil in Hp|].
      subst depErrs. by apply not_elem_of_nil in He.
    + apply Forall2_same_length_lookup. split; [done|]. intros i d o Hd Ho.
      apply rollup_of_ready; [by eapply Forall_lookup_1 in Hcount|].
      apply Hready. left. eauto.
  - intros (-> & Hne & Hsat). apply Forall2_same_length_lookup in Hsat as [_ Hsat]. split.
    + intros ->. destruct deps as [|d deps]; [done|]. destruct obs as [|o obs]; [done|].
      assert ((∅ : gmap string DependencyStatus) !! ds_Name (rollup_of d o) = Some (rollup_of d o))
        as [=]. apply Hl. split; [done|]. left. exists d, o. split; [by left|done].
    + intros name st [_ [(d & o & Hp & ->)|(e & He & _)]]%Hl; [|by apply not_elem_of_nil in He].
      apply list_elem_of_lookup in Hp as [i Hi]. apply lookup_zip_with_Some in Hi as (d' & o' & [= <- <-] & Hd & Ho).
      apply rollup_of_ready; [by eapply Forall_lookup_1 in Hcount|]. by eapply Hsat.
Qed.
End compute.

(** ** The whole handler only lets time pass

    [R] may now be any preorder that reading, counting, the client's writes, the
    notifier and the owner's own subscriptions respect. *)
Section handler.
Context {W : Type} `{LabelsAPI} `{UnstructuredAPI} `{Formatting} `{ApiErrors} `{ConditionsLaws}
  `{FinalizerAPI} `{MetaJSON}.
Context `{!RegistryAPI W} `{!NamespaceClient W} `{!Runtime W}.
Context (R : relation W) `{!QuietLaws W R}.
Context {T : Type} `{!OwnerClient W T} (r : Reconciler (W := W) T).

Hypothesis normalize_quiet : ∀ obj w, R w (oa_Dependencies _ (rc_Adapter _ r) obj (rc_Resolver _ r) w).2.

(** The objects whose subscriptions [R] lets change. *)
Definition may_subscribe (obj : T) : Prop :=
  (∀ deps w, R w (reconcileSubscriptions (rc_Controller _ r) (oa_OwnerKey _ (rc_Adapter _ r) obj) deps w).2) ∧
  ∀ w, R w (reg_UnsubscribeAll (oa_OwnerKey _ (rc_Adapter _ r) obj) w).2.

(** Computing the status changes nothing but the status, whatever the names. *)
Lemma compute_status_quiet obj w :
  may_subscribe obj →
  R w (compute_status r obj w).2 ∧
  ∃ sb, (compute_status r obj w).1 = oa_set_Status _ (rc_Adapter _ r) sb obj.
Proof.
  intros [Hsub _]. unfold compute_status. unfold_M.
  destruct (observed_time R (rc_Controller _ r) StageDiscovery
    (oa_Dependencies _ (rc_Adapter _ r) obj (rc_Resolver _ r)) w) as [_ Ht1]; [apply normalize_quiet|].
  destruct (observed _ _ _ w) as [[deps depErrs] w1]. simpl in Ht1.
  pose proof (count_errors_time R (rc_Controller _ r) depErrs w1) as Ht2.
  destruct (count_errors _ depErrs w1) as [u2 w2]. simpl in Ht2.
  pose proof (Hsub deps w2) as Ht3. destruct (reconcileSubscriptions _ _ deps w2) as [subErrs w3]. simpl in Ht3.
  pose proof (count_errors_time R (rc_Controller _ r) subErrs w3) as Ht4.
  destruct (count_errors _ subErrs w3) as [u4 w4]. simpl in Ht4. unfold evaluateDependencies.
  pose proof (evaluate_loop_quiet R (rc_Controller _ r) (failedDependencyReasons subErrs) deps (∅, [], []) w4) as Ht5.
  destruct (evaluate_loop _ _ deps _ w4) as [[[rollups notReady] listErrs] w5]. simpl in Ht5.
  pose proof (count_errors_time R (rc_Controller _ r) listErrs w5) as Ht6. unfold applyStatus. unfold_M.
  destruct (count_errors _ listErrs w5) as [u6 w6]. simpl in Ht6.
  pose proof (quiet_clock w6) as Ht7. destruct (wall_clock w6) as [now1 w7]. simpl in Ht7.
  pose proof (quiet_clock w7) as Ht8. destruct (wall_clock w7) as [now2 w8]. simpl in Ht8.
  split; [chain|eauto].
Qed.

Hypothesis now_time : ∀ w, R w (rc_now r w).2.
Hypothesis get_time : ∀ namespace name w, R w (client_Get (T := T) namespace name w).2.
Hypothesis update_time : ∀ obj w, R w (client_Update obj w).2.
Hypothesis patch_time : ∀ obj patch w, R w (client_PatchStatus obj patch w).2.
Hypothesis notify_time : ∀ notify obj w, rc_FluxNotifier _ r = Some notify → R w (notify obj w).2.

Lemma write_status_quiet prior obj w : R w (write_status r prior obj w).2.
Proof.
  unfold write_status. case_match; unfold_M.
  { pose proof (quiet_record (Inc StatusPatchTotal [rc_Controller _ r; PatchUnchanged]) w) as Hr.
    by destruct (record _ w) as [u w1]. }
  unfold patchStatus, PatchStatus, observed. unfold_M.
  pose proof (now_time w) as Hn. destruct (rc_now r w) as [now w1]. simpl in Hn.
  set (written := oa_set_Status _ _ _ obj).
  pose proof (patch_time written (statusMergePatch (oa_Status _ (rc_Adapter _ r) written)) w1) as Hp.
  destruct (client_PatchStatus written _ w1) as [[obj' err] w2]. simpl in Hp.
  pose proof (quiet_record (ObserveStage (rc_Controller _ r) StagePatch) w2) as Hr.
  destruct (record _ w2) as [u2 w3]. simpl in Hr. destruct err as [err|].
  { destruct (IsConflict err); unfold_M;
      match goal with |- context [record ?f w3] =>
        pose proof (quiet_record f w3) as Hr'; destruct (record f w3) as [u3 w4] end; simpl in *; chain. }
  pose proof (quiet_record (Inc StatusPatchTotal [rc_Controller _ r; PatchChanged]) w3) as Hr'.
  destruct (record _ w3) as [u3 w4]. simpl in Hr'. unfold notifyFluxOnTransition.
  destruct (rc_FluxNotifier _ r) as [notify|] eqn:Hf; [|simpl; chain].
  case_decide; [simpl; chain|].
  pose proof (notify_time notify obj' w4 eq_refl) as Hn'. destruct (notify obj' w4) as [u5 w5].
  simpl in *. chain.
Qed.

Lemma ReconcileObject_quiet obj w : may_subscribe obj → R w (ReconcileObject r obj w).2.
Proof.
  intros Hmay. unfold ReconcileObject. destruct (is_deleted _).
  - unfold finalize. destruct (ContainsFinalizer _ _); [|reflexivity]. unfold_M.
    pose proof (proj2 Hmay w) as Hu.
    destruct (reg_UnsubscribeAll _ w) as [u w1]. simpl in Hu.
    match goal with |- context [client_Update ?o w1] => pose proof (update_time o w1) as Hc end.
    destruct (client_Update _ w1) as [[obj' err] w2]. simpl in *.
    chain.
  - destruct (ContainsFinalizer _ _); unfold_M.
    + destruct (compute_status_quiet obj w Hmay) as [Hc _].
      destruct (compute_status r obj w) as [obj' w1]. simpl in Hc.
      pose proof (write_status_quiet (oa_Status _ (rc_Adapter _ r) obj) obj' w1). chain.
    + unfold add_finalizer. unfold_M.
      match goal with |- context [client_Update ?o w] => pose proof (update_time o w) as Hc end.
      destruct (client_Update _ w) as [[obj' err] w2]. simpl in *. chain.
Qed.

Lemma AsReconcileFunc_quiet namespace name w :
  (∀ obj, (client_Get namespace name w).1 = Ok obj → may_subscribe obj) →
  R w (AsReconcileFunc r namespace name w).2.
Proof.
  intros Hmay. unfold AsReconcileFunc. unfold_M. pose proof (get_time namespace name w) as Hg.
  destruct (client_Get _ _ w) as [[obj|err] w1]; simpl in *; [|chain].
  pose proof (ReconcileObject_quiet obj w1 (Hmay obj eq_refl)) as Hr. destruct (ReconcileObject r obj w1) as [res w2].
  simpl in *. chain.
Qed.
End handler.

Section time.
Context {W : Type} `{LabelsAPI} `{UnstructuredAPI} `{Formatting} `{ApiErrors} `{ConditionsLaws}
  `{FinalizerAPI} `{MetaJSON}.
Context `{!RegistryAPI W} `{!NamespaceClient W} `{!Runtime W}.
Context (R : relation W) `{!TimeLaws W R}.
Context {T : Type} (r : Reconciler (W := W) T).

(** Time lets every object subscribe. *)
Lemma time_may_subscribe obj : may_subscribe R r obj.
Proof.
  split; [|intros w; apply (time_unsubscribe_all (R := R))]. intros deps w.
  pose proof (reconcileSubscriptions_calls R r (oa_OwnerKey _ (rc_Adapter _ r) obj) deps w) as Hsub.
  by destruct (reconcileSubscriptions _ _ deps w) as [errs w'], Hsub.
Qed.

Lemma compute_status_time obj w :
  (∀ obj w, R w (oa_Dependencies _ (rc_Adapter _ r) obj (rc_Resolver _ r) w).2) →
  R w (compute_status r obj w).2 ∧
  ∃ sb, (compute_status r obj w).1 = oa_set_Status _ (rc_Adapter _ r) sb obj.
Proof. intros Hn. apply (compute_status_quiet R); [done|apply time_may_subscribe]. Qed.
End time.
