(* ===== verification/ReconcilerWrites.v ===== *)
(** * The reconcile pipeline: what it writes, and when

    Idempotency of the computed status, the bounded Stalled message, the writes
    of one reconcile and the finalizer protocol. *)

From S2P Require Import Prelude GoStd ApiV1 K8s Metrics Status Membership Discovery Normalize SubscriberIndex StatusHelpers StatusPatch Reconciler ReconcilerSpec.

(** ** Condition lists up to their timestamps *)

(** [SetStatusCondition] on stripped conditions: replace the first of the type,
    or append. *)
Fixpoint put (c : Condition) (l : list Condition) : list Condition :=
  match l with
  | [] => [c]
  | x :: l => if decide (c_Type x = c_Type c) then c :: l else x :: put c l
  end.

(** [c] is the first condition of its type. *)
Definition holds (c : Condition) (l : list Condition) : Prop :=
  ∃ pre post, l = pre ++ c :: post ∧ Forall (λ x, c_Type x ≠ c_Type c) pre.

Lemma put_split pre old post c :
  Forall (λ x, c_Type x ≠ c_Type c) pre → c_Type old = c_Type c →
  put c (pre ++ old :: post) = pre ++ c :: post.
Proof.
  intros Hpre Ht. induction Hpre as [|x pre Hx Hpre IH]; simpl;
    [by rewrite decide_True|by rewrite decide_False, IH].
Qed.

Lemma put_absent l c : Forall (λ x, c_Type x ≠ c_Type c) l → put c l = l ++ [c].
Proof. induction 1 as [|x l Hx Hl IH]; simpl; [done|by rewrite decide_False, IH]. Qed.

Lemma put_holds_same c l : holds c l → put c l = l.
Proof. intros (pre & post & -> & Hpre). by apply put_split. Qed.

Lemma holds_put c l : holds c (put c l).
Proof.
  destruct (split_at_type l (c_Type c)) as [Hall|(pre & old & post & -> & Hpre & Ht)].
  - rewrite put_absent by done. by exists l, [].
  - rewrite put_split by done. by exists pre, post.
Qed.

Lemma holds_put_other c c' l : c_Type c' ≠ c_Type c → holds c l → holds c (put c' l).
Proof.
  intros Hne (pre & post & -> & Hpre).
  destruct (split_at_type pre (c_Type c')) as [Hall|(p1 & old & p2 & -> & Hp1 & Ht)].
  - exists pre, (put c' post). split; [|done]. clear Hpre.
    induction Hall as [|x pre Hx Hall IH]; simpl; rewrite decide_False by done; [done|by rewrite IH].
  - rewrite <- app_assoc. simpl. rewrite put_split by done. exists (p1 ++ c' :: p2), post. split.
    + by rewrite <- app_assoc.
    + rewrite !Forall_app, !Forall_cons in Hpre |- *. naive_solver.
Qed.

Section strip.
Context `{ConditionsLaws}.

Lemma strip_set now cs c :
  stripTransitionTimes (SetStatusCondition now cs c) =
  Some (put (strip_condition c) (strip_condition <$> elems cs)).
Proof.
  unfold stripTransitionTimes. f_equal.
  assert (∀ l, Forall (λ x, c_Type x ≠ c_Type c) l →
    Forall (λ x, c_Type x ≠ c_Type (strip_condition c)) (strip_condition <$> l)) as Hs.
  { intros l Hl. apply Forall_fmap. by eapply Forall_impl. }
  destruct (split_at_type (elems cs) (c_Type c)) as [Hall|(pre & old & post & E & Hpre & Ht)].
  - rewrite set_absent by done. simpl elems. rewrite fmap_app, put_absent by auto. done.
  - rewrite (set_existing _ _ pre old post) by done. rewrite E. simpl elems.
    rewrite !fmap_app, !fmap_cons, put_split by auto. f_equal. f_equal.
    unfold strip_condition, updated_condition. simpl. by rewrite Ht.
Qed.
End strip.

(** ** Errors in any order *)

#[export] Instance error_less_order : LessOrder error_less.
Proof.
  unfold error_less. split; intros *; [apply less_irrefl|apply less_cotrans|apply less_asym].
Qed.

Lemma sort_errors_unique errs1 errs2 :
  NoDup (e_Name <$> errs1) → errs1 ≡ₚ errs2 → sort_slice error_less errs1 = sort_slice error_less errs2.
Proof.
  intros Hnd. apply (sort_slice_unique error_less). intros a b Ha Hb Hab Hba.
  eapply (NoDup_fmap_elem e_Name); [exact Hnd|done..|]. by apply str_lt_antisym.
Qed.

Lemma first_error_unique errs1 errs2 name :
  NoDup (e_Name <$> errs1) → errs1 ≡ₚ errs2 → first_error errs1 name = first_error errs2 name.
Proof.
  intros Hnd Hp. destruct (first_error errs1 name) as [e|] eqn:E1.
  - apply first_error_Some in E1 as [He Hn]. destruct (first_error errs2 name) as [e'|] eqn:E2.
    + apply first_error_Some in E2 as [He' Hn']. rewrite <- Hp in He'. f_equal.
      eapply (NoDup_fmap_elem e_Name); [exact Hnd|done..|congruence].
    + rewrite first_error_None in E2. rewrite Hp in He. by destruct (E2 e).
  - symmetry. rewrite first_error_None in E1 |- *. intros e He. apply E1. by rewrite Hp.
Qed.

Lemma Rollups_perm perDep errs1 errs2 :
  NoDup (e_Name <$> errs1) → errs1 ≡ₚ errs2 → Rollups perDep errs1 = Rollups perDep errs2.
Proof.
  intros Hnd Hp. apply map_eq. intros name. rewrite !Rollups_lookup.
  by rewrite (first_error_unique errs1 errs2 name Hnd Hp).
Qed.

Section idempotent.
Context `{ConditionsLaws} `{LabelsAPI}.

(** recomputing a status from the same facts changes nothing that is
    compared. Given the same rollups, the same set of not-ready resources in any
    order and multiplicity, the same errors in any order, and the same
    generation, the second status equals the first (as stored, with its
    LastEvaluatedTime) up to timestamps, whatever the clock reads; so a second
    reconcile does not patch, and its own watch event starts no loop. *)
Theorem apply_status_idempotent ResourceCap StalledErrorCap now1 now2 now3 now4 stored_at
    sb generation rollups notReady1 notReady2 errs1 errs2 :
  consistent notReady1 → (∀ x, x ∈ notReady2 ↔ x ∈ notReady1) →
  NoDup (e_Name <$> errs1) → errs1 ≡ₚ errs2 →
  let prior := set_LastEvaluatedTime stored_at
    (apply_status ResourceCap StalledErrorCap now1 now2 sb generation rollups notReady1 errs1) in
  statusEqualIgnoringTimestamp prior
    (apply_status ResourceCap StalledErrorCap now3 now4 prior generation rollups notReady2 errs2) = true.
Proof.
  intros Hc Hset Hnd Hp prior. unfold statusEqualIgnoringTimestamp. apply bool_decide_eq_true.
  pose proof (apply_status_eq ResourceCap StalledErrorCap now3 now4 prior generation rollups notReady2 errs2)
    as E2.
  rewrite <- (dedupe_sort_same notReady1 notReady2), <- (Rollups_perm rollups errs1) in E2 by naive_solver.
  pose proof (apply_status_eq ResourceCap StalledErrorCap now1 now2 sb generation rollups notReady1 errs1)
    as E1.
  assert (stalled_condition StalledErrorCap generation errs2 =
          stalled_condition StalledErrorCap generation errs1) as Hst.
  { unfold stalled_condition. by rewrite (sort_errors_unique errs1 errs2). }
  cbv zeta in E1, E2. destruct (capResources _ _) as [resources truncated]. rewrite E2. clear E2.
  subst prior. rewrite E1, Hst. unfold strip_status, set_LastEvaluatedTime. simpl. f_equal.
  set (rc := ready_condition _ _). set (sc := stalled_condition _ _ _).
  assert (c_Type (strip_condition rc) = ConditionReady) as Hrc by apply ready_condition_type.
  assert (c_Type (strip_condition sc) = ConditionStalled) as Hsc by apply stalled_condition_type.
  set (first := SetStatusCondition now2 _ sc).
  assert (holds (strip_condition rc) (strip_condition <$> elems first) ∧
          holds (strip_condition sc) (strip_condition <$> elems first)) as [Hr Hs].
  { pose proof (strip_set now2 (SetStatusCondition now1 (Conditions sb) rc) sc) as Hf.
    pose proof (strip_set now1 (Conditions sb) rc) as Hf1.
    unfold stripTransitionTimes in Hf, Hf1. apply (inj Some) in Hf, Hf1. unfold first. rewrite Hf, Hf1.
    split; [|apply holds_put]. apply holds_put_other; [by rewrite Hrc, Hsc|apply holds_put]. }
  rewrite strip_set. pose proof (strip_set now3 first rc) as Hf.
  unfold stripTransitionTimes in Hf |- *. apply (inj Some) in Hf.
  by rewrite Hf, (put_holds_same _ _ Hr), (put_holds_same _ _ Hs).
Qed.

(** C40: the Stalled condition of a status with errors carries the reason of the
    error with the least dependency name, whatever order the errors came in, and
    a message of at most 4096 bytes that is the same for every order; without
    errors it is False with reason ReconcileComplete and an empty message. *)
Theorem stalled_condition_spec StalledErrorCap now sb errs :
  NoDup (e_Name <$> errs) →
  ∃ c, FindStatusCondition (Conditions (applyStalledFromErrors StalledErrorCap now sb errs))
         ConditionStalled = Some c ∧
    (∀ errs', errs ≡ₚ errs' →
       applyStalledFromErrors StalledErrorCap now sb errs' = applyStalledFromErrors StalledErrorCap now sb errs) ∧
    (errs = [] → c_Status c = ConditionFalse ∧ c_Reason c = ReasonReconcileComplete ∧ c_Message c = "") ∧
    (errs ≠ [] → c_Status c = ConditionTrue ∧ String.length (c_Message c) ≤ maxStalledTotalChars ∧
       ∃ e, e ∈ errs ∧ c_Reason c = e_Reason e ∧ ∀ e', e' ∈ errs → str_lt (e_Name e') (e_Name e) = false) ∧
    (∀ t, t ≠ ConditionStalled →
       FindStatusCondition (Conditions (applyStalledFromErrors StalledErrorCap now sb errs)) t =
       FindStatusCondition (Conditions sb) t).
Proof.
  intros Hnd. set (new := stalled_condition StalledErrorCap (ObservedGeneration sb) errs).
  assert (Conditions (applyStalledFromErrors StalledErrorCap now sb errs) =
          SetStatusCondition now (Conditions sb) new) as ->.
  { unfold applyStalledFromErrors, new, stalled_condition. by destruct (sort_slice _ _). }
  destruct (find_set_eq now (Conditions sb) new) as (c & Hf & _ & Hs & Hr & Hm & _).
  unfold new in Hf at 2. rewrite stalled_condition_type in Hf. exists c. split; [done|].
  rewrite Hs, Hr, Hm. split_and!.
  - intros errs' Hp. unfold applyStalledFromErrors. by rewrite (sort_errors_unique errs errs').
  - unfold new. by intros ->.
  - intros Hne. unfold new, stalled_condition. pose proof (sort_slice_sorted error_less errs) as Hsort.
    pose proof (sort_slice_perm error_less errs) as Hperm.
    destruct (sort_slice error_less errs) as [|e sorted] eqn:E.
    { by apply Permutation_nil in Hperm. }
    split_and!; [done| |].
    + unfold stalled_message. cbn [c_Message]. case_match.
      apply truncate_spec.
    + exists e. split_and!; [rewrite <- Hperm; by left|done|]. intros e' He'.
      rewrite <- Hperm in He'. apply StronglySorted_inv in Hsort as [_ Hall].
      apply elem_of_cons in He' as [->|He']; [apply less_irrefl|].
      rewrite Forall_forall in Hall. by apply (Hall e').
  - intros t Ht. apply find_set_ne. unfold new. by rewrite stalled_condition_type.
Qed.
End idempotent.

(** ** The writes of one reconcile *)

Inductive write (T : Type) :=
  | WUpdate (obj : T)
  | WPatch (obj : T) (patch : gmap string json)
  | WNotify (obj : T).
Arguments WUpdate {_}. Arguments WPatch {_}. Arguments WNotify {_}.

Section writes.
Context {W : Type} `{LabelsAPI} `{UnstructuredAPI} `{Formatting} `{ApiErrors} `{ConditionsLaws}
  `{FinalizerLaws} `{MetaJSON}.
Context `{!RegistryAPI W} `{!NamespaceClient W} `{!Runtime W}.
Context {T : Type} `{!OwnerClient W T} (r : Reconciler (W := W) T).

Abbreviation controller := (rc_Controller _ r).
Abbreviation adapter := (rc_Adapter _ r).
Abbreviation Status := (oa_Status _ adapter).
Abbreviation Meta := (oa_Meta _ adapter).

Hypothesis status_lens : ∀ sb obj, Status (oa_set_Status _ adapter sb obj) = sb.
Hypothesis finalizers_lens : ∀ fs obj,
  om_Finalizers (Meta (oa_set_Finalizers _ adapter fs obj)) = fs.

(** What was written so far: only the client's writes and the notifier add to it. *)
Context (log : W → list (write T)).
Abbreviation silent := (λ w w', log w' = log w).
Context `{!TimeLaws W silent}.
Hypothesis log_normalize : ∀ obj w,
  log (oa_Dependencies _ adapter obj (rc_Resolver _ r) w).2 = log w.
Hypothesis log_now : ∀ w, log (rc_now r w).2 = log w.
Hypothesis log_update : ∀ obj w, log (client_Update obj w).2 = log w ++ [WUpdate obj].
Hypothesis log_patch : ∀ obj patch w,
  log (client_PatchStatus obj patch w).2 = log w ++ [WPatch obj patch].
Hypothesis log_notify : ∀ notify obj w,
  rc_FluxNotifier _ r = Some notify → log (notify obj w).2 = log w ++ [WNotify obj].

(** Computing the status writes nothing and changes nothing but the status. *)
Lemma compute_status_silent obj w :
  log (compute_status r obj w).2 = log w ∧
  ∃ sb, (compute_status r obj w).1 = oa_set_Status _ adapter sb obj.
Proof. apply (compute_status_time silent), log_normalize. Qed.

Lemma log_record f w : log (record f w).2 = log w.
Proof. apply (time_record (R := silent)). Qed.

Lemma requeue_fst obj : (requeue r obj).1 = obj.
Proof. unfold requeue. by case_match. Qed.

(** Writing the status: nothing when nothing changed; otherwise one patch, then
    one notification if the patch was accepted and Ready changed. *)
Lemma write_status_run prior obj w :
  let '((obj', res), w') := write_status r prior obj w in
  if statusEqualIgnoringTimestamp prior (Status obj) then
    log w' = log w ∧
    obj' = oa_set_Status _ adapter (set_LastEvaluatedTime (LastEvaluatedTime prior) (Status obj)) obj ∧
    res = (requeue r obj').2
  else let '(now, wp) := rc_now r w in ∃ written err notified,
    written = oa_set_Status _ adapter (set_LastEvaluatedTime now (Status obj)) obj ∧
    (client_PatchStatus written (statusMergePatch (Status written)) wp).1 = (obj', err) ∧
    log w' = log w ++ WPatch written (statusMergePatch (Status written)) :: notified ∧
    (notified = if bool_decide (err = None) && bool_decide (rc_FluxNotifier _ r ≠ None) &&
                   bool_decide (readyConditionStatus prior ≠ readyConditionStatus (Status obj'))
                then [WNotify obj'] else []) ∧
    res = match err with
          | Some err => if IsConflict err then (requeue r obj').2 else Err err
          | None => (requeue r obj').2
          end.
Proof.
  unfold write_status. destruct (statusEqualIgnoringTimestamp prior (Status obj)).
  - unfold_M. pose proof (log_record (Inc StatusPatchTotal [controller; PatchUnchanged]) w) as Hl.
    destruct (record _ w) as [u w1]. simpl in Hl.
    set (obj1 := oa_set_Status _ _ _ obj). pose proof (requeue_fst obj1) as Hf.
    destruct (requeue r obj1) as [obj2 res] eqn:Hrq. simpl in Hf. subst obj2. by rewrite Hrq.
  - unfold patchStatus, PatchStatus, observed. unfold_M.
    pose proof (log_now w) as Hn. destruct (rc_now r w) as [now w1]. simpl in Hn.
    set (written := oa_set_Status _ adapter _ obj).
    pose proof (log_patch written (statusMergePatch (Status written)) w1) as Hp.
    destruct (client_PatchStatus written _ w1) as [[obj' err] w2] eqn:Hpatch. simpl in Hp.
    pose proof (log_record (ObserveStage controller StagePatch) w2) as Hl2.
    destruct (record _ w2) as [u2 w3]. simpl in Hl2. destruct err as [err|].
    + pose proof (log_record (Inc StatusPatchTotal [controller; PatchConflict]) w3) as Hl3.
      pose proof (log_record (Inc StatusPatchTotal [controller; PatchError]) w3) as Hl4.
      destruct (IsConflict err) eqn:Hc.
      * destruct (record _ w3) as [u3 w4]. simpl in Hl3. destruct (requeue r obj') as [obj2 res] eqn:Hrq.
        pose proof (requeue_fst obj') as Hfst. rewrite Hrq in Hfst. simpl in Hfst. subst obj2.
        exists written, (Some err), []. rewrite Hpatch, Hc, Hrq. split_and!; try done. congruence.
      * destruct (record (Inc StatusPatchTotal [controller; PatchError]) w3) as [u3 w4]. simpl in Hl4.
        exists written, (Some err), []. rewrite Hpatch, Hc. split_and!; try done. congruence.
    + pose proof (log_record (Inc StatusPatchTotal [controller; PatchChanged]) w3) as Hl3.
      destruct (record _ w3) as [u3 w4]. simpl in Hl3. unfold notifyFluxOnTransition.
      destruct (requeue r obj') as [obj2 res] eqn:Hrq.
      pose proof (requeue_fst obj') as Hfst. rewrite Hrq in Hfst. simpl in Hfst. subst obj2.
      destruct (rc_FluxNotifier _ r) as [notify|] eqn:Hf.
      * case_decide as Hready.
        -- unfold_M. exists written, None, []. rewrite Hpatch, Hrq.
           split_and!; [done|done|congruence| |done]. rewrite (bool_decide_false (_ ≠ _)) by tauto.
           by rewrite andb_false_r.
        -- pose proof (log_notify notify obj' w4 eq_refl) as Hl5. destruct (notify obj' w4) as [u5 w5].
           simpl in Hl5. exists written, None, [WNotify obj']. rewrite Hpatch, Hrq.
           split_and!; [done|done| |by rewrite !bool_decide_true|done].
           rewrite Hl5, Hl3, Hl2, Hp, Hn, <- app_assoc. done.
      * unfold_M. exists written, None, []. rewrite Hpatch, Hrq.
        split_and!; [done|done|congruence| |done]. done.
Qed.
(** C6: what one reconcile writes. A deleted object gets at most one Update
    (removing the finalizer), an object without the finalizer exactly one Update
    (adding it), and nothing else. An active object gets no write at all when
    its recomputed status is equal up to timestamps, and then keeps its
    LastEvaluatedTime; otherwise exactly one status patch, sent next after
    reading the reconciler's clock and of the whole new status with that reading
    as its LastEvaluatedTime, followed by one Flux notification
    exactly when the patch was accepted and the Ready status differs from the
    prior one. A conflict is not an error; Stalled=True asks for a requeue in 30
    seconds. *)
Theorem ReconcileObject_writes obj w :
  let '((obj', res), w') := ReconcileObject r obj w in
  let finalized := ContainsFinalizer (om_Finalizers (Meta obj)) Finalizer in
  let set_fin f := oa_set_Finalizers _ adapter (f (om_Finalizers (Meta obj)) Finalizer) obj in
  let computed := (compute_status r obj w).1 in
  let quiet := Ok (if IsStatusConditionTrue (Conditions (Status obj')) ConditionStalled
                   then 30 * 1000000000 else 0)%Z in
  if is_deleted (Meta obj) then
    log w' = log w ++ (if finalized then [WUpdate (set_fin RemoveFinalizer)] else [])
  else if negb finalized then log w' = log w ++ [WUpdate (set_fin AddFinalizer)]
  else if statusEqualIgnoringTimestamp (Status obj) (Status computed) then
    log w' = log w ∧ res = quiet ∧
    Status obj' = set_LastEvaluatedTime (LastEvaluatedTime (Status obj)) (Status computed)
  else let '(now, wp) := rc_now r (compute_status r obj w).2 in ∃ written err notified,
    written = oa_set_Status _ adapter (set_LastEvaluatedTime now (Status computed)) computed ∧
    (client_PatchStatus written (statusMergePatch (Status written)) wp).1 = (obj', err) ∧
    log w' = log w ++ WPatch written (statusMergePatch (Status written)) :: notified ∧
    (notified = if bool_decide (err = None) && bool_decide (rc_FluxNotifier _ r ≠ None) &&
                   bool_decide (readyConditionStatus (Status obj) ≠ readyConditionStatus (Status obj'))
                then [WNotify obj'] else []) ∧
    res = match err with
          | Some err => if IsConflict err then quiet else Err err
          | None => quiet
          end.
Proof.
  unfold ReconcileObject. destruct (is_deleted (Meta obj)).
  { unfold finalize. destruct (ContainsFinalizer _ _); unfold_M; [|by rewrite app_nil_r].
    pose proof (time_unsubscribe_all (R := silent) (oa_OwnerKey _ adapter obj) w) as Ht.
    destruct (reg_UnsubscribeAll _ w) as [u w1]. simpl in Ht.
    set (obj1 := oa_set_Finalizers _ _ _ obj). pose proof (log_update obj1 w1) as Hu.
    destruct (client_Update obj1 w1) as [[obj2 err] w2]. simpl in Hu.
    destruct err as [err|]; [destruct (IsConflict err)|]; congruence. }
  destruct (ContainsFinalizer (om_Finalizers (Meta obj)) Finalizer); simpl negb; cbv iota.
  2: { unfold add_finalizer. unfold_M.
       set (obj1 := oa_set_Finalizers _ _ _ obj). pose proof (log_update obj1 w) as Hu.
       destruct (client_Update obj1 w) as [[obj2 err] w2]. simpl in Hu.
       destruct err as [err|]; [destruct (IsNotFound err); [|destruct (IsConflict err)]|]; congruence. }
  unfold mbind, M_bind. destruct (compute_status_silent obj w) as [Hl _].
  destruct (compute_status r obj w) as [computed w1]. simpl in Hl |- *.
  pose proof (write_status_run (Status obj) computed w1) as Hrun.
  destruct (write_status r (Status obj) computed w1) as [[obj' res] w'].
  assert ((requeue r obj').2 = Ok (if IsStatusConditionTrue (Conditions (Status obj')) ConditionStalled
    then 30 * 1000000000 else 0)%Z) as Hq by (unfold requeue; by destruct (IsStatusConditionTrue _ _)).
  rewrite Hq, Hl in Hrun. destruct (statusEqualIgnoringTimestamp _ _).
  - destruct Hrun as (? & -> & ->). split_and!; [done|done|]. by rewrite status_lens.
  - destruct (rc_now r w1) as [now wp]. exact Hrun.
Qed.

Context (inv : W → Prop) (subs : W → GroupVersionKind → OwnerKey → option Subscriber)
  `{!RegistryLaws W inv subs}.

(** The outcome of a finalizer Update: [quiet] errors end the reconcile. *)
Definition update_outcome (quiet : error → bool) (err : option error) (res : result Z) : Prop :=
  match err with
  | None => res = Ok 0%Z
  | Some err => if quiet err then res = Ok 0%Z else ∃ text, res = Err (fmt_Errorf text [err])
  end.

Lemma finalize_run obj owner w :
  ContainsFinalizer (om_Finalizers (Meta obj)) Finalizer = true →
  let '((obj', res), w') := finalize r obj owner w in
  ∃ err, client_Update (oa_set_Finalizers _ adapter
      (RemoveFinalizer (om_Finalizers (Meta obj)) Finalizer) obj)
      (reg_UnsubscribeAll owner w).2 = ((obj', err), w') ∧
    update_outcome IsConflict err res.
Proof.
  intros Hc. unfold finalize, update_outcome. rewrite Hc. unfold_M.
  destruct (reg_UnsubscribeAll _ w) as [u w1]. simpl.
  destruct (client_Update _ w1) as [[obj' err] w2].
  destruct err as [err|]; [destruct (IsConflict err) eqn:E|]; eexists; split; try done; simpl;
    rewrite ?E; eauto.
Qed.

Lemma add_finalizer_run obj w :
  let '((obj', res), w') := add_finalizer r obj w in
  ∃ err, client_Update (oa_set_Finalizers _ adapter
      (AddFinalizer (om_Finalizers (Meta obj)) Finalizer) obj) w = ((obj', err), w') ∧
    update_outcome (λ err, IsNotFound err || IsConflict err) err res.
Proof.
  unfold add_finalizer, update_outcome. unfold_M.
  destruct (client_Update _ w) as [[obj' err] w2].
  destruct err as [err|]; [destruct (IsNotFound err) eqn:E1; [|destruct (IsConflict err) eqn:E2]|];
    eexists; split; try done; simpl; rewrite ?E1, ?E2; simpl; eauto.
Qed.

(** C12: the finalizer protocol. The Update that lets a deleted object go is
    issued only once the owner has no subscription left (and no other owner lost
    one), with exactly the finalizer removed; an object without the finalizer
    gets it before anything is subscribed for it: the reconcile is that Update
    alone. A conflict, and a NotFound when adding, end quietly; any other error
    is returned, wrapped. *)
Theorem finalizer_protocol obj w :
  inv w →
  let '((obj', res), w') := ReconcileObject r obj w in
  (is_deleted (Meta obj) = true → Finalizer ∈ om_Finalizers (Meta obj) →
   ∃ wu sent err, client_Update sent wu = ((obj', err), w') ∧
     (∀ g o, subs wu g o = if decide (o = oa_OwnerKey _ adapter obj) then None else subs w g o) ∧
     (∀ f, f ∈ om_Finalizers (Meta sent) ↔ f ≠ Finalizer ∧ f ∈ om_Finalizers (Meta obj)) ∧
     update_outcome IsConflict err res) ∧
  (is_deleted (Meta obj) = true → Finalizer ∉ om_Finalizers (Meta obj) → w' = w ∧ res = Ok 0%Z) ∧
  (is_deleted (Meta obj) = false → Finalizer ∉ om_Finalizers (Meta obj) →
   ∃ sent err, client_Update sent w = ((obj', err), w') ∧
     (∀ f, f ∈ om_Finalizers (Meta sent) ↔ f = Finalizer ∨ f ∈ om_Finalizers (Meta obj)) ∧
     update_outcome (λ err, IsNotFound err || IsConflict err) err res).
Proof.
  intros Hw. pose proof (contains_spec (om_Finalizers (Meta obj)) Finalizer) as Hc.
  unfold ReconcileObject. destruct (is_deleted (Meta obj)).
  - destruct (ContainsFinalizer _ _) eqn:E.
    + pose proof (finalize_run obj (oa_OwnerKey _ adapter obj) w E) as Hrun.
      destruct (finalize _ _ _ w) as [[obj' res] w']. destruct Hrun as (err & Hup & Hres).
      split_and!; [|by intros _ []; apply Hc|done]. intros _ _. eexists _, _, err.
      split_and!; [exact Hup| | |done].
      * intros g o. by apply (unsubscribe_all_subs (inv := inv)).
      * intros f. rewrite finalizers_lens. apply remove_contains.
    + unfold finalize. rewrite E. unfold_M. split_and!; [|done|done].
      intros _ Hin. by apply Hc in Hin.
  - destruct (ContainsFinalizer _ _) eqn:E.
    + destruct ((compute_status r obj ≫= λ obj', write_status r (Status obj) obj') w) as [[obj' res] w']. split_and!; [done..|]. intros _ []. by apply Hc.
    + pose proof (add_finalizer_run obj w) as Hrun.
      destruct (add_finalizer _ _ w) as [[obj' res] w']. destruct Hrun as (err & Hup & Hres).
      split_and!; [done..|]. intros _ _. eexists _, err. split_and!; [exact Hup| |done].
      intros f. rewrite finalizers_lens. apply add_contains.
Qed.
End writes.
