(* ===== verification/Process.v ===== *)
(** * The reconciler over the registry

    The interfaces of [Reconciler.v] implemented by the registry of
    [Registry.v]: a process is the registry, a clock that advances with every
    reading, what the informer factory and the informers' listers answer at the
    moment, and the objects on the API server with the writes they received.
    The registry discharges the laws the reconciler's theorems assume. *)

From S2P Require Import Prelude GoStd ApiV1 K8s Fixtures Metrics Status Membership Discovery Normalize SubscriberIndex Registry StatusHelpers StatusPatch Reconciler ReconcilerSpec ReconcilerWrites.

(** ** The process *)

Section process.
Context `{LabelsAPI} `{UnstructuredAPI} `{Formatting}.
Context {T : Type}.

Record process := {
  p_registry : Registry;
  p_clock : time;
  p_factory : GroupVersionKind → result unit;
  p_cache : GroupVersionKind → result (list Unstructured);
  p_objects : gmap (string * string) T;
  p_log : list (write T);
}.

Definition set_registry (r : Registry) (w : process) : process :=
  Build_process r (p_clock w) (p_factory w) (p_cache w) (p_objects w) (p_log w).
Definition set_clock (t : time) (w : process) : process :=
  Build_process (p_registry w) t (p_factory w) (p_cache w) (p_objects w) (p_log w).
Definition set_log (l : list (write T)) (w : process) : process :=
  Build_process (p_registry w) (p_clock w) (p_factory w) (p_cache w) (p_objects w) l.

(** A Subscribe that would wait for another goroutine's start has no answer
    here; no start is in flight in the states below ([process_inv]). *)
Definition process_Subscribe (gvk : GroupVersionKind) (scope : RESTScopeName) (sub : Subscriber)
    : M process (option error) := λ w,
  match Subscribe gvk sub (p_factory w gvk) (p_clock w) (p_clock w + 1) (p_registry w) with
  | Some (err, r) => (err, set_clock (p_clock w + 2) (set_registry r w))
  | None => (Some (errors_New "blocked"), w)
  end.

#[export] Instance process_registry : RegistryAPI process := {
  reg_Subscribe := process_Subscribe;
  reg_Unsubscribe := λ gvk owner w, (tt, set_registry (Unsubscribe gvk owner (p_registry w)) w);
  reg_UnsubscribeAll := λ owner w, (tt, set_registry (UnsubscribeAll owner (p_registry w)) w);
  reg_List := λ gvk w, (List_gvk (λ _, p_cache w gvk) gvk (p_registry w), w);
  reg_GVKsByOwner := λ owner w, (Registry_GVKsByOwner owner (p_registry w), w);
}.

#[export] Instance process_runtime : Runtime process := {
  wall_clock := λ w, (p_clock w, set_clock (p_clock w + 1) w);
  record := λ f w, (tt, set_registry (set_rmetrics f (p_registry w)) w);
}.

#[export] Instance process_namespaces : NamespaceClient process := {
  client_ListNamespaces := λ sel w, (Ok [], w);
}.

(** ** The laws *)

Definition process_inv (w : process) : Prop :=
  reg_inv (p_registry w) ∧ starting (p_registry w) = ∅.

Definition process_subs (w : process) (g : GroupVersionKind) (o : OwnerKey) : option Subscriber :=
  subscription (rg_index (p_registry w)) g o.

Lemma process_Subscribe_cases gvk scope sub w :
  process_inv w →
  process_inv (process_Subscribe gvk scope sub w).2 ∧
  ∀ g o, process_subs (process_Subscribe gvk scope sub w).2 g o =
    match (process_Subscribe gvk scope sub w).1 with
    | None => if decide (g = gvk ∧ o = Owner sub) then Some sub else process_subs w g o
    | Some _ => process_subs w g o
    end.
Proof.
  intros [Hinv Hst]. unfold process_Subscribe.
  destruct (Subscribe_cases (p_registry w) gvk sub (p_factory w gvk) (p_clock w) (p_clock w + 1) Hinv)
    as (err & r' & -> & Hinv' & Hst' & _ & Hcase); [by rewrite Hst|].
  split; [by split; simpl; rewrite ?Hst'|]. unfold process_subs. simpl. intros g o.
  destruct err as [err|]; [|by apply Hcase]. by destruct Hcase as (-> & _).
Qed.

Lemma starting_unsubscribeLocked r gvk owner :
  reg_inv r → starting (unsubscribeLocked gvk owner r) = starting r.
Proof. intros Hr. by destruct (unsubscribeLocked_cases r gvk owner (reg_counted _ Hr)). Qed.

Lemma starting_UnsubscribeAll r owner :
  reg_inv r → starting (UnsubscribeAll owner r) = starting r.
Proof.
  unfold UnsubscribeAll. generalize (GVKsByOwner owner (rg_index r)). intros l. revert r.
  induction l as [|gvk l IH]; intros r Hr; simpl; [done|].
  rewrite IH by by apply inv_unsubscribeLocked. by apply starting_unsubscribeLocked.
Qed.

#[export] Instance process_registry_laws : RegistryLaws process process_inv process_subs.
Proof.
  split.
  - intros gvk scope sub w Hw. by apply process_Subscribe_cases.
  - intros gvk scope sub w g o Hw Hok. destruct (process_Subscribe_cases gvk scope sub w Hw) as [_ Hs].
    simpl in *. by rewrite Hs, Hok.
  - intros gvk scope sub w err g o Hw Herr.
    destruct (process_Subscribe_cases gvk scope sub w Hw) as [_ Hs]. simpl in *. by rewrite Hs, Herr.
  - intros gvk owner w [Hinv Hst]. split; simpl; [by apply inv_unsubscribeLocked|].
    unfold Unsubscribe. by rewrite starting_unsubscribeLocked.
  - intros gvk owner w g o [Hinv _]. apply unsubscribeLocked_subscription, Hinv.
  - intros owner w [Hinv Hst]. split; simpl; [by apply inv_UnsubscribeAll|].
    by rewrite starting_UnsubscribeAll.
  - intros owner w g o [Hinv _]. unfold process_subs. simpl. unfold UnsubscribeAll.
    destruct (unsubscribes_spec (GVKsByOwner owner (rg_index (p_registry w))) owner (p_registry w) Hinv)
      as (_ & _ & Hs). rewrite Hs. destruct (decide (o = owner)) as [->|Hne].
    + case_decide as Hd; [done|]. apply eq_None_not_Some. rewrite <- GVKsByOwner_spec by apply Hinv. tauto.
    + by rewrite decide_False by tauto.
  - intros owner w g [Hinv _]. apply GVKsByOwner_spec, Hinv.
  - done.
  - done.
  - done.
Qed.

#[export] Instance process_runtime_laws : RuntimeLaws process process_inv process_subs.
Proof.
  split; try done. intros f w [[Hc Hr Ho] Hst]. split; [|exact Hst]. split; [exact Hc|exact Hr|exact Ho].
Qed.
(** Time in a process: the clock does not go back, and only writes add to the
    log; the cluster is still while one reconcile runs. *)
Definition later (w w' : process) : Prop :=
  (p_clock w <= p_clock w')%Z ∧ p_log w' = p_log w ∧ p_cache w' = p_cache w ∧
  p_factory w' = p_factory w.

Lemma process_Subscribe_later gvk scope sub w : later w (process_Subscribe gvk scope sub w).2.
Proof.
  unfold process_Subscribe, later. destruct (Subscribe _ _ _ _ _ _) as [[err r]|]; simpl; auto with lia.
Qed.

#[export] Instance process_time : TimeLaws process later.
Proof.
  split; [|intros; (apply process_Subscribe_later || (unfold later; simpl; auto with lia))..].
  split; unfold later; [done|]. intros w1 w2 w3 (?&?&?&?) (?&?&?&?). split_and!; [lia|congruence..].
Qed.

#[export] Instance process_silent : TimeLaws process (λ w w', p_log w' = p_log w).
Proof.
  split; [split; [done|intros ???; congruence]|..]; intros; try done. apply process_Subscribe_later.
Qed.

(** ** The reconciler with this registry *)

Lemma running_subscribed w g :
  process_inv w →
  is_Some (informers (p_registry w) !! g) ↔ ∃ o, is_Some (process_subs w g o).
Proof. intros [[_ Hr _] _]. rewrite (Hr g). apply SubscriberCount_exists. Qed.

(** the reconciler over the real registry keeps exactly the informers that
    are needed. After [reconcileSubscriptions] the registry's invariant holds; a
    GVK of a dependency that got no error has a running informer, admitting the
    owner's events by every matcher declared for it; a GVK no dependency names,
    and no other owner is subscribed to, has none; a GVK another owner is
    subscribed to keeps its informer. *)
Theorem reconcileSubscriptions_informers controller owner deps w errs w' :
  process_inv w → reconcileSubscriptions controller owner deps w = (errs, w') →
  process_inv w' ∧
  (∀ d, d ∈ deps → (∀ e, e ∈ errs → e_Name e ≠ d_Name d) →
     is_Some (informers (p_registry w') !! d_GVK d) ∧
     ∃ sub, process_subs w' (d_GVK d) owner = Some sub ∧
       ∀ d', d' ∈ deps → d_GVK d' = d_GVK d → matcher_of d' ∈ Matchers sub) ∧
  (∀ g, (¬ ∃ d, d ∈ deps ∧ d_GVK d = g) → (∀ o, o ≠ owner → process_subs w g o = None) →
     informers (p_registry w') !! g = None) ∧
  (∀ g o, o ≠ owner → is_Some (process_subs w g o) → is_Some (informers (p_registry w') !! g)).
Proof.
  intros Hw Hrun. pose proof (reconcileSubscriptions_run later process_inv process_subs controller owner deps w)
    as Hs.
  rewrite Hrun in Hs. destruct Hs as (_ & fails & -> & _ & Hnone & Hinv).
  destruct (Hinv Hw) as [Hw' Hsubs]. split_and!; [done|..].
  - intros d Hd Hno. assert (deps_of (d_GVK d) deps ≠ []) as Hne by (intros Hnil%deps_of_nil; eauto).
    assert (fails !! d_GVK d = None) as Hf.
    { apply eq_None_not_Some. intros [err Hf]. apply (Hno (watch_error (d_GVK d) err d)); [|done].
      apply elem_of_watch_errors. eauto. }
    assert (process_subs w' (d_GVK d) owner = Some (subscriber_for owner deps (d_GVK d))) as Hsub
      by by rewrite Hsubs, decide_True, decide_False, Hf.
    split; [apply running_subscribed; [done|]; eauto|]. eexists. split; [done|].
    intros d' Hd' Hg. apply list_elem_of_fmap. exists d'. by rewrite elem_of_deps_of.
  - intros g Hd Hother. apply eq_None_not_Some. intros Hrunning.
    apply running_subscribed in Hrunning as [o Ho]; [|done]. rewrite Hsubs in Ho.
    case_decide as Eo; [|by rewrite Hother in Ho; [destruct Ho|]].
    rewrite decide_True in Ho by by apply deps_of_nil. by destruct Ho.
  - intros g o Ho Hsub. apply running_subscribed; [done|]. exists o. by rewrite Hsubs, decide_False.
Qed.
End process.
Arguments process {_ _} _.

(** ** A milestone on pods, reconciled *)
Module Demo.
#[local] Existing Instance Fix.labels.
#[local] Existing Instance Fix.unstructured.
#[local] Existing Instance Fix.formatting.
#[local] Existing Instance Fix.api_errors.
#[local] Existing Instance Fix.conditions.
#[local] Existing Instance Fix.conditions_laws.
#[local] Existing Instance Fix.finalizers.
#[local] Existing Instance Fix.finalizers_laws.
#[local] Existing Instance PatchFix.meta_json.

Abbreviation milestone := (Milestone LabelSelector).
Abbreviation world := (process milestone).

#[local] Instance demo_client : OwnerClient world milestone := {
  client_Get := λ namespace name w,
    (match p_objects w !! (namespace, name) with
     | Some m => Ok m
     | None => Err (ext_error "NotFound" "not found")
     end, w);
  client_Update := λ m w, ((m, None), set_log (p_log w ++ [WUpdate m]) w);
  client_PatchStatus := λ m patch w, ((m, None), set_log (p_log w ++ [WPatch m patch]) w);
}.

Definition demo_resolver : Resolver world := {|
  Resolve := λ group kind version w,
    (if decide (kind = "Gone") then Err ErrGVKNotEstablished
     else Ok (GVK group "v1" kind, RESTScopeNameNamespace), w);
  Resolver_Invalidate := λ w, (tt, w);
  Resolver_InvalidateGroupKind := λ _ _ w, (tt, w);
|}.

Definition reconciler : Reconciler (W := world) milestone := {|
  rc_Resolver := Some demo_resolver;
  rc_Adapter := MilestoneAdapter;
  rc_Controller := "milestone";
  rc_FluxNotifier := Some (λ m w, (tt, set_log (p_log w ++ [WNotify m]) w));
  rc_Now := None;
  rc_ResourceCap := 0;
  rc_StalledErrorCap := 0;
|}.

Definition pods : GroupVersionKind := GVK "" "v1" "Pod".
Definition owner : OwnerKey := Build_OwnerKey "Milestone" "ns" "m".
Definition pod (name status : string) : Unstructured :=
  Fix.Build_object pods "ns" name {["app" := "web"]} false status "".

Definition dep (name kind app : string) : DependencyRef LabelSelector :=
  Build_DependencyRef _ name EmptySetUnknown SuspendIgnore
    (Build_TargetSpec _ "" "" kind (Some [("app", app)])).

Definition status0 : MilestoneStatusBase :=
  Build_MilestoneStatusBase 0 None Summary_zero None None false 0.

Definition object (finalizers : list string) (deletion : option time)
    (deps : list (DependencyRef LabelSelector)) : milestone :=
  Build_Milestone _ (Build_ObjectMeta "m" "ns" 3 ∅ finalizers deletion 0) deps status0.

Definition web : milestone := object [Finalizer] None [dep "web" "Pod" "web"].

Definition cluster (cached : list Unstructured) : world :=
  Build_process (NewRegistry 0 0) 100
    (λ g, if decide (Kind g = "Pod") then Ok tt else Err (errors_New "no sync"))
    (λ _, Ok cached) {[("ns", "m") := web]} [].

Definition ready_cluster : world := cluster [pod "a" "Current"; pod "b" "Current"].

Lemma process_inv_cluster cached : process_inv (cluster cached).
Proof.
  pose proof (quiescent_run 0 0 []) as (Hinv & _ & Hst). exact (conj Hinv Hst).
Qed.

(** First reconcile: the finalizer; then a patch and a notification; then, on
    the object as stored, nothing. *)
Definition kind_of (x : write milestone) : string :=
  match x with WUpdate _ => "update" | WPatch _ _ => "patch" | WNotify _ => "notify" end.

Definition run (m : milestone) (w : world) : milestone * result Z * list string :=
  let '((m, res), w) := ReconcileObject reconciler m w in (m, res, map kind_of (p_log w)).

Example run_add_finalizer :
  (run (object [] None []) ready_cluster).2 = ["update"] ∧
  (run (object [Finalizer] (Some 5%Z) []) ready_cluster).2 = ["update"] ∧
  (run (object [] (Some 5%Z) []) ready_cluster).2 = [].
Proof. by vm_compute. Qed.

Example run_ready :
  let '(m, res, writes) := run web ready_cluster in
  readyConditionStatus (m_Status m) = ConditionTrue ∧ res = Ok 0%Z ∧ writes = ["patch"; "notify"] ∧
  (run m ready_cluster).2 = [].
Proof. vm_compute. by split_and!. Qed.

Example run_gone :
  let '(m, res, writes) := run (object [Finalizer] None [dep "x" "Gone" "x"; dep "y" "Job" "y"])
                             ready_cluster in
  readyConditionStatus (m_Status m) = ConditionUnknown ∧ res = Ok stalledRequeue ∧
  map ds_Reason (elems (DependsOn (m_Status m))) =
    [ReasonGVKNotEstablished; ReasonWatchSetupFailed].
Proof. vm_compute. by split_and!. Qed.
(** ** Witnesses *)

Lemma demo_status_lens sb (m : milestone) :
  oa_Status _ (rc_Adapter _ reconciler) (oa_set_Status _ (rc_Adapter _ reconciler) sb m) = sb.
Proof. done. Qed.

Lemma demo_finalizers_lens fs (m : milestone) :
  om_Finalizers (oa_Meta _ (rc_Adapter _ reconciler) (oa_set_Finalizers _ (rc_Adapter _ reconciler) fs m)) = fs.
Proof. done. Qed.

Lemma demo_normalize (m : milestone) (w : world) :
  later w (oa_Dependencies _ (rc_Adapter _ reconciler) m (rc_Resolver _ reconciler) w).2.
Proof. apply (NormalizeMilestone_frame later demo_resolver). intros. reflexivity. Qed.

Definition web_deps : list Dependency := (NormalizeMilestone (Some demo_resolver) web ready_cluster).1.1.

Definition subscribe_web : list MError * world :=
  reconcileSubscriptions "milestone" owner web_deps ready_cluster.

Lemma web_no_errors : subscribe_web.1 = [].
Proof. vm_compute. reflexivity. Qed.

Lemma reconcileSubscriptions_spec_witness :
  process_inv subscribe_web.2 ∧
  ∃ fails : gmap GroupVersionKind error,
    fails !! pods = None ∧ is_Some (process_subs subscribe_web.2 pods owner).
Proof.
  destruct (reconcileSubscriptions_spec later process_inv process_subs "milestone" owner web_deps
    ready_cluster subscribe_web.1 subscribe_web.2) as (Hw' & fails & _ & _ & _ & Hsub & _ & Herr).
  - apply process_inv_cluster.
  - unfold subscribe_web. by destruct (reconcileSubscriptions _ _ _ _).
  - split; [exact Hw'|]. exists fails.
    assert (∃ d, d ∈ web_deps ∧ d_GVK d = pods) as Hpods by (eexists; split; [by left|done]).
    assert (fails !! pods = None) as Hf.
    { apply eq_None_not_Some. intros [err Hf]. destruct Hpods as (d & Hd & Hg).
      apply (not_elem_of_nil (watch_error pods err d)). rewrite <- web_no_errors.
      apply Herr. exists d, err. rewrite Hg. done. }
    split; [done|]. rewrite (Hsub pods Hpods Hf). by eexists.
Defined.

Lemma reconcileSubscriptions_informers_witness :
  process_inv subscribe_web.2 ∧ is_Some (informers (p_registry subscribe_web.2) !! pods).
Proof.
  destruct (reconcileSubscriptions_informers "milestone" owner web_deps ready_cluster
    subscribe_web.1 subscribe_web.2) as (Hw' & Hrun & _).
  - apply process_inv_cluster.
  - unfold subscribe_web. by destruct (reconcileSubscriptions _ _ _ _).
  - split; [exact Hw'|]. assert (∃ d, d ∈ web_deps ∧ d_GVK d = pods) as (d & Hd & Hg)
      by (eexists; split; [by left|done]).
    destruct (Hrun d Hd) as [Hr _].
    + rewrite web_no_errors. intros e []%not_elem_of_nil.
    + clear -Hr Hg. rewrite Hg in Hr. exact Hr.
Defined.

Definition compute_web : milestone * world := compute_status reconciler web ready_cluster.

Lemma compute_status_spec_witness :
  ∃ obs, Forall2 (observed_as later owner web_deps ready_cluster compute_web.2) web_deps obs ∧
    ObservedGeneration (m_Status compute_web.1) = 3%Z ∧
    (∀ st, st ∈ elems (DependsOn (m_Status compute_web.1)) ↔ is_rollup (zip web_deps obs) [] st).
Proof.
  destruct (compute_status_spec later reconciler demo_status_lens demo_normalize web ready_cluster
    web_deps [] compute_web.1 compute_web.2) as (obs & Hobs & Hgen & Hst & _).
  - vm_compute. reflexivity.
  - split; apply (bool_decide_unpack _); vm_compute; done.
  - unfold compute_web. by destruct (compute_status _ _ _).
  - exists obs. split; [exact Hobs|]. split; [exact Hgen|exact Hst].
Defined.

(** The milestone is ready, so what the still cluster lists is satisfied. *)
Lemma ready_iff_satisfied_witness :
  readyConditionStatus (m_Status compute_web.1) = ConditionTrue ∧
  ∃ obs, Forall2 (observed_as later owner web_deps ready_cluster compute_web.2) web_deps obs ∧
    (Forall countable_listing obs → Forall2 satisfied web_deps obs).
Proof.
  assert (readyConditionStatus (m_Status compute_web.1) = ConditionTrue) as Hready
    by (vm_compute; done).
  destruct (ready_iff_satisfied later reconciler demo_status_lens demo_normalize web ready_cluster
    web_deps [] compute_web.1 compute_web.2) as (obs & Hobs & Hiff).
  - vm_compute. reflexivity.
  - split; apply (bool_decide_unpack _); vm_compute; done.
  - unfold compute_web. by destruct (compute_status _ _ _).
  - split; [exact Hready|]. exists obs. split; [exact Hobs|]. intros Hc. by apply (Hiff Hc).
Defined.

Definition failed (name : string) : ResourceStatus :=
  Build_ResourceStatus "" "v1" "Pod" "ns" name FailedStatus "" "".
Definition no_list (name : string) : MError :=
  Build_MError name "" "v1" "Pod" ReasonListFailed (errors_New "timeout").

Lemma apply_status_idempotent_witness :
  statusEqualIgnoringTimestamp
    (apply_status 0 0 1 2 status0 3 ∅ [failed "a"; failed "b"] [no_list "x"; no_list "y"])
    (apply_status 0 0 11 12
       (apply_status 0 0 1 2 status0 3 ∅ [failed "a"; failed "b"] [no_list "x"; no_list "y"])
       3 ∅ [failed "b"; failed "a"; failed "b"] [no_list "y"; no_list "x"]) = true.
Proof.
  apply (apply_status_idempotent 0 0 1 2 11 12 0 status0 3 ∅ [failed "a"; failed "b"]
    [failed "b"; failed "a"; failed "b"] [no_list "x"; no_list "y"] [no_list "y"; no_list "x"]).
  - intros x y Hx Hy. rewrite !elem_of_cons, elem_of_nil in Hx, Hy.
    destruct Hx as [->|[->|[]]], Hy as [->|[->|[]]]; done.
  - set_solver.
  - apply (bool_decide_unpack _). vm_compute. done.
  - apply Permutation_swap.
Defined.

Lemma stalled_condition_spec_witness :
  ∃ c, FindStatusCondition (Conditions (applyStalledFromErrors 0 1 status0 [no_list "y"; no_list "x"]))
         ConditionStalled = Some c ∧ c_Status c = ConditionTrue ∧ String.length (c_Message c) ≤ 4096.
Proof.
  destruct (stalled_condition_spec 0 1 status0 [no_list "y"; no_list "x"]) as (c & Hf & _ & _ & Hne & _).
  - apply (bool_decide_unpack _). vm_compute. done.
  - exists c. destruct Hne as (Hs & Hl & _); [done|]. split; [exact Hf|]. split; [exact Hs|]. exact Hl.
Defined.

Lemma ReconcileObject_writes_witness :
  ∃ written notified,
    p_log (ReconcileObject reconciler web ready_cluster).2 =
      [] ++ WPatch written (statusMergePatch (m_Status written)) :: notified ∧
    m_Status written =
      set_LastEvaluatedTime (rc_now reconciler (compute_status reconciler web ready_cluster).2).1
        (m_Status (compute_status reconciler web ready_cluster).1) ∧
    length notified = 1.
Proof.
  pose proof (ReconcileObject_writes reconciler demo_status_lens p_log (λ m w, proj1 (proj2 (demo_normalize m w)))
    (λ _, eq_refl) (λ _ _, eq_refl) (λ _ _ _, eq_refl)) as Hw.
  specialize (Hw ltac:(intros notify m w [= <-]; reflexivity) web ready_cluster).
  assert (statusEqualIgnoringTimestamp (oa_Status _ (rc_Adapter _ reconciler) web)
    (oa_Status _ (rc_Adapter _ reconciler) (compute_status reconciler web ready_cluster).1) = false)
    as Hne by (vm_compute; done).
  assert (readyConditionStatus (oa_Status _ (rc_Adapter _ reconciler)
    (ReconcileObject reconciler web ready_cluster).1.1) = ConditionTrue) as Hr by (vm_compute; done).
  revert Hw Hr.
  destruct (ReconcileObject reconciler web ready_cluster) as [[m res] w'].
  cbv zeta. change (is_deleted _) with false.
  change (negb (ContainsFinalizer _ _)) with false. cbv iota. rewrite Hne.
  destruct (rc_now reconciler (compute_status reconciler web ready_cluster).2) as [now wp].
  intros (written & err & notified & Hs & Hp & Hl & Hn & _) Hr.
  exists written, notified. split; [exact Hl|]. split; [by rewrite Hs|].
  injection Hp as <- <-. cbn [fst] in Hr. rewrite Hn, Hr. reflexivity.
Defined.

Lemma finalizer_protocol_witness :
  let deleted := object [Finalizer; "other"] (Some 5%Z) [] in
  ∃ wu sent err, client_Update sent wu =
      ((ReconcileObject reconciler deleted ready_cluster).1.1, err,
       (ReconcileObject reconciler deleted ready_cluster).2) ∧
    ∀ g, process_subs wu g owner = None.
Proof.
  intros deleted.
  pose proof (finalizer_protocol reconciler demo_finalizers_lens process_inv process_subs deleted ready_cluster
    (process_inv_cluster _)) as Hp.
  destruct (ReconcileObject reconciler deleted ready_cluster) as [[m res] w'].
  destruct Hp as [Hdel _]. destruct Hdel as (wu & sent & err & Hu & Hsubs & _).
  - reflexivity.
  - apply (bool_decide_unpack _). vm_compute. done.
  - exists wu, sent, err. split; [exact Hu|]. intros g. rewrite Hsubs. by rewrite decide_True.
Defined.
End Demo.
