(* ===== verification/Concurrent.v ===== *)
(** * Reconciles side by side

    Each controller runs several workers, so while one owner is reconciled others
    are too, informers deliver events, caches and the world outside change.
    Here everything else moves between any two calls a reconcile makes: the world
    of [interfered] applies an arbitrary run of steps of the others before and
    after each call. The controller's workqueue never gives one owner to two
    workers, so the others' steps are those of other owners. Two of their calls
    do not run at once; [RegistryConc.v], [RegistryLinear.v] and [DiscoveryConc.v]
    look below that. *)

From S2P Require Import Prelude GoStd ApiV1 K8s Fixtures Metrics Status Membership Discovery Normalize SubscriberIndex Registry StatusHelpers StatusPatch Reconciler ReconcilerSpec ReconcilerWrites Process.

(** ** A world the others move *)

Section interference.
Context {W : Type} `{LabelsAPI} `{UnstructuredAPI} `{!RegistryAPI W} `{!Runtime W}.
Context (inv : W → Prop) (subs : W → GroupVersionKind → OwnerKey → option Subscriber)
  `{!RegistryLaws W inv subs} `{!RuntimeLaws W inv subs}.
Context (owner : OwnerKey).

(** What the reconcile of [owner] relies on. *)
Definition rely : relation W := λ w w', inv w → inv w' ∧ ∀ g, subs w' g owner = subs w g owner.

#[export] Instance rely_order : PreOrder rely.
Proof.
  split; [by intros w|]. intros w1 w2 w3 H12 H23 Hw. destruct (H12 Hw) as [Hw2 E2].
  destruct (H23 Hw2) as [Hw3 E3]. split; [done|]. intros g. by rewrite E3.
Qed.

(** The n-th interference. *)
Context (env : nat → W → W).
Hypothesis env_rely : ∀ n w, rely w (env n w).

Abbreviation interfered := (W * nat)%type.

Definition meanwhile : interfered → interfered := λ '(w, n), (env n w, S n).
Definition around {A} (m : M W A) : M interfered A := λ x,
  let '(w, n) := meanwhile x in
  let '(a, w) := m w in
  (a, meanwhile (w, n)).

(** The registry as the reconcile of [owner] calls it; it makes no call for
    another owner. Reading which kinds the owner has is followed by calls of its
    own, whose interference comes in between. *)
#[local] Instance interfered_registry : RegistryAPI interfered := {
  reg_Subscribe := λ gvk scope sub,
    if decide (Owner sub = owner) then around (reg_Subscribe gvk scope sub)
    else mret (Some (errors_New "another owner's"));
  reg_Unsubscribe := λ gvk o, if decide (o = owner) then around (reg_Unsubscribe gvk o) else mret tt;
  reg_UnsubscribeAll := λ o, if decide (o = owner) then around (reg_UnsubscribeAll o) else mret tt;
  reg_List := λ gvk, around (reg_List gvk);
  reg_GVKsByOwner := λ o x, (if decide (o = owner) then (reg_GVKsByOwner o x.1).1 else [], x);
}.

(** A counter or the clock is touched between two interferences. *)
#[local] Instance interfered_runtime : Runtime interfered := {
  wall_clock := λ x, let '(t, w) := wall_clock x.1 in (t, (w, x.2));
  record := λ f x, let '(u, w) := record f x.1 in (u, (w, x.2));
}.

Definition inv_of (x : interfered) : Prop := inv x.1.
Definition subs_of (x : interfered) (g : GroupVersionKind) (o : OwnerKey) : option Subscriber :=
  if decide (o = owner) then subs x.1 g o else None.

(** A call with the interference around it: [Q] speaks of the owner alone. *)
Lemma around_spec {A} (m : M W A) x (Q : A → (GroupVersionKind → option Subscriber) → Prop) :
  (∀ w, inv w → (∀ g, subs w g owner = subs x.1 g owner) →
     inv (m w).2 ∧ Q (m w).1 (λ g, subs (m w).2 g owner)) →
  (∀ a s s', (∀ g, s g = s' g) → Q a s → Q a s') →
  inv x.1 → inv (around m x).2.1 ∧ Q (around m x).1 (λ g, subs (around m x).2.1 g owner).
Proof.
  intros Hm HQ Hx. destruct x as [w n]. unfold around, meanwhile. simpl in *.
  destruct (env_rely n w Hx) as [Hw E]. destruct (Hm (env n w) Hw E) as [Hm' Hq].
  destruct (m (env n w)) as [a w1]. simpl in *. destruct (env_rely (S n) w1 Hm') as [Hw1 E1].
  split; [done|]. by apply (HQ a (λ g, subs w1 g owner)).
Qed.

(** A call that keeps the owner's subscriptions. *)
Lemma around_still {A} (m : M W A) x :
  (∀ w, inv w → inv (m w).2 ∧ ∀ g, subs (m w).2 g owner = subs w g owner) →
  inv x.1 → inv (around m x).2.1 ∧ ∀ g o, subs_of (around m x).2 g o = subs_of x g o.
Proof.
  intros Hm Hx. destruct (around_spec m x (λ _ s, ∀ g, s g = subs x.1 g owner)) as [Hi Hs]; [| |done|].
  - intros w Hw E. destruct (Hm w Hw) as [? Hsame]. split; [done|]. intros g. by rewrite Hsame.
  - intros a s s' Hss Hs g. by rewrite <- Hss.
  - split; [done|]. intros g o. unfold subs_of. case_decide as Ho; [|done]. subst o. by rewrite Hs.
Qed.

(** The four calls that reach the registry, with the interference around them. *)
Lemma around_subscribe gvk scope sub x :
  Owner sub = owner → inv_of x →
  inv_of (around (reg_Subscribe gvk scope sub) x).2 ∧
  ∀ g, subs (around (reg_Subscribe gvk scope sub) x).2.1 g owner =
    match (around (reg_Subscribe gvk scope sub) x).1 with
    | None => if decide (g = gvk) then Some sub else subs x.1 g owner
    | Some _ => subs x.1 g owner
    end.
Proof.
  intros Ho Hx. apply (around_spec (reg_Subscribe gvk scope sub) x (λ a s, ∀ g, s g =
    match a with None => if decide (g = gvk) then Some sub else subs x.1 g owner | Some _ => subs x.1 g owner end));
    [|intros a s s' Hss Hs g; by rewrite <- Hss|done].
  intros w Hw E. split; [by apply (subscribe_inv (subs := subs))|]. intros g.
  destruct (reg_Subscribe gvk scope sub w).1 as [err|] eqn:Hres.
  - by rewrite (subscribe_err (inv := inv) _ _ _ _ err).
  - rewrite (subscribe_ok (inv := inv)) by done. rewrite Ho, <- E.
    by rewrite (decide_ext (g = gvk ∧ owner = owner) (g = gvk)) by tauto.
Qed.

Lemma around_unsubscribe gvk x :
  inv_of x → inv_of (around (reg_Unsubscribe gvk owner) x).2 ∧
  ∀ g, subs (around (reg_Unsubscribe gvk owner) x).2.1 g owner = if decide (g = gvk) then None else subs x.1 g owner.
Proof.
  intros Hx. apply (around_spec (reg_Unsubscribe gvk owner) x
    (λ _ s, ∀ g, s g = if decide (g = gvk) then None else subs x.1 g owner));
    [|intros a s s' Hss Hs g; by rewrite <- Hss|done].
  intros w Hw E. split; [by apply (unsubscribe_inv (subs := subs))|]. intros g.
  rewrite (unsubscribe_subs (inv := inv)), <- E by done.
  by rewrite (decide_ext (g = gvk ∧ owner = owner) (g = gvk)) by tauto.
Qed.

Lemma around_unsubscribe_all x :
  inv_of x → inv_of (around (reg_UnsubscribeAll owner) x).2 ∧
  ∀ g, subs (around (reg_UnsubscribeAll owner) x).2.1 g owner = None.
Proof.
  intros Hx. apply (around_spec (reg_UnsubscribeAll owner) x (λ _ s, ∀ g, s g = None));
    [|intros a s s' Hss Hs g; by rewrite <- Hss|done].
  intros w Hw E. split; [by apply (unsubscribe_all_inv (subs := subs))|]. intros g.
  by rewrite (unsubscribe_all_subs (inv := inv)), decide_True.
Qed.

Lemma around_list gvk x :
  inv_of x → inv_of (around (reg_List gvk) x).2 ∧ ∀ g o, subs_of (around (reg_List gvk) x).2 g o = subs_of x g o.
Proof.
  apply around_still. intros w Hw. split; [by apply (list_inv (subs := subs))|].
  intros g. by apply (list_subs (inv := inv)).
Qed.

#[local] Instance interfered_laws : RegistryLaws interfered inv_of subs_of.
Proof.
  split; simpl.
  - intros gvk scope sub x Hx. case_decide; [by apply around_subscribe|done].
  - intros gvk scope sub x g o Hx. case_decide as Ho; [|done]. intros Hok.
    destruct (around_subscribe gvk scope sub x Ho Hx) as [_ Hs]. rewrite Hok in Hs. unfold subs_of. rewrite Ho.
    destruct (decide (o = owner)) as [->|]; [|by rewrite decide_False by tauto].
    rewrite Hs. by rewrite (decide_ext (g = gvk ∧ owner = owner) (g = gvk)) by tauto.
  - intros gvk scope sub x err g o Hx. case_decide as Ho; [|done]. intros Herr.
    destruct (around_subscribe gvk scope sub x Ho Hx) as [_ Hs]. rewrite Herr in Hs. unfold subs_of.
    destruct (decide (o = owner)) as [->|]; [by rewrite Hs|done].
  - intros gvk o x Hx. case_decide; [subst; by apply around_unsubscribe|done].
  - intros gvk o x g o' Hx. unfold subs_of. destruct (decide (o = owner)) as [->|Ho].
    + destruct (around_unsubscribe gvk x Hx) as [_ Hs]. destruct (decide (o' = owner)) as [->|]; [|by case_decide].
      rewrite Hs. by rewrite (decide_ext (g = gvk ∧ owner = owner) (g = gvk)) by tauto.
    + simpl. destruct (decide (o' = owner)); [|by case_decide]. by rewrite decide_False by naive_solver.
  - intros o x Hx. case_decide; [subst; by apply around_unsubscribe_all|done].
  - intros o x g o' Hx. unfold subs_of. destruct (decide (o = owner)) as [->|Ho].
    + destruct (around_unsubscribe_all x Hx) as [_ Hs]. by destruct (decide (o' = owner)) as [->|]; [rewrite Hs|].
    + simpl. destruct (decide (o' = owner)); [|by case_decide]. by rewrite decide_False by naive_solver.
  - intros o x g Hx. unfold subs_of. case_decide; [by apply (gvks_by_owner (inv := inv))|].
    split; [by intros ?%elem_of_nil|by intros []].
  - done.
  - intros gvk x Hx. by apply around_list.
  - intros gvk x g o Hx. by apply around_list.
Qed.

#[local] Instance interfered_runtime_laws : RuntimeLaws interfered inv_of subs_of.
Proof.
  split; simpl.
  - intros f x Hx. pose proof (record_inv (subs := subs) f x.1 Hx). by destruct (record f x.1).
  - intros f x. pose proof (record_subs (inv := inv) f x.1) as Hs. destruct (record f x.1). simpl in *.
    unfold subs_of. simpl. by rewrite Hs.
  - intros x Hx. pose proof (clock_inv (subs := subs) x.1 Hx). by destruct (wall_clock x.1).
  - intros x. pose proof (clock_subs (inv := inv) x.1) as Hs. destruct (wall_clock x.1). simpl in *.
    unfold subs_of. simpl. by rewrite Hs.
Qed.

#[local] Instance interfered_time : TimeLaws interfered (λ _ _, True).
Proof. by split. Qed.

(** reconcileSubscriptions, with the others between its calls. *)
Definition interfered_reconcile (controller : string) (deps : list Dependency) : M interfered (list MError) :=
  reconcileSubscriptions controller owner deps.

(** The subscriptions after it. *)
Lemma reconcile_among controller deps x :
  let '(errs, x') := interfered_reconcile controller deps x in
  inv x.1 → inv x'.1 ∧ ∃ fails, errs = watch_errors fails deps ∧
    ∀ g, subs x'.1 g owner =
      if decide (deps_of g deps = []) then None
      else match fails !! g with
           | Some _ => subs x.1 g owner
           | None => Some (subscriber_for owner deps g)
           end.
Proof.
  unfold interfered_reconcile. pose proof (reconcileSubscriptions_run (λ _ _, True) inv_of subs_of controller owner deps x) as Hrun.
  destruct (reconcileSubscriptions _ _ _ x) as [errs x']. destruct Hrun as (_ & fails & -> & _ & _ & Hinv).
  intros Hx. destruct (Hinv Hx) as [Hx' Hs]. split; [done|]. exists fails. split; [done|]. intros g.
  specialize (Hs g owner). unfold subs_of in Hs. by rewrite !(decide_True (P := owner = owner)) in Hs.
Qed.
End interference.

(** ** The registry among several reconciles *)

Section others.
Context `{LabelsAPI} `{UnstructuredAPI} `{Formatting} {T : Type}.
Implicit Types (p : process T) (owner : OwnerKey).

(** What goes on while [owner] is reconciled: the calls of the reconciles of other
    owners, events dispatched, metrics, and whatever changes outside. *)
Inductive others (owner : OwnerKey) (p : process T) : process T → Prop :=
  | others_subscribe gvk scope sub : Owner sub ≠ owner → others owner p (reg_Subscribe gvk scope sub p).2
  | others_unsubscribe gvk o : o ≠ owner → others owner p (reg_Unsubscribe gvk o p).2
  | others_unsubscribe_all o : o ≠ owner → others owner p (reg_UnsubscribeAll o p).2
  | others_event gvk ev obj : others owner p (set_registry (dispatch gvk ev obj (p_registry p)) p)
  | others_record f : others owner p (record f p).2
  | others_outside p' : p_registry p' = p_registry p → others owner p p'.

Lemma others_rely owner p p' : others owner p p' → rely process_inv process_subs owner p p'.
Proof.
  intros Ho Hp. destruct Ho as [gvk scope sub Hne|gvk o Hne|o Hne|gvk ev obj|f|p' Heq].
  - split; [by apply (subscribe_inv (subs := process_subs))|]. intros g.
    destruct (reg_Subscribe gvk scope sub p).1 as [err|] eqn:Hres.
    + by apply (subscribe_err (inv := process_inv) _ _ _ _ err).
    + rewrite (subscribe_ok (inv := process_inv)) by done. by rewrite decide_False by naive_solver.
  - split; [by apply (unsubscribe_inv (subs := process_subs))|]. intros g.
    rewrite (unsubscribe_subs (inv := process_inv)) by done. by rewrite decide_False by naive_solver.
  - split; [by apply (unsubscribe_all_inv (subs := process_subs))|]. intros g.
    rewrite (unsubscribe_all_subs (inv := process_inv)) by done. by rewrite decide_False.
  - destruct Hp as [Hi Hst]. destruct (inv_dispatch gvk ev obj _ Hi) as [Hi' Hst'].
    split; [split; [exact Hi'|by etrans; [exact Hst'|]]|]. intros g.
    unfold process_subs, dispatch. by rewrite enqueue_fold.
  - split; [by apply (record_inv (subs := process_subs))|]. intros g. by rewrite (record_subs (inv := process_inv)).
  - unfold process_inv, process_subs. by rewrite Heq.
Qed.

Lemma others_run_rely owner p p' : rtc (others owner) p p' → rely process_inv process_subs owner p p'.
Proof. induction 1; [reflexivity|]. etrans; [by apply others_rely|done]. Qed.

(** A reconcile's calls are among the others of every other owner. *)
Lemma subscribe_groups_others owner o groups order errs p :
  o ≠ owner → rtc (others o) p (subscribe_groups owner groups order errs p).2.
Proof.
  intros Ho. revert errs p. induction order as [|gvk order IH]; intros errs p; simpl; [apply rtc_refl|].
  destruct (groups !! gvk) as [g|]; [|apply IH]. unfold mbind, M_bind.
  pose proof (others_subscribe o p gvk (g_scope g) (Build_Subscriber owner (g_matchers g)) ltac:(done)) as Hs.
  simpl in Hs. destruct (process_Subscribe _ _ _ p) as [err p1]. eapply rtc_l; [exact Hs|apply IH].
Qed.

Lemma drop_stale_others owner o groups prior p :
  o ≠ owner → rtc (others o) p (drop_stale owner groups prior p).2.
Proof.
  intros Ho. revert p. induction prior as [|gvk prior IH]; intros p; simpl; [apply rtc_refl|].
  unfold mbind, M_bind. destruct (groups !! gvk); [apply IH|].
  pose proof (others_unsubscribe o p gvk owner ltac:(done)) as Hs.
  eapply rtc_l; [exact Hs|apply IH].
Qed.

Lemma reconcile_others controller owner o deps p :
  o ≠ owner → rtc (others o) p (reconcileSubscriptions controller owner deps p).2.
Proof.
  intros Ho. unfold reconcileSubscriptions, observed. destruct (group_dependencies deps) as [order groups]. unfold_M.
  pose proof (subscribe_groups_others owner o groups order [] p Ho) as H1'.
  destruct (subscribe_groups _ _ _ _ p) as [errs p1].
  pose proof (drop_stale_others owner o groups (Registry_GVKsByOwner owner (p_registry p)) p1 Ho) as H2'.
  destruct (drop_stale _ _ _ p1) as [u p2]. simpl in *.
  etrans; [exact H1'|]. etrans; [exact H2'|]. apply rtc_once, (others_record o p2).
Qed.

(** C11: reconciles of different owners do not disturb each other. Let the calls of
    other owners' reconciles, events and outside changes come between any two
    calls one reconcile makes to the registry, as many as they like. Then after
    [reconcileSubscriptions] the registry's invariant holds: an informer runs for a
    GVK exactly when some owner is subscribed to it. A GVK of a dependency without
    error is subscribed, with every matcher declared for it, and its informer runs;
    a GVK with an error keeps the subscription it had; a GVK no dependency names
    has none. And to any other owner, this reconcile is such a sequence of calls. *)
Theorem reconcile_among_others controller owner deps env p n errs x' :
  (∀ n p, rtc (others owner) p (env n p)) → process_inv p →
  interfered_reconcile owner env controller deps (p, n) = (errs, x') →
  process_inv x'.1 ∧
  (∀ g, is_Some (informers (p_registry x'.1) !! g) ↔ ∃ o, is_Some (process_subs x'.1 g o)) ∧
  (∀ d, d ∈ deps → (∀ e, e ∈ errs → e_Name e ≠ d_Name d) →
     is_Some (informers (p_registry x'.1) !! d_GVK d) ∧
     ∃ sub, process_subs x'.1 (d_GVK d) owner = Some sub ∧
       ∀ d', d' ∈ deps → d_GVK d' = d_GVK d → matcher_of d' ∈ Matchers sub) ∧
  (∀ e, e ∈ errs → ∃ d, d ∈ deps ∧ d_Name d = e_Name e ∧ e_Reason e = ReasonWatchSetupFailed ∧
     process_subs x'.1 (d_GVK d) owner = process_subs p (d_GVK d) owner) ∧
  (∀ g, (¬ ∃ d, d ∈ deps ∧ d_GVK d = g) → process_subs x'.1 g owner = None) ∧
  ∀ o p, o ≠ owner → rtc (others o) p (reconcileSubscriptions controller owner deps p).2.
Proof.
  intros Henv Hp Hrun.
  pose proof (reconcile_among process_inv process_subs owner env (λ n p, others_run_rely owner p _ (Henv n p))
    controller deps (p, n)) as Hr.
  rewrite Hrun in Hr. destruct (Hr Hp) as (Hp' & fails & -> & Hsubs).
  assert (∀ d, d ∈ deps → deps_of (d_GVK d) deps ≠ []) as Hne by (intros d Hd Hnil%deps_of_nil; eauto).
  split_and!; [done|by intros g; apply running_subscribed| | | |by intros; apply reconcile_others].
  - intros d Hd Hno.
    assert (fails !! d_GVK d = None) as Hf.
    { apply eq_None_not_Some. intros [err Hf]. apply (Hno (watch_error (d_GVK d) err d)); [|done].
      apply elem_of_watch_errors. eauto. }
    assert (process_subs x'.1 (d_GVK d) owner = Some (subscriber_for owner deps (d_GVK d))) as Hsub
      by (rewrite Hsubs, decide_False, Hf; by auto).
    split; [apply running_subscribed; [done|]; eauto|]. eexists. split; [done|].
    intros d' Hd' Hg. apply list_elem_of_fmap. exists d'. by rewrite elem_of_deps_of.
  - intros e (d & err & Hd & Hf & ->)%elem_of_watch_errors. exists d.
    split_and!; [done..|]. rewrite Hsubs, decide_False, Hf; by auto.
  - intros g Hd. rewrite Hsubs, decide_True; [done|]. by apply deps_of_nil.
Qed.
End others.

(** ** A Milestone and its neighbour *)
Module ConcurrentFix.
Import Demo.
#[local] Existing Instance Fix.labels.
#[local] Existing Instance Fix.unstructured.
#[local] Existing Instance Fix.formatting.

Definition neighbour : OwnerKey := Build_OwnerKey "Milestone" "ns" "neighbour".
Definition everything : Subscriber := Build_Subscriber neighbour [].

(** The neighbour subscribes to the pods first and unsubscribes later; a pod
    comes in between. *)
Definition busy (n : nat) (p : world) : world :=
  match n with
  | 0 => (reg_Subscribe pods RESTScopeNameNamespace everything p).2
  | 1 => set_registry (dispatch pods EventAdd (pod "c" "Failed") (p_registry p)) p
  | 2 => (reg_Unsubscribe pods neighbour p).2
  | _ => p
  end.

Lemma busy_others n p : rtc (others owner) p (busy n p).
Proof.
  destruct n as [|[|[|n]]]; [apply rtc_once..|apply rtc_refl].
  - by apply others_subscribe.
  - apply others_event.
  - by apply others_unsubscribe.
Qed.

Definition among_neighbours : list MError * (world * nat) :=
  interfered_reconcile owner busy "milestone" web_deps (ready_cluster, 0).

Example neighbours_seen :
  among_neighbours.1 = [] ∧ enqueued (p_registry among_neighbours.2.1) = [owner; neighbour] ∧ among_neighbours.2.2 = 2.
Proof. vm_compute. split_and!; reflexivity. Qed.

Lemma reconcile_among_others_witness :
  process_inv among_neighbours.2.1 ∧ is_Some (informers (p_registry among_neighbours.2.1) !! pods) ∧
  is_Some (process_subs among_neighbours.2.1 pods owner).
Proof.
  destruct (reconcile_among_others "milestone" owner web_deps busy ready_cluster 0 among_neighbours.1 among_neighbours.2)
    as (Hinv & _ & Hrun & _).
  - exact busy_others.
  - apply process_inv_cluster.
  - unfold among_neighbours. by destruct (interfered_reconcile _ _ _ _ _).
  - split; [exact Hinv|]. assert (∃ d, d ∈ web_deps ∧ d_GVK d = pods) as (d & Hd & Hg) by (eexists; split; [by left|done]).
    destruct (Hrun d Hd) as [Hr (sub & Hs & _)].
    + intros e He. replace among_neighbours.1 with (@nil MError) in He by (vm_compute; reflexivity). by apply elem_of_nil in He.
    + rewrite Hg in Hr, Hs. split; [exact Hr|by exists sub].
Defined.
End ConcurrentFix.
