(* ===== verification/Schema.v ===== *)
(** * api/v1, the validation markers: what the API server admits as a status

    The markers of shared_types.go (enumerations, MaxItems, list-map keys, the
    rule of [Summary]) and those metav1.Condition brings into the generated CRD
    (config/crd/bases), as executable predicates. A status that violates them is
    refused by the API server, so the reconciler would never get it stored. *)

From S2P Require Import Prelude GoStd ApiV1 K8s Fixtures Metrics Status Membership Discovery Normalize SubscriberIndex StatusHelpers Text StatusPatch Reconciler ReconcilerSpec Registry Process.
From Stdlib Require Import Ascii.

(** ** Definitions *)

(** *** Character classes and the patterns *)

Definition between (lo hi c : ascii) : bool :=
  (N_of_ascii lo <=? N_of_ascii c)%N && (N_of_ascii c <=? N_of_ascii hi)%N.
Definition is_lower (c : ascii) : bool := between "a" "z" c.
Definition is_letter (c : ascii) : bool := is_lower c || between "A" "Z" c.
Definition is_digit (c : ascii) : bool := between "0" "9" c.
Definition is_alnum (c : ascii) : bool := is_letter c || is_digit c.
Definition one_of (l : list ascii) (c : ascii) : bool := bool_decide (c ∈ l).

(** [M*L]. *)
Fixpoint ends_in (M L : ascii → bool) (s : string) : bool :=
  match s with
  | "" => false
  | String c "" => L c
  | String c s => M c && ends_in M L s
  end.

(** [F(M*L)?]. *)
Definition framed (F M L : ascii → bool) (s : string) : bool :=
  match s with
  | "" => false
  | String c "" => F c
  | String c s => F c && ends_in M L s
  end.

(** ^[a-z0-9]([-a-z0-9]*[a-z0-9])?$ *)
Definition dns_label (s : string) : bool :=
  let c := λ c, is_lower c || is_digit c in framed c (λ x, c x || one_of ["-"%char] x) c s.

(** ^[A-Za-z]([A-Za-z0-9_,:]*[A-Za-z0-9_])?$ *)
Definition reason_pattern (s : string) : bool :=
  framed is_letter (λ c, is_alnum c || one_of ["_"%char; ","%char; ":"%char] c)
    (λ c, is_alnum c || one_of ["_"%char] c) s.

(** The name part of a qualified name, with its optional DNS prefix. *)
Definition type_name (s : string) : bool :=
  framed is_alnum (λ c, is_alnum c || one_of ["-"%char; "_"%char; "."%char] c) is_alnum s.
Definition type_pattern (s : string) : bool :=
  match split_on "/" s with
  | [name] => type_name name
  | [prefix; name] => forallb dns_label (split_on "." prefix) && type_name name
  | _ => false
  end.

(** *** Spec: the names of dependsOn *)

(** MinLength and MaxLength, in bytes: no fewer than the characters. *)
Definition length_in (lo hi : Z) (s : string) : bool :=
  (lo <=? Z.of_nat (String.length s))%Z && (Z.of_nat (String.length s) <=? hi)%Z.

(** MinLength=1, MaxLength=63 and the pattern of DependencyRef.Name. *)
Definition valid_name (s : string) : bool := length_in 1 63 s && dns_label s.

(** MaxItems=32 of spec.dependsOn. *)
Definition maxDependsOn : nat := 32.

(** *** Status *)

Definition condition_statuses : list ConditionStatus :=
  [ConditionTrue; ConditionFalse; ConditionUnknown].

Definition kstatus_values : list string :=
  [CurrentStatus; InProgressStatus; FailedStatus; NotFoundStatus; TerminatingStatus; UnknownStatus].

(** metav1.Condition, apart from its timestamp. *)
Definition valid_condition_body (c : Condition) : bool :=
  length_in 0 316 (c_Type c) && type_pattern (c_Type c) &&
  bool_decide (c_Status c ∈ condition_statuses) && (0 <=? c_ObservedGeneration c)%Z &&
  length_in 1 1024 (c_Reason c) && reason_pattern (c_Reason c) && length_in 0 32768 (c_Message c).

(** lastTransitionTime is required: a zero time is sent as null. *)
Definition valid_condition (c : Condition) : bool :=
  valid_condition_body c && negb (c_LastTransitionTime c =? 0)%Z.

Definition int32_summary (s : Summary) : bool :=
  forallb (λ x, (- 2 ^ 31 <=? x)%Z && (x <? 2 ^ 31)%Z)
    [Total s; Current s; InProgress s; Failed s; NotFound s; Terminating s; Unknown s; Suspended s].

Definition valid_summary (s : Summary) : bool := int32_summary s && bool_decide (summary_balanced s).

Definition valid_dependency (d : DependencyStatus) : bool :=
  bool_decide (ds_Ready d ∈ condition_statuses) && bool_decide (ds_Reason d ∈ dependency_reasons) &&
  valid_summary (ds_Summary d).

Definition valid_resource (r : ResourceStatus) : bool := bool_decide (rs_Status r ∈ kstatus_values).

Definition maxNotReadyResources : nat := 50.

Definition valid_conditions (cs : slice Condition) : bool :=
  forallb valid_condition (elems cs) && bool_decide (NoDup (c_Type <$> elems cs)).

Definition valid_status (sb : MilestoneStatusBase) : bool :=
  valid_conditions (Conditions sb) && valid_summary (sb_Summary sb) &&
  (forallb valid_dependency (elems (DependsOn sb)) && bool_decide (NoDup (ds_Name <$> elems (DependsOn sb)))) &&
  (forallb valid_resource (elems (NotReadyResources sb)) &&
   bool_decide (length (elems (NotReadyResources sb)) ≤ maxNotReadyResources)).

Example patterns :
  map type_pattern ["Ready"; "example.com/Ready"; "a/b/c"; ""; "-x"] = [true; true; false; false; false] ∧
  map reason_pattern ["ListFailed"; "a_"; "a,"; "9a"] = [true; true; false; false] ∧
  map valid_name ["wave-0"; "-a"; ""] = [true; false; false].
Proof. by vm_compute. Qed.

(** ** Conditions *)

(** Every reason of the vocabulary is one a condition may carry. *)
Lemma valid_reason reason :
  reason ∈ ReasonReconcileComplete :: ReasonAllDependenciesReady :: ReasonDependenciesNotReady
    :: ReasonDependenciesInProgress :: dependency_reasons →
  length_in 1 1024 reason = true ∧ reason_pattern reason = true.
Proof.
  intros Hin.
  assert (Forall (λ r, length_in 1 1024 r = true ∧ reason_pattern r = true)
    (ReasonReconcileComplete :: ReasonAllDependenciesReady :: ReasonDependenciesNotReady
      :: ReasonDependenciesInProgress :: dependency_reasons)) as Hall
    by (apply (bool_decide_unpack _); vm_compute; done).
  by apply (proj1 (Forall_forall _ _) Hall).
Qed.

Lemma valid_condition_body_intro t st generation at_ reason message :
  t ∈ [ConditionReady; ConditionStalled] → st ∈ condition_statuses → (0 ≤ generation)%Z →
  reason ∈ ReasonReconcileComplete :: ReasonAllDependenciesReady :: ReasonDependenciesNotReady
    :: ReasonDependenciesInProgress :: dependency_reasons →
  length_in 0 32768 message = true →
  valid_condition_body (Build_Condition t st generation at_ reason message) = true.
Proof.
  intros Ht Hst Hg [Hr1 Hr2]%valid_reason Hm. unfold valid_condition_body. simpl.
  rewrite Hr1, Hr2, Hm, (bool_decide_true (st ∈ _)) by done.
  rewrite (proj2 (Z.leb_le 0 generation)) by done.
  apply elem_of_cons in Ht as [->|Ht]; [reflexivity|].
  apply list_elem_of_singleton in Ht as ->. reflexivity.
Qed.

Section conditions.
Context `{ConditionsLaws}.

Lemma valid_conditions_alt cs :
  valid_conditions cs = true ↔
  Forall (λ c, valid_condition c = true) (elems cs) ∧ NoDup (c_Type <$> elems cs).
Proof.
  unfold valid_conditions. rewrite andb_true_iff, bool_decide_eq_true, forallb_elem.
  by rewrite Forall_forall.
Qed.

(** SetStatusCondition keeps a condition list valid. *)
Lemma set_condition_valid now cs c :
  now ≠ 0%Z → valid_condition_body c = true → valid_conditions cs = true →
  valid_conditions (SetStatusCondition now cs c) = true.
Proof.
  rewrite !valid_conditions_alt. intros Hnow Hc [Hall Hnd].
  destruct (split_at_type (elems cs) (c_Type c)) as [Habs|(pre & old & post & E & Hpre & Ht)].
  - rewrite set_absent by done. simpl. rewrite fmap_app. split.
    + apply Forall_app. split; [done|]. repeat constructor. unfold valid_condition.
      change (valid_condition_body (stamped_condition now c)) with (valid_condition_body c).
      rewrite Hc. simpl. case_decide as Hz; by rewrite (proj2 (Z.eqb_neq _ _)).
    + apply NoDup_app. split_and!; [done| |apply NoDup_singleton].
      intros t (c' & -> & Hin)%list_elem_of_fmap Heq%list_elem_of_singleton.
      rewrite Forall_forall in Habs. by apply (Habs c').
  - rewrite (set_existing _ _ pre old post) by done. simpl. rewrite E in Hall, Hnd.
    rewrite fmap_app, fmap_cons in *. split; [|done].
    apply Forall_app in Hall as [Hp [Ho Hq]%Forall_cons]. apply Forall_app. split; [done|].
    constructor; [|done]. unfold valid_condition in *. apply andb_true_iff in Ho as [_ Ho].
    apply andb_true_iff. split.
    + unfold valid_condition_body, updated_condition in *. simpl. by rewrite Ht.
    + simpl. repeat case_decide; [done|by rewrite (proj2 (Z.eqb_neq _ _))..].
Qed.
End conditions.

(** ** Rollups *)

Lemma int32_wrap s : int32_summary (wrap_summary s) = true.
Proof.
  apply forallb_elem. intros x Hx.
  assert (∃ z, x = wrap32 z) as [z ->] by (unfold wrap_summary in Hx; simpl in Hx; set_solver).
  pose proof (wrap32_range z). by rewrite (proj2 (Z.leb_le _ _)), (proj2 (Z.ltb_lt _ _)) by lia.
Qed.

Lemma ReduceDependency_valid name group version kind l policy suspendPolicy :
  (Z.of_nat (length l) < 2 ^ 31)%Z →
  valid_dependency (ReduceDependency name group version kind l policy suspendPolicy) = true.
Proof.
  intros Hlen. unfold valid_dependency, valid_summary.
  assert (∀ st reason, st ∈ condition_statuses → reason ∈ dependency_reasons →
    bool_decide (st ∈ condition_statuses) && bool_decide (reason ∈ dependency_reasons) = true) as Hb.
  { intros st reason Hs Hr. by rewrite !bool_decide_true. }
  assert (int32_summary (summarize l) && bool_decide (summary_balanced (summarize l)) = true) as Hs.
  { apply andb_true_iff. split; [rewrite summarize_wrap; apply int32_wrap|].
    apply bool_decide_eq_true. rewrite summarize_exact by done. apply exact_summary_balanced. }
  unfold ReduceDependency. repeat case_match; simpl; rewrite Hs, ?Hb; unfold condition_statuses; set_solver.
Qed.

Lemma FailedRollup_valid name gvk reason :
  reason ∈ dependency_reasons → valid_dependency (FailedRollup name gvk reason) = true.
Proof. intros Hr. unfold valid_dependency. simpl. by rewrite (bool_decide_true (reason ∈ _)). Qed.

Lemma rollup_of_valid `{LabelsAPI} `{UnstructuredAPI} d o :
  countable_listing o → valid_dependency (rollup_of d o) = true.
Proof.
  destruct o as [|[objs|err]]; intros Hc; [by apply FailedRollup_valid; set_solver|
    |by apply FailedRollup_valid; set_solver].
  apply ReduceDependency_valid. simpl in Hc. unfold members. rewrite length_fmap.
  pose proof (length_filter (λ u, Admits d (GetNamespace u) (GetLabels u) = true) objs). lia.
Qed.

Section owner.
Context `{LabelsAPI} `{UnstructuredAPI}.
Implicit Types (deps : list Dependency) (obs : list observation).

(** The rollups of a status, as a list: one per dependency and one per error. *)
Definition entry_list (pairs : list (Dependency * observation)) (depErrs : list MError)
    : list (string * DependencyStatus) :=
  ((λ p, (d_Name p.1, rollup_of p.1 p.2)) <$> pairs) ++ ((λ e, (e_Name e, error_rollup e)) <$> depErrs).

Lemma entry_list_names deps obs depErrs :
  length deps = length obs →
  (entry_list (zip deps obs) depErrs).*1 = (d_Name <$> deps) ++ (e_Name <$> depErrs).
Proof.
  intros Hlen. unfold entry_list. rewrite fmap_app, <- !list_fmap_compose. f_equal.
  rewrite <- (fst_zip deps obs) at 2 by lia. by rewrite <- list_fmap_compose.
Qed.

Lemma final_entries deps obs depErrs later :
  names_ok deps depErrs → length deps = length obs →
  (∀ e, e ∈ later → e_Name e ∈ d_Name <$> deps) →
  map_to_list (Rollups (rollups_of ∅ (zip deps obs)) (depErrs ++ later)) ≡ₚ entry_list (zip deps obs) depErrs.
Proof.
  intros Hnames Hlen Hlater. pose proof Hnames as [Hnd _]. rewrite <- (entry_list_names deps obs) in Hnd by done.
  rewrite <- (map_to_list_to_map (M := gmap string) (entry_list (zip deps obs) depErrs)) by done.
  assert (Rollups (rollups_of ∅ (zip deps obs)) (depErrs ++ later) =
    list_to_map (entry_list (zip deps obs) depErrs)) as ->; [|done]. apply map_eq. intros name. apply option_eq. intros st.
  rewrite final_rollups, <- elem_of_list_to_map by done. unfold entry_list, is_rollup.
  rewrite elem_of_app, !list_elem_of_fmap. split.
  - intros [-> [(d & o & Hp & ->)|(e & He & ->)]]; [left; exists (d, o)|right; exists e].
    + by rewrite ds_Name_rollup_of.
    + done.
  - intros [([d o] & [= -> ->] & Hp)|(e & [= -> ->] & He)].
    + rewrite ds_Name_rollup_of. split; [done|]. left. eauto.
    + split; [done|]. right. eauto.
Qed.

(** How many objects an observation counts. *)
Definition listed (o : observation) : Z :=
  match o with Listed (Ok objs) => Z.of_nat (length objs) | _ => 0 end.

Definition listed_total (obs : list observation) : Z := list_sum (map listed obs).

Lemma listed_nonneg o : (0 <= listed o)%Z.
Proof. destruct o as [|[]]; simpl; lia. Qed.

Lemma listed_sum_nonneg {A} (g : A → observation) l : (0 <= list_sum (map (λ x, listed (g x)) l))%Z.
Proof. apply list_sum_nonneg, Forall_map, Forall_true. intros x. apply listed_nonneg. Qed.

Lemma listed_total_ge obs o : o ∈ obs → (listed o <= listed_total obs)%Z.
Proof.
  induction obs as [|o' obs IH]; [set_solver|]. unfold listed_total in *. simpl.
  pose proof (listed_sum_nonneg (λ o, o) obs : (0 <= list_sum (map listed obs))%Z).
  pose proof (listed_nonneg o'). intros [->|Hin]%elem_of_cons; [lia|]. specialize (IH Hin). lia.
Qed.

Lemma count_bounds P (l : list Resource) : (0 <= count P l <= Z.of_nat (length l))%Z.
Proof. split; [apply count_nonneg|apply count_le]. Qed.

(** Every counter of a rollup is between 0 and the number of objects listed. *)
Lemma rollup_counters d o f :
  f ∈ [Total; Current; InProgress; Failed; NotFound; Terminating; Unknown; Suspended] →
  (listed o < 2 ^ 31)%Z → (0 <= f (ds_Summary (rollup_of d o)) <= listed o)%Z.
Proof.
  intros Hf Ho. destruct o as [|[objs|err]]; simpl in *; [set_solver by lia| |set_solver by lia].
  pose proof (length_filter (λ u, Admits d (GetNamespace u) (GetLabels u) = true) objs).
  assert (length (members d objs) ≤ length objs) as Hm by (unfold members; by rewrite length_fmap).
  rewrite ReduceDependency_exact by lia. simpl.
  assert (∀ P, (0 <= count P (members d objs) <= Z.of_nat (length objs))%Z) as Hc
    by (intros P; pose proof (count_bounds P (members d objs)); lia).
  rewrite !elem_of_cons, elem_of_nil in Hf. unfold exact_summary.
  destruct Hf as [->|[->|[->|[->|[->|[->|[->|[->|[]]]]]]]]]; simpl; try apply Hc; lia.
Qed.

Lemma entry_list_counters pairs depErrs f :
  f ∈ [Total; Current; InProgress; Failed; NotFound; Terminating; Unknown; Suspended] →
  (listed_total pairs.*2 < 2 ^ 31)%Z →
  (0 <= list_sum (map (λ e, f (ds_Summary e.2)) (entry_list pairs depErrs)) <= listed_total pairs.*2)%Z.
Proof.
  intros Hf. unfold entry_list. rewrite map_app, list_sum_app, !map_fmap. simpl.
  replace (list_sum (map (λ e, f Summary_zero) depErrs)) with 0%Z; cycle 1.
  { induction depErrs as [|e errs IH]; [done|]. simpl. rewrite <- IH.
    rewrite !elem_of_cons, elem_of_nil in Hf.
    by destruct Hf as [->|[->|[->|[->|[->|[->|[->|[->|[]]]]]]]]]. }
  rewrite Z.add_0_r. unfold listed_total. rewrite map_fmap.
  induction pairs as [|[d o] pairs IH]; simpl; [done|]. intros Hb.
  pose proof (listed_nonneg o).
  assert (0 <= list_sum (map (λ p, listed p.2) pairs))%Z by apply listed_sum_nonneg.
  pose proof (rollup_counters d o f Hf ltac:(lia)). specialize (IH ltac:(lia)). lia.
Qed.

Lemma SummarizeOwner_valid rollups pairs depErrs :
  map_to_list rollups ≡ₚ entry_list pairs depErrs → (listed_total pairs.*2 < 2 ^ 31)%Z →
  valid_summary (SummarizeOwner rollups) = true.
Proof.
  intros Hp Hb. unfold SummarizeOwner, valid_summary. rewrite summarize_entries_wrap.
  rewrite int32_wrap. simpl. apply bool_decide_eq_true.
  assert (exact_total (map_to_list rollups) = exact_total (entry_list pairs depErrs)) as ->
    by (unfold exact_total; by rewrite !Hp).
  assert (wrap_summary (exact_total (entry_list pairs depErrs)) = exact_total (entry_list pairs depErrs)) as ->.
  { unfold wrap_summary, exact_total. simpl. rewrite !wrap32_small; [done|..];
      match goal with |- context [list_sum (map (λ e, ?f (ds_Summary e.2)) _)] =>
        pose proof (entry_list_counters pairs depErrs f ltac:(set_solver) Hb) end; lia. }
  apply exact_total_balanced. apply Forall_app. split; apply Forall_forall; intros e He;
    apply list_elem_of_fmap in He as (x & -> & Hx); [|done]. destruct x as [d o].
  assert (o ∈ pairs.*2) as Ho by (apply list_elem_of_fmap; by exists (d, o)).
  pose proof (listed_total_ge _ _ Ho). pose proof (rollup_of_valid d o) as Hv.
  assert (countable_listing o) as Hc by (destruct o as [|[]]; simpl in *; [done|lia|done]).
  specialize (Hv Hc). unfold valid_dependency, valid_summary in Hv. simpl. by bsimp.
Qed.
End owner.

(** ** The parts of a status *)

Lemma strings_Join_length k l sep :
  Forall (λ s, String.length s ≤ k) l →
  String.length (strings_Join l sep) ≤ length l * (k + String.length sep).
Proof.
  induction 1 as [|s l Hs Hl IH]; [done|]. destruct l as [|s' l]; simpl in *; [lia|].
  rewrite !string_length_app. lia.
Qed.

Lemma valid_name_length s : valid_name s = true → String.length s ≤ 63.
Proof. unfold valid_name, length_in. intros H. bsimp. lia. Qed.

(** Owners whose spec the API server admitted: at most 32 dependencies, with
    valid names. *)
Definition names_admitted (names : list string) : Prop :=
  length names ≤ maxDependsOn ∧ Forall (λ s, valid_name s = true) names.

Lemma ReduceOwner_schema rollups entries names :
  map_to_list rollups ≡ₚ entries → entries.*1 = names → names_admitted names →
  let '(st, reason, message) := ReduceOwner rollups in
  st ∈ condition_statuses ∧
  reason ∈ ReasonReconcileComplete :: ReasonAllDependenciesReady :: ReasonDependenciesNotReady
    :: ReasonDependenciesInProgress :: dependency_reasons ∧
  length_in 0 32768 message = true.
Proof.
  intros Hp <- [Hlen Hnames]. rewrite ReduceOwner_unfold. unfold condition_statuses.
  case_decide; [split_and!; [set_solver|set_solver|done]|].
  case_decide; [case_decide; split_and!; set_solver|]. split_and!; [set_solver|set_solver|].
  assert (failed_names rollups ⊆+ entries.*1) as Hsub.
  { unfold failed_names, sort_Strings. rewrite sort_slice_perm, <- Hp. apply fmap_submseteq.
    apply sublist_submseteq, sublist_filter. }
  pose proof (submseteq_length _ _ Hsub) as Hl. unfold maxDependsOn in Hlen.
  assert (Forall (λ s, String.length s ≤ 63) (failed_names rollups)) as Hall.
  { apply Forall_forall. intros s Hs. apply valid_name_length.
    apply (proj1 (Forall_forall _ _) Hnames). by eapply elem_of_submseteq. }
  apply (strings_Join_length _ _ ", ") in Hall. simpl (String.length ", ") in Hall.
  unfold length_in. rewrite string_length_app. simpl (String.length "dependencies not ready: ").
  apply andb_true_iff. split; apply Z.leb_le; [lia|]. nia.
Qed.

Lemma sortedDependencyStatuses_names rollups :
  map_Forall (λ n st, ds_Name st = n) rollups →
  NoDup (ds_Name <$> elems (sortedDependencyStatuses rollups)).
Proof.
  intros Hkey. assert (ds_Name <$> elems (sortedDependencyStatuses rollups) ≡ₚ (map_to_list rollups).*1) as ->.
  { assert (elems (sortedDependencyStatuses rollups) ≡ₚ (map_to_list rollups).*2) as ->.
    { unfold sortedDependencyStatuses, sorted_entries. destruct (map_to_list rollups) as [|e l]; [done|].
      apply (sort_slice_perm name_less). }
    rewrite <- list_fmap_compose.
    erewrite list_fmap_ext; [done|]. intros i [n st] Hi. apply list_elem_of_lookup_2, elem_of_map_to_list in Hi. by apply Hkey. }
  apply NoDup_fst_map_to_list.
Qed.

Lemma capped_valid nr cap :
  (∀ x, x ∈ nr → rs_Status x ∈ kstatus_values) → (cap <= Z.of_nat maxNotReadyResources)%Z →
  let l := elems (capResources (dedupeAndSortResources nr) (resourceCap cap)).1 in
  forallb valid_resource l = true ∧ length l ≤ maxNotReadyResources.
Proof.
  intros Hk Hcap. cbv zeta.
  assert (∀ x, x ∈ elems (dedupeAndSortResources nr) → valid_resource x = true) as Hv.
  { intros x. unfold dedupeAndSortResources. destruct nr as [|y nr]; [intros []%not_elem_of_nil|].
    intros Hx. unfold elems in Hx. cbn [default from_option] in Hx. rewrite (sort_slice_perm resource_less) in Hx.
    apply elem_of_dedupe_sub in Hx as [Hx _]. apply bool_decide_eq_true. by apply Hk. }
  assert (0 < resourceCap cap <= Z.of_nat maxNotReadyResources)%Z as Hc.
  { unfold resourceCap, defaultResourceCap, maxNotReadyResources in *.
    destruct (cap <=? 0)%Z eqn:E; [lia|]. apply Z.leb_gt in E. lia. }
  unfold capResources. destruct (Z.leb_spec (Z.of_nat (length (elems (dedupeAndSortResources nr)))) (resourceCap cap)); simpl fst.
  - split; [by apply forallb_elem|lia].
  - destruct (dedupeAndSortResources nr) as [l|]; [|simpl in *; lia]. unfold elems in *. simpl in *. split.
    + apply forallb_elem. intros x Hx. apply Hv.
      rewrite <- (take_drop (Z.to_nat (resourceCap cap)) l). rewrite elem_of_app. by left.
    + rewrite length_take. lia.
Qed.

Lemma not_ready_statuses `{LabelsAPI} `{UnstructuredAPI} pairs :
  (∀ u res, kstatus_Compute u = Ok (Some res) → k_Status res ∈ kstatus_values) →
  ∀ x, x ∈ pairs ≫= (λ p, not_ready_of p.1 p.2) → rs_Status x ∈ kstatus_values.
Proof.
  intros Hk x ([d o] & Hx & _)%list_elem_of_bind. destruct o as [|[objs|err]]; simpl in Hx;
    [by apply not_elem_of_nil in Hx| |by apply not_elem_of_nil in Hx].
  unfold notReadyResourcesOf in Hx. apply list_elem_of_fmap in Hx as (m & -> & Hm).
  apply list_elem_of_filter in Hm as [_ Hm]. unfold members in Hm.
  apply list_elem_of_fmap in Hm as (u & -> & _).
  assert (r_Status (Compute u) ∈ kstatus_values) as Hs.
  { unfold Compute. destruct (NestedBool u _) as [[? ?] ?].
    destruct (kstatus_Compute u) as [[res|]|err] eqn:E; simpl; [by eapply Hk|unfold kstatus_values; set_solver..]. }
  unfold not_ready_status. by destruct (IsCurrent _).
Qed.

Lemma stalled_condition_valid cap generation errs :
  (0 <= generation)%Z → (∀ e, e ∈ errs → e_Reason e ∈ dependency_reasons) →
  valid_condition_body (stalled_condition cap generation errs) = true.
Proof.
  intros Hg Hr. unfold stalled_condition. destruct (sort_slice error_less errs) as [|first sorted] eqn:E.
  - apply valid_condition_body_intro; unfold condition_statuses; set_solver.
  - apply valid_condition_body_intro; [set_solver|unfold condition_statuses; set_solver|done| |].
    + do 4 right. apply Hr. rewrite <- (sort_slice_perm error_less errs), E. by left.
    + unfold stalled_message. case_match.
      match goal with |- length_in _ _ (truncateWithEllipsis ?s ?m) = true =>
        pose proof (truncate_spec s m) as [Hl _] end.
      unfold length_in. unfold maxStalledTotalChars in *. apply andb_true_iff. split; apply Z.leb_le; lia.
Qed.

(** ** What the reconciler publishes *)

Section publish.
Context {W : Type} `{LabelsAPI} `{UnstructuredAPI} `{Formatting} `{ApiErrors} `{ConditionsLaws}
  `{FinalizerAPI} `{MetaJSON}.
Context `{!RegistryAPI W} `{!NamespaceClient W} `{!Runtime W}.
Context (R : relation W) `{!TimeLaws W R}.
Context {T : Type} (r : Reconciler (W := W) T).
Hypothesis status_lens : ∀ sb obj,
  oa_Status _ (rc_Adapter _ r) (oa_set_Status _ (rc_Adapter _ r) sb obj) = sb.
Hypothesis normalize_time : ∀ obj w, R w (oa_Dependencies _ (rc_Adapter _ r) obj (rc_Resolver _ r) w).2.

(** kstatus computes one of its six values, and the clock is set. *)
Hypothesis kstatus_closed : ∀ u res, kstatus_Compute u = Ok (Some res) → k_Status res ∈ kstatus_values.
Hypothesis clock_set : ∀ w : W, (wall_clock w).1 ≠ 0%Z.

(** The reasons normalisation gives ([Normalize.error_of]) are enumerated. *)
Lemma error_of_reason name t ans mismatch failed e :
  error_of name t ans mismatch failed e → e_Reason e ∈ dependency_reasons.
Proof.
  intros (_ & _ & _ & Hans).
  assert (Hr : e_Reason e ∈ [ReasonDiscoveryUnavailable; ReasonGVKNotEstablished;
    ReasonNamespaceScopeMismatch; ReasonDiscoveryFailed]) by
    (destruct ans as [[gvk scope]|err]; destruct Hans as [_ Hans];
      destruct Hans as [Hans|Hans]; decompose [and] Hans; rewrite !elem_of_cons; tauto).
  revert Hr. generalize (e_Reason e). apply Forall_forall. apply (bool_decide_unpack _). vm_compute. exact I.
Qed.

Lemma later_reasons fails deps obs e :
  e ∈ watch_errors fails deps ++ (zip deps obs ≫= λ p, list_errors_of p.1 p.2) →
  e_Reason e ∈ dependency_reasons.
Proof.
  rewrite elem_of_app, elem_of_watch_errors, list_elem_of_bind.
  intros [(d & err & _ & _ & ->)|([d o] & He & _)]; [simpl; set_solver|].
  destruct o as [|[objs|err]]; simpl in He; [by apply not_elem_of_nil in He..|].
  apply list_elem_of_singleton in He as ->. simpl. set_solver.
Qed.

(** C4: what the reconciler publishes, the API server admits. For an owner whose
    spec and conditions are valid, the status a reconcile computes satisfies
    every validation of the CRD: the conditions are well formed and have distinct
    types; dependsOn has one entry per name, each with an enumerated Ready and
    Reason; every summary, the owner's too, balances within int32 as long as
    fewer than 2^31 objects were listed; the not-ready resources are at most
    fifty. *)
Theorem compute_status_valid obj w deps depErrs obj' w' :
  (oa_Dependencies _ (rc_Adapter _ r) obj (rc_Resolver _ r) w).1 = (deps, depErrs) →
  names_ok deps depErrs → names_admitted ((d_Name <$> deps) ++ (e_Name <$> depErrs)) →
  (∀ e, e ∈ depErrs → e_Reason e ∈ dependency_reasons) →
  (0 <= om_Generation (oa_Meta _ (rc_Adapter _ r) obj))%Z →
  (rc_ResourceCap _ r <= Z.of_nat maxNotReadyResources)%Z →
  valid_conditions (Conditions (oa_Status _ (rc_Adapter _ r) obj)) = true →
  compute_status r obj w = (obj', w') →
  ∃ obs, Forall2 (observed_as R (oa_OwnerKey _ (rc_Adapter _ r) obj) deps w w') deps obs ∧
    ((listed_total obs < 2 ^ 31)%Z → valid_status (oa_Status _ (rc_Adapter _ r) obj') = true).
Proof.
  intros Hdeps Hnames Hadm Hreasons Hgen Hcap Hprior Hrun.
  pose proof (compute_status_run R r normalize_time obj w deps depErrs Hdeps Hnames) as Hs.
  rewrite Hrun in Hs. destruct Hs as (_ & obs & fails & now1 & now2 & Hobs & _ & [[w1 Hn1] [w2 Hn2]] & ->).
  rewrite status_lens. exists obs. split; [done|]. intros Htotal.
  pose proof (Forall2_length _ _ _ Hobs) as Hlen.
  set (later := watch_errors fails deps ++ (zip deps obs ≫= λ p, list_errors_of p.1 p.2)).
  pose proof (final_entries deps obs depErrs later Hnames Hlen
    (λ e, later_names fails deps obs e Hlen)) as Hentries.
  pose proof (ReduceOwner_schema _ _ _ Hentries (entry_list_names deps obs depErrs Hlen) Hadm) as Hready.
  pose proof (apply_status_eq (rc_ResourceCap _ r) (rc_StalledErrorCap _ r) now1 now2
    (oa_Status _ (rc_Adapter _ r) obj) (om_Generation (oa_Meta _ (rc_Adapter _ r) obj))
    (rollups_of ∅ (zip deps obs)) (zip deps obs ≫= λ p, not_ready_of p.1 p.2) (depErrs ++ later)) as E.
  cbv zeta in E. set (all := Rollups _ _) in *.
  destruct (capped_valid (zip deps obs ≫= λ p, not_ready_of p.1 p.2) (rc_ResourceCap _ r)
    (not_ready_statuses _ kstatus_closed) Hcap) as [Hres Hmax].
  destruct (capResources _ _) as [resources truncated]. fold later. rewrite E.
  assert ((zip deps obs).*2 = obs) as Hsnd by (apply snd_zip; lia).
  assert (map_Forall (λ n st, ds_Name st = n ∧ valid_dependency st = true) all) as Hall.
  { intros n st Hl. apply elem_of_map_to_list in Hl. rewrite Hentries in Hl.
    apply elem_of_app in Hl as [Hl|Hl]; apply list_elem_of_fmap in Hl as (x & [= -> ->] & Hx).
    - split; [apply ds_Name_rollup_of|]. apply rollup_of_valid. destruct x as [d o].
      pose proof (listed_total_ge obs o (elem_of_zip_r _ _ _ _ Hx)). simpl.
      destruct o as [|[]]; simpl in *; [done|lia|done].
    - split; [done|]. apply FailedRollup_valid. by apply Hreasons. }
  unfold valid_status. cbn [Conditions sb_Summary DependsOn NotReadyResources].
  rewrite (SummarizeOwner_valid all (zip deps obs) depErrs) by (done || by rewrite Hsnd).
  simpl in Hres, Hmax. rewrite Hres, (bool_decide_true (length _ ≤ _)) by done.
  rewrite (bool_decide_true (NoDup _)); cycle 1.
  { apply sortedDependencyStatuses_names. eapply map_Forall_impl; [exact Hall|]. by intros n st []. }
  assert (forallb valid_dependency (elems (sortedDependencyStatuses all)) = true) as ->.
  { apply forallb_elem. intros st [n Hst]%elem_of_sortedDependencyStatuses. by apply (Hall n). }
  rewrite !andb_true_r.
  apply set_condition_valid; [rewrite <- Hn2; apply clock_set| |apply set_condition_valid; [|  |done]].
  - apply stalled_condition_valid; [done|]. intros e [?|?]%elem_of_app; [auto|].
    by apply (later_reasons fails deps obs).
  - rewrite <- Hn1. apply clock_set.
  - unfold ready_condition. destruct (ReduceOwner all) as [[st reason] message].
    destruct Hready as (? & ? & ?). apply valid_condition_body_intro; [set_solver|done..].
Qed.
End publish.

(** ** A still cluster, for the witnesses: nothing changes, and it is 7 o'clock *)

Module Still.
#[local] Existing Instance Fix.labels.
#[local] Existing Instance Fix.unstructured.
#[local] Existing Instance Fix.formatting.
#[local] Existing Instance Fix.api_errors.
#[local] Existing Instance Fix.conditions.
#[local] Existing Instance Fix.conditions_laws.

Definition cached : list Unstructured :=
  [Demo.pod "b" "InProgress"; Demo.pod "a" "Current";
   Fix.Build_object Demo.pods "other" "c" {["app" := "web"]} false "Failed" "";
   Fix.Build_object Demo.pods "ns" "d" {["app" := "db"]} false "Failed" ""].

#[local] Instance still_registry : RegistryAPI unit := {
  reg_Subscribe := λ _ _ _ w, (None, w);
  reg_Unsubscribe := λ _ _ w, (tt, w);
  reg_UnsubscribeAll := λ _ w, (tt, w);
  reg_List := λ _ w, (Ok cached, w);
  reg_GVKsByOwner := λ _ w, ([], w);
}.
#[local] Instance still_runtime : Runtime unit := { wall_clock := λ w, (7%Z, w); record := λ _ w, (tt, w) }.
#[local] Instance still_namespaces : NamespaceClient unit := { client_ListNamespaces := λ sel w, (Ok [], w) }.
#[local] Instance still_time : TimeLaws unit (λ _ _, True).
Proof. by split. Qed.

Definition resolver : Resolver unit := {|
  Resolve := λ group kind version w, 
    (if decide (kind = "Gone") then Err ErrGVKNotEstablished
     else Ok (GVK group "v1" kind, RESTScopeNameNamespace), w);
  Resolver_Invalidate := λ w, (tt, w);
  Resolver_InvalidateGroupKind := λ _ _ w, (tt, w);
|}.

Definition reconciler : Reconciler (W := unit) Demo.milestone := {|
  rc_Resolver := Some resolver;
  rc_Adapter := MilestoneAdapter;
  rc_Controller := "milestone";
  rc_FluxNotifier := None;
  rc_Now := None;
  rc_ResourceCap := 0;
  rc_StalledErrorCap := 0;
|}.


Lemma still_lens sb (m : Demo.milestone) :
  oa_Status _ (rc_Adapter _ reconciler) (oa_set_Status _ (rc_Adapter _ reconciler) sb m) = sb.
Proof. done. Qed.

Lemma still_kstatus u res : kstatus_Compute u = Ok (Some res) → k_Status res ∈ kstatus_values.
Proof.
  cbn [kstatus_Compute Fix.unstructured]. destruct (decide (Fix.o_Status u ∈ _)) as [Hin|]; [|done].
  intros [= <-]. exact Hin.
Qed.

Lemma still_clock (w : unit) : (wall_clock w).1 ≠ 0%Z.
Proof. discriminate. Qed.

Definition two_deps : Demo.milestone :=
  Demo.object [Finalizer] None [Demo.dep "web" "Pod" "web"; Demo.dep "gone" "Gone" "x"].
Definition normalized := (NormalizeMilestone (Some resolver) two_deps tt).1.
Definition computed : Demo.milestone := (compute_status reconciler two_deps tt).1.

Lemma compute_status_valid_witness :
  length (elems (NotReadyResources (m_Status computed))) = 1 ∧ valid_status (m_Status computed) = true.
Proof.
  split; [vm_compute; reflexivity|].
  destruct (compute_status_valid (λ _ _ : unit, True) reconciler still_lens (λ _ _, I)
    still_kstatus still_clock
    two_deps tt normalized.1 normalized.2 computed tt) as (obs & Hobs & Hv).
  - vm_compute. reflexivity.
  - split; apply (bool_decide_unpack _); vm_compute; done.
  - split; [vm_compute; lia|]. apply (bool_decide_unpack _). vm_compute. done.
  - intros e He. assert (normalized.2 = [default e (head normalized.2)]) as E by (vm_compute; reflexivity).
    rewrite E in He. apply list_elem_of_singleton in He as ->.
    apply (bool_decide_unpack _). vm_compute. done.
  - vm_compute. done.
  - vm_compute. done.
  - vm_compute. reflexivity.
  - vm_compute. reflexivity.
  - apply Hv. assert (Forall2 (λ _ o, (listed o <= 4)%Z) normalized.1 obs) as Hall.
    { eapply Forall2_impl; [exact Hobs|]. intros d [|res] Ho; [simpl; lia|].
      destruct Ho as (_ & wi & _ & _ & <-). simpl. lia. }
    clear -Hall. assert (length normalized.1 = 1) as Hl by (vm_compute; reflexivity).
    revert Hall Hl. generalize normalized.1. intros l Hall Hl.
    destruct Hall as [|d o ds obs Ho Hobs]; [unfold listed_total; simpl; lia|].
    destruct Hobs; [|discriminate Hl]. unfold listed_total. simpl. lia.
Defined.
End Still.
