(* ===== verification/CRDWatcher.v ===== *)
(** * internal/controller/crd_watcher.go

    The lifecycle of CustomResourceDefinitions drives the discovery cache, the
    informer registry and the owners' queues. What the watcher remembers per CRD
    is threaded explicitly; the API client, the resolver, the registry and the
    queues are operations on a world [W]. *)

From S2P Require Import Prelude GoStd ApiV1 K8s Fixtures Metrics Status Membership Discovery Normalize SubscriberIndex StatusHelpers StatusPatch Reconciler.

(** ** Definitions *)

(** What the watcher reads of a CustomResourceDefinition. *)
Record CustomResourceDefinition := {
  crd_Group : string;
  crd_Kind : string;
  crd_Conditions : list (string * ConditionStatus);
}.

(** apiextv1.Established. *)
Definition Established : string := "Established".

Record groupKind := { gk_group : string; gk_kind : string }.
#[export] Instance groupKind_eq_dec : EqDecision groupKind.
Proof. solve_decision. Defined.

Record crdState := { cs_gk : groupKind; cs_established : bool }.

#[export] Instance crdState_eq_dec : EqDecision crdState.
Proof. solve_decision. Defined.

Definition crdState_zero : crdState := Build_crdState (Build_groupKind "" "") false.

(** types.NamespacedName of a request. *)
Abbreviation Request := (string * string)%type.

(** The client's reads. *)
Class CRDClient (W : Type) `{LabelsAPI} := {
  crd_Get : string → M W (result CustomResourceDefinition);
  list_Milestones : M W (result (list (Milestone LabelSelector)));
  list_ClusterMilestones : M W (result (list (ClusterMilestone LabelSelector)));
}.

Definition crdEstablished (crd : CustomResourceDefinition) : bool :=
  existsb (λ c, bool_decide (c.1 = Established) && bool_decide (c.2 = ConditionTrue))
    (crd_Conditions crd).

Section watcher.
Context {W : Type} `{LabelsAPI} `{ApiErrors} `{!CRDClient W} `{!Runtime W}.

(** Every field may be nil. *)
Record CRDWatcher := {
  cw_Resolver : option (Resolver W);
  cw_Registry : option (string → string → M W unit);
  cw_MilestoneEnqueue : option (Request → M W unit);
  cw_ClusterMilestoneEnqueue : option (Request → M W unit);
}.

Definition anyTargetMatches (deps : list (DependencyRef LabelSelector)) (gk : GroupKind) : bool :=
  existsb (λ d, bool_decide (TargetSpec_GroupKind (dr_Target d) = gk)) deps.

Definition anyClusterTargetMatches (deps : list (ClusterDependencyRef LabelSelector))
    (gk : GroupKind) : bool :=
  existsb (λ d, bool_decide (TargetSpec_GroupKind (cts_TargetSpec (cdr_Target d)) = gk)) deps.

(** The loops of [wakeMilestones] and [wakeClusterMilestones]. *)
Fixpoint wake_each {T} (enqueue : Request → M W unit) (woken : T → bool) (key : T → Request)
    (items : list T) : M W unit :=
  match items with
  | [] => mret tt
  | x :: items =>
      (if woken x then
         enqueue (key x);;
         record (Inc OwnersWoken ["crd_established"])
       else mret tt);;
      wake_each enqueue woken key items
  end.

Definition milestone_key (m : Milestone LabelSelector) : Request :=
  (om_Namespace (m_Meta m), om_Name (m_Meta m)).
Definition cluster_milestone_key (m : ClusterMilestone LabelSelector) : Request :=
  (om_Namespace (cm_Meta m), om_Name (cm_Meta m)).

Definition wakeMilestones (cw : CRDWatcher) (group kind : string) : M W (option error) :=
  match cw_MilestoneEnqueue cw with
  | None => mret None
  | Some enqueue =>
      items ← list_Milestones;
      match items with
      | Err err => mret (Some err)
      | Ok items =>
          wake_each enqueue (λ m, anyTargetMatches (m_DependsOn m) (GK group kind))
            milestone_key items;;
          mret None
      end
  end.

Definition wakeClusterMilestones (cw : CRDWatcher) (group kind : string) : M W (option error) :=
  match cw_ClusterMilestoneEnqueue cw with
  | None => mret None
  | Some enqueue =>
      items ← list_ClusterMilestones;
      match items with
      | Err err => mret (Some err)
      | Ok items =>
          wake_each enqueue (λ m, anyClusterTargetMatches (cm_DependsOn m) (GK group kind))
            cluster_milestone_key items;;
          mret None
      end
  end.

(** [errors.Join] of two errors that may be nil. *)
Definition join_errors (errs : list (option error)) : option error :=
  match omap id errs with
  | [] => None
  | errs => Some (errors_Join errs)
  end.

Definition applyTransition (cw : CRDWatcher) (gk : groupKind) : M W (option error) :=
  match cw_Resolver cw with
  | Some r => Resolver_InvalidateGroupKind (Resolver := r) (gk_group gk) (gk_kind gk)
  | None => mret tt
  end;;
  match cw_Registry cw with
  | Some invalidate => invalidate (gk_group gk) (gk_kind gk)
  | None => mret tt
  end;;
  mErr ← wakeMilestones cw (gk_group gk) (gk_kind gk);
  cErr ← wakeClusterMilestones cw (gk_group gk) (gk_kind gk);
  mret (join_errors [mErr; cErr]).

Definition peekObserved (lastObserved : gmap string crdState) (name : string) : option crdState :=
  lastObserved !! name.

Definition commitObserved (lastObserved : gmap string crdState) (name : string)
    (current : crdState) (missing : bool) : gmap string crdState :=
  if missing then delete name lastObserved else <[name := current]> lastObserved.

(** The [switch] of Reconcile: what to fire, and whether it is establishing. *)
Definition transition (prior : option crdState) (current : crdState) : option groupKind * bool :=
  match prior with
  | None => (None, false)
  | Some prior =>
      if cs_established current &&
         (negb (cs_established prior) || negb (bool_decide (cs_gk prior = cs_gk current)))
      then (Some (cs_gk current), true)
      else if cs_established prior && negb (cs_established current)
      then (Some (cs_gk prior), false)
      else (None, false)
  end.

(** The state of a CRD that was read. *)
Definition observe_crd (crd : CustomResourceDefinition) : crdState :=
  Build_crdState (Build_groupKind (crd_Group crd) (crd_Kind crd)) (crdEstablished crd).

(** The rest of Reconcile, once the current state is known. *)
Definition observe_change (cw : CRDWatcher) (name : string) (lastObserved : gmap string crdState)
    (current : crdState) (missing : bool) : M W (option error * gmap string crdState) :=
  let '(fire, establishing) := transition (peekObserved lastObserved name) current in
  match fire with
  | None => mret (None, commitObserved lastObserved name current missing)
  | Some gk =>
      err ← applyTransition cw gk;
      match err with
      | Some err => mret (Some err, lastObserved)
      | None =>
          (if (establishing : bool) then record (Inc CRDEstablishedEvents [gk_group gk; gk_kind gk])
           else mret tt);;
          mret (None, commitObserved lastObserved name current missing)
      end
  end.

Definition CRDWatcher_Reconcile (cw : CRDWatcher) (name : string)
    (lastObserved : gmap string crdState) : M W (option error * gmap string crdState) :=
  got ← crd_Get name;
  match got with
  | Ok crd => observe_change cw name lastObserved (observe_crd crd) false
  | Err err =>
      if IsNotFound err then observe_change cw name lastObserved crdState_zero true
      else mret (Some err, lastObserved)
  end.
End watcher.

(** ** What a reconcile does *)

(** The effects on the rest of the operator. *)
Inductive crd_effect :=
  | DropDiscovery (group kind : string)
  | DropInformers (group kind : string)
  | WakeMilestone (req : Request)
  | WakeClusterMilestone (req : Request).

Section theorems.
Context {W : Type} `{LabelsAPI} `{ApiErrors} `{!CRDClient W} `{!Runtime W}.
Context (cw : CRDWatcher (W := W)) (r : Resolver W) (invalidate : string → string → M W unit)
  (enqueue cluster_enqueue : Request → M W unit).

(** The watcher fully wired, as cmd/manager/main.go does. *)
Hypothesis wired : cw = Build_CRDWatcher (Some r) (Some invalidate) (Some enqueue) (Some cluster_enqueue).

(** [log] is what happened so far, [ms] and [cms] what the API server answers to
    the two lists; [does m effects] says what an operation adds to the log, and
    that it leaves the answers alone. *)
Context (log : W → list crd_effect).
Context (ms : W → result (list (Milestone LabelSelector)))
  (cms : W → result (list (ClusterMilestone LabelSelector))).

Definition does {A} (m : M W A) (effects : list crd_effect) : Prop := ∀ w,
  log (m w).2 = log w ++ effects ∧ ms (m w).2 = ms w ∧ cms (m w).2 = cms w.

Hypothesis does_record : ∀ f, does (record f) [].
Hypothesis does_get : ∀ name, does (crd_Get name) [].
Hypothesis does_list : does list_Milestones [].
Hypothesis does_list_cluster : does list_ClusterMilestones [].
Hypothesis list_answer : ∀ w, (list_Milestones w).1 = ms w.
Hypothesis list_cluster_answer : ∀ w, (list_ClusterMilestones w).1 = cms w.
Hypothesis does_resolver : ∀ group kind,
  does (Resolver_InvalidateGroupKind (Resolver := r) group kind) [DropDiscovery group kind].
Hypothesis does_registry : ∀ group kind, does (invalidate group kind) [DropInformers group kind].
Hypothesis does_enqueue : ∀ req, does (enqueue req) [WakeMilestone req].
Hypothesis does_enqueue_cluster : ∀ req, does (cluster_enqueue req) [WakeClusterMilestone req].

Lemma does_ret {A} (a : A) : does (mret a) [].
Proof. intros w. simpl. by rewrite app_nil_r. Qed.

Lemma does_bind {A B} (m : M W A) (f : A → M W B) e1 e2 :
  does m e1 → (∀ a, does (f a) e2) → does (m ≫= f) (e1 ++ e2).
Proof.
  intros Hm Hf w. unfold_M. specialize (Hm w). destruct (m w) as [a w1]. simpl in Hm.
  specialize (Hf a w1). destruct Hm as (-> & -> & ->) || destruct Hm as (E1 & E2 & E3).
  destruct Hf as (F1 & F2 & F3). by rewrite F1, F2, F3, E1, E2, E3, <- app_assoc.
Qed.

(** A milestone with a dependency on the group and kind, whatever the version. *)
Definition references (gk : groupKind) (m : Milestone LabelSelector) : Prop :=
  ∃ d, d ∈ m_DependsOn m ∧ ts_Group (dr_Target d) = gk_group gk ∧ ts_Kind (dr_Target d) = gk_kind gk.
Definition cluster_references (gk : groupKind) (m : ClusterMilestone LabelSelector) : Prop :=
  ∃ d, d ∈ cm_DependsOn m ∧ ts_Group (cts_TargetSpec (cdr_Target d)) = gk_group gk ∧
       ts_Kind (cts_TargetSpec (cdr_Target d)) = gk_kind gk.

Lemma anyTargetMatches_spec gk m :
  anyTargetMatches (m_DependsOn m) (GK (gk_group gk) (gk_kind gk)) = true ↔ references gk m.
Proof.
  unfold anyTargetMatches, references, TargetSpec_GroupKind. rewrite existsb_elem.
  setoid_rewrite bool_decide_eq_true. naive_solver congruence.
Qed.

Lemma anyClusterTargetMatches_spec gk m :
  anyClusterTargetMatches (cm_DependsOn m) (GK (gk_group gk) (gk_kind gk)) = true ↔ cluster_references gk m.
Proof.
  unfold anyClusterTargetMatches, cluster_references, TargetSpec_GroupKind. rewrite existsb_elem.
  setoid_rewrite bool_decide_eq_true. naive_solver congruence.
Qed.

(** The requests a listing wakes, in its order. *)
Definition wakes {T} (woken : T → bool) (key : T → Request) (items : result (list T)) : list Request :=
  match items with Ok l => key <$> filter (λ x, woken x = true) l | Err _ => [] end.

Definition transition_effects (gk : groupKind) (w : W) : list crd_effect :=
  [DropDiscovery (gk_group gk) (gk_kind gk); DropInformers (gk_group gk) (gk_kind gk)]
    ++ (WakeMilestone <$> wakes (λ m, anyTargetMatches (m_DependsOn m) (GK (gk_group gk) (gk_kind gk)))
          milestone_key (ms w))
    ++ (WakeClusterMilestone <$> wakes (λ m, anyClusterTargetMatches (cm_DependsOn m)
          (GK (gk_group gk) (gk_kind gk))) cluster_milestone_key (cms w)).

Lemma does_wake_each {T} (enq : Request → M W unit) (effect : Request → crd_effect) (woken : T → bool)
    (key : T → Request) items :
  (∀ req, does (enq req) [effect req]) →
  does (wake_each enq woken key items) (effect <$> wakes woken key (Ok items)).
Proof.
  intros He. induction items as [|x items IH]; [apply does_ret|]. simpl. rewrite filter_cons.
  destruct (woken x); simpl.
  - apply (does_bind _ _ [effect (key x)]); [|intros _; apply IH].
    apply (does_bind _ _ [effect (key x)] []); [done|]. intros _. apply does_record.
  - apply (does_bind _ _ []); [apply does_ret|intros _; apply IH].
Qed.

Definition result_error {A} (x : result A) : option error :=
  match x with Ok _ => None | Err err => Some err end.

(** The two wakes have the same shape: list, then wake each. *)
Lemma wake_run {T} (lst : M W (result (list T))) (answer : W → result (list T))
    (enq : Request → M W unit) (effect : Request → crd_effect) woken key w :
  does lst [] → (∀ w, (lst w).1 = answer w) → (∀ req, does (enq req) [effect req]) →
  let run := items ← lst; match items with
             | Err err => mret (Some err)
             | Ok items => wake_each enq woken key items;; mret None
             end in
  (run w).1 = result_error (answer w) ∧
  log (run w).2 = log w ++ (effect <$> wakes woken key (answer w)) ∧
  ms (run w).2 = ms w ∧ cms (run w).2 = cms w.
Proof.
  intros Hl Ha He. cbv zeta. unfold_M. specialize (Hl w). specialize (Ha w).
  destruct (lst w) as [items w1]. simpl in Hl, Ha. destruct Hl as (Hl & Hm & Hc). rewrite app_nil_r in Hl.
  rewrite <- Ha. destruct items as [items|err]; simpl.
  - destruct (does_wake_each enq effect woken key items He w1) as (Hw & Hwm & Hwc).
    destruct (wake_each enq woken key items w1) as [u w2]. simpl in *.
    by rewrite Hw, Hwm, Hwc, Hl, Hm, Hc.
  - by rewrite app_nil_r.
Qed.

Definition wake_error (w : W) : option error := join_errors [result_error (ms w); result_error (cms w)].

Lemma wake_error_None w : wake_error w = None ↔ is_Ok (ms w) = true ∧ is_Ok (cms w) = true.
Proof. unfold wake_error. destruct (ms w), (cms w); naive_solver. Qed.

Lemma wakeMilestones_run gk w :
  (wakeMilestones cw (gk_group gk) (gk_kind gk) w).1 = result_error (ms w) ∧
  log (wakeMilestones cw (gk_group gk) (gk_kind gk) w).2 = log w ++ (WakeMilestone <$>
    wakes (λ m, anyTargetMatches (m_DependsOn m) (GK (gk_group gk) (gk_kind gk))) milestone_key (ms w)) ∧
  ms (wakeMilestones cw (gk_group gk) (gk_kind gk) w).2 = ms w ∧
  cms (wakeMilestones cw (gk_group gk) (gk_kind gk) w).2 = cms w.
Proof. rewrite wired. by apply (wake_run list_Milestones ms enqueue WakeMilestone). Qed.

Lemma wakeClusterMilestones_run gk w :
  (wakeClusterMilestones cw (gk_group gk) (gk_kind gk) w).1 = result_error (cms w) ∧
  log (wakeClusterMilestones cw (gk_group gk) (gk_kind gk) w).2 = log w ++ (WakeClusterMilestone <$>
    wakes (λ m, anyClusterTargetMatches (cm_DependsOn m) (GK (gk_group gk) (gk_kind gk)))
      cluster_milestone_key (cms w)) ∧
  ms (wakeClusterMilestones cw (gk_group gk) (gk_kind gk) w).2 = ms w ∧
  cms (wakeClusterMilestones cw (gk_group gk) (gk_kind gk) w).2 = cms w.
Proof. rewrite wired. by apply (wake_run list_ClusterMilestones cms cluster_enqueue WakeClusterMilestone). Qed.

Lemma applyTransition_run gk w :
  (applyTransition cw gk w).1 = wake_error w ∧
  log (applyTransition cw gk w).2 = log w ++ transition_effects gk w.
Proof.
  unfold applyTransition, transition_effects, wake_error. unfold_M.
  pose proof (wakeMilestones_run gk) as Hm. pose proof (wakeClusterMilestones_run gk) as Hc.
  rewrite wired in Hm, Hc |- *. simpl.
  destruct (does_resolver (gk_group gk) (gk_kind gk) w) as (Hr & Hrm & Hrc).
  destruct (Resolver_InvalidateGroupKind _ _ w) as [u1 w1]. simpl in Hr, Hrm, Hrc.
  destruct (does_registry (gk_group gk) (gk_kind gk) w1) as (Hg & Hgm & Hgc).
  destruct (invalidate _ _ w1) as [u2 w2]. simpl in Hg, Hgm, Hgc. destruct (Hm w2) as (Em & Lm & Mm & Mc).
  destruct (wakeMilestones _ _ _ w2) as [mErr w3]. simpl in Em, Lm, Mm, Mc.
  destruct (Hc w3) as (Ec & Lc & _). destruct (wakeClusterMilestones _ _ _ w3) as [cErr w4].
  simpl in Ec, Lc |- *. subst mErr cErr.
  rewrite Lc, Lm, Hg, Hr, Mc, Hgm, Hgc, Hrm, Hrc. by rewrite <- !app_assoc.
Qed.

(** What the watcher saw of the CRD: its state, or that it is gone. *)
Definition seen_crd (got : result CustomResourceDefinition) : option (crdState * bool) :=
  match got with
  | Ok crd => Some (observe_crd crd, false)
  | Err err => if IsNotFound err then Some (crdState_zero, true) else None
  end.

(** The outcome of a reconcile that saw [current]. *)
Definition observed_change (name : string) (seen0 : gmap string crdState) (w : W) (current : crdState)
    (missing : bool) (err : option error) (seen' : gmap string crdState) (w' : W) : Prop :=
  match (transition (seen0 !! name) current).1 with
  | None => err = None ∧ seen' = commitObserved seen0 name current missing ∧ log w' = log w
  | Some gk =>
      err = wake_error w ∧ log w' = log w ++ transition_effects gk w ∧
      seen' = if bool_decide (wake_error w = None) then commitObserved seen0 name current missing else seen0
  end.

Lemma observe_change_run name seen0 current missing w :
  let '((err, seen'), w') := observe_change cw name seen0 current missing w in
  observed_change name seen0 w current missing err seen' w'.
Proof.
  unfold observe_change, observed_change, peekObserved.
  destruct (transition _ current) as [[gk|] establishing]; simpl; [|done].
  unfold_M. destruct (applyTransition_run gk w) as [He Hl].
  destruct (applyTransition cw gk w) as [err w2]. simpl in He, Hl. subst err.
  destruct (wake_error w) as [err|]; [done|]. destruct establishing; [|done].
  destruct (does_record (Inc CRDEstablishedEvents [gk_group gk; gk_kind gk]) w2) as [Hr _].
  destruct (record _ w2) as [u w3]. simpl in Hr. by rewrite Hr, app_nil_r.
Qed.

Lemma Reconcile_run name seen0 w :
  let '((err, seen'), w') := CRDWatcher_Reconcile cw name seen0 w in
  match seen_crd (crd_Get name w).1 with
  | None => is_Some err ∧ seen' = seen0 ∧ log w' = log w
  | Some (current, missing) => observed_change name seen0 w current missing err seen' w'
  end.
Proof.
  unfold CRDWatcher_Reconcile. unfold_M. destruct (does_get name w) as (Hg & Hm & Hc).
  destruct (crd_Get name w) as [got w1]. simpl in Hg, Hm, Hc |- *. rewrite app_nil_r in Hg.
  assert (∀ current missing, let '((err, seen'), w') := observe_change cw name seen0 current missing w1 in
    observed_change name seen0 w current missing err seen' w') as Hfire.
  { intros current missing. pose proof (observe_change_run name seen0 current missing w1) as Hrun.
    destruct (observe_change _ _ _ _ _ w1) as [[err seen'] w'].
    unfold observed_change, wake_error, transition_effects in *. by rewrite Hg, Hm, Hc in Hrun. }
  destruct got as [crd|err]; simpl; [apply Hfire|].
  destruct (IsNotFound err); [apply Hfire|]. split; [by eexists|done].
Qed.

(** C22: one reconcile of a CRD. A CRD seen for the first time is recorded
    silently. When a recorded CRD becomes Established (or its group or kind
    changes while it is), or stops being Established, the discovery entry and
    the informers of the kind that was gained, or lost, are dropped, and then
    every Milestone and ClusterMilestone with a dependency on that group and
    kind is woken, and no other. The new state is recorded exactly when this
    succeeded: after a failed list, or a failed read of the CRD, the recorded
    state is what it was. *)
Theorem CRDWatcher_Reconcile_spec name seen0 w :
  let '((err, seen'), w') := CRDWatcher_Reconcile cw name seen0 w in
  match seen_crd (crd_Get name w).1 with
  | None => is_Some err ∧ seen' = seen0 ∧ log w' = log w
  | Some (current, missing) =>
      let fired : option groupKind :=
        match seen0 !! name with
        | None => None
        | Some prior =>
            if cs_established current then
              if decide (prior = current) then None else Some (cs_gk current)
            else if cs_established prior then Some (cs_gk prior) else None
        end in
      (err = None ↔ (is_Some fired → is_Ok (ms w) = true ∧ is_Ok (cms w) = true)) ∧
      seen' = match err with
              | Some _ => seen0
              | None => if missing then delete name seen0 else <[name := current]> seen0
              end ∧
      match fired with
      | None => log w' = log w
      | Some gk => ∃ woken cluster_woken,
          log w' = log w ++ [DropDiscovery (gk_group gk) (gk_kind gk); DropInformers (gk_group gk) (gk_kind gk)]
                     ++ (WakeMilestone <$> woken) ++ (WakeClusterMilestone <$> cluster_woken) ∧
          (∀ l req, ms w = Ok l → req ∈ woken ↔ ∃ m, m ∈ l ∧ references gk m ∧ req = milestone_key m) ∧
          (∀ l req, cms w = Ok l →
             req ∈ cluster_woken ↔ ∃ m, m ∈ l ∧ cluster_references gk m ∧ req = cluster_milestone_key m)
      end
  end.
Proof.
  pose proof (Reconcile_run name seen0 w) as Hrun.
  destruct (CRDWatcher_Reconcile _ _ _ w) as [[err seen'] w'].
  destruct (seen_crd _) as [[current missing]|]; [|done].
  cbv zeta. set (fired := match seen0 !! name with Some _ => _ | None => _ end).
  assert ((transition (seen0 !! name) current).1 = fired) as E.
  { unfold transition, fired. destruct (seen0 !! name) as [prior|]; [|done].
    destruct current as [cgk ce], prior as [pgk pe]. simpl.
    destruct ce, pe; simpl; try case_bool_decide; repeat case_decide; naive_solver. }
  unfold observed_change in Hrun. rewrite E in Hrun. destruct fired as [gk|].
  - destruct Hrun as (-> & Hl & ->). split_and!.
    + rewrite wake_error_None. naive_solver.
    + by destruct (wake_error w).
    + exists (wakes (λ m, anyTargetMatches (m_DependsOn m) (GK (gk_group gk) (gk_kind gk))) milestone_key (ms w)),
        (wakes (λ m, anyClusterTargetMatches (cm_DependsOn m) (GK (gk_group gk) (gk_kind gk)))
           cluster_milestone_key (cms w)).
      split_and!; [done| |]; intros l req ->; simpl; rewrite list_elem_of_fmap;
        setoid_rewrite list_elem_of_filter; [setoid_rewrite anyTargetMatches_spec
        |setoid_rewrite anyClusterTargetMatches_spec]; naive_solver.
  - destruct Hrun as (-> & -> & Hl). split_and!; [|done|done]. split; [|done]. intros _ [? [=]].
Qed.

(** C23: no transition is lost. If the wakes of a transition failed, nothing is
    recorded, and any later reconcile that sees the CRD in the same state (gone,
    if it is gone) fires the same effects again; it records the new state
    exactly when its lists succeed. *)
Theorem failed_transition_refires name seen0 w w1 err seen1 w2 current missing gk :
  CRDWatcher_Reconcile cw name seen0 w = ((Some err, seen1), w1) →
  seen_crd (crd_Get name w).1 = Some (current, missing) →
  seen_crd (crd_Get name w2).1 = Some (current, missing) →
  (transition (seen0 !! name) current).1 = Some gk →
  seen1 = seen0 ∧
  let '((err', seen2), w3) := CRDWatcher_Reconcile cw name seen1 w2 in
  log w3 = log w2 ++ transition_effects gk w2 ∧
  (is_Ok (ms w2) = true ∧ is_Ok (cms w2) = true →
     err' = None ∧ seen2 = commitObserved seen1 name current missing ∧
     (transition (seen2 !! name) current).1 = None) ∧
  (¬ (is_Ok (ms w2) = true ∧ is_Ok (cms w2) = true) → is_Some err' ∧ seen2 = seen1).
Proof.
  intros Hrun Hget Hget2 Htr. pose proof (Reconcile_run name seen0 w) as H1.
  rewrite Hrun, Hget in H1. unfold observed_change in H1. rewrite Htr in H1.
  destruct H1 as (Herr & Hl & Hs). rewrite <- Herr in Hs. simpl in Hs. split; [done|]. subst seen1.
  pose proof (Reconcile_run name seen0 w2) as H2. rewrite Hget2 in H2.
  destruct (CRDWatcher_Reconcile _ _ seen0 w2) as [[err' seen2] w3].
  unfold observed_change in H2. rewrite Htr in H2. destruct H2 as (-> & Hl2 & ->).
  rewrite <- wake_error_None. destruct (wake_error w2) as [err'|]; split_and!; try done.
  intros _. split_and!; [done..|]. unfold commitObserved. destruct missing; simpl.
  - by rewrite lookup_delete_eq.
  - rewrite lookup_insert_eq. unfold transition. destruct (cs_established current); simpl; [|done].
    by rewrite bool_decide_eq_true_2.
Qed.
End theorems.

(** ** Whatever its effects respect, the watcher's handler respects *)
Section frames.
Context {W : Type} `{LabelsAPI} `{ApiErrors} `{!CRDClient W} `{!Runtime W}.
Context (R : relation W) `{!PreOrder R} (cw : CRDWatcher (W := W)).

Hypothesis record_frame : ∀ f w, R w (record f w).2.
Hypothesis get_frame : ∀ name w, R w (crd_Get name w).2.
Hypothesis list_frame : ∀ w, R w (list_Milestones w).2.
Hypothesis list_cluster_frame : ∀ w, R w (list_ClusterMilestones w).2.
Hypothesis resolver_frame : ∀ r group kind w,
  cw_Resolver cw = Some r → R w (Resolver_InvalidateGroupKind (Resolver := r) group kind w).2.
Hypothesis registry_frame : ∀ invalidate group kind w,
  cw_Registry cw = Some invalidate → R w (invalidate group kind w).2.
Hypothesis enqueue_frame : ∀ enqueue req w, cw_MilestoneEnqueue cw = Some enqueue → R w (enqueue req w).2.
Hypothesis enqueue_cluster_frame : ∀ enqueue req w,
  cw_ClusterMilestoneEnqueue cw = Some enqueue → R w (enqueue req w).2.

Lemma wake_each_frame {T} (enqueue : Request → M W unit) (woken : T → bool) key items w :
  (∀ req w, R w (enqueue req w).2) → R w (wake_each enqueue woken key items w).2.
Proof.
  intros He. revert w. induction items as [|x items IH]; intros w; [reflexivity|]. simpl. unfold_M.
  destruct (woken x); [|apply IH]. pose proof (He (key x) w) as Hx. destruct (enqueue _ w) as [u w1].
  pose proof (record_frame (Inc OwnersWoken ["crd_established"]) w1) as Hr.
  destruct (record _ w1) as [u' w2]. simpl in *. pose proof (IH w2). chain.
Qed.

Lemma wakeMilestones_frame group kind w : R w (wakeMilestones cw group kind w).2.
Proof.
  unfold wakeMilestones. destruct (cw_MilestoneEnqueue cw) as [enqueue|]; [|reflexivity]. unfold_M.
  pose proof (list_frame w) as Hl. destruct (list_Milestones w) as [[items|err] w1]; [|done].
  pose proof (wake_each_frame enqueue (λ m, anyTargetMatches (m_DependsOn m) (GK group kind)) milestone_key
    items w1 (λ req v, enqueue_frame enqueue req v eq_refl)) as Hw.
  destruct (wake_each _ _ _ _ w1). simpl in *. chain.
Qed.

Lemma wakeClusterMilestones_frame group kind w : R w (wakeClusterMilestones cw group kind w).2.
Proof.
  unfold wakeClusterMilestones. destruct (cw_ClusterMilestoneEnqueue cw) as [enqueue|]; [|reflexivity].
  unfold_M. pose proof (list_cluster_frame w) as Hl.
  destruct (list_ClusterMilestones w) as [[items|err] w1]; [|done].
  pose proof (wake_each_frame enqueue (λ m, anyClusterTargetMatches (cm_DependsOn m) (GK group kind))
    cluster_milestone_key items w1 (λ req v, enqueue_cluster_frame enqueue req v eq_refl)) as Hw.
  destruct (wake_each _ _ _ _ w1). simpl in *. chain.
Qed.

(** What follows the resolver's invalidation. *)
Lemma applyTransition_frame gk w : R w (applyTransition cw gk w).2.
Proof.
  unfold applyTransition. unfold_M.
  assert (R w (match cw_Resolver cw with
    | Some r => Resolver_InvalidateGroupKind (Resolver := r) (gk_group gk) (gk_kind gk)
    | None => mret tt end w).2) as H1 by (destruct (cw_Resolver cw) eqn:Hc; [by apply resolver_frame|reflexivity]).
  destruct (_ w) as [u w1]. simpl in H1.
  assert (R w1 (match cw_Registry cw with
    | Some invalidate => invalidate (gk_group gk) (gk_kind gk)
    | None => mret tt end w1).2) as H2 by (destruct (cw_Registry cw) eqn:Hc; [by apply registry_frame|reflexivity]).
  destruct (_ w1) as [u2 w2]. simpl in H2. pose proof (wakeMilestones_frame (gk_group gk) (gk_kind gk) w2) as H3.
  destruct (wakeMilestones _ _ _ w2) as [e3 w3].
  pose proof (wakeClusterMilestones_frame (gk_group gk) (gk_kind gk) w3) as H4.
  destruct (wakeClusterMilestones _ _ _ w3) as [e4 w4]. simpl in *. chain.
Qed.

Lemma observe_change_frame name seen0 current missing w :
  R w (observe_change cw name seen0 current missing w).2.
Proof.
  unfold observe_change. destruct (transition _ current) as [[gk|] establishing]; [|reflexivity]. unfold_M.
  pose proof (applyTransition_frame gk w) as Ha. destruct (applyTransition cw gk w) as [[err|] w1]; [done|].
  destruct establishing; [|done].
  pose proof (record_frame (Inc CRDEstablishedEvents [gk_group gk; gk_kind gk]) w1) as Hr.
  destruct (record _ w1). simpl in *. chain.
Qed.

Lemma CRDWatcher_Reconcile_frame name seen0 w : R w (CRDWatcher_Reconcile cw name seen0 w).2.
Proof.
  unfold CRDWatcher_Reconcile. unfold_M. pose proof (get_frame name w) as Hg.
  destruct (crd_Get name w) as [[crd|err] w1]; simpl in Hg; [|case_match; [|done]];
    (etrans; [exact Hg|]; apply observe_change_frame).
Qed.
End frames.

(** ** An example: a CRD becomes Established, goes, and a list fails *)
Module CRDFix.
#[local] Existing Instance Fix.labels.
#[local] Existing Instance Fix.api_errors.

(** The answers of the API server, and what happened. *)
Record world := {
  w_crd : result CustomResourceDefinition;
  w_milestones : result (list (Milestone LabelSelector));
  w_clustermilestones : result (list (ClusterMilestone LabelSelector));
  w_log : list crd_effect;
}.

Definition add_effect (e : crd_effect) (w : world) : unit * world :=
  (tt, Build_world (w_crd w) (w_milestones w) (w_clustermilestones w) (w_log w ++ [e])).

#[local] Instance client : CRDClient world := {
  crd_Get := λ _ w, (w_crd w, w);
  list_Milestones := λ w, (w_milestones w, w);
  list_ClusterMilestones := λ w, (w_clustermilestones w, w);
}.

#[local] Instance runtime : Runtime world := {
  wall_clock := λ w, (0%Z, w);
  record := λ _ w, (tt, w);
}.

Definition resolver : Resolver world := {|
  Resolve := λ _ _ _ w, (Err ErrGVKNotEstablished, w);
  Resolver_Invalidate := λ w, (tt, w);
  Resolver_InvalidateGroupKind := λ group kind, add_effect (DropDiscovery group kind);
|}.

Definition watcher : CRDWatcher (W := world) :=
  Build_CRDWatcher (Some resolver) (Some (λ group kind, add_effect (DropInformers group kind)))
    (Some (λ req, add_effect (WakeMilestone req))) (Some (λ req, add_effect (WakeClusterMilestone req))).

Definition widgets : CustomResourceDefinition :=
  Build_CustomResourceDefinition "x.io" "Widget" [("NamesAccepted", ConditionTrue); (Established, ConditionTrue)].
Definition installing : CustomResourceDefinition :=
  Build_CustomResourceDefinition "x.io" "Widget" [(Established, ConditionFalse)].

Definition on_kind (name kind : string) : Milestone LabelSelector :=
  Build_Milestone _ (Build_ObjectMeta name "ns" 1 ∅ [] None 0)
    [Build_DependencyRef _ "d" EmptySetUnknown SuspendIgnore (Build_TargetSpec _ "x.io" "v2" kind None)]
    (Build_MilestoneStatusBase 0 None Summary_zero None None false 0).

Definition serving (crd : result CustomResourceDefinition) : world :=
  Build_world crd (Ok [on_kind "a" "Widget"; on_kind "b" "Gadget"; on_kind "c" "Widget"]) (Ok []) [].
Definition failing (crd : result CustomResourceDefinition) : world :=
  Build_world crd (Err (errors_New "down")) (Ok []) [].
Definition gone : result CustomResourceDefinition := Err (ext_error "NotFound" "gone").

Definition run (seen0 : gmap string crdState) (w : world) : option error * gmap string crdState * list crd_effect :=
  let '((err, seen'), w') := CRDWatcher_Reconcile watcher "widgets.x.io" seen0 w in (err, seen', w_log w').

Definition known : gmap string crdState := (run ∅ (serving (Ok widgets))).1.2.

Example lifecycle :
  (run ∅ (serving (Ok widgets))).2 = [] ∧
  (run (run ∅ (serving (Ok installing))).1.2 (serving (Ok widgets))).2 =
    [DropDiscovery "x.io" "Widget"; DropInformers "x.io" "Widget";
     WakeMilestone ("ns", "a"); WakeMilestone ("ns", "c")] ∧
  (run known (serving gone)).2 = (run (run ∅ (serving (Ok installing))).1.2 (serving (Ok widgets))).2 ∧
  (run known (serving gone)).1.2 = ∅ ∧ (run known (failing gone)).1.2 = known.
Proof. vm_compute. by split_and!. Qed.

Abbreviation demo_does := (does w_log w_milestones w_clustermilestones).

Lemma does_nothing {A} (f : world → A) : demo_does (λ w, (f w, w)) [].
Proof. intros w. simpl. by rewrite app_nil_r. Qed.

Lemma does_add e : demo_does (add_effect e) [e].
Proof. done. Qed.

Lemma CRDWatcher_Reconcile_spec_witness :
  ∃ woken cluster_woken, (run known (serving gone)).2 =
    [DropDiscovery "x.io" "Widget"; DropInformers "x.io" "Widget"]
      ++ (WakeMilestone <$> woken) ++ (WakeClusterMilestone <$> cluster_woken) ∧
    (("ns", "a") ∈ woken).
Proof.
  pose proof (CRDWatcher_Reconcile_spec watcher resolver (λ group kind, add_effect (DropInformers group kind))
    (λ req, add_effect (WakeMilestone req)) (λ req, add_effect (WakeClusterMilestone req)) eq_refl
    w_log w_milestones w_clustermilestones
    (λ _, does_nothing (λ _, tt)) (λ _, does_nothing w_crd) (does_nothing w_milestones)
    (does_nothing w_clustermilestones) (λ _, eq_refl) (λ _, eq_refl)
    (λ group kind, does_add (DropDiscovery group kind)) (λ group kind, does_add (DropInformers group kind))
    (λ req, does_add (WakeMilestone req)) (λ req, does_add (WakeClusterMilestone req))
    "widgets.x.io" known (serving gone)) as Hs.
  unfold run. destruct (CRDWatcher_Reconcile _ _ _ _) as [[err seen'] w'].
  destruct Hs as (_ & _ & woken & cluster_woken & Hl & Hw & _). exists woken, cluster_woken.
  split; [exact Hl|]. apply (Hw _ ("ns", "a") eq_refl). exists (on_kind "a" "Widget").
  split; [by left|]. split; [|done]. eexists. split; [by left|done].
Defined.

Lemma failed_transition_refires_witness :
  (run known (failing gone)).1.2 = known ∧
  (run (run known (failing gone)).1.2 (serving gone)).1.1 = None.
Proof.
  destruct (CRDWatcher_Reconcile watcher "widgets.x.io" known (failing gone)) as [[err0 seen1] w1] eqn:E.
  assert (∃ err, err0 = Some err) as [err ->].
  { assert ((CRDWatcher_Reconcile watcher "widgets.x.io" known (failing gone)).1.1 ≠ None) as Hne
      by (vm_compute; discriminate).
    rewrite E in Hne. destruct err0; [by eexists|done]. }
  pose proof (failed_transition_refires watcher resolver (λ group kind, add_effect (DropInformers group kind))
    (λ req, add_effect (WakeMilestone req)) (λ req, add_effect (WakeClusterMilestone req)) eq_refl
    w_log w_milestones w_clustermilestones
    (λ _, does_nothing (λ _, tt)) (λ _, does_nothing w_crd) (does_nothing w_milestones)
    (does_nothing w_clustermilestones) (λ _, eq_refl) (λ _, eq_refl)
    (λ group kind, does_add (DropDiscovery group kind)) (λ group kind, does_add (DropInformers group kind))
    (λ req, does_add (WakeMilestone req)) (λ req, does_add (WakeClusterMilestone req))
    "widgets.x.io" known (failing gone) w1 err seen1 (serving gone) crdState_zero true
    (Build_groupKind "x.io" "Widget") E eq_refl eq_refl) as Ht.
  destruct Ht as [Hs Hr].
  - vm_compute. reflexivity.
  - unfold run. rewrite E. simpl fst. simpl snd. split; [exact Hs|].
    destruct (CRDWatcher_Reconcile watcher "widgets.x.io" seen1 (serving gone)) as [[err' seen2] w3].
    destruct Hr as (_ & Hok & _). apply Hok. done.
Defined.
End CRDFix.
