(* ===== verification/FluxNotify.v ===== *)
(** * internal/fluxnotify/notifier.go

    The fire-and-forget request that asks the FluxCD parents of an object to
    reconcile. The API client is an operation on a world [W]. *)

From stdpp Require Import pretty.
From S2P Require Import Prelude GoStd ApiV1 K8s Fixtures Metrics Status Membership Discovery Normalize SubscriberIndex StatusHelpers StatusPatch Reconciler.
From Stdlib Require Import Ascii.

(** ** Definitions *)

Definition labelKustomizeName : string := "kustomize.toolkit.fluxcd.io/name".
Definition labelKustomizeNamespace : string := "kustomize.toolkit.fluxcd.io/namespace".
Definition labelHelmName : string := "helm.toolkit.fluxcd.io/name".
Definition labelHelmNamespace : string := "helm.toolkit.fluxcd.io/namespace".
Definition reconcileAnnotation : string := "reconcile.fluxcd.io/requestedAt".
Definition groupKustomize : string := "kustomize.toolkit.fluxcd.io".
Definition kindKustomization : string := "Kustomization".
Definition groupHelm : string := "helm.toolkit.fluxcd.io".
Definition kindHelmRelease : string := "HelmRelease".

Definition kustomizationGVK : GroupVersionKind := GVK groupKustomize "v1" kindKustomization.
Definition helmReleaseGVK : GroupVersionKind := GVK groupHelm "v2" kindHelmRelease.

(** [t.UTC().Format(time.RFC3339Nano)], for instants in nanoseconds since the
    epoch: date, time, the fraction without its trailing zeros, and Z. *)
Definition civil (days : Z) : Z * Z * Z :=
  let z := (days + 719468)%Z in
  let era := (z / 146097)%Z in
  let doe := (z mod 146097)%Z in
  let yoe := ((doe - doe / 1460 + doe / 36524 - doe / 146096) / 365)%Z in
  let doy := (doe - (365 * yoe + yoe / 4 - yoe / 100))%Z in
  let mp := ((5 * doy + 2) / 153)%Z in
  let d := (doy - (153 * mp + 2) / 5 + 1)%Z in
  let m := (if mp <? 10 then mp + 3 else mp - 9)%Z in
  ((yoe + era * 400 + if m <=? 2 then 1 else 0)%Z, m, d).

Fixpoint zeros (n : nat) : string := match n with O => "" | S n => String "0" (zeros n) end.

(** [n] in at least [width] digits. *)
Definition pad (width : nat) (n : Z) : string :=
  let s := pretty n in zeros (width - String.length s) +:+ s.

Fixpoint trim_zeros (s : string) : string :=
  match s with
  | "" => ""
  | String c s =>
      match trim_zeros s with
      | "" => if decide (c = "0"%char) then "" else String c ""
      | t => String c t
      end
  end.

Definition Format_RFC3339Nano (t : time) : string :=
  let secs := (t / 1000000000)%Z in
  let '(y, m, d) := civil (secs / 86400) in
  let s := (secs mod 86400)%Z in
  let frac := trim_zeros (pad 9 (t mod 1000000000)) in
  pad 4 y +:+ "-" +:+ pad 2 m +:+ "-" +:+ pad 2 d +:+ "T" +:+
  pad 2 (s / 3600) +:+ ":" +:+ pad 2 (s / 60 mod 60) +:+ ":" +:+ pad 2 (s mod 60) +:+
  (if decide (frac = "") then "" else "." +:+ frac) +:+ "Z".

Example format_examples :
  Format_RFC3339Nano 1709210096789000000 = "2024-02-29T12:34:56.789Z" ∧
  Format_RFC3339Nano 1767225599000000000 = "2025-12-31T23:59:59Z".
Proof. by vm_compute. Qed.

Definition classify `{ApiErrors} (err : option error) : string :=
  match err with
  | None => FluxNotifySuccess
  | Some err =>
      if IsNotFound err then FluxNotifyNotFound
      else if IsNoMatchError err then FluxNotifyNoMatch
      else if IsForbidden err then FluxNotifyForbidden
      else FluxNotifyError
  end.

Definition dquoted (s : string) : string := String "034" (s +:+ String "034" "").

(** The client's Get of an unstructured parent, and its merge patch. *)
Class FluxClient (W : Type) `{UnstructuredAPI} := {
  flux_Get : GroupVersionKind → string → string → M W (result Unstructured);
  flux_Patch : GroupVersionKind → string → string → string → M W (option error);
}.

Section notifier.
Context {W : Type} `{UnstructuredAPI} `{ApiErrors} `{Formatting} `{!FluxClient W} `{!Runtime W}.

Record Notifier := {
  n_Controller : string;
  n_Now : option (M W time);
}.

Definition n_now (n : Notifier) : M W time := default wall_clock (n_Now n).

Definition count_notify (n : Notifier) (gvk : GroupVersionKind) (res : string) : M W unit :=
  record (Inc FluxNotifyTotal [n_Controller n; Kind gvk; res]).

Definition shouldPoke (n : Notifier) (gvk : GroupVersionKind) (namespace name : string) : M W bool :=
  parent ← flux_Get gvk namespace name;
  match parent with
  | Err err =>
      count_notify n gvk (classify (Some err));;
      mret false
  | Ok parent =>
      let '(suspended, _, _) := NestedBool parent ["spec"; "suspend"] in
      if (suspended : bool) then
        count_notify n gvk FluxNotifySuspended;;
        mret false
      else mret true
  end.

Definition poke_payload (timestamp : string) : string :=
  "{" +:+ dquoted "metadata" +:+ ":{" +:+ dquoted "annotations" +:+ ":{" +:+ Quote reconcileAnnotation +:+ ":"
    +:+ Quote timestamp +:+ "}}}".

Definition poke (n : Notifier) (gvk : GroupVersionKind) (namespace name timestamp : string) : M W unit :=
  should ← shouldPoke n gvk namespace name;
  if (should : bool) then
    err ← flux_Patch gvk namespace name (poke_payload timestamp);
    count_notify n gvk (classify err)
  else mret tt.

(** [lbls[k]], "" when absent. *)
Definition label (lbls : gmap string string) (k : string) : string := default "" (lbls !! k).

Definition NotifyTransition (n : option Notifier) (obj : option ObjectMeta) : M W unit :=
  match n, obj with
  | Some n, Some obj =>
      let lbls := om_Labels obj in
      if decide (lbls = ∅) then mret tt
      else
        now ← n_now n;
        let timestamp := Format_RFC3339Nano now in
        let name := label lbls labelKustomizeName in
        (if decide (name = "") then mret tt
         else poke n kustomizationGVK (label lbls labelKustomizeNamespace) name timestamp);;
        let name := label lbls labelHelmName in
        if decide (name = "") then mret tt
        else poke n helmReleaseGVK (label lbls labelHelmNamespace) name timestamp
  | _, _ => mret tt
  end.
End notifier.

(** ** What a notification does *)

Inductive flux_effect :=
  | Patched (gvk : GroupVersionKind) (namespace name payload : string)
  | Counted (controller kind res : string).

Section theorems.
Context {W : Type} `{UnstructuredAPI} `{ApiErrors} `{Formatting} `{!FluxClient W} `{!Runtime W}.
Context (n : Notifier (W := W)).

(** What the API server answers for each parent while one notification runs. *)
Context (get : GroupVersionKind → string → string → result Unstructured)
  (patch : GroupVersionKind → string → string → option error).
Hypothesis get_answer : ∀ gvk ns name w, (flux_Get gvk ns name w).1 = get gvk ns name.
Hypothesis patch_answer : ∀ gvk ns name payload w, (flux_Patch gvk ns name payload w).1 = patch gvk ns name.

Context (log : W → list flux_effect).
Hypothesis log_get : ∀ gvk ns name w, log (flux_Get gvk ns name w).2 = log w.
Hypothesis log_now : ∀ w, log (n_now n w).2 = log w.
Hypothesis log_patch : ∀ gvk ns name payload w,
  log (flux_Patch gvk ns name payload w).2 = log w ++ [Patched gvk ns name payload].
Hypothesis log_count : ∀ c k res w,
  log (record (Inc FluxNotifyTotal [c; k; res]) w).2 = log w ++ [Counted c k res].

(** The parents an object's labels name. *)
Definition parents (lbls : gmap string string) : list (GroupVersionKind * string * string) :=
  filter (λ p, p.2 ≠ "")
    [(kustomizationGVK, label lbls labelKustomizeNamespace, label lbls labelKustomizeName);
     (helmReleaseGVK, label lbls labelHelmNamespace, label lbls labelHelmName)].

Definition suspended (parent : Unstructured) : bool := (NestedBool parent ["spec"; "suspend"]).1.1.

(** What happens to one parent: counted with a reason, or patched and counted. *)
Definition poke_effects (timestamp : string) (p : GroupVersionKind * string * string) : list flux_effect :=
  let '(gvk, ns, name) := p in
  match get gvk ns name with
  | Err err => [Counted (n_Controller n) (Kind gvk) (classify (Some err))]
  | Ok parent =>
      if suspended parent then [Counted (n_Controller n) (Kind gvk) FluxNotifySuspended]
      else [Patched gvk ns name (poke_payload timestamp);
            Counted (n_Controller n) (Kind gvk) (classify (patch gvk ns name))]
  end.

Lemma poke_run gvk ns name timestamp w :
  log (poke n gvk ns name timestamp w).2 = log w ++ poke_effects timestamp (gvk, ns, name).
Proof.
  unfold poke, shouldPoke, poke_effects, count_notify, suspended. unfold_M.
  pose proof (get_answer gvk ns name w) as Ha. pose proof (log_get gvk ns name w) as Hl.
  destruct (flux_Get gvk ns name w) as [parent w1]. simpl in Ha, Hl. rewrite <- Ha, <- Hl.
  destruct parent as [parent|err]; simpl.
  - destruct (NestedBool parent _) as [[[] b] e]; simpl.
    + pose proof (log_count (n_Controller n) (Kind gvk) FluxNotifySuspended w1) as Hc.
      by destruct (record _ w1).
    + pose proof (patch_answer gvk ns name (poke_payload timestamp) w1) as Hp.
      pose proof (log_patch gvk ns name (poke_payload timestamp) w1) as Hlp.
      destruct (flux_Patch _ _ _ _ w1) as [err w2]. simpl in Hp, Hlp.
      rewrite log_count, Hlp, Hp, <- app_assoc. done.
  - pose proof (log_count (n_Controller n) (Kind gvk) (classify (Some err)) w1) as Hc.
    by destruct (record _ w1).
Qed.

(** All of a notification, at the instant the clock read. *)
Lemma NotifyTransition_run obj w :
  log (NotifyTransition (Some n) (Some obj) w).2 =
  log w ++ (parents (om_Labels obj) ≫= poke_effects (Format_RFC3339Nano (n_now n w).1)).
Proof.
  unfold NotifyTransition. case_decide as He.
  { rewrite He. simpl. by rewrite app_nil_r. }
  clear He. set (lbls := om_Labels obj). unfold_M. pose proof (log_now w) as Hn.
  destruct (n_now n w) as [now w1]. simpl in Hn |- *. rewrite <- Hn.
  set (ts := Format_RFC3339Nano now). unfold parents. rewrite !filter_cons, filter_nil. simpl.
  assert (∀ w2, log ((if decide (label lbls labelHelmName = "") then λ s, ((), s)
      else poke n helmReleaseGVK (label lbls labelHelmNamespace) (label lbls labelHelmName) ts) w2).2 =
    log w2 ++ ((if decide (label lbls labelHelmName ≠ "")
      then [(helmReleaseGVK, label lbls labelHelmNamespace, label lbls labelHelmName)] else [])
      ≫= poke_effects ts)) as Hh.
  { intros w2. destruct (decide (label lbls labelHelmName = "")) as [E|E].
    - rewrite decide_False by tauto. simpl. by rewrite app_nil_r.
    - rewrite decide_True by done. simpl. rewrite poke_run. by rewrite app_nil_r. }
  destruct (decide (label lbls labelKustomizeName = "")) as [E|E].
  - rewrite (decide_False (P := label lbls labelKustomizeName ≠ "")) by tauto. apply Hh.
  - rewrite (decide_True (P := label lbls labelKustomizeName ≠ "")) by done.
    pose proof (poke_run kustomizationGVK (label lbls labelKustomizeNamespace)
      (label lbls labelKustomizeName) ts w1) as Hp.
    destruct (poke n kustomizationGVK _ _ ts w1) as [u w2]. simpl in Hp. rewrite Hh, Hp, <- app_assoc. done.
Qed.
Definition is_patch (e : flux_effect) : bool := match e with Patched _ _ _ _ => true | _ => false end.

(** The parents that would act on a request: readable and not suspended. *)
Definition acts (p : GroupVersionKind * string * string) : bool :=
  match get p.1.1 p.1.2 p.2 with Ok parent => negb (suspended parent) | Err _ => false end.

Lemma poke_effects_counts ts p :
  length (filter (λ e, is_patch e = true) (poke_effects ts p)) = (if acts p then 1 else 0) ∧
  length (filter (λ e, is_patch e = false) (poke_effects ts p)) = 1.
Proof.
  destruct p as [[gvk ns] name]. unfold poke_effects, acts. simpl.
  destruct (get gvk ns name) as [parent|err]; [|done]. by destruct (suspended parent).
Qed.

(** C30: a notification requests a reconcile of exactly the Flux parents the
    object's labels name (by a non-empty name) that can be read and are not
    suspended, each once, all with the same timestamp; every named parent is
    counted exactly once, with the class of what happened. *)
Theorem NotifyTransition_spec obj w :
  let ts := Format_RFC3339Nano (n_now n w).1 in
  ∃ effects, log (NotifyTransition (Some n) (Some obj) w).2 = log w ++ effects ∧
    (∀ gvk ns name payload, Patched gvk ns name payload ∈ effects ↔
       (gvk, ns, name) ∈ parents (om_Labels obj) ∧ payload = poke_payload ts ∧
       ∃ parent, get gvk ns name = Ok parent ∧ suspended parent = false) ∧
    (∀ c k res, Counted c k res ∈ effects → c = n_Controller n ∧
       ∃ gvk ns name, (gvk, ns, name) ∈ parents (om_Labels obj) ∧ k = Kind gvk ∧
       res = match get gvk ns name with
             | Err err => classify (Some err)
             | Ok parent => if suspended parent then FluxNotifySuspended
                            else classify (patch gvk ns name)
             end) ∧
    length (filter (λ e, is_patch e = true) effects) =
      length (filter (λ p, acts p = true) (parents (om_Labels obj))) ∧
    length (filter (λ e, is_patch e = false) effects) = length (parents (om_Labels obj)).
Proof.
  intros ts. eexists. split; [apply NotifyTransition_run|]. fold ts.
  set (ps := parents (om_Labels obj)). clearbody ps. split_and!.
  - intros gvk ns name payload. rewrite list_elem_of_bind. split.
    + intros ([[gvk' ns'] name'] & He & Hp). simpl in He.
      destruct (get gvk' ns' name') as [parent|err] eqn:Hg; [|set_solver].
      destruct (suspended parent) eqn:Hs; [set_solver|].
      rewrite !elem_of_cons, elem_of_nil in He. destruct He as [[= -> -> -> ->]|[[=]|[]]]. naive_solver.
    + intros (Hp & -> & parent & Hg & Hs). exists (gvk, ns, name). split; [|done]. simpl.
      rewrite Hg, Hs. by left.
  - intros c k res. rewrite list_elem_of_bind. intros ([[gvk ns] name] & He & Hp). simpl in He.
    assert (c = n_Controller n ∧ k = Kind gvk ∧ res = match get gvk ns name with
       | Err err => classify (Some err)
       | Ok parent => if suspended parent then FluxNotifySuspended else classify (patch gvk ns name)
       end) as (-> & -> & ->).
    { destruct (get gvk ns name) as [parent|err]; [destruct (suspended parent)|];
        rewrite !elem_of_cons, elem_of_nil in He;
        [destruct He as [[= -> -> ->]|[]]|destruct He as [[=]|[[= -> -> ->]|[]]]
        |destruct He as [[= -> -> ->]|[]]]; done. }
    split; [done|]. by exists gvk, ns, name.
  - induction ps as [|p ps IH]; [done|]. rewrite bind_cons, filter_app, length_app, IH, filter_cons.
    destruct (poke_effects_counts ts p) as [-> _]. by destruct (acts p).
  - induction ps as [|p ps IH]; [done|]. rewrite bind_cons, filter_app, length_app, IH.
    by destruct (poke_effects_counts ts p) as [_ ->].
Qed.
End theorems.

(** ** An example: a Kustomization that acts, a suspended HelmRelease *)
Module FluxFix.
#[local] Existing Instance Fix.unstructured.
#[local] Existing Instance Fix.api_errors.
#[local] Existing Instance Fix.formatting.

Definition parent (gvk : GroupVersionKind) (ns name : string) : result Unstructured :=
  if decide (Kind gvk = kindHelmRelease) then Ok (Fix.Build_object gvk ns name ∅ true "Current" "")
  else Ok (Fix.Build_object gvk ns name ∅ false "Current" "").

#[local] Instance client : FluxClient (list flux_effect) := {
  flux_Get := λ gvk ns name w, (parent gvk ns name, w);
  flux_Patch := λ gvk ns name payload w, (None, w ++ [Patched gvk ns name payload]);
}.

(** The increments are read off the counters they make. *)
#[local] Instance runtime : Runtime (list flux_effect) := {
  wall_clock := λ w, (1709210096789000000%Z, w);
  record := λ f w, (tt, w ++ match map_to_list (f ∅) with
                            | [((_, [c; k; res]), _)] => [Counted c k res]
                            | _ => []
                            end);
}.

Definition notifier : Notifier (W := list flux_effect) := Build_Notifier "milestone" None.

Definition owned : ObjectMeta :=
  Build_ObjectMeta "m" "ns" 1
    {[labelKustomizeName := "apps"; labelKustomizeNamespace := "flux-system"; labelHelmName := "web";
      labelHelmNamespace := "team"]} [] None 0.

Example notify_owned :
  (NotifyTransition (Some notifier) (Some owned) []).2 =
  [Patched kustomizationGVK "flux-system" "apps" (poke_payload "2024-02-29T12:34:56.789Z");
   Counted "milestone" kindKustomization FluxNotifySuccess;
   Counted "milestone" kindHelmRelease FluxNotifySuspended].
Proof. vm_compute. reflexivity. Qed.

Lemma log_count c k res w :
  (record (Inc FluxNotifyTotal [c; k; res]) w : unit * list flux_effect).2 = w ++ [Counted c k res].
Proof.
  simpl. unfold Inc. rewrite insert_empty, map_to_list_singleton. done.
Qed.

Lemma NotifyTransition_spec_witness :
  ∃ effects, (NotifyTransition (Some notifier) (Some owned) []).2 = [] ++ effects ∧
    Patched kustomizationGVK "flux-system" "apps" (poke_payload "2024-02-29T12:34:56.789Z") ∈ effects ∧
    length (filter (λ e, is_patch e = false) effects) = 2.
Proof.
  pose proof (NotifyTransition_spec notifier parent (λ _ _ _, None) (λ _ _ _ _, eq_refl)
    (λ _ _ _ _ _, eq_refl) (λ w, w) (λ _ _ _ _, eq_refl) (λ _, eq_refl) (λ _ _ _ _ _, eq_refl)
    log_count owned []) as (effects & Hl & Hp & _ & _ & Hc).
  exists effects. split; [exact Hl|]. split.
  - apply Hp. split; [|split].
    + apply (bool_decide_unpack _). vm_compute. done.
    + vm_compute. reflexivity.
    + eexists. split; [reflexivity|vm_compute; reflexivity].
  - rewrite Hc. vm_compute. reflexivity.
Defined.
End FluxFix.
