(* ===== verification/Collector.v ===== *)
(** * internal/metrics/collector.go, and its lister in cmd/manager/main.go

    The gauges a scrape emits for every Milestone and ClusterMilestone. A metric
    is its descriptor, its label values and its value; the values are integers,
    which a float64 holds exactly up to 2^53. *)

From S2P Require Import Prelude GoStd ApiV1 K8s Fixtures Metrics Status Membership Discovery Normalize SubscriberIndex StatusHelpers StatusPatch Reconciler ReconcilerSpec Registry Process Schema.

(** ** Definitions *)

(** prometheus.Desc: the name and the variable labels. *)
Record Desc := { desc_Name : string; desc_Labels : list string }.

#[export] Instance Desc_eq_dec : EqDecision Desc.
Proof. solve_decision. Defined.

Definition statusCondition : Desc :=
  Build_Desc "milestone_status_condition" [labelOwnerKind; labelNamespace; labelName; labelType; labelStatus].
Definition observedGeneration : Desc :=
  Build_Desc "milestone_observed_generation" [labelOwnerKind; labelNamespace; labelName].
Definition dependencyResources : Desc :=
  Build_Desc "milestone_dependency_resources"
    [labelOwnerKind; labelNamespace; labelName; labelDependency; labelTargetGroup; labelTargetKind; labelStatus].
Definition dependencySuspended : Desc :=
  Build_Desc "milestone_dependency_suspended_resources"
    [labelOwnerKind; labelNamespace; labelName; labelDependency; labelTargetGroup; labelTargetKind].
Definition dependencyReady : Desc :=
  Build_Desc "milestone_dependency_ready"
    [labelOwnerKind; labelNamespace; labelName; labelDependency; labelTargetGroup; labelTargetKind].
Definition lastEvaluatedTimestamp : Desc :=
  Build_Desc "milestone_last_evaluated_timestamp_seconds" [labelOwnerKind; labelNamespace; labelName].

Definition Describe : list Desc :=
  [statusCondition; observedGeneration; dependencyResources; dependencySuspended; dependencyReady;
   lastEvaluatedTimestamp].

Record Metric := { mt_Desc : Desc; mt_Value : Z; mt_Labels : list string }.

(** prometheus.MustNewConstMetric panics when the number of values is wrong. *)
Definition well_labelled (m : Metric) : Prop := length (mt_Labels m) = length (desc_Labels (mt_Desc m)).

(** What identifies a series. *)
Definition series (m : Metric) : Desc * list string := (mt_Desc m, mt_Labels m).

Definition encodeReady (s : ConditionStatus) : Z :=
  if decide (s = ConditionTrue) then 1 else if decide (s = ConditionFalse) then 0 else (-1).

(** [t.Unix()]. *)
Definition Unix (t : time) : Z := (t / 1000000000)%Z.

Section emit.
Context (kind namespace name : string).

Definition emit_condition (cond : Condition) : list Metric :=
  (λ s, Build_Metric statusCondition (if decide (c_Status cond = s) then 1 else 0)
          [kind; namespace; name; c_Type cond; s]) <$> [ConditionTrue; ConditionFalse; ConditionUnknown].

Definition emit_dependency (d : DependencyStatus) : list Metric :=
  let bucket b v := Build_Metric dependencyResources v
                      [kind; namespace; name; ds_Name d; ds_Group d; ds_Kind d; b] in
  [Build_Metric dependencyReady (encodeReady (ds_Ready d)) [kind; namespace; name; ds_Name d; ds_Group d; ds_Kind d];
   bucket "current" (Current (ds_Summary d));
   bucket "inProgress" (InProgress (ds_Summary d));
   bucket "failed" (Failed (ds_Summary d));
   bucket "notFound" (NotFound (ds_Summary d));
   bucket "terminating" (Terminating (ds_Summary d));
   bucket "unknown" (Unknown (ds_Summary d));
   Build_Metric dependencySuspended (Suspended (ds_Summary d))
     [kind; namespace; name; ds_Name d; ds_Group d; ds_Kind d]].

Definition emit (sb : MilestoneStatusBase) : list Metric :=
  [Build_Metric observedGeneration (ObservedGeneration sb) [kind; namespace; name]] ++
  (if decide (LastEvaluatedTime sb = 0%Z) then []
   else [Build_Metric lastEvaluatedTimestamp (Unix (LastEvaluatedTime sb)) [kind; namespace; name]]) ++
  (elems (Conditions sb) ≫= emit_condition) ++
  (elems (DependsOn sb) ≫= emit_dependency).
End emit.

Section collect.
Context {W : Type} `{LabelsAPI}.

Record StateLister := {
  lister_ListMilestones : M W (list (Milestone LabelSelector));
  lister_ListClusterMilestones : M W (list (ClusterMilestone LabelSelector));
}.

Definition collect_milestone (m : Milestone LabelSelector) : list Metric :=
  emit "Milestone" (om_Namespace (m_Meta m)) (om_Name (m_Meta m)) (m_Status m).
Definition collect_cluster_milestone (m : ClusterMilestone LabelSelector) : list Metric :=
  emit "ClusterMilestone" "" (om_Name (cm_Meta m)) (cm_Status m).

Definition Collect (l : StateLister) : M W (list Metric) :=
  ms ← lister_ListMilestones l;
  cms ← lister_ListClusterMilestones l;
  mret ((ms ≫= collect_milestone) ++ (cms ≫= collect_cluster_milestone)).

(** cmd/manager/main.go: a list that fails yields nothing, and is counted. *)
Definition controllerMilestone : string := "Milestone".
Definition controllerClusterMilestone : string := "ClusterMilestone".

Context `{!Runtime W}.
Context (list_Milestones : M W (result (list (Milestone LabelSelector))))
  (list_ClusterMilestones : M W (result (list (ClusterMilestone LabelSelector)))).

Definition counted_list {A} (list : M W (result (list A))) (controller : string) : M W (Datatypes.list A) :=
  l ← list;
  match l with
  | Err _ => record (Inc StateCollectorErrors [controller]);; mret []
  | Ok items => mret items
  end.

Definition managerStateLister : StateLister := {|
  lister_ListMilestones := counted_list list_Milestones controllerMilestone;
  lister_ListClusterMilestones := counted_list list_ClusterMilestones controllerClusterMilestone;
|}.
End collect.

(** ** Theorems *)

(** The collector's families collide neither among themselves nor with the
    vectors of metrics.go, so registering both succeeds. *)
Lemma families_distinct :
  NoDup ((desc_Name <$> Describe) ++ ((λ v, metrics_ns +:+ "_" +:+ v_Name v) <$> All)).
Proof. apply (bool_decide_unpack _). vm_compute. done. Qed.

Section theorems.
Implicit Types (kind namespace name : string).

Lemma emit_well_labelled kind namespace name sb m : m ∈ emit kind namespace name sb → well_labelled m ∧ mt_Desc m ∈ Describe.
Proof.
  unfold emit. rewrite !elem_of_app, !list_elem_of_bind, list_elem_of_singleton.
  intros [->|[Hm|[(c & Hm & _)|(d & Hm & _)]]].
  - split; [done|]. set_solver.
  - case_decide; [by apply not_elem_of_nil in Hm|]. apply list_elem_of_singleton in Hm as ->.
    split; [done|]. set_solver.
  - apply list_elem_of_fmap in Hm as (s & -> & _). split; [done|]. set_solver.
  - unfold emit_dependency in Hm. rewrite !elem_of_cons, elem_of_nil in Hm.
    destruct Hm as [->|[->|[->|[->|[->|[->|[->|[->|[]]]]]]]]]; (split; [done|]); set_solver.
Qed.

(** Every series starts with its owner. *)
Lemma emit_owner kind namespace name sb m :
  m ∈ emit kind namespace name sb → take 3 (mt_Labels m) = [kind; namespace; name].
Proof.
  unfold emit. rewrite !elem_of_app, !list_elem_of_bind, list_elem_of_singleton.
  intros [->|[Hm|[(c & Hm & _)|(d & Hm & _)]]]; [done| | |].
  - case_decide; [by apply not_elem_of_nil in Hm|]. by apply list_elem_of_singleton in Hm as ->.
  - by apply list_elem_of_fmap in Hm as (s & -> & _).
  - unfold emit_dependency in Hm. rewrite !elem_of_cons, elem_of_nil in Hm.
    by destruct Hm as [->|[->|[->|[->|[->|[->|[->|[->|[]]]]]]]]].
Qed.

(** A list of pairwise distinct groups, each without duplicates, has none. *)
Lemma NoDup_bind {A B C} (f : A → list B) (g : B → C) (key : A → C → Prop) (l : list A) :
  (∀ x, x ∈ l → NoDup (g <$> f x)) → (∀ x y, x ∈ l → y ∈ f x → key x (g y)) →
  (∀ i j x y c, l !! i = Some x → l !! j = Some y → key x c → key y c → i = j) →
  NoDup (g <$> (l ≫= f)).
Proof.
  induction l as [|x l IH]; intros Hnd Hkey Hdis; [constructor|].
  rewrite bind_cons, fmap_app. apply NoDup_app. split_and!.
  - apply Hnd. by left.
  - intros c (y & -> & Hy)%list_elem_of_fmap (y' & Hc & Hy')%list_elem_of_fmap.
    apply list_elem_of_bind in Hy' as (x' & Hy' & Hx'). apply list_elem_of_lookup in Hx' as [j Hj].
    assert (0 = S j); [|done]. apply (Hdis 0 (S j) x x' (g y)); [done|done| |].
    + apply Hkey; [by left|done].
    + rewrite Hc. apply Hkey; [right; by eapply list_elem_of_lookup_2|done].
  - apply IH.
    + intros. apply Hnd. by right.
    + intros. apply Hkey; [by right|done].
    + intros i j a b c Ha Hb Hca Hcb. assert (S i = S j); [|lia]. by eapply (Hdis (S i) (S j)).
Qed.

Lemma index_injective {A B} (f : A → B) (l : list A) i j x y :
  NoDup (f <$> l) → l !! i = Some x → l !! j = Some y → f x = f y → i = j.
Proof.
  intros Hnd Hi Hj Heq. eapply NoDup_lookup; [exact Hnd|by rewrite list_lookup_fmap, Hi|].
  by rewrite list_lookup_fmap, Hj, Heq.
Qed.

Lemma emit_condition_series kind namespace name cs :
  NoDup (c_Type <$> cs) → NoDup (series <$> (cs ≫= emit_condition kind namespace name)).
Proof.
  intros Hnd. apply (NoDup_bind _ series (λ c s, s.2 !! 3 = Some (c_Type c))).
  - intros c _. unfold emit_condition. rewrite <- list_fmap_compose. apply NoDup_fmap_2_strong.
    + intros s1 s2 _ _. by intros [= ->].
    + apply (bool_decide_unpack _). vm_compute. done.
  - intros c m _ (s & -> & _)%list_elem_of_fmap. done.
  - intros i j c1 c2 s Hi Hj H1 H2. eapply (index_injective c_Type); [done..|congruence].
Qed.

Lemma emit_dependency_series kind namespace name ds :
  NoDup (ds_Name <$> ds) → NoDup (series <$> (ds ≫= emit_dependency kind namespace name)).
Proof.
  intros Hnd. apply (NoDup_bind _ series (λ d s, s.2 !! 3 = Some (ds_Name d))).
  - intros d _. unfold emit_dependency. simpl. unfold series. simpl. repeat constructor; set_solver.
  - intros d m _ Hm. unfold emit_dependency in Hm. rewrite !elem_of_cons, elem_of_nil in Hm.
    by destruct Hm as [->|[->|[->|[->|[->|[->|[->|[->|[]]]]]]]]].
  - intros i j d1 d2 s Hi Hj H1 H2. eapply (index_injective ds_Name); [done..|congruence].
Qed.

Lemma emit_descs kind namespace name sb :
  (∀ m, m ∈ elems (Conditions sb) ≫= emit_condition kind namespace name → mt_Desc m = statusCondition) ∧
  (∀ m, m ∈ elems (DependsOn sb) ≫= emit_dependency kind namespace name →
     mt_Desc m = dependencyReady ∨ mt_Desc m = dependencyResources ∨ mt_Desc m = dependencySuspended).
Proof.
  split.
  - intros m (c & Hm & _)%list_elem_of_bind. by apply list_elem_of_fmap in Hm as (s & -> & _).
  - intros m (d & Hm & _)%list_elem_of_bind. unfold emit_dependency in Hm.
    rewrite !elem_of_cons, elem_of_nil in Hm.
    destruct Hm as [->|[->|[->|[->|[->|[->|[->|[->|[]]]]]]]]]; auto.
Qed.

Lemma emit_series kind namespace name sb :
  NoDup (c_Type <$> elems (Conditions sb)) → NoDup (ds_Name <$> elems (DependsOn sb)) →
  NoDup (series <$> emit kind namespace name sb).
Proof.
  intros Hc Hd. destruct (emit_descs kind namespace name sb) as [Dc Dd].
  unfold emit. rewrite !fmap_app. apply NoDup_app. split_and!; [by repeat constructor; set_solver| |].
  - intros s ->%list_elem_of_singleton. rewrite !elem_of_app, !list_elem_of_fmap.
    intros [(m & E & Hm)|[(m & E & Hm)|(m & E & Hm)]].
    + case_decide; [by apply not_elem_of_nil in Hm|]. by apply list_elem_of_singleton in Hm as ->.
    + apply Dc in Hm. injection E as E _. by rewrite Hm in E.
    + apply Dd in Hm. injection E as E _. by destruct Hm as [Hm|[Hm|Hm]]; rewrite Hm in E.
  - apply NoDup_app. split_and!; [case_decide; repeat constructor; set_solver| |].
    + intros s Hs. rewrite elem_of_app, !list_elem_of_fmap. case_decide; [by apply not_elem_of_nil in Hs|].
      apply list_elem_of_singleton in Hs as ->. intros [(m & E & Hm)|(m & E & Hm)].
      * apply Dc in Hm. injection E as E _. by rewrite Hm in E.
      * apply Dd in Hm. injection E as E _. by destruct Hm as [Hm|[Hm|Hm]]; rewrite Hm in E.
    + apply NoDup_app. split_and!; [by apply emit_condition_series| |by apply emit_dependency_series].
      intros s (m & -> & Hm)%list_elem_of_fmap (m' & E & Hm')%list_elem_of_fmap.
      apply Dc in Hm. apply Dd in Hm'. injection E as E _. rewrite Hm in E.
      by destruct Hm' as [Hm'|[Hm'|Hm']]; rewrite Hm' in E.
Qed.
End theorems.

Section scrape.
Context {W : Type} `{LabelsAPI} (l : StateLister (W := W)).

Definition milestone_id (m : Milestone LabelSelector) : list string :=
  ["Milestone"; om_Namespace (m_Meta m); om_Name (m_Meta m)].
Definition cluster_milestone_id (m : ClusterMilestone LabelSelector) : list string :=
  ["ClusterMilestone"; ""; om_Name (cm_Meta m)].

Lemma valid_status_keys sb :
  valid_status sb = true → NoDup (c_Type <$> elems (Conditions sb)) ∧ NoDup (ds_Name <$> elems (DependsOn sb)).
Proof. unfold valid_status, valid_conditions. intros Hv. by bsimp. Qed.

Lemma collected_series {A} (id : A → list string) (status : A → MilestoneStatusBase) kind
    (namespace name : A → string) items :
  (∀ x, id x = [kind; namespace x; name x]) → NoDup (id <$> items) →
  (∀ x, x ∈ items → valid_status (status x) = true) →
  NoDup (series <$> (items ≫= λ x, emit kind (namespace x) (name x) (status x))).
Proof.
  intros Hid Hnd Hv. apply (NoDup_bind _ series (λ x s, take 3 s.2 = id x)).
  - intros x Hx. destruct (valid_status_keys _ (Hv x Hx)). by apply emit_series.
  - intros x m _ Hm. rewrite Hid. simpl. by eapply emit_owner.
  - intros i j x y s Hi Hj E1 E2. eapply (index_injective id); [done..|congruence].
Qed.

(** What a scrape should say of an object: each fact of its status, once. *)
Inductive measured (id : list string) (sb : MilestoneStatusBase) : Desc → list string → Z → Prop :=
  | measured_generation : measured id sb observedGeneration id (ObservedGeneration sb)
  | measured_evaluated :
      LastEvaluatedTime sb ≠ 0%Z → measured id sb lastEvaluatedTimestamp id (LastEvaluatedTime sb / 1000000000)
  | measured_status c :
      c ∈ elems (Conditions sb) → c_Status c ∈ condition_statuses →
      measured id sb statusCondition (id ++ [c_Type c; c_Status c]) 1
  | measured_other_status c s :
      c ∈ elems (Conditions sb) → s ∈ condition_statuses → s ≠ c_Status c →
      measured id sb statusCondition (id ++ [c_Type c; s]) 0
  | measured_ready d v :
      d ∈ elems (DependsOn sb) →
      (ds_Ready d = ConditionTrue ∧ v = 1 ∨ ds_Ready d = ConditionFalse ∧ v = 0 ∨
       ds_Ready d ≠ ConditionTrue ∧ ds_Ready d ≠ ConditionFalse ∧ v = -1)%Z →
      measured id sb dependencyReady (id ++ [ds_Name d; ds_Group d; ds_Kind d]) v
  | measured_bucket d bucket v :
      d ∈ elems (DependsOn sb) →
      (bucket, v) ∈ [("current", Current (ds_Summary d)); ("inProgress", InProgress (ds_Summary d));
                     ("failed", Failed (ds_Summary d)); ("notFound", NotFound (ds_Summary d));
                     ("terminating", Terminating (ds_Summary d)); ("unknown", Unknown (ds_Summary d))] →
      measured id sb dependencyResources (id ++ [ds_Name d; ds_Group d; ds_Kind d; bucket]) v
  | measured_suspended d :
      d ∈ elems (DependsOn sb) →
      measured id sb dependencySuspended (id ++ [ds_Name d; ds_Group d; ds_Kind d]) (Suspended (ds_Summary d)).

Lemma emit_condition_measured kind namespace name sb c x :
  c ∈ elems (Conditions sb) → x ∈ emit_condition kind namespace name c →
  measured [kind; namespace; name] sb (mt_Desc x) (mt_Labels x) (mt_Value x).
Proof.
  intros Hc (s & -> & Hs)%list_elem_of_fmap. cbn [mt_Desc mt_Labels mt_Value].
  case_decide as E; [subst s; by apply (measured_status [kind; namespace; name] sb c)|by apply (measured_other_status [kind; namespace; name] sb c s)].
Qed.

Lemma emit_dependency_measured kind namespace name sb d x :
  d ∈ elems (DependsOn sb) → x ∈ emit_dependency kind namespace name d →
  measured [kind; namespace; name] sb (mt_Desc x) (mt_Labels x) (mt_Value x).
Proof.
  intros Hd Hx. unfold emit_dependency in Hx. rewrite !elem_of_cons, elem_of_nil in Hx.
  destruct Hx as [->|[->|[->|[->|[->|[->|[->|[->|[]]]]]]]]]; cbn [mt_Desc mt_Labels mt_Value];
    [|by apply (measured_bucket [kind; namespace; name] sb d); [|set_solver]..|by apply (measured_suspended [kind; namespace; name] sb d)].
  apply (measured_ready [kind; namespace; name] sb d); [done|]. unfold encodeReady. repeat case_decide; tauto.
Qed.

Lemma emit_measured kind namespace name sb x :
  x ∈ emit kind namespace name sb ↔
  measured [kind; namespace; name] sb (mt_Desc x) (mt_Labels x) (mt_Value x).
Proof.
  unfold emit. rewrite !elem_of_app, !list_elem_of_bind, list_elem_of_singleton. split.
  - intros [->|[Hx|[(c & Hx & Hc)|(d & Hx & Hd)]]]; [apply measured_generation| | |].
    + case_decide; [by apply not_elem_of_nil in Hx|]. apply list_elem_of_singleton in Hx as ->. by apply measured_evaluated.
    + by eapply emit_condition_measured.
    + by eapply emit_dependency_measured.
  - destruct x as [desc v labels]. cbn [mt_Desc mt_Labels mt_Value].
    destruct 1 as [|Ht|c Hc Hs|c s Hc Hs Hne|d v Hd Hv|d bucket v Hd Hv|d Hd].
    + by left.
    + right; left. rewrite decide_False by done. by apply list_elem_of_singleton.
    + right; right; left. exists c. split; [|done]. apply list_elem_of_fmap. exists (c_Status c).
      by rewrite decide_True.
    + right; right; left. exists c. split; [|done]. apply list_elem_of_fmap. exists s.
      by rewrite decide_False.
    + right; right; right. exists d. split; [|done]. unfold emit_dependency. cbv zeta.
      assert (encodeReady (ds_Ready d) = v) as -> by
        (unfold encodeReady; destruct Hv as [[-> ->]|[[-> ->]|(? & ? & ->)]]; [done|done|by rewrite !decide_False]).
      by left.
    + right; right; right. exists d. split; [|done]. unfold emit_dependency.
      rewrite !elem_of_cons, elem_of_nil in Hv. destruct Hv as [[= -> ->]|[[= -> ->]|[[= -> ->]|[[= -> ->]|[[= -> ->]|[[= -> ->]|[]]]]]]];
        set_solver.
    + right; right; right. exists d. split; [|done]. unfold emit_dependency. set_solver.
Qed.

(** C31: a scrape says every object's status, and is never refused. For objects
    with distinct names and statuses the API server admitted, no two metrics the
    collector emits are of one series, each is of a family it described with as
    many label values as the family has labels (so nothing panics), and the
    metrics are exactly the facts of the objects' statuses: the observed
    generation; the time of evaluation, if there was one; for every condition and
    each of the three statuses a series, 1 for the recorded status and 0 for the
    others; for every dependency its readiness (1 for True, 0 for False, -1 for
    anything else), its six resource counters and its suspended counter. *)
Theorem Collect_series ms cms w w1 w2 :
  lister_ListMilestones l w = (ms, w1) → lister_ListClusterMilestones l w1 = (cms, w2) →
  NoDup (milestone_id <$> ms) → NoDup (cluster_milestone_id <$> cms) →
  (∀ m, m ∈ ms → valid_status (m_Status m) = true) →
  (∀ m, m ∈ cms → valid_status (cm_Status m) = true) →
  let metrics := (Collect l w).1 in
  NoDup (series <$> metrics) ∧ (∀ m, m ∈ metrics → well_labelled m ∧ mt_Desc m ∈ Describe) ∧
  ∀ desc labels v, Build_Metric desc v labels ∈ metrics ↔
    (∃ m, m ∈ ms ∧ measured (milestone_id m) (m_Status m) desc labels v) ∨
    (∃ m, m ∈ cms ∧ measured (cluster_milestone_id m) (cm_Status m) desc labels v).
Proof.
  intros Hms Hcms Hnd Hcnd Hv Hcv. unfold Collect. unfold_M. rewrite Hms, Hcms. simpl. split_and!.
  - rewrite fmap_app. apply NoDup_app. split_and!.
    + by apply (collected_series milestone_id m_Status "Milestone" (λ m, om_Namespace (m_Meta m))
        (λ m, om_Name (m_Meta m))).
    + intros s (x & -> & Hx)%list_elem_of_fmap (y & E & Hy)%list_elem_of_fmap.
      apply list_elem_of_bind in Hx as (m & Hx%emit_owner & _).
      apply list_elem_of_bind in Hy as (m' & Hy%emit_owner & _). injection E as _ E.
      rewrite E, Hy in Hx. discriminate Hx.
    + by apply (collected_series cluster_milestone_id cm_Status "ClusterMilestone" (λ _, "")
        (λ m, om_Name (cm_Meta m))).
  - intros x. rewrite elem_of_app, !list_elem_of_bind.
    intros [(m & Hx & _)|(m & Hx & _)]; by eapply emit_well_labelled.
  - intros desc labels v. rewrite elem_of_app, !list_elem_of_bind. unfold collect_milestone, collect_cluster_milestone.
    setoid_rewrite emit_measured. cbn [mt_Desc mt_Labels mt_Value]. unfold milestone_id, cluster_milestone_id. naive_solver.
Qed.
End scrape.

(** ** Witness: the milestone reconciled in [Schema.Still], scraped *)

Module CollectorFix.
#[local] Existing Instance Fix.labels.
#[local] Existing Instance Still.still_runtime.

Definition platform : ClusterMilestone LabelSelector :=
  Build_ClusterMilestone _ (Build_ObjectMeta "platform" "" 1 ∅ [] None 0) [] (m_Status Still.computed).

Definition lister : StateLister (W := unit) :=
  managerStateLister (λ w, (Ok [Still.computed], w)) (λ w, (Ok [platform], w)).

Definition scraped : list Metric := (Collect lister tt).1.

Lemma Collect_series_witness :
  length scraped = 46 ∧ NoDup (series <$> scraped) ∧
  (∀ m, m ∈ scraped → well_labelled m ∧ mt_Desc m ∈ Describe) ∧
  Build_Metric observedGeneration (ObservedGeneration (m_Status Still.computed)) (cluster_milestone_id platform) ∈ scraped.
Proof.
  split; [vm_compute; reflexivity|].
  destruct (Collect_series lister [Still.computed] [platform] tt tt tt) as (Hnd & Hl & Hall).
  - reflexivity.
  - reflexivity.
  - apply NoDup_singleton.
  - apply NoDup_singleton.
  - intros m ->%list_elem_of_singleton. vm_compute. reflexivity.
  - intros m ->%list_elem_of_singleton. vm_compute. reflexivity.
  - split; [exact Hnd|]. split; [exact Hl|]. apply Hall. right. exists platform.
    split; [by left|apply measured_generation].
Defined.
End CollectorFix.
