(* ===== verification/Evaluate.v ===== *)
(** * internal/membership/evaluate.go and report.go

    The evaluation milestonectl runs: the same normalisation, reduction and
    rollups as the operator's, over live lists instead of informer caches. The
    loop that follows the server's continue tokens takes fuel. *)

From S2P Require Import Prelude GoStd ApiV1 K8s Fixtures Status Membership Discovery Normalize.

(** ** Definitions *)

Definition listPageSize : Z := 500.

(** metav1.NamespaceAll. *)
Definition NamespaceAll : string := "".

(** schema.GroupVersionResource: what a REST mapping yields. *)
Record GroupVersionResource := { gvr_Group : string; gvr_Version : string; gvr_Resource : string }.

(** apimeta.RESTMapper; the second method is there when the mapper is also a
    ResettableRESTMapper. *)
Record RESTMapper (W : Type) := {
  RESTMapping : GroupKind → string → M W (result GroupVersionResource);
  mapper_Reset : option (M W unit);
}.

(** metav1.ListOptions, and dynamic.Interface's List of one namespace (or all):
    the items and the continue token. *)
Record ListOptions := { lo_Limit : Z; lo_LabelSelector : string; lo_Continue : string }.

Class DynamicClient (W : Type) `{UnstructuredAPI} := {
  dynamic_List : GroupVersionResource → string → ListOptions → M W (result (list Unstructured * string));
}.

(** *** report.go *)

Record OwnerRef := { or_Kind : string; or_Namespace : string; or_Name : string; or_Generation : Z }.

Record RecordedStatus := {
  rec_Conditions : slice Condition;
  rec_ObservedGeneration : Z;
  rec_LastEvaluatedTime : time;
  rec_Stale : bool;
}.

Record TargetRef := {
  tr_Group : string;
  tr_Version : string;
  tr_Kind : string;
  tr_Selector : string;
  tr_Namespaces : list string;
  tr_NamespaceSelector : string;
}.

Record Member := { mb_Resource : Resource; mb_Blocking : bool }.

Record DependencyReport := {
  dp_Name : string;
  dp_Target : TargetRef;
  dp_Status : DependencyStatus;
  dp_Recorded : option DependencyStatus;
  dp_Members : slice Member;
  dp_Error : string;
  dp_Forbidden : bool;
  dp_Drift : bool;
}.

Record Report := {
  rp_Owner : OwnerRef;
  rp_Recorded : RecordedStatus;
  rp_Ready : ConditionStatus;
  rp_Reason : string;
  rp_Message : string;
  rp_Summary : Summary;
  rp_Dependencies : list DependencyReport;
  rp_EvaluatedAt : time;
}.

(** *** evaluate.go *)

Section evaluator.
Context {W : Type} `{LabelsAPI} `{UnstructuredAPI} `{Formatting} `{ApiErrors} `{!DynamicClient W}.
Context (wall_clock : M W time).

Record Evaluator := {
  ev_Resolver : option (Resolver W);
  ev_Mapper : option (RESTMapper W);
  ev_Namespaces : option (NamespaceLister (W := W));
  ev_Now : option (M W time);
}.

Record specEntry := {
  se_name : string;
  se_target : TargetRef;
  se_listNamespaces : list string;
}.

Definition formatSelector (ls : option LabelSelector) : string :=
  match ls with None => "" | Some ls => FormatLabelSelector ls end.

Definition targetRef (t : TargetSpec LabelSelector) (namespaces : list string)
    (nsSelector : option LabelSelector) : TargetRef :=
  Build_TargetRef (ts_Group t) (ts_Version t) (ts_Kind t) (formatSelector (ts_Selector t)) namespaces
    (formatSelector nsSelector).

Definition recordedDependency (recorded : list DependencyStatus) (name : string)
    : option DependencyStatus :=
  head (filter (λ d, ds_Name d = name) recorded).

Definition ev_now (e : Evaluator) : M W time := default wall_clock (ev_Now e).

Definition restMapping (e : Evaluator) (gvk : GroupVersionKind)
    : M W (result GroupVersionResource) :=
  match ev_Mapper e with
  | None => mret (Err (errors_New "no REST mapper configured"))
  | Some mapper =>
      mapping ← RESTMapping _ mapper (GVK_GroupKind gvk) (Version gvk);
      mapping ← match mapping, mapper_Reset _ mapper with
                | Err err, Some reset =>
                    if IsNoMatchError err then
                      reset;;
                      RESTMapping _ mapper (GVK_GroupKind gvk) (Version gvk)
                    else mret mapping
                | _, _ => mret mapping
                end;
      mret match mapping with
           | Err err => Err (fmt_Errorf ("map " +:+ GVK_String gvk +:+ ": " +:+ err_Error err) [err])
           | Ok gvr => Ok gvr
           end
  end.

(** The [for] of [list]: one page per turn. *)
Fixpoint list_pages (fuel : nat) (gvr : GroupVersionResource) (namespace : string)
    (opts : ListOptions) (out : list Unstructured) : MO W (result (list Unstructured)) :=
  match fuel with
  | O => λ _, None
  | S fuel =>
      l ← run_M (dynamic_List gvr namespace opts);
      match l with
      | Err err => mret (Err err)
      | Ok (items, continue) =>
          let out := out ++ items in
          if decide (continue = "") then mret (Ok out)
          else list_pages fuel gvr namespace
                 (Build_ListOptions (lo_Limit opts) (lo_LabelSelector opts) continue) out
      end
  end.

Definition list_selector (d : Dependency) : string :=
  match d_Selector d with
  | Some sel => if Selector_Empty sel then "" else Selector_String sel
  | None => ""
  end.

Definition ev_list (fuel : nat) (gvr : GroupVersionResource) (namespace : string) (d : Dependency)
    : MO W (result (list Unstructured)) :=
  list_pages fuel gvr namespace (Build_ListOptions listPageSize (list_selector d) "") [].

(** One admitted object of a list. *)
Definition compute_member (d : Dependency) (u : Unstructured) : Resource :=
  Compute (if decide (GetKind u = "") then SetGVK (d_GVK d) u else u).

Definition admitted (d : Dependency) (objs : list Unstructured) : list Unstructured :=
  filter (λ u, Admits d (GetNamespace u) (GetLabels u) = true) objs.

(** The loop over the namespaces. *)
Fixpoint list_namespaces (fuel : nat) (gvr : GroupVersionResource) (d : Dependency)
    (namespaces : list string) (resources : list Resource) : MO W (result (list Resource)) :=
  match namespaces with
  | [] => mret (Ok resources)
  | ns :: namespaces =>
      objs ← ev_list fuel gvr ns d;
      match objs with
      | Err err => mret (Err err)
      | Ok objs =>
          list_namespaces fuel gvr d namespaces
            (resources ++ (compute_member d <$> admitted d objs))
      end
  end.

Definition member_less : Resource → Resource → bool := lex_lt [r_Namespace; r_Name].

Definition set_failure (text : string) (forbidden : bool) (dr : DependencyReport) : DependencyReport :=
  Build_DependencyReport (dp_Name dr) (dp_Target dr) (dp_Status dr) (dp_Recorded dr) (dp_Members dr)
    text forbidden (dp_Drift dr).

Definition set_members (ms : list Member) (dr : DependencyReport) : DependencyReport :=
  Build_DependencyReport (dp_Name dr) (dp_Target dr) (dp_Status dr) (dp_Recorded dr) (Some ms)
    (dp_Error dr) (dp_Forbidden dr) (dp_Drift dr).

Definition evaluateDependency (fuel : nat) (e : Evaluator) (d : Dependency)
    (listNamespaces : list string) (dr : DependencyReport) : MO W (DependencyStatus * DependencyReport) :=
  mapping ← run_M (restMapping e (d_GVK d));
  match mapping with
  | Err err =>
      mret (FailedRollup (d_Name d) (d_GVK d) ReasonWatchSetupFailed,
            set_failure (err_Error err) (dp_Forbidden dr) dr)
  | Ok gvr =>
      let listNamespaces :=
        if bool_decide (d_Scope d ≠ RESTScopeNameNamespace) || bool_decide (listNamespaces = [])
        then [NamespaceAll] else listNamespaces in
      resources ← list_namespaces fuel gvr d listNamespaces [];
      match resources with
      | Err err =>
          mret (FailedRollup (d_Name d) (d_GVK d) ReasonListFailed,
                set_failure (err_Error err) (IsForbidden err) dr)
      | Ok resources =>
          let resources := sort_slice member_less resources in
          mret (ReduceDependency (d_Name d) (Group (d_GVK d)) (Version (d_GVK d)) (Kind (d_GVK d))
                  resources (d_EmptySetPolicy d) (d_SuspendPolicy d),
                set_members ((λ r, Build_Member r (Blocks r (d_SuspendPolicy d))) <$> resources) dr)
      end
  end.

Definition by_name (deps : list Dependency) : gmap string Dependency :=
  foldl (λ m d, <[d_Name d := d]> m) ∅ deps.

Definition new_report (ent : specEntry) : DependencyReport :=
  Build_DependencyReport (se_name ent) (se_target ent) DependencyStatus_zero None None "" false false.

Definition set_error (text : string) (dr : DependencyReport) : DependencyReport :=
  set_failure text (dp_Forbidden dr) dr.

(** The loop over the entries: the rollups, and the reports so far. *)
Fixpoint evaluate_entries (fuel : nat) (e : Evaluator) (byName : gmap string Dependency)
    (errs : list MError) (entries : list specEntry)
    (acc : gmap string DependencyStatus * list DependencyReport)
    : MO W (gmap string DependencyStatus * list DependencyReport) :=
  match entries with
  | [] => mret acc
  | ent :: entries =>
      let dr := new_report ent in
      acc ← match byName !! se_name ent with
            | Some d =>
                '(st, dr) ← evaluateDependency fuel e d (se_listNamespaces ent) dr;
                mret (<[se_name ent := st]> acc.1, acc.2 ++ [dr])
            | None =>
                let dr := match first_error errs (se_name ent) with
                          | Some err => set_error (MError_Error err) dr
                          | None => dr
                          end in
                mret (acc.1, acc.2 ++ [dr])
            end;
      evaluate_entries fuel e byName errs entries acc
  end.

(** The second loop. *)
Definition finish_report (stale : bool) (recorded : list DependencyStatus)
    (rollups : gmap string DependencyStatus) (dr : DependencyReport) : DependencyReport :=
  let st := default DependencyStatus_zero (rollups !! dp_Name dr) in
  let rec := recordedDependency recorded (dp_Name dr) in
  Build_DependencyReport (dp_Name dr) (dp_Target dr) st rec (dp_Members dr) (dp_Error dr) (dp_Forbidden dr)
    (negb stale && match rec with
                   | Some rec => negb (bool_decide (ds_Ready rec = ds_Ready st)) ||
                                 negb (bool_decide (ds_Reason rec = ds_Reason st))
                   | None => false
                   end).

(** The first error without a name stops the evaluation. *)
Definition unnamed_error (errs : list MError) : option MError :=
  head (filter (λ e, e_Name e = "") errs).

Definition evaluate (fuel : nat) (e : Evaluator) (owner : OwnerRef) (recorded : MilestoneStatusBase)
    (entries : list specEntry) (deps : list Dependency) (errs : list MError)
    : MO W (MError + Report) :=
  match unnamed_error errs with
  | Some err => mret (inl err)
  | None =>
      let stale := (ObservedGeneration recorded <? or_Generation owner)%Z in
      '(perDep, reports) ← evaluate_entries fuel e (by_name deps) errs entries (∅, []);
      let rollups := Rollups perDep errs in
      let reports := finish_report stale (elems (DependsOn recorded)) rollups <$> reports in
      let '(ready, reason, message) := ReduceOwner rollups in
      now ← run_M (ev_now e);
      mret (inr (Build_Report owner
        (Build_RecordedStatus (Conditions recorded) (ObservedGeneration recorded)
           (LastEvaluatedTime recorded) stale)
        ready reason message (SummarizeOwner rollups) reports now))
  end.

Definition milestone_entry (ns : string) (d : DependencyRef LabelSelector) : specEntry :=
  Build_specEntry (dr_Name d) (targetRef (dr_Target d) [] None) [ns].

Definition Evaluator_Milestone (fuel : nat) (e : Evaluator) (m : Milestone LabelSelector)
    : MO W (MError + Report) :=
  '(deps, errs) ← run_M (NormalizeMilestone (ev_Resolver e) m);
  evaluate fuel e (Build_OwnerRef "Milestone" (om_Namespace (m_Meta m)) (om_Name (m_Meta m))
                     (om_Generation (m_Meta m))) (m_Status m)
    (milestone_entry (om_Namespace (m_Meta m)) <$> m_DependsOn m) deps errs.

Definition cluster_entry (d : ClusterDependencyRef LabelSelector) : specEntry :=
  let t := cdr_Target d in
  Build_specEntry (cdr_Name d)
    (targetRef (cts_TargetSpec t) (cts_Namespaces t) (cts_NamespaceSelector t)) (cts_Namespaces t).

Definition Evaluator_ClusterMilestone (fuel : nat) (e : Evaluator) (cm : ClusterMilestone LabelSelector)
    : MO W (MError + Report) :=
  '(deps, errs) ← run_M (NormalizeClusterMilestone (ev_Resolver e) (ev_Namespaces e) cm);
  evaluate fuel e (Build_OwnerRef "ClusterMilestone" "" (om_Name (cm_Meta cm)) (om_Generation (cm_Meta cm)))
    (cm_Status cm) (cluster_entry <$> cm_DependsOn cm) deps errs.
End evaluator.

(** ** Listing: every page, once *)

Section listing.
Context {W : Type} `{LabelsAPI} `{UnstructuredAPI} `{!DynamicClient W}.

(** A server that chunks: it answers the i-th page for the i-th token, and the
    token of the next page, or none after the last. [token 0] is the empty one;
    the others are not. *)
Context (pages : GroupVersionResource → string → string → list (list Unstructured)).
Context (token : GroupVersionResource → string → string → nat → string).
Hypothesis token_start : ∀ gvr ns sel, token gvr ns sel 0 = "".
Hypothesis token_next : ∀ gvr ns sel i, token gvr ns sel (S i) ≠ "".
Hypothesis pages_nonempty : ∀ gvr ns sel, pages gvr ns sel ≠ [].
Hypothesis server : ∀ gvr ns limit sel i page w,
  pages gvr ns sel !! i = Some page →
  dynamic_List gvr ns (Build_ListOptions limit sel (token gvr ns sel i)) w =
  (Ok (page, if decide (S i < length (pages gvr ns sel)) then token gvr ns sel (S i) else ""), w).

Lemma list_pages_from fuel gvr ns limit sel i out w :
  i < length (pages gvr ns sel) → length (pages gvr ns sel) ≤ i + fuel →
  list_pages fuel gvr ns (Build_ListOptions limit sel (token gvr ns sel i)) out w =
  Some (Ok (out ++ concat (drop i (pages gvr ns sel))), w).
Proof.
  revert i out. induction fuel as [|fuel IH]; intros i out Hi Hf; [lia|].
  destruct (lookup_lt_is_Some_2 _ _ Hi) as [page Hp].
  simpl. unfold mbind, MO_bind, run_M. rewrite (server _ _ _ _ _ _ _ Hp).
  rewrite (drop_S _ _ _ Hp). simpl. rewrite app_assoc. destruct (decide (S i < _)) as [Hlt|Hge].
  - rewrite decide_False by apply token_next. apply IH; lia.
  - rewrite decide_True by done. rewrite drop_ge by lia. simpl. by rewrite app_nil_r.
Qed.

(** C32: [list] returns every object the server has for the namespace and the
    selector, in its order, each once, whatever the number of pages: it follows
    the continue tokens to the end (one turn per page, so as much fuel as there
    are pages is enough). *)
Theorem list_complete fuel gvr ns d w :
  length (pages gvr ns (list_selector d)) ≤ fuel →
  ev_list fuel gvr ns d w = Some (Ok (concat (pages gvr ns (list_selector d))), w).
Proof.
  intros Hf. unfold ev_list. rewrite <- (token_start gvr ns (list_selector d)).
  rewrite list_pages_from; [done| |lia]. specialize (pages_nonempty gvr ns (list_selector d)).
  destruct (pages _ _ _); [done|]. simpl. lia.
Qed.
End listing.
