(* ===== verification/EvaluateSpec.v ===== *)
(** * The offline evaluation and the operator agree

    milestonectl computes, from live lists, the verdict the operator would
    record from its informer caches. The theorem of this file compares the two
    programs, [Evaluate.v] against [Reconciler.v]: given that the server and the
    caches hold the same objects, they reach the same verdict. *)

From S2P Require Import Prelude GoStd ApiV1 K8s Fixtures Metrics Status Membership Discovery Normalize SubscriberIndex StatusHelpers StatusPatch Reconciler ReconcilerSpec Registry Process Schema Evaluate.
From Stdlib Require Import Ascii.

(** ** Definitions *)

Section agreement_definitions.
Context {V : Type} `{LabelsAPI} `{UnstructuredAPI} `{Formatting} `{ApiErrors} `{!DynamicClient V}.
(** [inv] holds while the cluster stays as it is. *)
Context (inv : V → Prop).

(** While [inv] holds the call answers [a], and keeps it. *)
Definition answers {A} (call : M V A) (a : A) : Prop :=
  ∀ v, inv v → (call v).1 = a ∧ inv (call v).2.

Definition lists {A} (call : MO V A) (a : A) : Prop :=
  ∀ v, inv v → ∃ v', call v = Some (a, v') ∧ inv v'.

(** The namespaces [evaluateDependency] lists. *)
Definition namespaces_of (d : Dependency) (listNamespaces : list string) : list string :=
  if bool_decide (d_Scope d ≠ RESTScopeNameNamespace) || bool_decide (listNamespaces = [])
  then [NamespaceAll] else listNamespaces.

(** [l] answers a list of [ns]: the objects of the namespace (or all), in any
    order; the server may leave out what the dependency does not admit. *)
Definition serves (d : Dependency) (objs : list Unstructured) (ns : string) (l : list Unstructured) : Prop :=
  ∃ keep : Unstructured → bool,
    (l ≡ₚ filter (λ u, (ns = NamespaceAll ∨ GetNamespace u = ns) ∧ keep u = true) objs) ∧
    ∀ u, u ∈ objs → Admits d (GetNamespace u) (GetLabels u) = true → keep u = true.

(** Namespaces listed one by one are distinct, and the matcher admits no other. *)
Definition confined (d : Dependency) (namespaces : list string) : Prop :=
  namespaces = [NamespaceAll] ∨
  (NoDup namespaces ∧ (NamespaceAll ∉ namespaces) ∧
  ∃ m, d_NamespaceMatcher d = Some m ∧ ∀ ns, m ns = true → ns ∈ namespaces).

(** The server shows the evaluator what the operator observed of [d]. *)
Definition agrees (fuel : nat) (e : Evaluator (W := V)) (d : Dependency) (listNamespaces : list string)
    (o : observation) : Prop :=
  match o with
  | WatchFailed => ∃ err, answers (restMapping e (d_GVK d)) (Err err)
  | Listed res => ∃ gvr, answers (restMapping e (d_GVK d)) (Ok gvr) ∧
      match res with
      | Err _ => ∃ pre ns post err, namespaces_of d listNamespaces = pre ++ ns :: post ∧
          (∀ n, n ∈ pre → ∃ l, lists (ev_list fuel gvr n d) (Ok l)) ∧
          lists (ev_list fuel gvr ns d) (Err err)
      | Ok objs =>
          confined d (namespaces_of d listNamespaces) ∧ (∀ u, u ∈ objs → GetKind u ≠ "") ∧
          ∀ ns, ns ∈ namespaces_of d listNamespaces →
            ∃ l, serves d objs ns l ∧ lists (ev_list fuel gvr ns d) (Ok l)
      end
  end.

Definition entries_agree (fuel : nat) (e : Evaluator (W := V)) (entries : list specEntry)
    (deps : list Dependency) (obs : list observation) : Prop :=
  (∀ d, d ∈ deps → d_Name d ∈ se_name <$> entries) ∧
  ∀ ent d o, ent ∈ entries → (d, o) ∈ zip deps obs → se_name ent = d_Name d →
    agrees fuel e d (se_listNamespaces ent) o.

(** The report says what the status says. *)
Definition same_verdict `{ConditionsAPI} (sb : MilestoneStatusBase) (report : Report) : Prop :=
  (∃ c, FindStatusCondition (Conditions sb) ConditionReady = Some c ∧
     (c_Status c, c_Reason c, c_Message c) = (rp_Ready report, rp_Reason report, rp_Message report)) ∧
  sb_Summary sb = rp_Summary report ∧
  ∀ dr st, dr ∈ rp_Dependencies report → st ∈ elems (DependsOn sb) → ds_Name st = dp_Name dr →
    dp_Status dr = st.
End agreement_definitions.

(** ** Members *)

Lemma filter_or {A} (P Q : A → Prop) `{!∀ x, Decision (P x), !∀ x, Decision (Q x)} (l : list A) :
  (∀ x, x ∈ l → P x → Q x → False) →
  filter (λ x, P x ∨ Q x) l ≡ₚ filter P l ++ filter Q l.
Proof.
  induction l as [|x l IH]; intros Hd; [done|].
  rewrite !filter_cons. specialize (IH (λ y Hy, Hd y (list_elem_of_further _ _ _ Hy))).
  assert (P x → Q x → False) as Hx by (apply Hd; by left).
  repeat case_decide; try naive_solver.
  by rewrite <- Permutation_middle, IH.
Qed.

Lemma filter_ext_elem {A} (P Q : A → Prop) `{!∀ x, Decision (P x), !∀ x, Decision (Q x)} (l : list A) :
  (∀ x, x ∈ l → P x ↔ Q x) → filter P l = filter Q l.
Proof.
  induction l as [|x l IH]; intros Hi; [done|]. rewrite !filter_cons, IH by (intros; apply Hi; by right).
  specialize (Hi x ltac:(by left)). repeat case_decide; tauto.
Qed.

Section members.
Context `{LabelsAPI} `{UnstructuredAPI}.
Implicit Types (d : Dependency) (objs : list Unstructured).

Lemma serves_admitted d objs ns l :
  serves d objs ns l →
  admitted d l ≡ₚ filter (λ u, ns = NamespaceAll ∨ GetNamespace u = ns) (admitted d objs).
Proof.
  intros (keep & Hl & Hkeep). unfold admitted. rewrite Hl, !list_filter_filter.
  erewrite filter_ext_elem; [done|]. intros u Hu. specialize (Hkeep u Hu). simpl in *. naive_solver.
Qed.

Lemma served_admitted d objs nss ls :
  NoDup nss → NamespaceAll ∉ nss → Forall2 (serves d objs) nss ls →
  admitted d (concat ls) ≡ₚ filter (λ u, GetNamespace u ∈ nss) (admitted d objs).
Proof.
  intros Hnd Hall Hs. revert Hnd Hall. induction Hs as [|ns l nss ls Hs Hss IH]; intros Hnd Hall.
  - simpl. rewrite (filter_ext_elem _ (λ _, False)); [|set_solver].
    by induction (admitted d objs).
  - apply NoDup_cons in Hnd as [Hnot Hnd]. simpl. unfold admitted at 1. rewrite filter_app.
    change (filter _ l) with (admitted d l). change (filter _ (concat ls)) with (admitted d (concat ls)).
    rewrite IH, (serves_admitted _ _ _ _ Hs) by set_solver.
    rewrite <- filter_or by (intros u _; set_solver).
    erewrite filter_ext_elem; [done|]. intros u _. simpl. set_solver.
Qed.

(** Whatever is listed one namespace at a time, the members are those of the
    cache. *)
Lemma served_members d objs nss ls :
  confined d nss → Forall2 (serves d objs) nss ls → admitted d (concat ls) ≡ₚ admitted d objs.
Proof.
  intros [->|(Hnd & Hall & m & Hm & Hin)] Hs.
  - apply Forall2_cons_inv_l in Hs as (l & ls' & Hs & ->%Forall2_nil_inv_l & ->). simpl.
    rewrite app_nil_r, (serves_admitted _ _ _ _ Hs), (filter_ext_elem _ (λ _, True)) by naive_solver.
    induction (admitted d objs); [done|]. rewrite filter_cons, decide_True by done. by constructor.
  - rewrite (served_admitted d objs nss ls) by done. rewrite (filter_ext_elem _ (λ _, True)).
    + induction (admitted d objs); [done|]. rewrite filter_cons, decide_True by done. by constructor.
    + intros u Hu. split; [done|]. intros _. apply Hin. unfold admitted in Hu.
      apply list_elem_of_filter in Hu as [Hu _]. unfold Admits in Hu. rewrite Hm in Hu. by bsimp.
Qed.

Lemma compute_members d objs :
  (∀ u, u ∈ objs → GetKind u ≠ "") → compute_member d <$> admitted d objs = members d objs.
Proof.
  intros Hk. apply list_fmap_ext. intros i u Hu%list_elem_of_lookup_2. unfold compute_member.
  rewrite decide_False; [done|]. apply Hk. by apply list_elem_of_filter in Hu as [_ ?].
Qed.
End members.

(** ** One dependency *)

Section dependency.
Context {V : Type} `{LabelsAPI} `{UnstructuredAPI} `{Formatting} `{ApiErrors} `{!DynamicClient V}.
Context (inv : V → Prop) (fuel : nat) (e : Evaluator (W := V)).
Implicit Types (d : Dependency) (objs : list Unstructured).

Lemma list_namespaces_ok gvr d objs nss res v :
  inv v → (∀ ns, ns ∈ nss → ∃ l, serves d objs ns l ∧ lists inv (ev_list fuel gvr ns d) (Ok l)) →
  ∃ ls v', Forall2 (serves d objs) nss ls ∧ inv v' ∧
    list_namespaces fuel gvr d nss res v =
      Some (Ok (res ++ (compute_member d <$> admitted d (concat ls))), v').
Proof.
  revert res v. induction nss as [|ns nss IH]; intros res v Hv Hl.
  { exists [], v. simpl. by rewrite app_nil_r. }
  destruct (Hl ns ltac:(by left)) as (l & Hs & Hcall). destruct (Hcall v Hv) as (v1 & E & Hv1).
  destruct (IH (res ++ (compute_member d <$> admitted d l)) v1 Hv1) as (ls & v' & Hss & Hv' & E').
  { intros ns' Hns. apply Hl. by right. }
  exists (l :: ls), v'. split_and!; [by constructor|done|]. simpl. unfold mbind, MO_bind.
  rewrite E, E'. unfold admitted. by rewrite filter_app, fmap_app, app_assoc.
Qed.

Lemma list_namespaces_err gvr d pre ns post err res v :
  inv v → (∀ n, n ∈ pre → ∃ l, lists inv (ev_list fuel gvr n d) (Ok l)) →
  lists inv (ev_list fuel gvr ns d) (Err err) →
  ∃ v', inv v' ∧ list_namespaces fuel gvr d (pre ++ ns :: post) res v = Some (Err err, v').
Proof.
  revert res v. induction pre as [|n pre IH]; intros res v Hv Hl Herr.
  { destruct (Herr v Hv) as (v' & E & Hv'). exists v'. split; [done|]. simpl. unfold mbind, MO_bind.
    by rewrite E. }
  destruct (Hl n ltac:(by left)) as (l & Hcall). destruct (Hcall v Hv) as (v1 & E & Hv1).
  destruct (IH (res ++ (compute_member d <$> admitted d l)) v1 Hv1) as (v' & Hv' & E'); [|done|].
  { intros ns' Hns. apply Hl. by right. }
  exists v'. split; [done|]. simpl. unfold mbind, MO_bind. by rewrite E, E'.
Qed.

Lemma evaluateDependency_run d listNamespaces o dr v :
  inv v → agrees inv fuel e d listNamespaces o →
  ∃ dr' v', evaluateDependency fuel e d listNamespaces dr v = Some ((rollup_of d o, dr'), v') ∧
    inv v' ∧ dp_Name dr' = dp_Name dr.
Proof.
  intros Hv Hag. unfold evaluateDependency, mbind at 1, MO_bind at 1, run_M.
  fold (namespaces_of d listNamespaces).
  destruct o as [|res]; simpl in Hag.
  - destruct Hag as [err Hm]. destruct (Hm v Hv) as [E Hv1].
    destruct (restMapping e (d_GVK d) v) as [r v1]. simpl in *. subst r. by eexists _, _.
  - destruct Hag as (gvr & Hm & Hres). destruct (Hm v Hv) as [E Hv1].
    destruct (restMapping e (d_GVK d) v) as [r v1]. simpl in E, Hv1. subst r.
    unfold mbind, MO_bind. destruct res as [objs|err'].
    + destruct Hres as (Hconf & Hk & Hall).
      destruct (list_namespaces_ok gvr d objs (namespaces_of d listNamespaces) [] v1 Hv1 Hall)
        as (ls & v' & Hs & Hv' & ->).
      eexists _, v'. split; [|split; [done|shelve]]. unfold mret, MO_ret. do 3 f_equal.
      apply ReduceDependency_perm.
      rewrite sort_slice_perm, <- (compute_members d objs Hk). apply fmap_Permutation.
      by apply (served_members d objs (namespaces_of d listNamespaces)).
      Unshelve. done.
    + destruct Hres as (pre & ns & post & err & Hns & Hpre & Herr).
      destruct (list_namespaces_err gvr d pre ns post err [] v1 Hv1 Hpre Herr) as (v' & Hv' & E).
      rewrite Hns, E. by eexists _, _.
Qed.
End dependency.

(** ** The whole evaluation *)

Section evaluation.
Context {V : Type} `{LabelsAPI} `{UnstructuredAPI} `{Formatting} `{ApiErrors} `{!DynamicClient V}.
Context (inv : V → Prop) (fuel : nat) (e : Evaluator (W := V)).
Implicit Types (deps : list Dependency) (entries : list specEntry).

Lemma by_name_lookup deps name :
  NoDup (d_Name <$> deps) →
  match by_name deps !! name with
  | Some d => d ∈ deps ∧ d_Name d = name
  | None => ∀ d, d ∈ deps → d_Name d ≠ name
  end.
Proof.
  unfold by_name. induction deps as [|d deps IH] using rev_ind; intros Hnd; [set_solver|].
  rewrite fmap_app in Hnd. apply NoDup_app in Hnd as (Hnd & Hd & _). specialize (IH Hnd).
  rewrite foldl_snoc_fix. destruct (decide (d_Name d = name)) as [<-|Hne].
  - rewrite lookup_insert_eq. set_solver.
  - rewrite lookup_insert_ne by done. destruct (foldl _ _ deps !! name); set_solver.
Qed.

(** What the loop over the entries leaves: the operator's rollups. *)
Lemma evaluate_entries_run deps obs errs entries acc v :
  NoDup (d_Name <$> deps) → length deps = length obs → inv v →
  (∀ ent d, ent ∈ entries → d ∈ deps → d_Name d = se_name ent →
     ∃ o, (d, o) ∈ zip deps obs ∧ agrees inv fuel e d (se_listNamespaces ent) o) →
  ∃ perDep reports v',
    evaluate_entries fuel e (by_name deps) errs entries acc v = Some ((perDep, reports), v') ∧
    inv v' ∧ dp_Name <$> reports = (dp_Name <$> acc.2) ++ (se_name <$> entries) ∧
    ∀ name, perDep !! name =
      if decide (name ∈ se_name <$> entries)
      then match rollups_of ∅ (zip deps obs) !! name with Some st => Some st | None => acc.1 !! name end
      else acc.1 !! name.
Proof.
  intros Hnd Hlen. assert ((zip deps obs).*1 = deps) as Hfst by (apply fst_zip; lia).
  revert acc v. induction entries as [|ent entries IH]; intros [perDep reports] v Hv Hag.
  { exists perDep, reports, v. simpl. split_and!; [done..|by rewrite app_nil_r|]. done. }
  simpl. pose proof (by_name_lookup deps (se_name ent) Hnd) as Hby.
  destruct (by_name deps !! se_name ent) as [d|].
  - destruct Hby as [Hd Hn]. destruct (Hag ent d ltac:(by left) Hd Hn) as (o & Ho & Hseen).
    destruct (evaluateDependency_run inv fuel e d (se_listNamespaces ent) o (new_report ent) v Hv Hseen)
      as (dr & v1 & Hrun & Hv1 & Hname).
    destruct (IH (<[se_name ent := rollup_of d o]> perDep, reports ++ [dr]) v1 Hv1) as (p' & r' & v' & E & Hv' & Hr & Hp).
    { intros ent' d' He'. apply Hag. by right. }
    exists p', r', v'. unfold mbind, MO_bind. rewrite Hrun. split_and!; [done|done| |].
    + rewrite Hr. simpl. rewrite fmap_app, <- app_assoc. simpl. by rewrite Hname.
    + intros name. rewrite Hp. simpl.
      pose proof (rollups_of_lookup ∅ (zip deps obs) d o ltac:(by rewrite Hfst) Ho) as Hroll.
      destruct (decide (name = se_name ent)) as [->|Hne].
      * rewrite lookup_insert_eq, (decide_True (P := se_name ent ∈ se_name ent :: _)) by (by left).
        rewrite <- Hn, Hroll. by case_decide.
      * rewrite lookup_insert_ne by done. repeat case_decide; set_solver.
  - set (dr := match first_error errs (se_name ent) with Some _ => _ | None => _ end).
    destruct (IH (perDep, reports ++ [dr]) v Hv) as (p' & r' & v' & E & Hv' & Hr & Hp).
    { intros ent' d' He'. apply Hag. by right. }
    exists p', r', v'. split_and!; [done|done| |].
    + rewrite Hr. simpl. rewrite fmap_app, <- app_assoc. simpl. unfold dr. by case_match.
    + intros name. rewrite Hp. simpl. destruct (decide (name = se_name ent)) as [->|Hne].
      * assert (rollups_of ∅ (zip deps obs) !! se_name ent = None) as ->.
        { rewrite rollups_of_other; [done|]. rewrite Hfst. intros (d & Hn & Hd)%list_elem_of_fmap.
          by apply (Hby d). }
        by repeat case_decide.
      * repeat case_decide; set_solver.
Qed.

Lemma no_unnamed_error deps depErrs : names_ok deps depErrs → unnamed_error depErrs = None.
Proof.
  intros [_ Hne]. unfold unnamed_error. destruct (filter _ depErrs) as [|x l] eqn:E; [done|].
  assert (x ∈ filter (λ e, e_Name e = "") depErrs) as Hx by (rewrite E; by left).
  apply list_elem_of_filter in Hx as [Hx Hin]. destruct Hne. rewrite elem_of_app, <- Hx. right.
  by apply list_elem_of_fmap_2.
Qed.

(** The evaluation as a whole: its report is the owner reduction of the rollups
    of what the operator observed. *)
Lemma evaluate_run client_clock owner recorded entries deps depErrs obs v :
  names_ok deps depErrs → length deps = length obs → inv v → entries_agree inv fuel e entries deps obs →
  let all := Rollups (rollups_of ∅ (zip deps obs)) depErrs in
  ∃ report reports v',
    evaluate client_clock fuel e owner recorded entries deps depErrs v = Some (inr report, v') ∧
    (rp_Ready report, rp_Reason report, rp_Message report) = ReduceOwner all ∧
    rp_Summary report = SummarizeOwner all ∧ dp_Name <$> reports = se_name <$> entries ∧
    rp_Dependencies report = finish_report (ObservedGeneration recorded <? or_Generation owner)%Z
                               (elems (DependsOn recorded)) all <$> reports.
Proof.
  intros Hnames Hlen Hv [Hcover Hag]. pose proof Hnames as [Hnd _]. apply NoDup_app in Hnd as (Hnd & _).
  assert ((zip deps obs).*1 = deps) as Hfst by (apply fst_zip; lia).
  destruct (evaluate_entries_run deps obs depErrs entries (∅, []) v Hnd Hlen Hv)
    as (perDep & reports & v1 & Hrun & _ & Hreports & Hper).
  { intros ent d Hent Hd Hname. rewrite <- Hfst in Hd.
    apply list_elem_of_fmap in Hd as ([d' o] & -> & Hp). exists o. split; [done|]. by apply Hag. }
  assert (perDep = rollups_of ∅ (zip deps obs)) as ->.
  { apply map_eq. intros name. rewrite Hper. simpl. rewrite !lookup_empty. case_decide as Hin.
    - by destruct (rollups_of _ _ !! name).
    - symmetry. apply rollups_of_other. rewrite Hfst. intros (d & -> & Hd)%list_elem_of_fmap. auto. }
  unfold evaluate. rewrite (no_unnamed_error deps) by done. unfold mbind, MO_bind, run_M. rewrite Hrun.
  destruct (ReduceOwner _) as [[ready reason] message]. destruct (ev_now client_clock e v1) as [now v2].
  by eexists _, reports, v2.
Qed.
End evaluation.

(** ** Against the operator *)

Section status.
Context `{ConditionsLaws} `{LabelsAPI}.
Implicit Types (rollups : gmap string DependencyStatus).

Lemma apply_status_ready_condition ResourceCap StalledErrorCap now1 now2 sb generation rollups notReady errs :
  let sb' := apply_status ResourceCap StalledErrorCap now1 now2 sb generation rollups notReady errs in
  (∃ c, FindStatusCondition (Conditions sb') ConditionReady = Some c ∧
     (c_Status c, c_Reason c, c_Message c) = ReduceOwner (Rollups rollups errs)) ∧
  sb_Summary sb' = SummarizeOwner (Rollups rollups errs) ∧
  DependsOn sb' = sortedDependencyStatuses (Rollups rollups errs).
Proof.
  pose proof (apply_status_eq ResourceCap StalledErrorCap now1 now2 sb generation rollups notReady errs) as E.
  cbv zeta in *. destruct (capResources _ _). rewrite E. split; [|done]. simpl Conditions.
  rewrite find_set_ne by by rewrite stalled_condition_type.
  pose proof (find_set_eq now1 (Conditions sb) (ready_condition generation (Rollups rollups errs))) as Hf.
  rewrite ready_condition_type in Hf. destruct Hf as (c & -> & _ & Hs & Hr & Hm & _).
  exists c. split; [done|]. rewrite Hs, Hr, Hm. unfold ready_condition.
  by destruct (ReduceOwner _) as [[? ?] ?].
Qed.

(** What a status records about a name is the rollup it was published from. *)
Lemma recorded_published rollups name :
  map_Forall (λ n st, ds_Name st = n) rollups →
  recordedDependency (elems (sortedDependencyStatuses rollups)) name = rollups !! name.
Proof.
  intros Hkey. unfold recordedDependency.
  assert (∀ st, st ∈ filter (λ d, ds_Name d = name) (elems (sortedDependencyStatuses rollups)) ↔
    rollups !! name = Some st) as Hin.
  { intros st. rewrite list_elem_of_filter, elem_of_sortedDependencyStatuses. split.
    - intros [<- [n Hn]]. by rewrite (Hkey _ _ Hn).
    - intros Hst. split; [by apply (Hkey _ _ Hst)|by exists name]. }
  destruct (filter _ _) as [|x l].
  - destruct (rollups !! name) as [st|]; [|done]. by destruct (not_elem_of_nil st (proj2 (Hin st) eq_refl)).
  - symmetry. apply Hin. by left.
Qed.

Lemma finish_report_no_drift stale rollups dr :
  map_Forall (λ n st, ds_Name st = n) rollups →
  dp_Drift (finish_report stale (elems (sortedDependencyStatuses rollups)) rollups dr) = false.
Proof.
  intros Hkey. simpl. rewrite (recorded_published _ _ Hkey).
  destruct (rollups !! dp_Name dr) as [st|]; simpl; rewrite ?andb_false_r; [|done].
  by rewrite !bool_decide_true, andb_false_r.
Qed.
End status.

Section verdict.
Context {W V : Type} `{LabelsAPI} `{UnstructuredAPI} `{Formatting} `{ApiErrors} `{ConditionsLaws}
  `{FinalizerAPI} `{MetaJSON} `{!DynamicClient V}.
Context `{!RegistryAPI W} `{!NamespaceClient W} `{!Runtime W}.
Context (R : relation W) `{!TimeLaws W R}.
Context {T : Type} (r : Reconciler (W := W) T).
Hypothesis status_lens : ∀ sb obj,
  oa_Status _ (rc_Adapter _ r) (oa_set_Status _ (rc_Adapter _ r) sb obj) = sb.
Hypothesis normalize_time : ∀ obj w, R w (oa_Dependencies _ (rc_Adapter _ r) obj (rc_Resolver _ r) w).2.
Context (client_clock : M V time) (inv : V → Prop) (fuel : nat) (e : Evaluator (W := V)).

(** C19: milestonectl reaches the operator's verdict. Take a reconcile and what it
    observed of each dependency; if the server shows the evaluator the same (the
    kinds map or not, the lists fail or hold the cached objects, per namespace
    or all at once, label selector honoured or not, in any order), then the
    evaluation of the same dependencies and errors succeeds, with the Ready
    condition, the summary and each dependency's rollup of the status the
    reconcile computed, and it reports no drift from that status. *)
Theorem evaluate_agrees obj w deps depErrs obj' w' :
  (oa_Dependencies _ (rc_Adapter _ r) obj (rc_Resolver _ r) w).1 = (deps, depErrs) →
  names_ok deps depErrs → compute_status r obj w = (obj', w') →
  let sb := oa_Status _ (rc_Adapter _ r) obj' in
  ∃ obs, Forall2 (observed_as R (oa_OwnerKey _ (rc_Adapter _ r) obj) deps w w') deps obs ∧
    ∀ owner recorded entries v,
      inv v → entries_agree inv fuel e entries deps obs →
      ∃ report v',
        evaluate client_clock fuel e owner recorded entries deps depErrs v = Some (inr report, v') ∧
        dp_Name <$> rp_Dependencies report = se_name <$> entries ∧ same_verdict sb report ∧
        (recorded = sb → ∀ dr, dr ∈ rp_Dependencies report → dp_Drift dr = false).
Proof.
  intros Hdeps Hnames Hrun. cbv zeta.
  pose proof (compute_status_run R r normalize_time obj w deps depErrs Hdeps Hnames) as Hs.
  rewrite Hrun in Hs. destruct Hs as (_ & obs & fails & now1 & now2 & Hobs & Hfails & _ & ->).
  rewrite status_lens. exists obs. split; [done|]. intros owner recorded entries v Hv Hag.
  pose proof (Forall2_length _ _ _ Hobs) as Hlen.
  set (later := watch_errors fails deps ++ (zip deps obs ≫= λ p, list_errors_of p.1 p.2)).
  pose proof (λ name st, final_rollups deps obs depErrs later name st Hnames Hlen
    (λ e, later_names fails deps obs e Hlen)) as Hl.
  assert (∀ name st, Rollups (rollups_of ∅ (zip deps obs)) depErrs !! name = Some st ↔
    name = ds_Name st ∧ is_rollup (zip deps obs) depErrs st) as Hl0.
  { intros name st. rewrite <- (app_nil_r depErrs) at 1. apply final_rollups; [done..|set_solver]. }
  destruct (apply_status_ready_condition (rc_ResourceCap _ r) (rc_StalledErrorCap _ r) now1 now2
    (oa_Status _ (rc_Adapter _ r) obj) (om_Generation (oa_Meta _ (rc_Adapter _ r) obj))
    (rollups_of ∅ (zip deps obs)) (zip deps obs ≫= λ p, not_ready_of p.1 p.2) (depErrs ++ later))
    as ((c & Hc & Hready) & Hsum & Hdo). fold later.
  set (sb := apply_status _ _ _ _ _ _ _ _ _) in *. clearbody sb.
  replace (Rollups (rollups_of ∅ (zip deps obs)) (depErrs ++ later)) with
          (Rollups (rollups_of ∅ (zip deps obs)) depErrs) in *
    by (apply map_eq; intros name; apply option_eq; intros st; by rewrite Hl, Hl0).
  destruct (evaluate_run inv fuel e client_clock owner recorded entries deps depErrs obs v Hnames Hlen Hv Hag)
    as (report & reports & v' & Hrun' & Hrep & Hsum' & Hnames' & Hdeps').
  exists report, v'. split; [done|]. unfold same_verdict. rewrite Hdeps'. split_and!.
  - by rewrite <- Hnames', <- list_fmap_compose.
  - exists c. by rewrite Hready, Hrep.
  - congruence.
  - intros dr st (dr0 & -> & _)%list_elem_of_fmap Hst Hname.
    rewrite Hdo, elem_of_sortedDependencyStatuses in Hst. destruct Hst as [n Hst]. simpl in *.
    apply Hl0 in Hst as Hn. destruct Hn as [-> _]. by rewrite <- Hname, Hst.
  - intros -> dr (dr0 & -> & _)%list_elem_of_fmap. rewrite Hdo. apply finish_report_no_drift.
    intros n st Hst. by apply Hl0 in Hst as [-> _].
Qed.
End verdict.

(** ** Witnesses: a still cluster

    The operator's world and the client's do not change; the server sends two
    pages, and ignores the label selector. *)

Module EvalFix.
#[local] Existing Instance Fix.labels.
#[local] Existing Instance Fix.unstructured.
#[local] Existing Instance Fix.formatting.
#[local] Existing Instance Fix.api_errors.
#[local] Existing Instance Fix.conditions.
#[local] Existing Instance Fix.conditions_laws.
#[local] Existing Instance Still.still_registry.
#[local] Existing Instance Still.still_runtime.
#[local] Existing Instance Still.still_time.
#[local] Existing Instance Still.still_namespaces.
Import Still.

(** Tokens in unary. *)
Fixpoint token (i : nat) : string := match i with O => "" | S i => String (Ascii.ascii_of_nat 120) (token i) end.

Lemma token_length i : String.length (token i) = i.
Proof. induction i as [|i IH]; simpl; [done|by rewrite IH]. Qed.

Definition pages (ns : string) : list (list Unstructured) :=
  [filter (λ u, GetNamespace u = ns) (drop 2 cached); filter (λ u, GetNamespace u = ns) (take 2 cached)].

#[local] Instance chunked : DynamicClient unit := {
  dynamic_List := λ gvr ns opts w,
    let i := String.length (lo_Continue opts) in
    (Ok (default [] (pages ns !! i), if decide (S i < 2) then token (S i) else ""), w);
}.

Definition evaluator : Evaluator (W := unit) := {|
  ev_Resolver := Some resolver;
  ev_Mapper := Some {|
    RESTMapping := λ gk version w, (Ok (Build_GroupVersionResource (gk_Group gk) version "pods"), w);
    mapper_Reset := None;
  |};
  ev_Namespaces := None;
  ev_Now := Some (λ w, (9%Z, w));
|}.

Definition web_deps : list Dependency := (NormalizeMilestone (Some resolver) Demo.web tt).1.1.
Definition web_dep : Dependency :=
  default (Build_Dependency _ "" Demo.pods "" None None "" "") (head web_deps).
Definition entries : list specEntry := milestone_entry "ns" <$> m_DependsOn Demo.web.
Definition status : MilestoneStatusBase := m_Status (compute_status reconciler Demo.web tt).1.
Definition pod_resource : GroupVersionResource := Build_GroupVersionResource "" "v1" "pods".

Example verdicts :
  readyConditionStatus status = ConditionUnknown ∧
  (∃ report v, Evaluator_Milestone (λ w, (0%Z, w)) 2 evaluator Demo.web tt = Some (inr report, v) ∧
     rp_Ready report = ConditionUnknown).
Proof. vm_compute. split; [done|]. by eexists _, _. Qed.

Lemma list_complete_witness :
  length (pages "ns") ≤ 2 ∧
  ev_list 2 pod_resource "ns" web_dep tt = Some (Ok (concat (pages "ns")), tt).
Proof.
  split; [vm_compute; lia|].
  apply (list_complete (λ _ ns _, pages ns) (λ _ _ _, token)).
  - done.
  - done.
  - done.
  - intros gvr ns limit sel i page [] Hp.
    cbn [dynamic_List chunked lo_Continue]. rewrite token_length. cbv zeta. by rewrite Hp.
  - simpl. lia.
Defined.

Lemma eval_still_lens sb (m : Demo.milestone) :
  oa_Status _ (rc_Adapter _ reconciler) (oa_set_Status _ (rc_Adapter _ reconciler) sb m) = sb.
Proof. done. Qed.

(** Both pages, of the one namespace: the server left nothing out. *)
Lemma web_served : serves web_dep cached "ns" (concat (pages "ns")).
Proof.
  exists (λ _, true). split; [|done]. vm_compute. exact (Permutation_cons_append [_; _] _).
Qed.

Lemma web_agrees : agrees (λ _ : unit, True) 2 evaluator web_dep ["ns"] (Listed (Ok cached)).
Proof.
  exists pod_resource. split; [by intros []|]. split_and!.
  - right. split_and!.
    + apply (bool_decide_unpack _). vm_compute. done.
    + apply (bool_decide_unpack _). vm_compute. done.
    + exists (λ target, bool_decide (target = "ns")). split; [reflexivity|].
      intros ns ->%bool_decide_eq_true. apply (bool_decide_unpack _). vm_compute. done.
  - intros u Hu. unfold cached in Hu. rewrite !elem_of_cons, elem_of_nil in Hu.
    by destruct Hu as [->|[->|[->|[->|[]]]]].
  - intros ns Hns. assert (ns = "ns") as ->.
    { change (ns ∈ ["ns"]) in Hns. by apply list_elem_of_singleton in Hns. }
    exists (concat (pages "ns")). split; [exact web_served|]. intros [] _. exists tt. split; [|done].
    vm_compute. reflexivity.
Qed.

Lemma evaluate_agrees_witness :
  ∃ report, evaluate (λ w, (0%Z, w)) 2 evaluator (Build_OwnerRef "Milestone" "ns" "m" 3) status entries
      web_deps [] tt = Some (inr report, tt) ∧
    rp_Ready report = ConditionUnknown ∧ same_verdict status report ∧
    ∀ dr, dr ∈ rp_Dependencies report → dp_Drift dr = false.
Proof.
  destruct (evaluate_agrees (λ _ _ : unit, True) reconciler eval_still_lens (λ _ _, I) (λ w, (0%Z, w))
    (λ _, True) 2 evaluator Demo.web tt web_deps [] (compute_status reconciler Demo.web tt).1 tt)
    as (obs & Hobs & Hev).
  - vm_compute. reflexivity.
  - split; apply (bool_decide_unpack _); vm_compute; done.
  - vm_compute. reflexivity.
  - apply Forall2_cons_inv_l in Hobs as (o & obs' & Ho & Hnil & ->).
    apply Forall2_nil_inv_l in Hnil as ->.
    assert (o = Listed (Ok cached)) as ->.
    { destruct o as [|res]; simpl in Ho.
      - destruct Ho as (err & wi & _ & _ & Ho). discriminate Ho.
      - destruct Ho as (_ & wi & _ & _ & <-). reflexivity. }
    destruct (Hev (Build_OwnerRef "Milestone" "ns" "m" 3) status entries tt I) as (report & [] & Hrun & _ & Hv & Hd).
    + split; [by intros d Hd%list_elem_of_singleton; subst d; apply (bool_decide_unpack _); vm_compute|].
      intros ent d o Hent Hp Hname. apply list_elem_of_singleton in Hp as [= -> ->].
      apply list_elem_of_singleton in Hent as ->. exact web_agrees.
    + exists report. split; [exact Hrun|]. split; [|split; [exact Hv|exact (Hd eq_refl)]].
      destruct Hv as ((c & Hc & Heq) & _). vm_compute in Hc. injection Hc as <-. by injection Heq.
Defined.
End EvalFix.
