(* ===== verification/Informers.v ===== *)
(** * internal/watcher/handler.go

    The informer factory, the handle it returns, and the adapter from client-go's
    cache notifications to the registry's events. client-go's informers are a
    class of operations; stop channels are the language's and are modelled: the
    state maps every channel made so far to whether it is closed, and closing a
    channel that is not open panics ([None]). *)

From S2P Require Import Prelude GoStd ApiV1 K8s Fixtures Metrics SubscriberIndex Registry Evaluate.

(** ** Definitions *)

(** What an informer hands to its handlers and keeps in its store. *)
Inductive cache_object `{UnstructuredAPI} :=
  | AnUnstructured (u : Unstructured)
  | DeletedFinalStateUnknown (key : string) (obj : cache_object)
  | AnotherType.

Inductive notification `{UnstructuredAPI} :=
  | OnAdd (obj : cache_object)
  | OnUpdate (oldObj newObj : cache_object)
  | OnDelete (obj : cache_object).

Definition asUnstructured `{UnstructuredAPI} (obj : cache_object) : option Unstructured :=
  match obj with
  | AnUnstructured u => Some u
  | DeletedFinalStateUnknown _ (AnUnstructured u) => Some u
  | _ => None
  end.

Section handler.
Context {W : Type} `{UnstructuredAPI} `{Formatting}.

Abbreviation InformerEventHandler := (EventType → Unstructured → M W unit).

Definition on_object (handler : InformerEventHandler) (ev : EventType) (obj : cache_object) : M W unit :=
  match asUnstructured obj with
  | Some u => handler ev u
  | None => mret tt
  end.

Definition newCacheHandler (handler : InformerEventHandler) (n : notification) : M W unit :=
  match n with
  | OnAdd obj => on_object handler EventAdd obj
  | OnUpdate _ newObj => on_object handler EventUpdate newObj
  | OnDelete obj => on_object handler EventDelete obj
  end.
End handler.

(** client-go: dynamicinformer's factory for one resource in all namespaces
    (with a resync period), its informer and lister, and the context's error. *)
Class InformerAPI (W : Type) `{UnstructuredAPI} := {
  informer : Type;
  ForResource : Z → GroupVersionResource → M W informer;
  AddEventHandler : informer → (notification → M W unit) → M W (option error);
  informer_Start : informer → nat → M W unit;
  WaitForCacheSync : informer → M W bool;
  lister_List : informer → M W (result (list cache_object));
  ctx_Err : M W (option error);
}.

Section factory.
Context {W : Type} `{UnstructuredAPI} `{Formatting} `{!InformerAPI W}.

(** The channels made so far, and the rest of the world. *)
Record runtime := { chans : gmap nat bool; rest : W }.

Definition on_rest {A} (m : M W A) : MO runtime A := λ s,
  let '(a, w) := m (rest s) in Some (a, Build_runtime (chans s) w).

Definition make_chan : MO runtime nat := λ s,
  let c := fresh (dom (chans s)) in Some (c, Build_runtime (<[c := false]> (chans s)) (rest s)).

Definition close_chan (c : nat) : MO runtime unit := λ s,
  match chans s !! c with
  | Some false => Some (tt, Build_runtime (<[c := true]> (chans s)) (rest s))
  | _ => None
  end.

(** [select] with a receive and a default: whether the channel is closed. *)
Definition chan_closed (c : nat) : MO runtime bool := λ s, Some (default false (chans s !! c), s).

Record DynamicFactory := { df_mapper : RESTMapper W; df_resyncPeriod : Z }.

Definition NewDynamicFactory (mapper : RESTMapper W) (resync : Z) : DynamicFactory :=
  Build_DynamicFactory mapper resync.

Record dynamicEntry := {
  de_gvk : GroupVersionKind;
  de_gvr : GroupVersionResource;
  de_stop : nat;
  de_lister : informer;
}.

(** The text of %w. *)
Definition wrapped_text (err : option error) : string :=
  match err with Some err => err_Error err | None => "%!w(<nil>)" end.

Definition wrap (text : string) (gvk : GroupVersionKind) (err : option error) : error :=
  fmt_Errorf (text +:+ " " +:+ GVK_String gvk +:+ ": " +:+ wrapped_text err)
    match err with Some err => [err] | None => [] end.

Definition DynamicFactory_Start (f : DynamicFactory) (gvk : GroupVersionKind)
    (handler : EventType → Unstructured → M W unit) : MO runtime (result dynamicEntry) :=
  mapping ← on_rest (RESTMapping _ (df_mapper f) (GVK_GroupKind gvk) (Version gvk));
  match mapping with
  | Err err => mret (Err (wrap "REST mapping for" gvk (Some err)))
  | Ok gvr =>
      inf ← on_rest (ForResource (df_resyncPeriod f) gvr);
      err ← on_rest (AddEventHandler inf (newCacheHandler handler));
      match err with
      | Some err => mret (Err (wrap "AddEventHandler for" gvk (Some err)))
      | None =>
          stopCh ← make_chan;
          on_rest (informer_Start inf stopCh);;
          synced ← on_rest (WaitForCacheSync inf);
          if (synced : bool) then mret (Ok (Build_dynamicEntry gvk gvr stopCh inf))
          else
            close_chan stopCh;;
            err ← on_rest ctx_Err;
            mret (Err (wrap "informer sync for" gvk err))
      end
  end.

Definition Stop (e : dynamicEntry) : MO runtime unit :=
  closed ← chan_closed (de_stop e);
  if (closed : bool) then mret tt else close_chan (de_stop e).

Definition only_unstructured (objs : list cache_object) : list Unstructured :=
  omap (λ o, match o with AnUnstructured u => Some u | _ => None end) objs.

Definition List (e : dynamicEntry) : MO runtime (result (list Unstructured)) :=
  objs ← on_rest (lister_List (de_lister e));
  mret match objs with
       | Err err => Err (wrap "list" (de_gvk e) (Some err))
       | Ok objs => Ok (only_unstructured objs)
       end.
End factory.
Arguments runtime _ : clear implicits.

(** ** Theorems *)

Section theorems.
Context {W : Type} `{UnstructuredAPI} `{Formatting} `{!InformerAPI W}.
Implicit Types (s : runtime W) (e : dynamicEntry).

(** The channels of [s] are as they were; those made since are closed, except
    [open]. *)
Definition only_open (s s' : runtime W) (open : option nat) : Prop :=
  (∀ c b, chans s !! c = Some b → chans s' !! c = Some b) ∧
  ∀ c, chans s !! c = None → chans s' !! c = if decide (open = Some c) then Some false
                                             else if decide (c ∈ dom (chans s')) then Some true else None.

Lemma only_open_same s s' : chans s' = chans s → only_open s s' None.
Proof.
  intros Hc. split; rewrite Hc; [done|]. intros c Hn. rewrite decide_False by done.
  by rewrite decide_False by (rewrite not_elem_of_dom; done).
Qed.

Lemma only_open_new s s' c (b : bool) :
  chans s !! c = None → chans s' = <[c := b]> (chans s) →
  only_open s s' (if b then None else Some c).
Proof.
  intros Hfresh Hs'. split; rewrite Hs'.
  - intros c' b' Hc. rewrite lookup_insert_ne; [done|]. intros ->. congruence.
  - intros c' Hc. destruct (decide (c' = c)) as [->|Hne].
    + rewrite lookup_insert_eq. destruct b; [|by rewrite decide_True].
      rewrite decide_False by done. rewrite decide_True; [done|].
      rewrite elem_of_dom, lookup_insert_eq. by eexists.
    + rewrite lookup_insert_ne, Hc by done.
      rewrite (decide_False (P := (if b then None else Some c) = Some c')) by (destruct b; naive_solver).
      rewrite decide_False; [done|]. rewrite elem_of_dom, lookup_insert_ne, Hc by done. by intros [].
Qed.

Lemma Stop_open e s :
  chans s !! de_stop e = Some false →
  Stop e s = Some (tt, Build_runtime (<[de_stop e := true]> (chans s)) (rest s)).
Proof. intros Hc. unfold Stop, chan_closed, close_chan, mbind, MO_bind. rewrite Hc. simpl. by rewrite Hc. Qed.

Lemma Stop_closed e s : chans s !! de_stop e = Some true → Stop e s = Some (tt, s).
Proof. intros Hc. unfold Stop, chan_closed, mbind, MO_bind. by rewrite Hc. Qed.

(** an informer is handed out only synced, and is not leaked. Start always
    returns; when it answers an entry, the informer was started on the entry's
    stop channel, its cache had synced, and that channel, made by the call, is
    open; when it answers an error, every channel the call made is closed, so an
    informer it started is stopped. Stop then closes exactly the entry's channel
    and, called again, does nothing (a second close would panic). *)
Theorem Start_Stop f gvk handler s :
  ∃ res s', DynamicFactory_Start f gvk handler s = Some (res, s') ∧
  match res with
  | Err _ => only_open s s' None
  | Ok e =>
      de_gvk e = gvk ∧ only_open s s' (Some (de_stop e)) ∧ chans s !! de_stop e = None ∧
      (∃ w0 w1, (informer_Start (de_lister e) (de_stop e) w0).2 = w1 ∧
         WaitForCacheSync (de_lister e) w1 = (true, rest s')) ∧
      ∃ s'', Stop e s' = Some (tt, s'') ∧ Stop e s'' = Some (tt, s'') ∧
        chans s'' = <[de_stop e := true]> (chans s') ∧ only_open s s'' None ∧ rest s'' = rest s'
  end.
Proof.
  unfold DynamicFactory_Start, on_rest, mbind, MO_bind.
  destruct (RESTMapping _ _ _ _ (rest s)) as [[gvr|err] w1];
    [|eexists _, _; split; [reflexivity|]; by apply only_open_same].
  cbn [chans rest]. destruct (ForResource _ gvr w1) as [inf w2]. cbn [chans rest].
  destruct (AddEventHandler inf _ w2) as [[err|] w3];
    [eexists _, _; split; [reflexivity|]; by apply only_open_same|].
  unfold make_chan. cbn [chans rest]. set (stop := fresh (dom (chans s))).
  assert (chans s !! stop = None) as Hfresh by (apply not_elem_of_dom, is_fresh).
  destruct (informer_Start inf stop w3) as [u w4] eqn:Hstart. cbn [chans rest].
  destruct (WaitForCacheSync inf w4) as [[] w5] eqn:Hsync.
  - eexists _, _. split; [reflexivity|]. cbn [de_gvk de_stop de_lister]. split_and!; [done| |done| |].
    + by apply (only_open_new s _ stop false).
    + exists w3, w4. by rewrite Hstart.
    + eexists. split; [apply Stop_open, lookup_insert_eq|]. split; [apply Stop_closed, lookup_insert_eq|].
      split_and!; [done| |done].
      apply (only_open_new s _ stop true); [done|]. simpl. by rewrite insert_insert_eq.
  - unfold close_chan. cbn [chans rest]. rewrite lookup_insert_eq. cbn [chans rest].
    destruct (ctx_Err w5) as [err w6]. eexists _, _. split; [reflexivity|].
    apply (only_open_new s _ stop true); [done|]. simpl. by rewrite insert_insert_eq.
Qed.
End theorems.
