(* ===== verification/Wiring.v ===== *)
(** * cmd/manager/main.go, the controllers and enqueue_source.go: how events
    become reconcile requests

    An informer event goes through the cache handler, the registry's dispatch and
    the enqueue callback of main.go to one of two EnqueueSources, each holding the
    workqueue of its controller. Namespace events reach the ClusterMilestones
    through a predicate and a map function. A workqueue is client-go's: the
    model records the Adds it receives. *)

From S2P Require Import Prelude GoStd ApiV1 K8s Fixtures Metrics Status Membership Discovery Normalize SubscriberIndex Registry StatusHelpers StatusPatch Reconciler CRDWatcher Evaluate Informers.

(** ** Definitions *)

(** A workqueue, by identity. *)
Abbreviation workqueue := nat.
Abbreviation adds := (list (workqueue * Request)).

(** *** EnqueueSource *)

Definition EnqueueSource : Type := option workqueue.

Definition NewEnqueueSource : EnqueueSource := None.

(** Start captures the queue; when its context is done, the goroutine it started
    drops it. *)
Definition source_Start (q : workqueue) (s : EnqueueSource) : EnqueueSource := Some q.
Definition source_Done (s : EnqueueSource) : EnqueueSource := None.

(** The Adds each queue received. *)
Definition source_Enqueue (s : EnqueueSource) (req : Request) : M adds unit := λ sent,
  match s with
  | None => (tt, sent)
  | Some q => (tt, sent ++ [(q, req)])
  end.

(** *** The manager: the registry with the enqueue callback of main.go *)

Section manager.
Context `{LabelsAPI} `{UnstructuredAPI} `{Formatting}.

Record manager := {
  mg_registry : Registry;
  mg_milestoneSource : EnqueueSource;
  mg_cmilestoneSource : EnqueueSource;
  mg_adds : adds;
}.

Definition enqueue (milestoneSource cmilestoneSource : EnqueueSource) (o : OwnerKey)
    : M adds unit :=
  if decide (ok_Kind o = "Milestone") then source_Enqueue milestoneSource (ok_Namespace o, ok_Name o)
  else if decide (ok_Kind o = "ClusterMilestone") then source_Enqueue cmilestoneSource ("", ok_Name o)
  else mret tt.

(** The registry calls [enqueue] for the owners a dispatch wakes, in order. *)
Fixpoint enqueue_all (milestoneSource cmilestoneSource : EnqueueSource) (owners : list OwnerKey) : M adds unit :=
  match owners with
  | [] => mret tt
  | o :: owners => enqueue milestoneSource cmilestoneSource o;; enqueue_all milestoneSource cmilestoneSource owners
  end.

(** The handler an informer of [gvk] is started with. *)
Definition handle_event (gvk : GroupVersionKind) (ev : EventType) (obj : Unstructured) : M manager unit := λ m,
  let r := dispatch gvk ev obj (mg_registry m) in
  let woken := drop (length (enqueued (mg_registry m))) (enqueued r) in
  let sent := (enqueue_all (mg_milestoneSource m) (mg_cmilestoneSource m) woken (mg_adds m)).2 in
  (tt, Build_manager r (mg_milestoneSource m) (mg_cmilestoneSource m) sent).

(** A cache notification, through newCacheHandler. *)
Definition notify (gvk : GroupVersionKind) (n : notification) : M manager unit :=
  newCacheHandler (handle_event gvk) n.

(** *** The per-CRD reconcilers *)

Context {W : Type} `{ApiErrors} `{ConditionsAPI} `{FinalizerAPI} `{MetaJSON}.
Context `{!RegistryAPI W} `{!NamespaceClient W} `{!Runtime W}.

Definition MilestoneReconciler_Reconcile `{!OwnerClient W (Milestone LabelSelector)}
    (r : Reconciler (W := W) (Milestone LabelSelector)) (req : Request) : M W (result Z) :=
  AsReconcileFunc r req.1 req.2.

Definition ClusterMilestoneReconciler_Reconcile `{!OwnerClient W (ClusterMilestone LabelSelector)}
    (r : Reconciler (W := W) (ClusterMilestone LabelSelector)) (req : Request) : M W (result Z) :=
  AsReconcileFunc r req.1 req.2.

(** *** Namespace events *)

Definition usesNamespaceSelector (cm : ClusterMilestone LabelSelector) : bool :=
  existsb (λ d, bool_decide (is_Some (cts_NamespaceSelector (cdr_Target d)))) (cm_DependsOn cm).

Definition namespaceToClusterMilestones (list_ClusterMilestones : M W (result (list (ClusterMilestone LabelSelector))))
    : M W (list Request) :=
  l ← list_ClusterMilestones;
  mret match l with
       | Err _ => []
       | Ok items => (λ cm, ("", om_Name (cm_Meta cm))) <$> filter (λ cm, usesNamespaceSelector cm = true) items
       end.

(** The events of the Namespace watch; the objects of an update may be nil. *)
Inductive namespace_event :=
  | NamespaceCreate (obj : ObjectMeta)
  | NamespaceUpdate (old new : option ObjectMeta)
  | NamespaceDelete (obj : ObjectMeta)
  | NamespaceGeneric (obj : ObjectMeta).

Definition namespaceMembershipPredicate (e : namespace_event) : bool :=
  match e with
  | NamespaceCreate _ => true
  | NamespaceUpdate (Some old) (Some new) => negb (bool_decide (om_Labels old = om_Labels new))
  | NamespaceUpdate _ _ => false
  | NamespaceDelete _ => true
  | NamespaceGeneric _ => false
  end.
End manager.

(** ** Events to requests *)

Section events.
Context `{LabelsAPI} `{UnstructuredAPI} `{Formatting}.

(** The request an owner's queue gets. *)
Definition owner_request (q1 q2 : workqueue) (o : OwnerKey) : option (workqueue * Request) :=
  if decide (ok_Kind o = "Milestone") then Some (q1, (ok_Namespace o, ok_Name o))
  else if decide (ok_Kind o = "ClusterMilestone") then Some (q2, ("", ok_Name o))
  else None.

Lemma enqueue_all_run q1 q2 owners sent :
  (enqueue_all (Some q1) (Some q2) owners sent).2 = sent ++ omap (owner_request q1 q2) owners.
Proof.
  revert sent. induction owners as [|o owners IH]; intros sent; simpl; [by rewrite app_nil_r|].
  unfold mbind, M_bind, enqueue, owner_request. repeat case_decide; simpl; rewrite IH, <- ?app_assoc; done.
Qed.

Lemma handle_event_run gvk ev obj m q1 q2 :
  mg_milestoneSource m = Some q1 → mg_cmilestoneSource m = Some q2 →
  mg_adds (handle_event gvk ev obj m).2 =
  mg_adds m ++ omap (owner_request q1 q2) (Subscribers gvk obj (rg_index (mg_registry m))).
Proof.
  intros Hs1 Hs2. unfold handle_event, dispatch. simpl. rewrite enqueue_fold, Hs1, Hs2, enqueue_all_run. simpl.
  by rewrite drop_app_length.
Qed.

(** The object a notification is about. *)
Definition notified (n : notification) : cache_object :=
  match n with OnAdd obj => obj | OnUpdate _ obj => obj | OnDelete obj => obj end.

Lemma notify_run gvk n m :
  (notify gvk n m).2 =
  match asUnstructured (notified n) with
  | Some u => (handle_event gvk match n with OnAdd _ => EventAdd | OnUpdate _ _ => EventUpdate
                                         | OnDelete _ => EventDelete end u m).2
  | None => m
  end.
Proof. by destruct n; simpl; unfold on_object; case_match. Qed.

(** C13: an informer event reaches the right reconcilers. With both sources
    started, a notification about an object (a missed deletion's tombstone
    included) adds to the Milestone queue the namespaced name of exactly each
    Milestone, and to the ClusterMilestone queue the name of exactly each
    ClusterMilestone, that is subscribed to the GVK with a matcher admitting the
    object, each once; anything else in a notification adds nothing. These are
    the keys the reconcilers read back. *)
Theorem event_to_queues gvk n m q1 q2 :
  q1 ≠ q2 → mg_milestoneSource m = Some q1 → mg_cmilestoneSource m = Some q2 →
  coherent (rg_index (mg_registry m)) →
  (∀ o, is_Some (subscription (rg_index (mg_registry m)) gvk o) →
     ok_Kind o = "Milestone" ∨ (ok_Kind o = "ClusterMilestone" ∧ ok_Namespace o = "")) →
  ∃ sent, mg_adds (notify gvk n m).2 = mg_adds m ++ sent ∧
  match asUnstructured (notified n) with
  | None => sent = []
  | Some u =>
      NoDup sent ∧
      ∀ o, (∃ sub, subscription (rg_index (mg_registry m)) gvk o = Some sub ∧ Subscriber_Match sub u = true) ↔
        (ok_Kind o = "Milestone" ∧ (q1, (ok_Namespace o, ok_Name o)) ∈ sent) ∨
        (ok_Kind o = "ClusterMilestone" ∧ ok_Namespace o = "" ∧ (q2, ("", ok_Name o)) ∈ sent)
  end.
Proof.
  intros Hq Hs1 Hs2 Hc Hkinds. rewrite notify_run. destruct (asUnstructured (notified n)) as [u|].
  2: { exists []. by rewrite app_nil_r. }
  eexists. split; [by apply handle_event_run|].
  assert (∀ o, o ∈ Subscribers gvk u (rg_index (mg_registry m)) →
    ok_Kind o = "Milestone" ∨ (ok_Kind o = "ClusterMilestone" ∧ ok_Namespace o = "")) as Hk.
  { intros o Ho. apply Hkinds. apply Subscribers_spec in Ho as (sub & Hs & _); [|done]. by exists sub. }
  pose proof (Subscribers_NoDup (rg_index (mg_registry m)) gvk u Hc) as Hnd.
  assert (∀ o, (∃ sub, subscription (rg_index (mg_registry m)) gvk o = Some sub ∧ Subscriber_Match sub u = true) ↔
    o ∈ Subscribers gvk u (rg_index (mg_registry m))) as Hs by (intros o; by rewrite Subscribers_spec).
  split.
  - revert Hk Hnd. generalize (Subscribers gvk u (rg_index (mg_registry m))). intros l Hk Hnd.
    induction Hnd as [|o l Hno Hnd IH]; [constructor|]. csimpl.
    assert (NoDup (omap (owner_request q1 q2) l)) as Hl by (apply IH; intros; apply Hk; by right).
    destruct (owner_request q1 q2 o) as [x|] eqn:Ho; [|done]. constructor; [|done].
    intros (o' & Ho' & Hx)%list_elem_of_omap. apply Hno. replace o with o'; [done|].
    pose proof (Hk o ltac:(by left)) as K1. pose proof (Hk o' ltac:(by right)) as K2.
    destruct o as [k1 ns1 n1], o' as [k2 ns2 n2]. unfold owner_request in Ho, Hx. simpl in *.
    destruct K1 as [->|[-> ->]], K2 as [->|[-> ->]]; simpl in *; simplify_eq; done.
  - intros o. rewrite Hs. setoid_rewrite list_elem_of_omap. split.
    + intros Ho. destruct (Hk o Ho) as [K|[K Kn]]; [left|right]; (split; [done|]).
      * exists o. split; [done|]. unfold owner_request. by rewrite decide_True.
      * split; [done|]. exists o. split; [done|]. unfold owner_request. by rewrite K.
    + intros [(K & o' & Ho' & Hx)|(K & Kn & o' & Ho' & Hx)]; (replace o with o'; [done|]);
        pose proof (Hk o' Ho') as K'; destruct o as [k1 ns1 n1], o' as [k2 ns2 n2];
        unfold owner_request in Hx; simpl in *; subst;
        destruct K' as [->|[-> ->]]; simpl in *; simplify_eq; done.
Qed.
End events.

(** ** Namespace events *)

(** The namespaces of the cluster with their labels. *)
Abbreviation cluster_namespaces := (gmap string (gmap string string)).

Section namespaces.
Context {W : Type} `{LabelsAPI} `{Formatting}.

(** What an event says happened to the namespaces. *)
Definition namespace_step (e : namespace_event) (nss nss' : cluster_namespaces) : Prop :=
  match e with
  | NamespaceCreate obj => nss' = <[om_Name obj := om_Labels obj]> nss
  | NamespaceUpdate (Some old) (Some new) =>
      om_Name new = om_Name old ∧ nss !! om_Name old = Some (om_Labels old) ∧
      nss' = <[om_Name new := om_Labels new]> nss
  | NamespaceUpdate _ _ => nss' = nss
  | NamespaceDelete obj => nss' = delete (om_Name obj) nss
  | NamespaceGeneric _ => nss' = nss
  end.

(** A lister over a cluster: whatever it does, it sees of the namespaces only
    which of them the selector matches. *)
Definition lister_over (answer : gset string → M W (result (list string)))
    (nss : cluster_namespaces) : NamespaceLister (W := W) :=
  λ sel, answer (dom (filter (λ '(_, ls), Selector_Matches sel ls = true) nss)).

Lemma usesNamespaceSelector_spec cm :
  usesNamespaceSelector cm = false ↔ Forall (λ d, cts_NamespaceSelector (cdr_Target d) = None) (cm_DependsOn cm).
Proof.
  unfold usesNamespaceSelector. rewrite <- not_true_iff_false, existsb_elem, Forall_forall.
  setoid_rewrite bool_decide_eq_true. setoid_rewrite eq_None_not_Some. naive_solver.
Qed.

Lemma normalize_cluster_refs_lister (dr : Resolver W) l1 l2 deps cache acc w :
  Forall (λ d, cts_NamespaceSelector (cdr_Target d) = None) deps →
  normalize_cluster_refs dr l1 deps cache acc w = normalize_cluster_refs dr l2 deps cache acc w.
Proof.
  intros Hno. revert cache acc w. induction Hno as [|d deps Hd _ IH]; intros cache acc w; [done|].
  simpl. unfold mbind, M_bind.
  replace (normalize_cluster_ref dr l2 d cache w) with (normalize_cluster_ref dr l1 d cache w);
    [destruct (normalize_cluster_ref dr l1 d cache w) as [[o cache'] w']; apply IH|].
  unfold normalize_cluster_ref, buildNamespaceMatcher. by rewrite Hd.
Qed.

(** C14: the ClusterMilestones a Namespace event can affect are woken. Take an
    event that takes the cluster's namespaces from [nss] to [nss'], and a lister
    that sees of them what its selector matches. Each listed ClusterMilestone
    either normalises to the same dependencies and errors over [nss'] as over
    [nss], or the event passes the predicate and the map function answers its
    request; and only ClusterMilestones with a namespaceSelector are woken. *)
Theorem namespace_event_wakes e nss nss' answer dr
    (list_ClusterMilestones : M W (result (list (ClusterMilestone LabelSelector)))) items w w' :
  namespace_step e nss nss' → list_ClusterMilestones w = (Ok items, w') →
  let reqs := (namespaceToClusterMilestones list_ClusterMilestones w).1 in
  (∀ cm, cm ∈ items →
     (∀ v, NormalizeClusterMilestone dr (Some (lister_over answer nss')) cm v =
           NormalizeClusterMilestone dr (Some (lister_over answer nss)) cm v) ∨
     namespaceMembershipPredicate e = true ∧ ("", om_Name (cm_Meta cm)) ∈ reqs) ∧
  ∀ req, req ∈ reqs → ∃ cm, cm ∈ items ∧ req = ("", om_Name (cm_Meta cm)) ∧
    ∃ d, d ∈ cm_DependsOn cm ∧ is_Some (cts_NamespaceSelector (cdr_Target d)).
Proof.
  intros Hstep Hlist. unfold namespaceToClusterMilestones, mbind, M_bind. rewrite Hlist. cbv zeta. simpl. split.
  - intros cm Hcm. destruct (usesNamespaceSelector cm) eqn:Huses.
    + destruct (namespaceMembershipPredicate e) eqn:Hp.
      * right. split; [done|]. apply list_elem_of_fmap. exists cm. split; [done|]. by apply list_elem_of_filter.
      * left. intros v. replace nss' with nss; [done|].
        destruct e as [obj|[old|] [new|]|obj|obj]; simpl in Hstep, Hp; try done.
        destruct Hstep as (Hname & Hold & ->). apply negb_false_iff, bool_decide_eq_true in Hp.
        rewrite Hname, <- Hp. by rewrite insert_id.
    + left. intros v. apply usesNamespaceSelector_spec in Huses.
      destruct dr as [dr|]; [|done]. by apply normalize_cluster_refs_lister.
  - intros req (cm & -> & [Huses Hcm]%list_elem_of_filter)%list_elem_of_fmap. exists cm.
    split_and!; [done..|]. apply existsb_elem in Huses as (d & Hd & Hs). exists d. split; [done|].
    by apply bool_decide_eq_true in Hs.
Qed.
End namespaces.

(** ** A concrete manager: a deleted Pod wakes the ClusterMilestone that has no
    matcher, not the Milestone whose selector rejects it *)
Module WiringFix.
#[local] Existing Instance Fix.labels.
#[local] Existing Instance Fix.unstructured.
#[local] Existing Instance Fix.formatting.
Import RegistryFix.

Definition started : manager := Build_manager shared (Some 0) (Some 1) [].
Definition tombstone : notification := OnDelete (DeletedFinalStateUnknown "ns/p" (AnUnstructured pod)).

Example deleted_pod : mg_adds (notify pods tombstone started).2 = [(1, ("", "bob"))].
Proof. vm_compute. reflexivity. Qed.

Definition pods_subscribers : gmap OwnerKey Subscriber := default ∅ (byGVK (rg_index shared) !! pods).

Lemma shared_kinds o :
  is_Some (subscription (rg_index shared) pods o) →
  ok_Kind o = "Milestone" ∨ (ok_Kind o = "ClusterMilestone" ∧ ok_Namespace o = "").
Proof.
  intros Ho. assert (o ∈ elements (dom pods_subscribers)) as Hin.
  { rewrite elem_of_elements, elem_of_dom. unfold subscription in Ho. unfold pods_subscribers.
    destruct (byGVK (rg_index shared) !! pods); [done|]. by destruct Ho. }
  revert o Hin Ho. rewrite <- (Forall_forall (λ o, is_Some (subscription (rg_index shared) pods o) →
    ok_Kind o = "Milestone" ∨ (ok_Kind o = "ClusterMilestone" ∧ ok_Namespace o = "")) _).
  eapply Forall_impl; [|intros o Ho _; exact Ho].
  apply (bool_decide_unpack _). vm_compute. done.
Qed.

Lemma event_to_queues_witness :
  (∃ sub, subscription (rg_index shared) pods bob = Some sub ∧ Subscriber_Match sub pod = true) ∧
  ∃ sent, mg_adds (notify pods tombstone started).2 = [] ++ sent ∧ NoDup sent ∧ (1, ("", "bob")) ∈ sent.
Proof.
  assert (∃ sub, subscription (rg_index shared) pods bob = Some sub ∧ Subscriber_Match sub pod = true) as Hbob.
  { exists (Build_Subscriber bob []). split; vm_compute; reflexivity. }
  split; [exact Hbob|].
  assert (coherent (rg_index shared)) as Hc by apply quiescent_shared.
  pose proof (event_to_queues pods tombstone started 0 1 ltac:(discriminate) eq_refl eq_refl Hc shared_kinds)
    as (sent & Hsent & Hnd & Hin).
  exists sent. split; [exact Hsent|]. split; [exact Hnd|].
  apply (proj1 (Hin bob)) in Hbob as [[K _]|(_ & _ & Hb)]; [discriminate K|exact Hb].
Defined.

Definition labelled (name team : string) : ObjectMeta :=
  Build_ObjectMeta name "" 1 {["team" := team]} [] None 0.
Definition relabel : namespace_event := NamespaceUpdate (Some (labelled "prod" "a")) (Some (labelled "prod" "x")).
Definition nss : cluster_namespaces := {["prod" := {["team" := "a"]}]}.
Definition nss' : cluster_namespaces := {["prod" := {["team" := "x"]}]}.

Lemma namespace_event_wakes_witness :
  namespaceMembershipPredicate relabel = true ∧
  ∀ cm, cm ∈ [NormalizeFix.cluster_milestone] →
    (∀ v, NormalizeClusterMilestone (Some NormalizeFix.static_resolver)
            (Some (lister_over (λ matched w, (Ok (elements matched), w)) nss')) cm v =
          NormalizeClusterMilestone (Some NormalizeFix.static_resolver)
            (Some (lister_over (λ matched w, (Ok (elements matched), w)) nss)) cm v) ∨
    namespaceMembershipPredicate relabel = true ∧ ("", om_Name (cm_Meta cm)) ∈ [("", "m")].
Proof.
  split; [reflexivity|].
  apply (namespace_event_wakes relabel nss nss' (λ matched w, (Ok (elements matched), w))
    (Some NormalizeFix.static_resolver) (λ w, (Ok [NormalizeFix.cluster_milestone], w))
    [NormalizeFix.cluster_milestone] [] []).
  - split; [reflexivity|]. split; [reflexivity|]. vm_compute. reflexivity.
  - reflexivity.
Defined.
End WiringFix.
