(* ===== verification/Operator.v ===== *)
(** * The operator: its controllers, registry, resolver and queues as one system

    cmd/manager/main.go composes them; here the composition is a transition
    system. A state holds the discovery resolver, the registry with the clock and
    the informers' answers ([process]), the EnqueueSources with the requests they
    sent, what the CRD watcher last observed, and the API server as far as the
    client reads and writes it. A step is one reconcile of one of the three
    controllers, one informer notification, or a change outside the operator. *)

From S2P Require Import Prelude GoStd ApiV1 K8s Fixtures Metrics Status Membership Discovery Normalize SubscriberIndex Registry StatusHelpers StatusPatch Reconciler ReconcilerSpec ReconcilerWrites Process CRDWatcher Evaluate Informers Wiring.

(** ** Definitions *)

Section operator.
Context `{LabelsAPI} `{UnstructuredAPI} `{Formatting} `{ApiErrors} `{ConditionsLaws}
  `{FinalizerAPI} `{MetaJSON}.
Context {E : Type} `{!CRDClient E} `{!NamespaceClient E}.
Context `{!OwnerClient E (Milestone LabelSelector)} `{!OwnerClient E (ClusterMilestone LabelSelector)}.

Record operator := {
  op_resolver : resolver;
  op_process : process unit;
  op_milestoneSource : EnqueueSource;
  op_cmilestoneSource : EnqueueSource;
  op_adds : adds;
  op_lastObserved : gmap string crdState;
  op_server : E;
}.

Definition set_op_resolver (x : resolver) (w : operator) : operator :=
  Build_operator x (op_process w) (op_milestoneSource w) (op_cmilestoneSource w) (op_adds w)
    (op_lastObserved w) (op_server w).
Definition set_op_process (x : process unit) (w : operator) : operator :=
  Build_operator (op_resolver w) x (op_milestoneSource w) (op_cmilestoneSource w) (op_adds w)
    (op_lastObserved w) (op_server w).
Definition set_op_adds (x : adds) (w : operator) : operator :=
  Build_operator (op_resolver w) (op_process w) (op_milestoneSource w) (op_cmilestoneSource w) x
    (op_lastObserved w) (op_server w).
Definition set_op_lastObserved (x : gmap string crdState) (w : operator) : operator :=
  Build_operator (op_resolver w) (op_process w) (op_milestoneSource w) (op_cmilestoneSource w) (op_adds w)
    x (op_server w).
Definition set_op_server (x : E) (w : operator) : operator :=
  Build_operator (op_resolver w) (op_process w) (op_milestoneSource w) (op_cmilestoneSource w) (op_adds w)
    (op_lastObserved w) x.

(** An effect on one part. *)
Definition on_resolver {A} (m : M resolver A) : M operator A := λ w,
  let '(a, x) := m (op_resolver w) in (a, set_op_resolver x w).
Definition on_process {A} (m : M (process unit) A) : M operator A := λ w,
  let '(a, x) := m (op_process w) in (a, set_op_process x w).
Definition on_server {A} (m : M E A) : M operator A := λ w,
  let '(a, x) := m (op_server w) in (a, set_op_server x w).
Definition on_adds {A} (m : M adds A) : M operator A := λ w,
  let '(a, x) := m (op_adds w) in (a, set_op_adds x w).

#[export] Instance op_registry : RegistryAPI operator := {
  reg_Subscribe := λ gvk scope sub, on_process (reg_Subscribe gvk scope sub);
  reg_Unsubscribe := λ gvk owner, on_process (reg_Unsubscribe gvk owner);
  reg_UnsubscribeAll := λ owner, on_process (reg_UnsubscribeAll owner);
  reg_List := λ gvk, on_process (reg_List gvk);
  reg_GVKsByOwner := λ owner, on_process (reg_GVKsByOwner owner);
}.

#[export] Instance op_runtime : Runtime operator := {
  wall_clock := on_process wall_clock;
  record := λ f, on_process (record f);
}.

#[export] Instance op_namespaces : NamespaceClient operator := {
  client_ListNamespaces := λ sel, on_server (client_ListNamespaces sel);
}.

#[export] Instance op_crds : CRDClient operator := {
  crd_Get := λ name, on_server (crd_Get name);
  list_Milestones := on_server list_Milestones;
  list_ClusterMilestones := on_server list_ClusterMilestones;
}.

#[export] Instance op_owners {T} `{!OwnerClient E T} : OwnerClient operator T := {
  client_Get := λ namespace name, on_server (client_Get namespace name);
  client_Update := λ obj, on_server (client_Update obj);
  client_PatchStatus := λ obj patch, on_server (client_PatchStatus obj patch);
}.

(** The one resolver, shared by the reconcilers and the CRD watcher. *)
Definition shared_resolver : Resolver operator := {|
  Resolve := λ group kind version, on_resolver (Resolve group kind version);
  Resolver_Invalidate := on_resolver Resolver_Invalidate;
  Resolver_InvalidateGroupKind := λ group kind, on_resolver (Resolver_InvalidateGroupKind group kind);
|}.

(** The notifiers, nil when Flux notification is off. *)
Context (milestoneFluxNotifier : option (Milestone LabelSelector → M E unit)).
Context (clusterMilestoneFluxNotifier : option (ClusterMilestone LabelSelector → M E unit)).

Definition milestoneReconciler : Reconciler (W := operator) (Milestone LabelSelector) := {|
  rc_Resolver := Some shared_resolver;
  rc_Adapter := MilestoneAdapter;
  rc_Controller := "Milestone";
  rc_FluxNotifier := (λ notify m, on_server (notify m)) <$> milestoneFluxNotifier;
  rc_Now := None;
  rc_ResourceCap := 0;
  rc_StalledErrorCap := 0;
|}.

Definition clusterMilestoneReconciler : Reconciler (W := operator) (ClusterMilestone LabelSelector) := {|
  rc_Resolver := Some shared_resolver;
  rc_Adapter := ClusterMilestoneAdapter;
  rc_Controller := "ClusterMilestone";
  rc_FluxNotifier := (λ notify m, on_server (notify m)) <$> clusterMilestoneFluxNotifier;
  rc_Now := None;
  rc_ResourceCap := 0;
  rc_StalledErrorCap := 0;
|}.

Definition registry_InvalidateGroupKind (group kind : string) : M operator unit :=
  on_process (modify (λ p, set_registry (InvalidateGroupKind group kind (p_registry p)) p)).

Definition crdWatcher : CRDWatcher (W := operator) := {|
  cw_Resolver := Some shared_resolver;
  cw_Registry := Some registry_InvalidateGroupKind;
  cw_MilestoneEnqueue := Some (λ req w, on_adds (source_Enqueue (op_milestoneSource w) req) w);
  cw_ClusterMilestoneEnqueue := Some (λ req w, on_adds (source_Enqueue (op_cmilestoneSource w) req) w);
|}.

(** The watcher's handler, on the map it keeps. *)
Definition crd_handler (name : string) : M operator (option error) := λ w,
  let '((err, seen), w) := CRDWatcher_Reconcile crdWatcher name (op_lastObserved w) w in
  (err, set_op_lastObserved seen w).

(** An informer's notification, with the enqueue callback of main.go. *)
Definition event_handler (gvk : GroupVersionKind) (n : notification) : M operator unit := λ w,
  let '(u, m) := notify gvk n (Build_manager (p_registry (op_process w)) (op_milestoneSource w)
                                (op_cmilestoneSource w) (op_adds w)) in
  (u, set_op_adds (mg_adds m) (set_op_process (set_registry (mg_registry m) (op_process w)) w)).

(** What changes outside: the API server, the informers' caches and whether the
    factory can start one, the clock. *)
Definition outside (w w' : operator) : Prop :=
  op_resolver w' = op_resolver w ∧ p_registry (op_process w') = p_registry (op_process w) ∧
  op_milestoneSource w' = op_milestoneSource w ∧ op_cmilestoneSource w' = op_cmilestoneSource w ∧
  op_adds w' = op_adds w ∧ op_lastObserved w' = op_lastObserved w.

Inductive op_step (w : operator) : operator → Prop :=
  | step_milestone req : op_step w (MilestoneReconciler_Reconcile milestoneReconciler req w).2
  | step_cmilestone req : op_step w (ClusterMilestoneReconciler_Reconcile clusterMilestoneReconciler req w).2
  | step_crd name : op_step w (crd_handler name w).2
  | step_event gvk n : op_step w (event_handler gvk n w).2
  | step_outside w' : outside w w' → op_step w w'.

(** ** What a step keeps

    [Rr] and [Rp]: relations every operation of the resolver, and of the registry
    with its clock, respects. The sources keep the queues they captured. *)
Definition same_sources (w w' : operator) : Prop :=
  op_milestoneSource w' = op_milestoneSource w ∧ op_cmilestoneSource w' = op_cmilestoneSource w.

Definition op_keeps (Rr : relation resolver) (Rp : relation (process unit)) : relation operator :=
  λ w w', Rr (op_resolver w) (op_resolver w') ∧ Rp (op_process w) (op_process w') ∧ same_sources w w'.

Section keeps.
Context (Rr : relation resolver) `{!PreOrder Rr}.
Hypothesis resolve_keeps : ∀ group kind version x, Rr x (resolver_Resolve group kind version x).2.
Hypothesis invalidate_keeps : ∀ group kind x, Rr x (InvalidateGroupKind_resolver group kind x).2.

Context (Rp : relation (process unit)) `{!TimeLaws (process unit) Rp}.
Hypothesis drop_keeps : ∀ group kind p, Rp p (set_registry (InvalidateGroupKind group kind (p_registry p)) p).
Hypothesis dispatch_keeps : ∀ gvk ev obj p, Rp p (set_registry (dispatch gvk ev obj (p_registry p)) p).
Hypothesis outside_keeps : ∀ p p', p_registry p' = p_registry p → Rp p p'.

Abbreviation R := (op_keeps Rr Rp).

#[local] Instance keeps_order : PreOrder R.
Proof.
  pose proof (time_order (R := Rp)). split; [by intros w; split_and!|].
  intros w1 w2 w3 (?&?&?&?) (?&?&?&?). split_and!; [by etrans..|split; by etrans].
Qed.

Lemma keeps_on_process {A} (m : M (process unit) A) w : Rp (op_process w) (m (op_process w)).2 → R w (on_process m w).2.
Proof. intros Hp. unfold on_process. destruct (m _) as [a p]. by split_and!. Qed.

Lemma keeps_on_resolver {A} (m : M resolver A) w : Rr (op_resolver w) (m (op_resolver w)).2 → R w (on_resolver m w).2.
Proof.
  pose proof (time_order (R := Rp)). intros Hp. unfold on_resolver. destruct (m _) as [a x].
  by split_and!.
Qed.

Lemma keeps_on_server {A} (m : M E A) w : R w (on_server m w).2.
Proof. pose proof (time_order (R := Rp)). unfold on_server. destruct (m _). by split_and!. Qed.

Lemma keeps_on_adds {A} (m : M adds A) w : R w (on_adds m w).2.
Proof. pose proof (time_order (R := Rp)). unfold on_adds. destruct (m _). by split_and!. Qed.

#[local] Instance keeps_time : TimeLaws operator R.
Proof.
  split; [apply _|..]; intros; apply keeps_on_process;
    [apply (time_record (R := Rp))|apply (time_clock (R := Rp))|apply (time_subscribe (R := Rp))
    |apply (time_unsubscribe (R := Rp))|apply (time_unsubscribe_all (R := Rp))|apply (time_list (R := Rp))
    |apply (time_gvks (R := Rp))].
Qed.

Lemma keeps_Resolve group kind version w : R w (Resolve (Resolver := shared_resolver) group kind version w).2.
Proof. apply keeps_on_resolver, resolve_keeps. Qed.

(** One lemma for both controllers: normalising is what differs. *)
Lemma keeps_reconcile {T} `{!OwnerClient E T} (r : Reconciler (W := operator) T) namespace name w :
  (∀ obj w, R w (oa_Dependencies _ (rc_Adapter _ r) obj (rc_Resolver _ r) w).2) → rc_Now _ r = None →
  (∀ notify, rc_FluxNotifier _ r = Some notify → ∃ f, ∀ obj, notify obj = on_server (f obj)) →
  R w (AsReconcileFunc r namespace name w).2.
Proof.
  intros Hn Hnow Hf.
  apply (AsReconcileFunc_quiet R r); intros; [done| |apply keeps_on_server..| |apply (time_may_subscribe R)].
  - unfold rc_now. rewrite Hnow. apply (time_clock (R := R)).
  - destruct (Hf _ ltac:(eassumption)) as [f ->]. apply keeps_on_server.
Qed.

Lemma keeps_crd name w : R w (crd_handler name w).2.
Proof.
  unfold crd_handler. pose proof (CRDWatcher_Reconcile_frame R crdWatcher) as Hf.
  pose proof (time_order (R := Rp)).
  assert (R w (CRDWatcher_Reconcile crdWatcher name (op_lastObserved w) w).2) as Hr.
  { apply Hf; try (intros; apply keeps_on_server).
    - intros f v. apply keeps_on_process, (time_record (R := Rp)).
    - intros r group kind v [= <-]. apply keeps_on_resolver, invalidate_keeps.
    - intros invalidate group kind v [= <-]. apply keeps_on_process, drop_keeps.
    - intros enqueue req v [= <-]. apply keeps_on_adds.
    - intros enqueue req v [= <-]. apply keeps_on_adds. }
  by destruct (CRDWatcher_Reconcile _ _ _ w) as [[err seen'] w'].
Qed.

Lemma keeps_event gvk n w : R w (event_handler gvk n w).2.
Proof.
  pose proof (time_order (R := Rp)). unfold event_handler. set (m := Build_manager _ _ _ _).
  assert (mg_registry (notify gvk n m).2 = mg_registry m ∨
    ∃ ev obj, mg_registry (notify gvk n m).2 = dispatch gvk ev obj (mg_registry m)) as Hm.
  { destruct n as [o|o' o|o]; unfold notify, newCacheHandler, on_object;
      destruct (asUnstructured o); unfold_M; eauto. }
  destruct (notify gvk n m) as [u m']. simpl in Hm. split_and!; [reflexivity| |done]. simpl.
  destruct Hm as [->|(ev & obj & ->)]; [by apply outside_keeps|apply dispatch_keeps].
Qed.

Lemma keeps_step w w' : op_step w w' → R w w'.
Proof.
  pose proof (time_order (R := Rp)).
  destruct 1 as [req|req|name|gvk n|w' (Hr & Hp & Hs1 & Hs2 & _)].
  - apply keeps_reconcile; [|done|].
    + intros obj v. apply (NormalizeMilestone_frame R shared_resolver), keeps_Resolve.
    + intros notify (f & _ & ->)%fmap_Some. by exists f.
  - apply keeps_reconcile; [|done|].
    + intros obj v. apply (NormalizeClusterMilestone_frame R shared_resolver);
        [apply keeps_Resolve|intros; apply keeps_on_server].
    + intros notify (f & _ & ->)%fmap_Some. by exists f.
  - apply keeps_crd.
  - apply keeps_event.
  - split_and!; [by rewrite Hr|by apply outside_keeps|done].
Qed.

Lemma keeps_steps w w' : rtc op_step w w' → R w w'.
Proof. induction 1 as [|w1 w2 w3 Hs _ IH]; [reflexivity|]. etrans; [by apply keeps_step|done]. Qed.
End keeps.

(** From its start on, a source keeps the queue it captured. *)
Lemma steps_sources w w' : rtc op_step w w' → same_sources w w'.
Proof.
  assert (TimeLaws (process unit) (λ _ _, True)) by by split.
  assert (PreOrder (λ _ _ : resolver, True)) by by split.
  intros Hs. by destruct (keeps_steps (λ _ _, True) (λ _ _ _ _, I) (λ _ _ _, I) (λ _ _, True)
    (λ _ _ _, I) (λ _ _ _ _, I) (λ _ _ _, I) w w' Hs) as (_ & _ & ?).
Qed.

(** ** The invariant of a running operator *)

Definition op_inv (w : operator) : Prop := process_inv (op_process w) ∧ cache_ok (op_resolver w).

#[local] Instance inv_time : TimeLaws (process unit) (λ p p', process_inv p → process_inv p').
Proof.
  split; [split; [by intros p|intros p1 p2 p3 H12 H23 Hp; auto]|..]; intros;
    [apply (record_inv (subs := process_subs))|apply (clock_inv (subs := process_subs))
    |apply (subscribe_inv (subs := process_subs))|apply (unsubscribe_inv (subs := process_subs))
    |apply (unsubscribe_all_inv (subs := process_subs))|apply (list_inv (subs := process_subs))
    |]; try done.
Qed.

#[local] Instance ok_order : PreOrder (λ x x' : resolver, cache_ok x → cache_ok x').
Proof. split; [by intros x|intros x1 x2 x3 H12 H23 Hx; auto]. Qed.

Lemma op_inv_steps w w' : rtc op_step w w' → op_inv w → op_inv w'.
Proof.
  intros Hs [Hp Hc].
  destruct (keeps_steps (λ x x', cache_ok x → cache_ok x') (λ group kind version x, cache_ok_Resolve group kind version x)
    (λ group kind x, cache_ok_InvalidateGroupKind group kind x)
    (λ p p', process_inv p → process_inv p')) with (w := w) (w' := w') as (Hr & Hpr & _); try done.
  - intros group kind p [Hi Hst]. split; simpl; [by apply inv_InvalidateGroupKind|].
    by rewrite starting_InvalidateGroupKind.
  - intros gvk ev obj p [Hi Hst]. destruct (inv_dispatch gvk ev obj _ Hi) as [Hi' Hst'].
    split; [exact Hi'|]. by etrans; [exact Hst'|].
  - intros p p' Heq [Hi Hst]. by split; rewrite Heq.
  - split; auto.
Qed.

(** What main.go starts with: an empty registry and an empty cache. *)
Definition started (w : operator) : Prop :=
  (∃ syncTimeout failureCooldown, p_registry (op_process w) = NewRegistry syncTimeout failureCooldown) ∧
  ∃ d ttl now, op_resolver w = NewResolver d ttl now.

Lemma started_inv w : started w → op_inv w.
Proof.
  intros [(syncTimeout & failureCooldown & Hr) (d & ttl & now & Hx)].
  destruct (quiescent_run syncTimeout failureCooldown []) as (Hi & _ & Hst). simpl in Hi, Hst.
  split; [by split; rewrite Hr|]. rewrite Hx. apply map_Forall_empty.
Qed.

(** C16: the operator as a whole keeps its parts consistent. From its start, through
    any sequence of reconciles of all three controllers, informer events and
    changes outside: an informer runs for a GVK exactly when some owner is
    subscribed to it; its refcount is the number of those owners; no two GVKs
    share an informer and none that runs was stopped; no start is left in
    flight; and a cached discovery answer is about the group, kind and version
    it is cached for. *)
Theorem operator_invariant w0 w :
  started w0 → rtc op_step w0 w →
  let r := p_registry (op_process w) in
  (∀ g, is_Some (informers r !! g) ↔ ∃ o, is_Some (subscription (rg_index r) g o)) ∧
  (∀ g, default 0%Z (refcount r !! g) = Z.of_nat (SubscriberCount g (rg_index r))) ∧
  (∀ g e, informers r !! g = Some e → e ∈ live r) ∧
  (∀ g1 g2 e, informers r !! g1 = Some e → informers r !! g2 = Some e → g1 = g2) ∧
  starting r = ∅ ∧
  ∀ k e, rv_cache (op_resolver w) !! k = Some e → entry_ok k e.
Proof.
  intros Hstart Hs. destruct (op_inv_steps _ _ Hs (started_inv _ Hstart)) as [[[[Hcoh Hc] Hreg [Hl Hi]] Hst] Hok].
  cbv zeta. split_and!; [| |done..|exact Hok].
  - intros g. rewrite (Hreg g). apply SubscriberCount_exists.
  - intros g. rewrite Hc. case_decide as Hz; [by rewrite Hz|done].
Qed.

(** ** A CRD transition reaches the status *)

Section propagation.
Context (sv : served).

(** A resolver without a cache, over what the API server has settled on. *)
Definition uncached : Resolver unit := {|
  Resolve := λ group kind version u, (discover sv group kind version, u);
  Resolver_Invalidate := λ u, (tt, u);
  Resolver_InvalidateGroupKind := λ _ _ u, (tt, u);
|}.

(** Reading leaves the API server as it is. *)
Hypothesis get_pure : ∀ name (s : E), (crd_Get name s).2 = s.
Hypothesis list_pure : ∀ s : E, (list_Milestones s).2 = s.
Hypothesis list_cluster_pure : ∀ s : E, (list_ClusterMilestones s).2 = s.

Abbreviation later_than := (op_keeps (keeps_fresh sv) (λ _ _, True)).

#[local] Instance any_time : TimeLaws (process unit) (λ _ _, True).
Proof. by split. Qed.

#[local] Instance later_order : PreOrder later_than.
Proof. apply keeps_order; apply _. Qed.

#[local] Instance later_time : TimeLaws operator later_than.
Proof. apply keeps_time; apply _. Qed.

Lemma later_steps w w' : rtc op_step w w' → later_than w w'.
Proof.
  apply keeps_steps; try done; [apply _|apply keeps_fresh_Resolve|].
  intros group kind x. apply fresh_InvalidateGroupKind.
Qed.

(** *** Waking

    What a wake does not touch, and the requests it sends. *)
Definition same_parts (w w' : operator) : Prop :=
  op_resolver w' = op_resolver w ∧ op_server w' = op_server w ∧
  op_milestoneSource w' = op_milestoneSource w ∧ op_cmilestoneSource w' = op_cmilestoneSource w.

#[local] Instance same_order : PreOrder same_parts.
Proof. split; [by split|]. intros w1 w2 w3 (?&?&?&?) (?&?&?&?). split_and!; congruence. Qed.

Lemma wake_each_adds {T} (source : operator → EnqueueSource) q (woken : T → bool) key items w :
  (∀ w w', same_parts w w' → source w' = source w) → source w = Some q →
  let w' := (wake_each (λ req w, on_adds (source_Enqueue (source w) req) w) woken key items w).2 in
  same_parts w w' ∧ op_adds w' = op_adds w ++ ((q,.) <$> wakes woken key (Ok items)).
Proof.
  intros Hsrc. revert w. induction items as [|x items IH]; intros w Hq; simpl.
  { by rewrite app_nil_r. }
  unfold_M. rewrite filter_cons. destruct (woken x); [|by apply IH].
  rewrite decide_True by done.
  replace (on_adds (source_Enqueue (source w) (key x)) w) with (tt, set_op_adds (op_adds w ++ [(q, key x)]) w)
    by (unfold on_adds; by rewrite Hq).
  unfold on_process. cbv beta iota.
  match goal with |- context [wake_each _ _ _ items ?w1] => set (w2 := w1) end.
  assert (same_parts w w2) as Hsame by done.
  destruct (IH w2) as [Hs Ha]; [by rewrite (Hsrc w)|]. split; [by etrans|].
  rewrite Ha. simpl. by rewrite <- app_assoc.
Qed.

Lemma on_server_pure {A} (m : M E A) w : (∀ s, (m s).2 = s) → on_server m w = ((m (op_server w)).1, w).
Proof.
  intros Hm. unfold on_server. specialize (Hm (op_server w)). destruct (m (op_server w)) as [a s].
  simpl in Hm. subst s. by destruct w.
Qed.

Lemma wakeMilestones_adds group kind q items w :
  op_milestoneSource w = Some q → (list_Milestones (op_server w)).1 = Ok items →
  let '(err, w') := wakeMilestones crdWatcher group kind w in
  err = None ∧ same_parts w w' ∧ op_adds w' = op_adds w ++
    ((q,.) <$> wakes (λ m, anyTargetMatches (m_DependsOn m) (GK group kind)) milestone_key (Ok items)).
Proof.
  intros Hq Hl. unfold wakeMilestones. unfold mbind, M_bind. cbn [cw_MilestoneEnqueue crdWatcher].
  change (list_Milestones w) with (on_server list_Milestones w). rewrite on_server_pure, Hl by done.
  destruct (wake_each_adds op_milestoneSource q (λ m, anyTargetMatches (m_DependsOn m) (GK group kind))
    milestone_key items w) as [Hs Ha]; [by intros ?? (_ & _ & ? & _)|done|].
  by destruct (wake_each _ _ _ _ w).
Qed.

Lemma wakeClusterMilestones_adds group kind q items w :
  op_cmilestoneSource w = Some q → (list_ClusterMilestones (op_server w)).1 = Ok items →
  let '(err, w') := wakeClusterMilestones crdWatcher group kind w in
  err = None ∧ same_parts w w' ∧ op_adds w' = op_adds w ++
    ((q,.) <$> wakes (λ m, anyClusterTargetMatches (cm_DependsOn m) (GK group kind))
       cluster_milestone_key (Ok items)).
Proof.
  intros Hq Hl. unfold wakeClusterMilestones. unfold mbind, M_bind. cbn [cw_ClusterMilestoneEnqueue crdWatcher].
  change (list_ClusterMilestones w) with (on_server list_ClusterMilestones w).
  rewrite on_server_pure, Hl by done.
  destruct (wake_each_adds op_cmilestoneSource q (λ m, anyClusterTargetMatches (cm_DependsOn m) (GK group kind))
    cluster_milestone_key items w) as [Hs Ha]; [by intros ?? (_ & _ & _ & ?)|done|].
  by destruct (wake_each _ _ _ _ w).
Qed.

(** One transition, seen through the whole operator. *)
Lemma applyTransition_fired gk w q qc items citems :
  settled sv (op_resolver w) →
  op_milestoneSource w = Some q → op_cmilestoneSource w = Some qc →
  (list_Milestones (op_server w)).1 = Ok items → (list_ClusterMilestones (op_server w)).1 = Ok citems →
  let '(err, w') := applyTransition crdWatcher gk w in
  err = None ∧ settled sv (op_resolver w') ∧ fresh sv (gk_group gk) (gk_kind gk) (op_resolver w') ∧
  op_adds w' = op_adds w ++
    ((q,.) <$> wakes (λ m, anyTargetMatches (m_DependsOn m) (GK (gk_group gk) (gk_kind gk))) milestone_key (Ok items)) ++
    ((qc,.) <$> wakes (λ m, anyClusterTargetMatches (cm_DependsOn m) (GK (gk_group gk) (gk_kind gk)))
       cluster_milestone_key (Ok citems)).
Proof.
  intros Hset Hq Hqc Hm Hc. unfold applyTransition. cbn [cw_Resolver cw_Registry crdWatcher].
  unfold mbind, M_bind.
  destruct (fresh_InvalidateGroupKind sv (gk_group gk) (gk_kind gk) (op_resolver w)) as [Hkeep Hfresh].
  destruct (Hkeep Hset) as [Hset1 _].
  change (Resolver_InvalidateGroupKind (Resolver := shared_resolver) (gk_group gk) (gk_kind gk) w)
    with (on_resolver (InvalidateGroupKind_resolver (gk_group gk) (gk_kind gk)) w).
  unfold on_resolver. destruct (InvalidateGroupKind_resolver _ _ (op_resolver w)) as [u x].
  simpl in Hset1, Hfresh. unfold registry_InvalidateGroupKind, on_process, modify.
  match goal with |- context [wakeMilestones _ _ _ ?w2] => set (w1 := w2) end.
  pose proof (wakeMilestones_adds (gk_group gk) (gk_kind gk) q items w1 Hq Hm) as H1'.
  destruct (wakeMilestones _ _ _ w1) as [e2 w2]. destruct H1' as (-> & (Hr2 & Hs2 & Hq2 & Hc2) & Ha2).
  pose proof (wakeClusterMilestones_adds (gk_group gk) (gk_kind gk) qc citems w2) as H2'.
  destruct (wakeClusterMilestones _ _ _ w2) as [e3 w3].
  destruct H2' as (-> & (Hr3 & _) & Ha3); [by rewrite Hc2|by rewrite Hs2|].
  split_and!; [done|rewrite Hr3, Hr2; done|rewrite Hr3, Hr2; done|].
  rewrite Ha3, Ha2, <- app_assoc. done.
Qed.

(** *** Normalising over a fresh cache *)

Definition reference (ns : string) (d : DependencyRef LabelSelector) : Dependency + MError :=
  (normalize_ref uncached ns d tt).1.

Definition ready_for (gk : groupKind) (w : operator) : Prop :=
  settled sv (op_resolver w) ∧ fresh sv (gk_group gk) (gk_kind gk) (op_resolver w).

Lemma normalize_ref_fresh gk ns d w :
  ready_for gk w →
  let '(o, w') := normalize_ref shared_resolver ns d w in
  ready_for gk w' ∧ outcome_name o = dr_Name d ∧
  (TargetSpec_GroupKind (dr_Target d) = GK (gk_group gk) (gk_kind gk) → o = reference ns d).
Proof.
  intros [Hset Hfresh]. pose proof (normalize_ref_name shared_resolver ns d w) as Hname.
  pose proof (normalize_ref_answer shared_resolver uncached ns d w tt) as Hans.
  pose proof (Resolve_coherent sv (ts_Group (dr_Target d)) (ts_Kind (dr_Target d)) (ts_Version (dr_Target d))
    (op_resolver w) Hset) as Hc.
  assert (op_resolver (normalize_ref shared_resolver ns d w).2 =
    (resolver_Resolve (ts_Group (dr_Target d)) (ts_Kind (dr_Target d)) (ts_Version (dr_Target d)) (op_resolver w)).2)
    as Hr.
  { unfold normalize_ref, resolveTarget. unfold mbind, M_bind. simpl. unfold on_resolver.
    by destruct (resolver_Resolve _ _ _ _) as [res x]. }
  cbn [Resolve shared_resolver uncached] in Hans. unfold on_resolver in Hans.
  cbn [Resolve resolver_Resolver] in Hans.
  destruct (resolver_Resolve _ _ _ (op_resolver w)) as [res x], (normalize_ref shared_resolver ns d w) as [o w'].
  simpl in *. destruct Hc as (Hset' & Hres & Hkeep). unfold ready_for. rewrite Hr. split_and!; [done|by apply Hkeep|done|].
  intros Hgk. apply Hans, Hres. unfold TargetSpec_GroupKind in Hgk. by injection Hgk as -> ->.
Qed.

Lemma NormalizeMilestone_fresh gk m w :
  ready_for gk w → NoDup (dr_Name <$> m_DependsOn m) → "" ∉ dr_Name <$> m_DependsOn m →
  let '(deps, depErrs) := (NormalizeMilestone (Some shared_resolver) m w).1 in
  names_ok deps depErrs ∧
  ∀ d, d ∈ m_DependsOn m → TargetSpec_GroupKind (dr_Target d) = GK (gk_group gk) (gk_kind gk) →
    match reference (om_Namespace (m_Meta m)) d with
    | inl dep => dep ∈ deps
    | inr err => err ∈ depErrs
    end.
Proof.
  intros Hw Hnd Hne. unfold NormalizeMilestone. set (ns := om_Namespace (m_Meta m)).
  pose proof (normalize_refs_all shared_resolver ns (ready_for gk) (λ d o, outcome_name o = dr_Name d ∧
    (TargetSpec_GroupKind (dr_Target d) = GK (gk_group gk) (gk_kind gk) → o = reference ns d))
    (m_DependsOn m) ([], []) w (normalize_ref_fresh gk ns) Hw) as Hall.
  destruct (normalize_refs _ _ _ _ w) as [res w']. destruct Hall as (_ & os & Hos & ->).
  rewrite append_outcomes. simpl. split.
  - assert ((d_Name <$> omap outcome_dep os) ++ (e_Name <$> omap outcome_err os) ≡ₚ dr_Name <$> m_DependsOn m) as Hp.
    { apply outcome_names, Forall2_fmap_l. eapply Forall2_impl; [exact Hos|]. by intros d o []. }
    split; by rewrite Hp.
  - intros d Hd Hgk. apply list_elem_of_lookup in Hd as [i Hd].
    destruct (Forall2_lookup_l _ _ _ _ _ Hos Hd) as (o & Ho & _ & Href). specialize (Href Hgk). subst o.
    apply list_elem_of_lookup_2 in Ho.
    destruct (reference ns d) as [dep|err] eqn:Hr; apply list_elem_of_omap; eauto.
Qed.

Lemma crd_handler_fired name w gk current missing items citems q qc :
  settled sv (op_resolver w) →
  op_milestoneSource w = Some q → op_cmilestoneSource w = Some qc →
  seen_crd (crd_Get name (op_server w)).1 = Some (current, missing) →
  (transition (op_lastObserved w !! name) current).1 = Some gk →
  (list_Milestones (op_server w)).1 = Ok items → (list_ClusterMilestones (op_server w)).1 = Ok citems →
  let '(err, w1) := crd_handler name w in
  err = None ∧ settled sv (op_resolver w1) ∧ fresh sv (gk_group gk) (gk_kind gk) (op_resolver w1) ∧
  op_adds w1 = op_adds w ++
    ((q,.) <$> wakes (λ m, anyTargetMatches (m_DependsOn m) (GK (gk_group gk) (gk_kind gk))) milestone_key (Ok items)) ++
    ((qc,.) <$> wakes (λ m, anyClusterTargetMatches (cm_DependsOn m) (GK (gk_group gk) (gk_kind gk)))
       cluster_milestone_key (Ok citems)).
Proof.
  intros Hset Hq Hqc Hcrd Htr Hm Hc. unfold crd_handler, CRDWatcher_Reconcile.
  change (crd_Get name) with (on_server (crd_Get name)) at 1. unfold mbind, M_bind at 1.
  rewrite on_server_pure by done.
  assert (∀ current missing, (transition (op_lastObserved w !! name) current).1 = Some gk →
    let '((err, seen'), w1) := observe_change crdWatcher name (op_lastObserved w) current missing w in
    err = None ∧ settled sv (op_resolver w1) ∧ fresh sv (gk_group gk) (gk_kind gk) (op_resolver w1) ∧
    op_adds w1 = op_adds w ++
      ((q,.) <$> wakes (λ m, anyTargetMatches (m_DependsOn m) (GK (gk_group gk) (gk_kind gk))) milestone_key (Ok items)) ++
      ((qc,.) <$> wakes (λ m, anyClusterTargetMatches (cm_DependsOn m) (GK (gk_group gk) (gk_kind gk)))
         cluster_milestone_key (Ok citems))) as Hfire.
  { intros cur mis Hfired. unfold observe_change, peekObserved.
    destruct (transition _ cur) as [fire establishing]. simpl in Hfired. subst fire.
    unfold mbind, M_bind. pose proof (applyTransition_fired gk w q qc items citems) as Ha.
    destruct (applyTransition crdWatcher gk w) as [err w1]. destruct Ha as (-> & ? & ? & ?); [done..|].
    by destruct establishing. }
  destruct (crd_Get name (op_server w)).1 as [crd|err]; simpl in Hcrd.
  - injection Hcrd as <- _. specialize (Hfire _ false Htr).
    by destruct (observe_change _ _ _ _ _ w) as [[err seen'] w1].
  - destruct (IsNotFound err); [|done]. injection Hcrd as <- _. specialize (Hfire _ true Htr).
    by destruct (observe_change _ _ _ _ _ w) as [[err' seen'] w1].
Qed.

(** While one reconcile runs, the informers' caches and the factory stay as
    they are. *)
Abbreviation during := (op_keeps (keeps_fresh sv) later).

#[local] Instance during_time : TimeLaws operator during.
Proof. apply keeps_time; apply _. Qed.

Lemma milestone_during obj w :
  during w (oa_Dependencies _ (rc_Adapter _ milestoneReconciler) obj (rc_Resolver _ milestoneReconciler) w).2.
Proof.
  assert (PreOrder during) by apply (time_order (R := during)).
  apply (NormalizeMilestone_frame during shared_resolver). intros group kind version v.
  apply keeps_on_resolver; [apply _|apply keeps_fresh_Resolve].
Qed.

(** C15: a CRD's transition reaches the status of every owner that waits for it.
    Let the API server's discovery have settled, and let the watcher see a CRD
    become Established, lose it, or disappear. Then the handler succeeds and
    queues every listed owner with a dependency on that group and kind. From
    then on, whatever reconciles, events, CRD changes and outside changes come in
    between, and whatever the resolver had cached, a Milestone's reconcile
    publishes for each such dependency what discovery now says: an established
    kind is watched and listed and its resources are rolled up (or its watch
    failed, and the rollup says so); for one that is gone, the error. *)
Theorem crd_transition_reaches_status name w gk current missing items citems q qc :
  settled sv (op_resolver w) →
  op_milestoneSource w = Some q → op_cmilestoneSource w = Some qc →
  seen_crd (crd_Get name (op_server w)).1 = Some (current, missing) →
  (transition (op_lastObserved w !! name) current).1 = Some gk →
  (list_Milestones (op_server w)).1 = Ok items → (list_ClusterMilestones (op_server w)).1 = Ok citems →
  let '(err, w1) := crd_handler name w in
  err = None ∧
  (∀ m, m ∈ items → references gk m → (q, milestone_key m) ∈ op_adds w1) ∧
  (∀ m, m ∈ citems → cluster_references gk m → (qc, cluster_milestone_key m) ∈ op_adds w1) ∧
  ∀ w2 m, rtc op_step w1 w2 → NoDup (dr_Name <$> m_DependsOn m) → "" ∉ dr_Name <$> m_DependsOn m →
    let deps := (NormalizeMilestone (Some shared_resolver) m w2).1.1 in
    let '(m', w3) := compute_status milestoneReconciler m w2 in
    ∀ d, d ∈ m_DependsOn m → TargetSpec_GroupKind (dr_Target d) = GK (gk_group gk) (gk_kind gk) →
      match reference (om_Namespace (m_Meta m)) d with
      | inl dep => ∃ o, observed_as during (oa_OwnerKey _ (rc_Adapter _ milestoneReconciler) m) deps w2 w3 dep o ∧
                        rollup_of dep o ∈ elems (DependsOn (m_Status m'))
      | inr e => error_rollup e ∈ elems (DependsOn (m_Status m'))
      end.
Proof.
  intros Hset Hq Hqc Hcrd Htr Hm Hc. pose proof (crd_handler_fired name w gk current missing items citems q qc) as Hf.
  destruct (crd_handler name w) as [err w1].
  destruct Hf as (-> & Hset1 & Hfresh1 & Ha); [done..|]. split_and!; [done| | |].
  - intros m Hin Hr. rewrite Ha, !elem_of_app. right. left. apply list_elem_of_fmap_2, list_elem_of_fmap_2.
    apply list_elem_of_filter. by rewrite anyTargetMatches_spec.
  - intros m Hin Hr. rewrite Ha, !elem_of_app. right. right. apply list_elem_of_fmap_2, list_elem_of_fmap_2.
    apply list_elem_of_filter. by rewrite anyClusterTargetMatches_spec.
  - intros w2 m Hs Hnd Hne deps. destruct (later_steps _ _ Hs) as [Hkeep _]. destruct (Hkeep Hset1) as [Hset2 Hfresh2].
    pose proof (NormalizeMilestone_fresh gk m w2 (conj Hset2 (Hfresh2 _ _ Hfresh1)) Hnd Hne) as Hn.
    destruct (NormalizeMilestone (Some shared_resolver) m w2).1 as [deps' depErrs] eqn:Hdeps.
    destruct Hn as [Hnames Hn].
    pose proof (compute_status_entries during milestoneReconciler (λ _ _, eq_refl) milestone_during
      m w2 deps' depErrs Hdeps Hnames) as Hrun.
    destruct (compute_status milestoneReconciler m w2) as [m' w3]. destruct Hrun as (obs & Hobs & Hst).
    intros d Hd Hgk. specialize (Hn d Hd Hgk). destruct (reference _ d) as [dep|e].
    + apply list_elem_of_lookup in Hn as [i Hi]. destruct (Forall2_lookup_l _ _ _ _ _ Hobs Hi) as (o & Ho & Hos).
      exists o. split; [done|]. apply Hst. left. exists dep, o. split; [|done].
      apply list_elem_of_lookup. exists i. by rewrite lookup_zip_with, Hi, Ho.
    + apply Hst. right. eauto.
Qed.
End propagation.
End operator.
Arguments operator {_ _} _.

(** ** A cluster where the CRD of Widgets becomes established *)
Module OperatorFix.
#[local] Existing Instance Fix.labels.
#[local] Existing Instance Fix.unstructured.
#[local] Existing Instance Fix.formatting.
#[local] Existing Instance Fix.api_errors.
#[local] Existing Instance Fix.conditions.
#[local] Existing Instance Fix.conditions_laws.
#[local] Existing Instance Fix.finalizers.
#[local] Existing Instance PatchFix.meta_json.

(** The API server: its CRDs and Milestones; writes are accepted and dropped. *)
Record server := { srv_crds : gmap string CustomResourceDefinition; srv_milestones : list (Milestone LabelSelector) }.

#[local] Instance server_crds : CRDClient server := {
  crd_Get := λ name s, (match srv_crds s !! name with
                        | Some crd => Ok crd
                        | None => Err (ext_error "NotFound" "not found")
                        end, s);
  list_Milestones := λ s, (Ok (srv_milestones s), s);
  list_ClusterMilestones := λ s, (Ok [], s);
}.

#[local] Instance server_namespaces : NamespaceClient server := { client_ListNamespaces := λ _ s, (Ok [], s) }.

#[local] Instance server_milestones : OwnerClient server (Milestone LabelSelector) := {
  client_Get := λ _ _ s, (match srv_milestones s with
                          | m :: _ => Ok m
                          | [] => Err (ext_error "NotFound" "not found")
                          end, s);
  client_Update := λ m s, ((m, None), s);
  client_PatchStatus := λ m _ s, ((m, None), s);
}.

#[local] Instance server_cmilestones : OwnerClient server (ClusterMilestone LabelSelector) := {
  client_Get := λ _ _ s, (Err (ext_error "NotFound" "not found"), s);
  client_Update := λ m s, ((m, None), s);
  client_PatchStatus := λ m _ s, ((m, None), s);
}.

(** Discovery serves Widgets at v1. *)
Definition now_served : served := {|
  sv_groups := Ok [Build_APIGroup "x.io" "v1" ["v1"]];
  sv_resources := λ gv, if decide (gv = "x.io/v1") then Ok [Build_APIResource "Widget" true]
                        else Err (ext_error "NotFound" "no such version");
|}.
Definition discoverer : Discoverer :=
  Build_Discoverer (λ _, sv_groups now_served) (λ _, sv_resources now_served).

Definition waiting : Milestone LabelSelector :=
  Build_Milestone _ (Build_ObjectMeta "m" "ns" 1 ∅ [Finalizer] None 0)
    [Build_DependencyRef _ "widgets" EmptySetReady SuspendIgnore (Build_TargetSpec _ "x.io" "" "Widget" None)]
    Demo.status0.

(** The CRD was installing when last observed; the cache still has v1alpha1. *)
Definition stale : resolver :=
  set_cache <[Build_cacheKey "x.io" "Widget" "" :=
      Build_cacheEntry (GVK "x.io" "v1alpha1" "Widget") RESTScopeNameNamespace 1000]>
    (NewResolver discoverer 60 (λ _, 0%Z)).

Definition empty_process : process () :=
  Build_process (NewRegistry 0 0) 0 (λ _, Ok tt) (λ _, Ok []) ∅ [].

Definition installing : operator server := {|
  op_resolver := stale;
  op_process := empty_process;
  op_milestoneSource := Some 0;
  op_cmilestoneSource := Some 1;
  op_adds := [];
  op_lastObserved := {["widgets.x.io" := observe_crd CRDFix.installing]};
  op_server := Build_server {["widgets.x.io" := CRDFix.widgets]} [waiting];
|}.

Definition established : operator server := (crd_handler "widgets.x.io" installing).2.
Definition reconciler : Reconciler (W := operator server) (Milestone LabelSelector) := milestoneReconciler None.

(** The version published for the dependency, and its reason. *)
Definition published (w : operator server) : list (string * string) :=
  (λ st, (ds_Version st, ds_Reason st)) <$> elems (DependsOn (m_Status (compute_status reconciler waiting w).1)).

Example transition_published :
  published installing = [("v1alpha1", ReasonEmptySet)] ∧ op_adds established = [(0, ("ns", "m"))] ∧
  published established = [("v1", ReasonEmptySet)].
Proof. vm_compute. done. Qed.

Definition widgets_v1 : GroupVersionKind := GVK "x.io" "v1" "Widget".

Lemma settled_stale : settled now_served stale.
Proof. intros n _. done. Qed.

Lemma crd_transition_reaches_status_witness :
  (0, ("ns", "m")) ∈ op_adds established ∧
  ∃ dep o, d_GVK dep = widgets_v1 ∧
    rollup_of dep o ∈ elems (DependsOn (m_Status (compute_status reconciler waiting established).1)).
Proof.
  pose proof (crd_transition_reaches_status None None now_served (λ _ _, eq_refl) (λ _, eq_refl) (λ _, eq_refl)
    "widgets.x.io" installing (Build_groupKind "x.io" "Widget") (observe_crd CRDFix.widgets) false [waiting] []
    0 1 settled_stale eq_refl eq_refl eq_refl eq_refl eq_refl eq_refl) as Hreach.
  unfold established. destruct (crd_handler "widgets.x.io" installing) as [err w1]. cbn [snd].
  destruct Hreach as (_ & Hm & _ & Hst). split.
  - apply (Hm waiting); [by left|]. eexists. split; [by left|done].
  - assert (NoDup (dr_Name <$> m_DependsOn waiting)) as Hnd by (apply (bool_decide_unpack _); vm_compute; exact I).
    assert ("" ∉ dr_Name <$> m_DependsOn waiting) as Hne by (apply (bool_decide_unpack _); vm_compute; exact I).
    specialize (Hst w1 waiting (rtc_refl _ w1) Hnd Hne).
    change (milestoneReconciler None) with reconciler in Hst.
    destruct (compute_status reconciler waiting w1) as [m' w3]. cbn [fst].
    destruct (Hst
      (Build_DependencyRef _ "widgets" EmptySetReady SuspendIgnore (Build_TargetSpec _ "x.io" "" "Widget" None)))
      as (o & _ & Ho); [by left|done|].
    eexists _, o. split; [|exact Ho]. reflexivity.
Defined.

Definition booting : operator server := {|
  op_resolver := NewResolver discoverer 60 (λ _, 0%Z);
  op_process := empty_process;
  op_milestoneSource := Some 0;
  op_cmilestoneSource := Some 1;
  op_adds := [];
  op_lastObserved := ∅;
  op_server := op_server installing;
|}.
Definition reconciled : operator server := (MilestoneReconciler_Reconcile reconciler ("ns", "m") booting).2.

Lemma operator_invariant_witness :
  is_Some (informers (p_registry (op_process reconciled)) !! widgets_v1) ∧
  ∃ o, is_Some (subscription (rg_index (p_registry (op_process reconciled))) widgets_v1 o).
Proof.
  assert (is_Some (informers (p_registry (op_process reconciled)) !! widgets_v1)) as Hi
    by (vm_compute; by eexists).
  split; [exact Hi|].
  destruct (operator_invariant None None booting reconciled) as (Hinf & _).
  - split; [by exists 0%Z, 0%Z|by eexists _, _, _].
  - apply rtc_once. exact (step_milestone None None booting ("ns", "m")).
  - by apply Hinf.
Defined.
End OperatorFix.
