(* ===== verification/Updates.v ===== *)
(** * From a resource's change to the owner's status

    internal/watcher and internal/controller promise together that a published
    status does not go stale unnoticed: a reconcile subscribes before it lists, an
    informer notifies of every change of its cache, and the registry wakes every
    owner one of whose matchers admits the notified object. Here the operator of
    [Operator.v] runs between two reconciles of one owner: caches change, their
    notifications are delivered later and in any order, other owners are
    reconciled, and the world outside moves. *)

From S2P Require Import Prelude GoStd ApiV1 K8s Fixtures Metrics Status Membership Discovery Normalize SubscriberIndex Registry StatusHelpers StatusPatch Reconciler ReconcilerSpec ReconcilerWrites Process Concurrent CRDWatcher Evaluate Informers Wiring Operator.

(** ** Definitions *)

Section changes.
Context `{LabelsAPI} `{UnstructuredAPI}.

(** A change of the objects an informer caches, and the notification of it: an
    addition, a replacement in place, a deletion (seen, or missed and reported by
    a tombstone) of an object as it was cached, up to what matchers read. *)
Definition cache_change (n : notification) (objs objs' : list Unstructured) : Prop :=
  match n with
  | OnAdd obj => ∃ u, asUnstructured obj = Some u ∧ objs' ≡ₚ u :: objs
  | OnUpdate old new => ∃ u v rest, asUnstructured old = Some u ∧ asUnstructured new = Some v ∧
      objs ≡ₚ u :: rest ∧ objs' ≡ₚ v :: rest
  | OnDelete obj => ∃ u v, asUnstructured obj = Some v ∧ objs ≡ₚ u :: objs' ∧
      GetNamespace v = GetNamespace u ∧ GetLabels v = GetLabels u
  end.

Definition admitted_by (d : Dependency) (u : Unstructured) : bool := Admits d (GetNamespace u) (GetLabels u).

(** The update takes the object out of the dependency's set. *)
Definition leaves (d : Dependency) (n : notification) : Prop :=
  match n with
  | OnUpdate old new => ∃ u v, asUnstructured old = Some u ∧ asUnstructured new = Some v ∧
      admitted_by d u = true ∧ admitted_by d v = false
  | _ => False
  end.

(** The notification's object is one of the dependency's. *)
Definition concerns (d : Dependency) (n : notification) : bool :=
  match asUnstructured (notified n) with Some u => admitted_by d u | None => false end.

(** A change that neither concerns a dependency nor takes an object out of its set
    leaves the set as it is. *)
Lemma members_unchanged d n objs objs' :
  cache_change n objs objs' → ¬ leaves d n → concerns d n = false → members d objs' ≡ₚ members d objs.
Proof.
  intros Hc Hl Hn. unfold members. apply fmap_Permutation.
  assert (∀ u, asUnstructured (notified n) = Some u → admitted_by d u = false) as Hno.
  { intros u Hu. unfold concerns in Hn. by rewrite Hu in Hn. }
  assert (∀ u l, admitted_by d u = false →
    filter (λ u, Admits d (GetNamespace u) (GetLabels u) = true) (u :: l) =
    filter (λ u, Admits d (GetNamespace u) (GetLabels u) = true) l) as Hskip.
  { intros u l Hu. unfold admitted_by in Hu. rewrite filter_cons, decide_False; [done|]. by rewrite Hu. }
  destruct n as [obj|old new|obj]; simpl in *.
  - destruct Hc as (u & Hu & Hp). rewrite (Permutation_filter _ _ _ Hp), Hskip; [done|auto].
  - destruct Hc as (u & v & rest & Hu & Hv & Hp & Hp').
    rewrite (Permutation_filter _ _ _ Hp), (Permutation_filter _ _ _ Hp'), !Hskip; [done| |auto].
    apply not_true_iff_false. intros Ha. apply Hl. exists u, v. by auto.
  - destruct Hc as (u & v & Hv & Hp & Hns & Hls).
    rewrite (Permutation_filter _ _ _ Hp), Hskip; [done|]. specialize (Hno v Hv).
    unfold admitted_by in *. by rewrite <- Hns, <- Hls.
Qed.

(** What a reconcile would read off a cache for a dependency. *)
Lemma rollup_of_perm d objs objs' :
  members d objs' ≡ₚ members d objs → rollup_of d (Listed (Ok objs')) = rollup_of d (Listed (Ok objs)).
Proof. intros Hp. simpl. by apply ReduceDependency_perm. Qed.

(** The registry's matcher admits what the dependency admits. *)
Lemma subscriber_for_concerned owner deps d u :
  d ∈ deps → admitted_by d u = true → Subscriber_Match (subscriber_for owner deps (d_GVK d)) u = true.
Proof.
  intros Hd Hu. unfold Subscriber_Match, subscriber_for. cbn [Matchers].
  assert (matcher_of d ∈ matcher_of <$> deps_of (d_GVK d) deps) as Hin.
  { apply list_elem_of_fmap_2, elem_of_deps_of. done. }
  destruct (matcher_of <$> deps_of (d_GVK d) deps) as [|m ms]; [by apply not_elem_of_nil in Hin|].
  apply existsb_elem. exists (matcher_of d). by split.
Qed.
End changes.

Section updates.
Context `{LabelsAPI} `{UnstructuredAPI} `{Formatting} `{ApiErrors} `{ConditionsLaws}
  `{FinalizerAPI} `{MetaJSON}.
Context {E : Type} `{!CRDClient E} `{!NamespaceClient E}.
Context `{!OwnerClient E (Milestone LabelSelector)} `{!OwnerClient E (ClusterMilestone LabelSelector)}.
Context (milestoneFluxNotifier : option (Milestone LabelSelector → M E unit)).
Context (clusterMilestoneFluxNotifier : option (ClusterMilestone LabelSelector → M E unit)).

Abbreviation milestones := (milestoneReconciler milestoneFluxNotifier).
Abbreviation cmilestones := (clusterMilestoneReconciler clusterMilestoneFluxNotifier).
Abbreviation key r obj := (oa_OwnerKey _ (rc_Adapter _ r) obj).
Abbreviation cached w := (p_cache (op_process w)).

Definition set_cached (gvk : GroupVersionKind) (objs : list Unstructured) (w : operator E) : operator E :=
  let p := op_process w in
  set_op_process (Build_process (p_registry p) (p_clock p) (p_factory p)
    (λ g, if decide (g = gvk) then Ok objs else p_cache p g) (p_objects p) (p_log p)) w.

(** The operator with the notifications on their way. *)
Abbreviation running := (operator E * list (GroupVersionKind * notification))%type.

(** The registry's index, the caches and the queues are where a step keeps to
    itself: whatever else it does, to the API server, the resolver, the clock or
    what the CRD watcher remembers; it may put requests on a queue. *)
Definition elsewhere (w w' : operator E) : Prop :=
  p_registry (op_process w') = p_registry (op_process w) ∧ cached w' = cached w ∧ same_sources w w' ∧
  op_adds w `prefix_of` op_adds w'.

(** One step of everything but [owner]'s reconcile: a cache changes and its
    notification is on its way, a notification is delivered, a call of another
    owner's reconcile, of the CRD watcher, a counter, or something else. No object leaves
    a set of [deps], and no kind the owner is subscribed to is invalidated. *)
Inductive tick (owner : OwnerKey) (deps : list Dependency) : running → running → Prop :=
  | tick_change gvk n objs objs' w pending :
      cached w gvk = Ok objs → cache_change n objs objs' → (∀ d, d ∈ deps → d_GVK d = gvk → ¬ leaves d n) →
      tick owner deps (w, pending) (set_cached gvk objs' w, pending ++ [(gvk, n)])
  | tick_deliver gvk n w before after :
      tick owner deps (w, before ++ (gvk, n) :: after) ((event_handler gvk n w).2, before ++ after)
  | tick_subscribe gvk scope sub w pending :
      Owner sub ≠ owner → tick owner deps (w, pending) ((reg_Subscribe gvk scope sub w).2, pending)
  | tick_unsubscribe gvk o w pending :
      o ≠ owner → tick owner deps (w, pending) ((reg_Unsubscribe gvk o w).2, pending)
  | tick_unsubscribe_all o w pending :
      o ≠ owner → tick owner deps (w, pending) ((reg_UnsubscribeAll o w).2, pending)
  | tick_invalidate group kind w pending :
      (∀ g, Group g = group → Kind g = kind → process_subs (op_process w) g owner = None) →
      tick owner deps (w, pending) ((registry_InvalidateGroupKind group kind w).2, pending)
  | tick_record f w pending : tick owner deps (w, pending) ((record f w).2, pending)
  | tick_elsewhere w w' pending : elsewhere w w' → tick owner deps (w, pending) (w', pending).

(** ** The registry's laws, in the operator *)

Definition op_pinv (w : operator E) : Prop := process_inv (op_process w).
Definition op_subs (w : operator E) : GroupVersionKind → OwnerKey → option Subscriber := process_subs (op_process w).

Lemma on_process_snd {A} (m : M (process unit) A) (w : operator E) : op_process (on_process m w).2 = (m (op_process w)).2.
Proof. unfold on_process. by destruct (m _). Qed.
Lemma on_process_fst {A} (m : M (process unit) A) (w : operator E) : (on_process m w).1 = (m (op_process w)).1.
Proof. unfold on_process. by destruct (m _). Qed.

#[export] Instance operator_registry_laws : RegistryLaws (operator E) op_pinv op_subs.
Proof.
  split; unfold op_pinv, op_subs; intros; cbn [reg_Subscribe reg_Unsubscribe reg_UnsubscribeAll reg_List
    reg_GVKsByOwner op_registry] in *; rewrite ?on_process_snd, ?on_process_fst in *.
  - by apply (subscribe_inv (subs := process_subs)).
  - by apply (subscribe_ok (inv := process_inv)).
  - by apply (subscribe_err (inv := process_inv) _ _ _ _ err).
  - by apply (unsubscribe_inv (subs := process_subs)).
  - by apply (unsubscribe_subs (inv := process_inv)).
  - by apply (unsubscribe_all_inv (subs := process_subs)).
  - by apply (unsubscribe_all_subs (inv := process_inv)).
  - by apply (gvks_by_owner (inv := process_inv) (subs := process_subs)).
  - unfold on_process. simpl. by destruct w.
  - by apply (list_inv (subs := process_subs)).
  - by apply (list_subs (inv := process_inv)).
Qed.

#[export] Instance operator_runtime_laws : RuntimeLaws (operator E) op_pinv op_subs.
Proof.
  split; unfold op_pinv, op_subs; intros; cbn [record wall_clock op_runtime]; rewrite on_process_snd.
  - by apply (record_inv (subs := process_subs)).
  - by rewrite (record_subs (inv := process_inv)).
  - by apply (clock_inv (subs := process_subs)).
  - by rewrite (clock_subs (inv := process_inv)).
Qed.

(** ** What a step does *)

Lemma event_handler_run gvk n w q qc :
  op_milestoneSource w = Some q → op_cmilestoneSource w = Some qc →
  let w' := (event_handler gvk n w).2 in
  cached w' = cached w ∧ op_milestoneSource w' = Some q ∧ op_cmilestoneSource w' = Some qc ∧
  op_subs w' = op_subs w ∧ (op_pinv w → op_pinv w') ∧
  op_adds w' = op_adds w ++
    match asUnstructured (notified n) with
    | Some u => omap (owner_request q qc) (Subscribers gvk u (rg_index (p_registry (op_process w))))
    | None => []
    end.
Proof.
  intros Hq Hqc. cbv zeta. unfold event_handler. set (m := Build_manager _ _ _ _).
  pose proof (notify_run gvk n m) as Hn. destruct (notify gvk n m) as [u m']. simpl in Hn. subst m'.
  destruct (asUnstructured (notified n)) as [o|]; simpl.
  - pose proof (handle_event_run gvk (match n with OnAdd _ => EventAdd | OnUpdate _ _ => EventUpdate
      | OnDelete _ => EventDelete end) o m q qc Hq Hqc) as Hr. simpl in Hr.
    split_and!; [done..| | |exact Hr].
    + unfold op_subs, process_subs. simpl. unfold dispatch. by rewrite enqueue_fold.
    + intros [Hi Hst]. eapply inv_dispatch in Hi as [Hi Hst']. split; [exact Hi|]. by etrans; [exact Hst'|].
  - split_and!; [done..|by rewrite app_nil_r].
Qed.

(** The rollup a reconcile would publish now. *)
Definition current_rollup (w : operator E) (d : Dependency) : DependencyStatus :=
  rollup_of d (Listed (cached w (d_GVK d))).

(** What every step but the owner's lets the owner rely on. *)
Section ticks.
Context (q qc : workqueue).

Definition run_inv (w : operator E) : Prop :=
  op_pinv w ∧ op_milestoneSource w = Some q ∧ op_cmilestoneSource w = Some qc.

Definition passes (owner : OwnerKey) : relation (operator E) := λ w w',
  run_inv w → run_inv w' ∧ op_adds w `prefix_of` op_adds w' ∧ ∀ g, op_subs w' g owner = op_subs w g owner.

#[export] Instance passes_order owner : PreOrder (passes owner).
Proof.
  split; [by intros w|]. intros w1 w2 w3 H12 H23 Hw. destruct (H12 Hw) as (Hw2 & P2 & E2).
  destruct (H23 Hw2) as (Hw3 & P3 & E3). split_and!; [done|by etrans|]. intros g. by rewrite E3.
Qed.

Lemma passes_process {A} owner (m : M (process unit) A) w :
  rely process_inv process_subs owner (op_process w) (m (op_process w)).2 → passes owner w (on_process m w).2.
Proof.
  intros Hr [Hi Hs]. destruct (Hr Hi) as [Hi' Hsubs]. unfold on_process, run_inv, op_pinv, op_subs.
  destruct (m _) as [a p]. split; [by split|]. by split.
Qed.

Lemma invalidate_rely owner group kind (p : process unit) :
  (∀ g, Group g = group → Kind g = kind → process_subs p g owner = None) →
  rely process_inv process_subs owner p (set_registry (InvalidateGroupKind group kind (p_registry p)) p).
Proof.
  intros Hno [Hi Hst]. destruct (InvalidateGroupKind_spec group kind _ Hi) as (Hi' & Hgone & Hkept).
  split; [split; [exact Hi'|by rewrite <- Hst; apply starting_InvalidateGroupKind]|]. intros g. unfold process_subs. simpl.
  destruct (decide (Group g = group ∧ Kind g = kind)) as [[Hg Hk]|Hne]; [|by apply Hkept].
  transitivity (@None Subscriber); [by apply Hgone|]. symmetry. by apply Hno.
Qed.

Lemma tick_passes owner deps s s' : tick owner deps s s' → passes owner s.1 s'.1.
Proof.
  destruct 1 as [gvk n objs objs' w pending|gvk n w before after|gvk scope sub w pending Ho|gvk o w pending Ho
    |o w pending Ho|group kind w pending Hno|f w pending|w w' pending (Hr & _ & [Hq Hqc] & Ha)]; cbn [fst].
  - by intros Hw.
  - intros (Hi & Hq & Hqc). destruct (event_handler_run gvk n w q qc Hq Hqc) as (_ & ? & ? & Hs & Hi' & Ha).
    split; [by split; [apply Hi'|]|split; [rewrite Ha; by apply prefix_app_r|intros g; by rewrite Hs]].
  - by apply (passes_process owner (reg_Subscribe gvk scope sub)), others_rely, others_subscribe.
  - by apply (passes_process owner (reg_Unsubscribe gvk o)), others_rely, others_unsubscribe.
  - by apply (passes_process owner (reg_UnsubscribeAll o)), others_rely, others_unsubscribe_all.
  - by apply passes_process, invalidate_rely.
  - by apply (passes_process owner (record f)), others_rely, others_record.
  - intros ([Hinv Hst] & Hs & Hcs). unfold run_inv, op_pinv, op_subs, process_inv, process_subs. rewrite Hr.
    split_and!; (done || congruence).
Qed.

Lemma ticks_passes owner deps s s' : rtc (tick owner deps) s s' → passes owner s.1 s'.1.
Proof. induction 1 as [|s1 s2 s3 Hs _ IH]; [reflexivity|]. etrans; [by eapply tick_passes|done]. Qed.

(** *** Until the owner is woken *)

Section until.
Context (owner : OwnerKey) (deps : list Dependency) (req : workqueue * Request).
Hypothesis owner_req : owner_request q qc owner = Some req.
(** What had been put on the queues when the owner's reconcile began. *)
Context (base : adds).

Definition asked (w : operator E) : Prop :=
  ∀ d, d ∈ deps → op_subs w (d_GVK d) owner = Some (subscriber_for owner deps (d_GVK d)).

Definition on_its_way (pending : list (GroupVersionKind * notification)) : Prop :=
  ∃ n d, (d_GVK d, n) ∈ pending ∧ d ∈ deps ∧ concerns d n = true.

Definition woken (w : operator E) : Prop := ∃ more, op_adds w = base ++ more ∧ req ∈ more.

(** The owner was woken, or will be, or what it depends on is as published. *)
Definition tracked (d : Dependency) (st : DependencyStatus) (s : running) : Prop :=
  let '(w, pending) := s in
  run_inv w ∧ asked w ∧ base `prefix_of` op_adds w ∧
  (woken w ∨ on_its_way pending ∨ current_rollup w d = st).

Lemma woken_later w w' : woken w → op_adds w `prefix_of` op_adds w' → woken w'.
Proof.
  intros (more & Hw & Hr) [more' Heq]. exists (more ++ more'). rewrite Heq, Hw, <- app_assoc. split; [done|].
  rewrite elem_of_app. by left.
Qed.

Lemma tracked_change d st gvk n objs objs' w pending :
  d ∈ deps → cached w gvk = Ok objs → cache_change n objs objs' → (d_GVK d = gvk → ¬ leaves d n) →
  tracked d st (w, pending) → tracked d st (set_cached gvk objs' w, pending ++ [(gvk, n)]).
Proof.
  intros Hd Hobjs Hc Hallow (Hi & Hasked & Hp & Hcase). split_and!; [done..|].
  destruct Hcase as [Hw|[(m & d' & Hin & Hd')|Hsame]].
  { by left. }
  { right. left. exists m, d'. rewrite elem_of_app. tauto. }
  right. destruct (decide (d_GVK d = gvk)) as [<-|Hne].
  - destruct (concerns d n) eqn:Hcon.
    + left. exists n, d. rewrite elem_of_app, list_elem_of_singleton. auto.
    + right. rewrite <- Hsame. unfold current_rollup. simpl. rewrite decide_True, Hobjs by done.
      apply rollup_of_perm, (members_unchanged d n); auto.
  - right. rewrite <- Hsame. unfold current_rollup. simpl. by rewrite decide_False.
Qed.

Lemma deliver_wakes d n w :
  run_inv w → asked w → d ∈ deps → concerns d n = true → base `prefix_of` op_adds w →
  woken (event_handler (d_GVK d) n w).2.
Proof.
  intros ([Hi _] & Hq & Hqc) Hsubs Hd Hcon [more Hp].
  destruct (event_handler_run (d_GVK d) n w q qc Hq Hqc) as (_ & _ & _ & _ & _ & Ha).
  unfold concerns in Hcon. destruct (asUnstructured (notified n)) as [u|]; [|done].
  eexists (more ++ _). rewrite Ha, Hp, <- app_assoc. split; [done|]. rewrite elem_of_app. right.
  apply list_elem_of_omap. exists owner. split; [|done]. apply Subscribers_spec; [apply Hi|].
  exists (subscriber_for owner deps (d_GVK d)). split; [by apply Hsubs|by apply subscriber_for_concerned].
Qed.

Lemma tracked_still d st w w' pending :
  passes owner w w' → cached w' = cached w → tracked d st (w, pending) → tracked d st (w', pending).
Proof.
  intros Hpass Hc (Hi & Hasked & Hp & Hcase). destruct (Hpass Hi) as (Hi' & Hp' & Hs).
  split_and!; [done| |by etrans|].
  - intros d' Hd'. rewrite Hs. by apply Hasked.
  - destruct Hcase as [Hw|[Hway|Hsame]]; [left; by eapply woken_later|by right; left|right; right].
    unfold current_rollup. by rewrite Hc.
Qed.

Lemma tracked_deliver d st gvk n w before after :
  tracked d st (w, before ++ (gvk, n) :: after) → tracked d st ((event_handler gvk n w).2, before ++ after).
Proof.
  intros (Hi & Hasked & Hp & Hcase).
  pose proof (tick_passes _ _ _ _ (tick_deliver owner deps gvk n w before after)) as Hpass.
  destruct (Hpass Hi) as (Hi' & Hp' & Hs). destruct Hi as (Hinv & Hq & Hqc).
  destruct (event_handler_run gvk n w q qc Hq Hqc) as (Hc & _).
  split_and!; [done|by intros d' Hd'; rewrite Hs; apply Hasked|by etrans|].
  destruct Hcase as [Hw|[(m & d' & Hin & Hd' & Hcon)|Hsame]].
  - left. by eapply woken_later.
  - rewrite elem_of_app, elem_of_cons in Hin. destruct Hin as [Hin|[[= <- ->]|Hin]].
    + right. left. exists m, d'. rewrite elem_of_app. tauto.
    + left. by apply deliver_wakes.
    + right. left. exists m, d'. rewrite elem_of_app. tauto.
  - right. right. rewrite <- Hsame. unfold current_rollup. by rewrite Hc.
Qed.

Lemma tracked_tick d st s s' : d ∈ deps → tick owner deps s s' → tracked d st s → tracked d st s'.
Proof.
  intros Hd Ht. pose proof (tick_passes _ _ _ _ Ht) as Hpass.
  destruct Ht as [gvk n objs objs' w pending Ho Hc Hl|gvk n w before after|gvk scope sub w pending Ho|gvk o w pending Ho
    |o w pending Ho|group kind w pending Hno|f w pending|w w' pending (_ & Hc & _)];
    [by apply (tracked_change _ _ gvk n objs); auto|apply tracked_deliver|..];
    apply tracked_still; try done; simpl; try by destruct w.
  unfold on_process. pose proof (process_Subscribe_later gvk scope sub (op_process w)) as (_ & _ & Hc & _).
  simpl. by destruct (process_Subscribe _ _ _ _).
Qed.

Lemma tracked_ticks d st s s' : d ∈ deps → rtc (tick owner deps) s s' → tracked d st s → tracked d st s'.
Proof. intros Hd. induction 1 as [|s1 s2 s3 Hs _ IH]; [done|]. intros Ht. by apply IH, (tracked_tick _ _ s1). Qed.
End until.
End ticks.

(** *** To any other owner, a reconcile is such steps *)

Definition ticks_to (owner : OwnerKey) (deps : list Dependency) : relation (operator E) :=
  λ w w', ∀ pending, rtc (tick owner deps) (w, pending) (w', pending).

#[export] Instance ticks_order owner deps : PreOrder (ticks_to owner deps).
Proof. split; [by intros w pending|]. intros w1 w2 w3 H12 H23 pending. etrans; [apply H12|apply H23]. Qed.

Lemma ticks_elsewhere owner deps w w' : elsewhere w w' → ticks_to owner deps w w'.
Proof. intros He pending. by apply rtc_once, tick_elsewhere. Qed.

#[export] Instance ticks_quiet owner deps : QuietLaws (operator E) (ticks_to owner deps).
Proof.
  split; [apply _|intros f w pending; apply rtc_once, tick_record|..]; intros; apply ticks_elsewhere; by split_and!.
Qed.

Lemma ticks_resolver {A} owner deps (m : M resolver A) w : ticks_to owner deps w (on_resolver m w).2.
Proof. apply ticks_elsewhere. unfold on_resolver. destruct (m _). by split_and!. Qed.
Lemma ticks_server {A} owner deps (m : M E A) w : ticks_to owner deps w (on_server m w).2.
Proof. apply ticks_elsewhere. unfold on_server. destruct (m _). by split_and!. Qed.

Lemma subscribe_groups_ticks owner deps o groups order errs w :
  o ≠ owner → ticks_to owner deps w (subscribe_groups o groups order errs w).2.
Proof.
  intros Ho. revert errs w. induction order as [|gvk order IH]; intros errs w; [reflexivity|].
  cbn [subscribe_groups]. destruct (groups !! gvk) as [g|]; [|apply IH]. unfold mbind, M_bind.
  set (sub := Build_Subscriber o _).
  assert (ticks_to owner deps w (reg_Subscribe gvk (g_scope g) sub w).2) as Hs by
    (intros pending; by apply rtc_once, tick_subscribe).
  destruct (reg_Subscribe gvk _ sub w) as [err w1]. simpl in Hs. etrans; [exact Hs|apply IH].
Qed.

Lemma drop_stale_ticks owner deps o groups prior w :
  o ≠ owner → ticks_to owner deps w (drop_stale o groups prior w).2.
Proof.
  intros Ho. revert w. induction prior as [|gvk prior IH]; intros w; [reflexivity|].
  cbn [drop_stale]. unfold mbind, M_bind. destruct (groups !! gvk); [apply IH|].
  assert (ticks_to owner deps w (reg_Unsubscribe gvk o w).2) as Hs by
    (intros pending; by apply rtc_once, tick_unsubscribe).
  destruct (reg_Unsubscribe gvk o w) as [u w1]. simpl in Hs. etrans; [exact Hs|apply IH].
Qed.

Lemma may_subscribe_ticks {T} (r : Reconciler (W := operator E) T) obj owner deps :
  key r obj ≠ owner → may_subscribe (ticks_to owner deps) r obj.
Proof.
  intros Ho. split; [|by intros w pending; apply rtc_once, tick_unsubscribe_all].
  intros ds w. unfold reconcileSubscriptions.
  apply (observed_time (ticks_to owner deps)). destruct (group_dependencies ds) as [order groups].
  unfold mbind, M_bind, mret, M_ret.
  assert (∀ o, ticks_to owner deps w (reg_GVKsByOwner o w).2) as Hg by (intros; apply ticks_elsewhere; by split_and!).
  specialize (Hg (key r obj)). destruct (reg_GVKsByOwner (key r obj) w) as [prior w1]. simpl in Hg.
  pose proof (subscribe_groups_ticks owner deps (key r obj) groups order [] w1 Ho) as Hs.
  destruct (subscribe_groups (key r obj) groups order [] w1) as [errs w2]. simpl in Hs.
  pose proof (drop_stale_ticks owner deps (key r obj) groups prior w2 Ho) as Hd.
  destruct (drop_stale (key r obj) groups prior w2) as [u w3]. simpl in Hd.
  transitivity w1; [exact Hg|]. transitivity w2; [exact Hs|exact Hd].
Qed.

Lemma reconcile_ticks {T} `{!OwnerClient E T} (r : Reconciler (W := operator E) T) namespace name owner deps w :
  (∀ obj w, ticks_to owner deps w (oa_Dependencies _ (rc_Adapter _ r) obj (rc_Resolver _ r) w).2) → rc_Now _ r = None →
  (∀ notify, rc_FluxNotifier _ r = Some notify → ∃ f, ∀ obj, notify obj = on_server (f obj)) →
  (∀ obj, (client_Get namespace name w).1 = Ok obj → key r obj ≠ owner) →
  ticks_to owner deps w (AsReconcileFunc r namespace name w).2.
Proof.
  intros Hn Hnow Hf Hget. apply (AsReconcileFunc_quiet (ticks_to owner deps) r); intros;
    [done| |apply ticks_server..| |by apply may_subscribe_ticks, Hget].
  - unfold rc_now. rewrite Hnow. apply (quiet_clock (R := ticks_to owner deps)).
  - destruct (Hf _ ltac:(eassumption)) as [f ->]. apply ticks_server.
Qed.

(** A whole reconcile of another owner, by either controller. *)
Lemma milestone_ticks req owner deps w :
  (∀ m, (client_Get req.1 req.2 w).1 = Ok m → key milestones m ≠ owner) →
  ticks_to owner deps w (MilestoneReconciler_Reconcile milestones req w).2.
Proof.
  apply reconcile_ticks; [|done|by intros notify (f & _ & ->)%fmap_Some; exists f].
  intros obj v. apply (NormalizeMilestone_frame (ticks_to owner deps) shared_resolver). intros. apply ticks_resolver.
Qed.

Lemma cmilestone_ticks req owner deps w :
  (∀ cm, (client_Get req.1 req.2 w).1 = Ok cm → key cmilestones cm ≠ owner) →
  ticks_to owner deps w (ClusterMilestoneReconciler_Reconcile cmilestones req w).2.
Proof.
  apply reconcile_ticks; [|done|by intros notify (f & _ & ->)%fmap_Some; exists f].
  intros obj v. apply (NormalizeClusterMilestone_frame (ticks_to owner deps) shared_resolver);
    intros; [apply ticks_resolver|apply ticks_server].
Qed.

(** *** The excluded change *)

Lemma subscriber_for_unconcerned owner deps d u :
  d ∈ deps → (∀ d', d' ∈ deps → d_GVK d' = d_GVK d → admitted_by d' u = false) →
  Subscriber_Match (subscriber_for owner deps (d_GVK d)) u = false.
Proof.
  intros Hd Hno. unfold Subscriber_Match, subscriber_for. cbn [Matchers].
  assert (matcher_of <$> deps_of (d_GVK d) deps ≠ []) as Hne.
  { intros Hnil%fmap_nil_inv%deps_of_nil. eauto. }
  destruct (matcher_of <$> deps_of (d_GVK d) deps) as [|m ms] eqn:Hms; [done|].
  rewrite <- Hms. apply not_true_iff_false. intros (m' & Hin & Hm)%existsb_elem.
  apply list_elem_of_fmap in Hin as (d' & -> & [Hd' Hg]%elem_of_deps_of).
  specialize (Hno d' Hd' Hg). change (admitted_by d' u = true) in Hm. congruence.
Qed.

(** A request names one owner. *)
Lemma owner_request_inj q qc o1 o2 req :
  q ≠ qc → (ok_Kind o2 = "ClusterMilestone" → ok_Namespace o2 = "") →
  (ok_Kind o1 = "ClusterMilestone" → ok_Namespace o1 = "") →
  owner_request q qc o1 = Some req → owner_request q qc o2 = Some req → o1 = o2.
Proof.
  intros Hq H2' H1'. destruct o1 as [k1 ns1 n1], o2 as [k2 ns2 n2]. unfold owner_request. simpl in *.
  repeat case_decide; intros; simplify_eq; f_equal; naive_solver.
Qed.

(** C17: the change that goes unnoticed. Take an owner subscribed for its
    dependencies and a cached object that one of them admits, and let an update
    relabel the object so that none of the owner's dependencies on its kind
    admits it any more. The cache then has one member less than what was
    published, the notification was delivered, nothing is pending, and the owner
    was not woken: newCacheHandler passes on only the new object, which no
    matcher admits. *)
Theorem relabelled_object_missed owner deps d old new u v rest w q qc req :
  q ≠ qc → run_inv q qc w → owner_request q qc owner = Some req → (ok_Kind owner = "ClusterMilestone" → ok_Namespace owner = "") →
  (∀ g o, is_Some (op_subs w g o) → ok_Kind o = "ClusterMilestone" → ok_Namespace o = "") →
  asked owner deps w → d ∈ deps → cached w (d_GVK d) = Ok (u :: rest) →
  asUnstructured old = Some u → asUnstructured new = Some v → admitted_by d u = true →
  (∀ d', d' ∈ deps → d_GVK d' = d_GVK d → admitted_by d' v = false) →
  let w2 := (event_handler (d_GVK d) (OnUpdate old new) (set_cached (d_GVK d) (v :: rest) w)).2 in
  rtc (tick owner []) (w, []) (w2, []) ∧
  cached w2 (d_GVK d) = Ok (v :: rest) ∧ length (members d (u :: rest)) = S (length (members d (v :: rest))) ∧
  ¬ woken req (op_adds w) w2.
Proof.
  intros Hqqc ([Hi _] & Hq & Hqc) Hreq Hns Hsubsns Hsubs Hd Hc Hold Hnew Hu Hv. cbv zeta.
  set (w1 := set_cached (d_GVK d) (v :: rest) w).
  destruct (event_handler_run (d_GVK d) (OnUpdate old new) w1 q qc Hq Hqc) as (Hc2 & _ & _ & _ & _ & Ha).
  split_and!.
  - eapply rtc_l; [apply (tick_change owner [] (d_GVK d) (OnUpdate old new) (u :: rest) (v :: rest) w []);
      [done|by exists u, v, rest|by intros d' ?%not_elem_of_nil]|].
    apply rtc_once, (tick_deliver owner _ (d_GVK d) (OnUpdate old new) _ [] []).
  - rewrite Hc2. unfold w1. simpl. by rewrite decide_True.
  - unfold members. rewrite !length_fmap, !filter_cons. unfold admitted_by in Hu, Hv.
    by rewrite decide_True, decide_False by (done || by rewrite Hv).
  - intros (more & Hmore & Hin). rewrite Ha in Hmore. apply app_inv_head in Hmore. subst more.
    change (notified (OnUpdate old new)) with new in Hin. rewrite Hnew in Hin.
    apply list_elem_of_omap in Hin as (o & Ho & Hreqo).
    apply Subscribers_spec in Ho as (sub & Hsub & Hm); [|apply Hi].
    change (op_subs w (d_GVK d) o = Some sub) in Hsub.
    assert (o = owner) as ->.
    { eapply owner_request_inj; [done|done| |done|done]. intros. by apply (Hsubsns (d_GVK d)). }
    rewrite Hsubs in Hsub by done. injection Hsub as <-. by rewrite subscriber_for_unconcerned in Hm.
Qed.
End updates.

