(* ===== verification/Interference.v ===== *)
(** * A published status, with the rest of the operator in between

    [Updates.v] says what goes on around one owner's reconcile, step by step. Here
    such steps come before and after every call the reconcile makes: to discovery,
    to the API server, to the registry and to the informers' caches, and go on when
    it is over. So a cache may change after it was listed, and its notification be
    delivered, while the status that says otherwise is still being computed. *)

From S2P Require Import Prelude GoStd ApiV1 K8s Fixtures Metrics Status Membership Discovery Normalize SubscriberIndex Registry StatusHelpers StatusPatch Reconciler ReconcilerSpec ReconcilerWrites Process Concurrent CRDWatcher Evaluate Informers Wiring Operator Updates.

(** ** The reconcile among the steps of the rest *)

Section live.
Context `{LabelsAPI} `{UnstructuredAPI} `{Formatting} `{ApiErrors} `{ConditionsLaws}
  `{FinalizerAPI} `{MetaJSON}.
Context {E : Type} `{!CRDClient E} `{!NamespaceClient E}.
Context `{!OwnerClient E (Milestone LabelSelector)} `{!OwnerClient E (ClusterMilestone LabelSelector)}.
Context (milestoneFluxNotifier : option (Milestone LabelSelector → M E unit)).
Context (clusterMilestoneFluxNotifier : option (ClusterMilestone LabelSelector → M E unit)).
Context (owner : OwnerKey).

Abbreviation running := (operator E * list (GroupVersionKind * notification))%type.

(** The n-th steps of the rest. *)
Context (env : nat → running → running).
Abbreviation live := (running * nat)%type.

Definition on_first {A} (m : M (operator E) A) : M running A := λ s,
  let '(a, w) := m s.1 in (a, (w, s.2)).
Definition call {A} (m : M (operator E) A) : M live A := around env (on_first m).

#[local] Instance running_registry : RegistryAPI running := {
  reg_Subscribe := λ gvk scope sub, on_first (reg_Subscribe gvk scope sub);
  reg_Unsubscribe := λ gvk o, on_first (reg_Unsubscribe gvk o);
  reg_UnsubscribeAll := λ o, on_first (reg_UnsubscribeAll o);
  reg_List := λ gvk, on_first (reg_List gvk);
  reg_GVKsByOwner := λ o, on_first (reg_GVKsByOwner o);
}.

#[local] Instance running_runtime : Runtime running := {
  wall_clock := on_first wall_clock;
  record := λ f, on_first (record f);
}.

#[local] Instance live_registry : RegistryAPI live := interfered_registry owner env.
#[local] Instance live_runtime : Runtime live := interfered_runtime.
#[local] Instance live_namespaces : NamespaceClient live := {
  client_ListNamespaces := λ sel, call (client_ListNamespaces sel);
}.

Definition live_resolver : Resolver live := {|
  Resolve := λ group kind version, call (Resolve (Resolver := shared_resolver) group kind version);
  Resolver_Invalidate := call (Resolver_Invalidate (Resolver := shared_resolver));
  Resolver_InvalidateGroupKind := λ group kind, call (Resolver_InvalidateGroupKind (Resolver := shared_resolver) group kind);
|}.

(** main.go's reconcilers, in this world. *)
Definition liveMilestoneReconciler : Reconciler (W := live) (Milestone LabelSelector) := {|
  rc_Resolver := Some live_resolver;
  rc_Adapter := MilestoneAdapter;
  rc_Controller := "Milestone";
  rc_FluxNotifier := (λ notify m, call (on_server (notify m))) <$> milestoneFluxNotifier;
  rc_Now := None;
  rc_ResourceCap := 0;
  rc_StalledErrorCap := 0;
|}.

Definition liveClusterMilestoneReconciler : Reconciler (W := live) (ClusterMilestone LabelSelector) := {|
  rc_Resolver := Some live_resolver;
  rc_Adapter := ClusterMilestoneAdapter;
  rc_Controller := "ClusterMilestone";
  rc_FluxNotifier := (λ notify m, call (on_server (notify m))) <$> clusterMilestoneFluxNotifier;
  rc_Now := None;
  rc_ResourceCap := 0;
  rc_StalledErrorCap := 0;
|}.

(** Lines 130 to 170 of the reconciler, computing a status among the steps. *)
Definition live_milestone_status : Milestone LabelSelector → M live (Milestone LabelSelector) :=
  compute_status liveMilestoneReconciler.
Definition live_cmilestone_status : ClusterMilestone LabelSelector → M live (ClusterMilestone LabelSelector) :=
  compute_status liveClusterMilestoneReconciler.

(** The names of a Milestone's dependencies survive normalisation. *)
Lemma NormalizeMilestone_names_ok {R} (res : Resolver R) m (x : R) :
  NoDup (dr_Name <$> m_DependsOn m) → "" ∉ dr_Name <$> m_DependsOn m →
  let '(deps, depErrs) := (NormalizeMilestone (Some res) m x).1 in names_ok deps depErrs.
Proof.
  intros Hnd Hne. unfold NormalizeMilestone. set (ns := om_Namespace (m_Meta m)).
  pose proof (normalize_refs_all res ns (λ _, True) (λ d o, outcome_name o = dr_Name d)
    (m_DependsOn m) ([], []) x) as Hall.
  destruct (normalize_refs _ _ _ _ x) as [acc x'].
  destruct Hall as (_ & os & Hos & ->); [|done|].
  { intros d v _. pose proof (normalize_ref_name res ns d v) as Hname.
    by destruct (normalize_ref _ _ _ v). }
  rewrite append_outcomes. simpl.
  assert ((d_Name <$> omap outcome_dep os) ++ (e_Name <$> omap outcome_err os) ≡ₚ dr_Name <$> m_DependsOn m) as Hp.
  { apply outcome_names, Forall2_fmap_l. eapply Forall2_impl; [exact Hos|]. done. }
  split; by rewrite Hp.
Qed.
(** ** What the owner may rely on *)

Section laws.
Context (q qc : workqueue) (deps : list Dependency).
Hypothesis env_ticks : ∀ n s, rtc (tick owner deps) s (env n s).

Abbreviation running_inv := (λ s : running, run_inv q qc s.1).
Abbreviation running_subs := (λ s : running, op_subs s.1).
Abbreviation live_inv := (inv_of running_inv).
Abbreviation live_subs := (subs_of running_subs owner).

Lemma on_first_fst {A} (m : M (operator E) A) s : (on_first m s).1 = (m s.1).1.
Proof. unfold on_first. by destruct (m _). Qed.
Lemma on_first_snd {A} (m : M (operator E) A) s : (on_first m s).2 = ((m s.1).2, s.2).
Proof. unfold on_first. by destruct (m _). Qed.

Lemma run_inv_process {A} (m : M (process unit) A) (w : operator E) :
  run_inv q qc w → process_inv (m (op_process w)).2 → run_inv q qc (on_process m w).2.
Proof. intros [_ Hs] Hi. unfold on_process, run_inv, op_pinv. destruct (m _) as [a p]. split; [exact Hi|exact Hs]. Qed.

#[local] Instance running_laws : RegistryLaws running running_inv running_subs.
Proof.
  pose proof (operator_registry_laws (E := E)) as Hlaws.
  split; intros; cbn [reg_Subscribe reg_Unsubscribe reg_UnsubscribeAll reg_List reg_GVKsByOwner running_registry] in *;
    rewrite ?on_first_snd, ?on_first_fst in *; cbn [fst snd] in *;
    match goal with Hi : run_inv _ _ _ |- _ => pose proof (proj1 Hi) as Hp end.
  - apply run_inv_process; [done|]. by apply (subscribe_inv (subs := process_subs)).
  - by apply (subscribe_ok (inv := op_pinv)).
  - by apply (subscribe_err (inv := op_pinv) _ _ _ _ err).
  - apply run_inv_process; [done|]. by apply (unsubscribe_inv (subs := process_subs)).
  - by apply (unsubscribe_subs (inv := op_pinv)).
  - apply run_inv_process; [done|]. by apply (unsubscribe_all_inv (subs := process_subs)).
  - by apply (unsubscribe_all_subs (inv := op_pinv)).
  - by apply (gvks_by_owner (inv := op_pinv) (subs := op_subs)).
  - rewrite (gvks_state (inv := op_pinv) (subs := op_subs)) by done. by destruct w.
  - apply run_inv_process; [done|]. by apply (list_inv (subs := process_subs)).
  - by apply (list_subs (inv := op_pinv)).
Qed.

#[local] Instance running_runtime_laws : RuntimeLaws running running_inv running_subs.
Proof.
  pose proof (operator_runtime_laws (E := E)) as Hlaws.
  split; intros; cbn [record wall_clock running_runtime] in *; rewrite ?on_first_snd; cbn [fst snd] in *.
  - apply run_inv_process; [done|]. apply (record_inv (subs := process_subs)), H7.
  - by rewrite (record_subs (inv := op_pinv)).
  - apply run_inv_process; [done|]. apply (clock_inv (subs := process_subs)), H7.
  - by rewrite (clock_subs (inv := op_pinv)).
Qed.

Lemma env_rely n s : rely running_inv running_subs owner s (env n s).
Proof. intros Hs. by destruct (ticks_passes q qc owner deps _ _ (env_ticks n s) Hs) as (? & _ & ?). Qed.

#[local] Instance live_laws : RegistryLaws live live_inv live_subs :=
  interfered_laws running_inv running_subs owner env env_rely.
#[local] Instance live_runtime_laws : RuntimeLaws live live_inv live_subs :=
  interfered_runtime_laws running_inv running_subs owner.

(** Steps of the rest, as the reconcile sees them. *)
Definition elapsed : relation live := λ x x', rtc (tick owner deps) x.1 x'.1.
(** Its own calls among them. *)
Definition goes_on : relation live := λ x x', live_inv x → live_inv x' ∧ op_adds x.1.1 `prefix_of` op_adds x'.1.1.

#[local] Instance elapsed_order : PreOrder elapsed.
Proof. unfold elapsed. split; [by intros x|]. intros x1 x2 x3 H12 H23. by etrans. Qed.
#[local] Instance goes_on_order : PreOrder goes_on.
Proof.
  split; [by intros x|]. intros x1 x2 x3 H12 H23 Hx. destruct (H12 Hx) as [H2' P2]. destruct (H23 H2') as [H3' P3].
  split; [done|by etrans].
Qed.

Lemma elapsed_goes_on x x' : elapsed x x' → goes_on x x' ∧ still live_inv live_subs x x'.
Proof.
  intros He. pose proof (ticks_passes q qc owner deps _ _ He) as Hp.
  split; intros Hx; destruct (Hp Hx) as (Hx' & Ha & Hs); (split; [done|]); [done|].
  intros g o. unfold subs_of. case_decide as Ho; [by rewrite Ho|done].
Qed.

Lemma elapsed_call {A} (m : M (operator E) A) x : (∀ w, ticks_to owner deps w (m w).2) → elapsed x (call m x).2.
Proof.
  intros Hm. destruct x as [s n]. unfold elapsed, call, around, meanwhile. simpl.
  pose proof (on_first_snd m (env n s)) as Hs. destruct (on_first m (env n s)) as [a s']. simpl in *. subst s'.
  etrans; [apply (env_ticks n)|]. etrans; [|apply env_ticks]. destruct (env n s) as [w p]. apply (Hm w p).
Qed.

Lemma goes_on_around {A} (m : M (process unit) A) x :
  (∀ p, process_inv p → process_inv (m p).2) → goes_on x (call (on_process m) x).2.
Proof.
  intros Hm Hx. destruct x as [s n]. unfold call, around, meanwhile. simpl.
  destruct (ticks_passes q qc owner deps _ _ (env_ticks n s) Hx) as (H1' & P1 & _).
  pose proof (on_first_snd (on_process m) (env n s)) as Hs.
  destruct (on_first _ (env n s)) as [a s']. simpl in *. subst s'.
  assert (run_inv q qc (on_process m (env n s).1).2) as H2' by (apply run_inv_process; [done|apply Hm, H1']).
  assert (op_adds (on_process m (env n s).1).2 = op_adds (env n s).1) as E2 by (unfold on_process; by destruct (m _)).
  destruct (ticks_passes q qc owner deps _ _ (env_ticks (S n) ((on_process m (env n s).1).2, (env n s).2)) H2') as (H3' & P3 & _).
  split; [done|]. simpl in *. rewrite E2 in P3. by etrans.
Qed.

#[local] Instance elapsed_quiet : QuietLaws live elapsed.
Proof.
  split; [apply _| | |].
  - intros f [[w p] n]. pose proof (quiet_record (R := ticks_to owner deps) f w p) as Hq. unfold elapsed.
    cbn [record live_runtime interfered_runtime running_runtime fst snd]. unfold on_first. cbn [fst snd].
    by destruct (record f w).
  - intros [[w p] n]. pose proof (quiet_clock (R := ticks_to owner deps) w p) as Hq. unfold elapsed.
    cbn [wall_clock live_runtime interfered_runtime running_runtime fst snd]. unfold on_first. cbn [fst snd].
    by destruct (wall_clock w).
  - intros gvk x. apply elapsed_call. apply (quiet_list (R := ticks_to owner deps) gvk).
Qed.

#[local] Instance goes_on_time : TimeLaws live goes_on.
Proof.
  assert (∀ x x', elapsed x x' → goes_on x x') as Hq by (intros; by apply elapsed_goes_on).
  split; [apply _|..]; cbn [reg_Subscribe reg_Unsubscribe reg_UnsubscribeAll
    reg_GVKsByOwner live_registry interfered_registry]; intros; try case_decide; try reflexivity.
  - apply Hq, (quiet_record (R := elapsed)).
  - apply Hq, (quiet_clock (R := elapsed)).
  - apply (goes_on_around (reg_Subscribe gvk scope sub)). intros p Hp. by apply (subscribe_inv (subs := process_subs)).
  - apply (goes_on_around (reg_Unsubscribe gvk owner0)). intros p Hp. by apply (unsubscribe_inv (subs := process_subs)).
  - apply (goes_on_around (reg_UnsubscribeAll owner0)). intros p Hp. by apply (unsubscribe_all_inv (subs := process_subs)).
  - apply Hq, (quiet_list (R := elapsed)).
Qed.

(** A listing, among the steps: at some moment the cache was what it says. *)
Lemma listed_then x x' gvk objs :
  happened elapsed x x' (reg_List gvk) (Ok objs) →
  ∃ s, rtc (tick owner deps) x.1 s ∧ p_cache (op_process s.1) gvk = Ok objs ∧ rtc (tick owner deps) s x'.1.
Proof.
  intros (xi & He & He' & Ha). destruct xi as [s n]. exists (env n s).
  split; [etrans; [exact He|apply env_ticks]|].
  cbn [reg_List live_registry interfered_registry running_registry] in *. unfold around, meanwhile in *.
  destruct (env n s) as [w p] eqn:En. unfold on_first in *. cbn [fst snd reg_List op_registry] in *.
  unfold on_process in *. cbn [reg_List process_registry] in *. unfold List_gvk in *. cbn in *. split.
  - by destruct (informers _ !! gvk).
  - etrans; [|exact He']. etrans; [|apply (env_ticks (S n))]. by destruct w.
Qed.

(** *** What the reconcile publishes *)

Section published.
Context {T : Type} (r : Reconciler (W := live) T) (obj : T) (req : workqueue * Request).
Hypothesis owner_key : oa_OwnerKey _ (rc_Adapter _ r) obj = owner.
Hypothesis owner_req : owner_request q qc owner = Some req.
Hypothesis status_lens : ∀ sb obj, oa_Status _ (rc_Adapter _ r) (oa_set_Status _ (rc_Adapter _ r) sb obj) = sb.
Hypothesis normalize_elapsed : ∀ obj x, elapsed x (oa_Dependencies _ (rc_Adapter _ r) obj (rc_Resolver _ r) x).2.

(** An evaluation without errors listed every dependency's cache. *)
Lemma all_listed (fails : gmap GroupVersionKind error) depErrs obs x x' :
  names_ok deps depErrs →
  Forall2 (seen elapsed (failedDependencyReasons (watch_errors fails deps)) x x') deps obs →
  (∀ o, o ∈ obs → observation_failed o = false) →
  Forall2 (λ d o, fails !! d_GVK d = None ∧ ∃ objs, o = Listed (Ok objs) ∧
    happened elapsed x x' (reg_List (d_GVK d)) (Ok objs)) deps obs.
Proof.
  intros Hnames Hobs Hok. apply Forall2_same_length_lookup in Hobs as [Hlen Hobs].
  apply Forall2_same_length_lookup. split; [done|]. intros i d o Hi Ho. specialize (Hobs i d o Hi Ho).
  pose proof (Hok o (list_elem_of_lookup_2 _ _ _ Ho)) as Hf. destruct o as [|[objs|err]]; [done| |done].
  destruct Hobs as [Hno Hl]. rewrite (skipped_names fails deps depErrs d) in Hno by (done || by eapply list_elem_of_lookup_2).
  split; [by destruct (fails !! d_GVK d)|by exists objs].
Qed.

(** Every dependency is tracked, from the moment its cache was listed on. *)
Lemma observed_tracked (fails : gmap GroupVersionKind error) depErrs obs base x x' :
  names_ok deps depErrs →
  Forall2 (seen elapsed (failedDependencyReasons (watch_errors fails deps)) x x') deps obs →
  (∀ o, o ∈ obs → observation_failed o = false) →
  live_inv x → base `prefix_of` op_adds x.1.1 →
  (∀ d, d ∈ deps → fails !! d_GVK d = None →
     op_subs x.1.1 (d_GVK d) owner = Some (subscriber_for owner deps (d_GVK d))) →
  Forall2 (λ d o, tracked q qc owner deps req base d (rollup_of d o) x'.1) deps obs.
Proof.
  intros Hnames Hobs Hok Hinv Hbase Hsubs. pose proof (all_listed fails depErrs obs x x' Hnames Hobs Hok) as Hall.
  assert (asked owner deps x.1.1) as Hasked.
  { intros d Hd. apply Hsubs; [done|]. apply list_elem_of_lookup in Hd as [i Hi].
    by destruct (Forall2_lookup_l _ _ _ _ _ Hall Hi) as (o & _ & Hno & _). }
  apply Forall2_same_length_lookup in Hall as [Hlen Hall]. apply Forall2_same_length_lookup. split; [done|].
  intros i d o Hi Ho. destruct (Hall i d o Hi Ho) as (_ & objs & -> & Hl). apply list_elem_of_lookup_2 in Hi.
  destruct (listed_then _ _ _ _ Hl) as ([w p] & Hbefore & Hcache & Hafter).
  eapply tracked_ticks; [exact owner_req|exact Hi|exact Hafter|].
  destruct (ticks_passes q qc owner deps _ _ Hbefore Hinv) as (Hw & Ha & Hs). cbn [fst] in *.
  split_and!; [apply Hw..| |by etrans|right; right; unfold current_rollup; by rewrite Hcache].
  intros d' Hd'. rewrite Hs. by apply Hasked.
Qed.

Lemma published_tracked x depErrs :
  (oa_Dependencies _ (rc_Adapter _ r) obj (rc_Resolver _ r) x).1 = (deps, depErrs) → names_ok deps depErrs →
  live_inv x →
  let '(obj', x') := compute_status r obj x in
  let sb := oa_Status _ (rc_Adapter _ r) obj' in
  IsStatusConditionTrue (Conditions sb) ConditionStalled = true ∨
  ∃ published : list DependencyStatus,
    Forall2 (λ d st, tracked q qc owner deps req (op_adds x.1.1) d st x'.1) deps published ∧
    (∀ st, st ∈ elems (DependsOn sb) ↔ st ∈ published) ∧
    (readyConditionStatus sb = ConditionTrue ↔
       elems (DependsOn sb) ≠ [] ∧ ∀ st, st ∈ elems (DependsOn sb) → ds_Ready st = ConditionTrue).
Proof.
  intros Hdeps Hnames Hx.
  pose proof (compute_status_phases goes_on r (λ obj x, proj1 (elapsed_goes_on _ _ (normalize_elapsed obj x)))
    live_inv live_subs elapsed elapsed_goes_on obj x deps depErrs Hdeps Hnames
    (proj2 (elapsed_goes_on _ _ (normalize_elapsed obj x)))) as Hrun.
  destruct (compute_status r obj x) as [obj' x'].
  destruct Hrun as (_ & at_asked & obs & fails & now1 & now2 & _ & Hr & _ & Hobs & _ & Hfails & _ & Hsubs & ->).
  cbv zeta. rewrite status_lens. destruct (IsStatusConditionTrue _ _) eqn:Hst; [by left|right].
  pose proof (proj2 (not_true_iff_false _) Hst) as Hnot. rewrite apply_status_stalled, errors_nil in Hnot by done.
  assert (depErrs = []) as -> by (destruct depErrs; [done|]; exfalso; apply Hnot; by left).
  assert (∀ o, o ∈ obs → observation_failed o = false) as Hok.
  { intros o Ho. apply not_true_iff_false. intros Hf. apply Hnot. right. eauto. }
  destruct (Hr Hx) as [Hasked Hbase], (Hsubs Hx) as [_ Hre].
  exists (zip_with rollup_of deps obs). split_and!; [|intros st|apply apply_status_ready_entries].
  - pose proof (observed_tracked fails [] obs (op_adds x.1.1) at_asked x' Hnames Hobs Hok Hasked Hbase) as Ht.
    apply Forall2_same_length_lookup. rewrite length_zip_with, (Forall2_length _ _ _ Hobs). split; [lia|].
    intros i d st Hi (d' & o & -> & Hi' & Ho)%lookup_zip_with_Some. simplify_eq.
    refine (Forall2_lookup_lr _ _ _ _ _ _ (Ht _) Hi Ho). intros d' Hd' Hf.
    specialize (Hre (d_GVK d') owner). unfold subs_of in Hre. rewrite owner_key, !(decide_True (P := owner = owner)) in Hre by done.
    rewrite Hre, decide_False, Hf; [done|]. intros Hnil%deps_of_nil. eauto.
  - pose proof (apply_status_eq (rc_ResourceCap _ r) (rc_StalledErrorCap _ r) now1 now2
      (oa_Status _ (rc_Adapter _ r) obj) (om_Generation (oa_Meta _ (rc_Adapter _ r) obj)) (rollups_of ∅ (zip deps obs))
      (zip deps obs ≫= λ p, not_ready_of p.1 p.2)
      ([] ++ watch_errors fails deps ++ (zip deps obs ≫= λ p, list_errors_of p.1 p.2))) as Eq.
    cbv zeta in Eq. destruct (capResources _ _). rewrite Eq. cbn [DependsOn].
    rewrite final_statuses, (zip_with_zip rollup_of), list_elem_of_fmap by (done || by eapply Forall2_length). unfold is_rollup.
    split; [|by intros ([d ob] & -> & Hin); left; exists d, ob].
    intros [(d & ob & Hin & ->)|(e & He & _)]; [by exists (d, ob)|by apply not_elem_of_nil in He].
Qed.

(** Until the owner is woken or about to be, what it published is what it would
    publish. *)
Lemma published_stays x depErrs :
  (oa_Dependencies _ (rc_Adapter _ r) obj (rc_Resolver _ r) x).1 = (deps, depErrs) → names_ok deps depErrs →
  live_inv x →
  let '(obj', x') := compute_status r obj x in
  let sb := oa_Status _ (rc_Adapter _ r) obj' in
  ∀ w2 pending2, rtc (tick owner deps) x'.1 (w2, pending2) →
    IsStatusConditionTrue (Conditions sb) ConditionStalled = true ∨
    woken req (op_adds x.1.1) w2 ∨ on_its_way deps pending2 ∨
    (∀ st, st ∈ elems (DependsOn sb) ↔ ∃ d, d ∈ deps ∧ st = current_rollup w2 d) ∧
    (readyConditionStatus sb = ConditionTrue ↔
       deps ≠ [] ∧ ∀ d, d ∈ deps → ds_Ready (current_rollup w2 d) = ConditionTrue).
Proof.
  intros Hdeps Hnames Hx. pose proof (published_tracked x depErrs Hdeps Hnames Hx) as Hrun.
  destruct (compute_status r obj x) as [obj' x']. intros sb w2 pending2 Hticks.
  destruct Hrun as [Hst|(published & Htr & Hall & Hready)]; [by left|right]. fold sb in Hall, Hready.
  assert (∀ d st, d ∈ deps → tracked q qc owner deps req (op_adds x.1.1) d st x'.1 →
    (woken req (op_adds x.1.1) w2 ∨ on_its_way deps pending2) ∨ current_rollup w2 d = st) as Hcase.
  { intros d st Hd Ht. destruct (tracked_ticks q qc owner deps req owner_req _ d st _ _ Hd Hticks Ht) as (_ & _ & _ & Hc).
    tauto. }
  assert ((woken req (op_adds x.1.1) w2 ∨ on_its_way deps pending2) ∨
    ∀ p, p ∈ zip deps published → current_rollup w2 p.1 = p.2) as [[?|?]|Hsame]; [|by left|by right; left|right; right].
  { apply all_or_some. intros [d st] Hin. apply Hcase; [by eapply elem_of_zip_l|].
    apply list_elem_of_lookup in Hin as [i (d' & st' & [= <- <-] & Hi & Hp)%lookup_zip_with_Some].
    by apply (Forall2_lookup_lr _ _ _ _ _ _ Htr Hi Hp). }
  assert (published = current_rollup w2 <$> deps) as ->.
  { pose proof (Forall2_length _ _ _ Htr) as Hlen. clear -Hsame Hlen. revert published Hlen Hsame.
    induction deps as [|d ds IH]; intros [|st sts] Hlen Hsame; [done..|]. simpl. f_equal.
    - symmetry. by apply (Hsame (d, st)); left.
    - apply IH; [by injection Hlen|]. intros p Hp. apply Hsame. by right. }
  assert (∀ st, st ∈ elems (DependsOn sb) ↔ ∃ d, d ∈ deps ∧ st = current_rollup w2 d) as Hnow
    by (intros st; rewrite Hall, list_elem_of_fmap; naive_solver).
  split; [exact Hnow|]. rewrite Hready. setoid_rewrite Hnow. split; intros [Hne Hr].
  - split; [|intros d Hd; apply Hr; eauto]. intros Hnil. apply Hne.
    destruct (elems _) as [|st l]; [done|]. destruct (proj1 (Hnow st)) as (d & Hd & _); [by left|].
    rewrite Hnil in Hd. by apply not_elem_of_nil in Hd.
  - split; [|intros st (d & Hd & ->); auto]. intros Hnil. apply Hne.
    destruct deps as [|d deps'] eqn:Ed; [done|]. exfalso. apply (not_elem_of_nil (current_rollup w2 d)).
    rewrite <- Hnil. apply Hnow. exists d. split; [by left|done].
Qed.
End published.

Lemma live_resolve_elapsed group kind version x : elapsed x (Resolve (Resolver := live_resolver) group kind version x).2.
Proof. apply elapsed_call. intros w. apply ticks_resolver. Qed.

Lemma live_milestone_normalize m x :
  elapsed x (oa_Dependencies _ (rc_Adapter _ liveMilestoneReconciler) m (rc_Resolver _ liveMilestoneReconciler) x).2.
Proof. apply (NormalizeMilestone_frame elapsed live_resolver), live_resolve_elapsed. Qed.

Lemma live_cmilestone_normalize cm x :
  elapsed x (oa_Dependencies _ (rc_Adapter _ liveClusterMilestoneReconciler) cm
    (rc_Resolver _ liveClusterMilestoneReconciler) x).2.
Proof.
  apply (NormalizeClusterMilestone_frame elapsed live_resolver); [apply live_resolve_elapsed|].
  intros sel v. apply elapsed_call. intros w. apply ticks_server.
Qed.

(** C3: a published status does not go stale unnoticed. Before and after every
    call a Milestone's reconcile makes, to discovery, the registry and the
    caches, and for as long as one likes once it is over, let informers' caches
    change, their notifications be delivered late and in any order, other owners'
    reconciles make their calls, the CRD watcher invalidate kinds the Milestone
    is not subscribed to, and the API server, the clock and the factory do as
    they please. Unless the status says Stalled (such an owner is requeued in
    any case), one of these holds at any later time: the Milestone's request was
    put on its queue since the reconcile began; a notification that will put it
    there is still undelivered; or status.dependsOn is exactly what a reconcile
    would compute from the caches now, and Ready is True exactly if every
    dependency is ready now. The one change of a cache excluded is an update that
    takes an object out of a dependency's set ([relabelled_object_missed]). *)
Theorem published_status_stays_current m w pending n depErrs m' w1 pending1 n1 :
  owner = oa_OwnerKey _ (MilestoneAdapter (W := live)) m → run_inv q qc w →
  NoDup (dr_Name <$> m_DependsOn m) → "" ∉ dr_Name <$> m_DependsOn m →
  (NormalizeMilestone (Some live_resolver) m ((w, pending), n)).1 = (deps, depErrs) →
  live_milestone_status m ((w, pending), n) = (m', ((w1, pending1), n1)) →
  ∀ w2 pending2, rtc (tick owner deps) (w1, pending1) (w2, pending2) →
    IsStatusConditionTrue (Conditions (m_Status m')) ConditionStalled = true ∨
    woken (q, milestone_key m) (op_adds w) w2 ∨ on_its_way deps pending2 ∨
    (∀ st, st ∈ elems (DependsOn (m_Status m')) ↔ ∃ d, d ∈ deps ∧ st = current_rollup w2 d) ∧
    (readyConditionStatus (m_Status m') = ConditionTrue ↔
       deps ≠ [] ∧ ∀ d, d ∈ deps → ds_Ready (current_rollup w2 d) = ConditionTrue).
Proof.
  intros Ho Hw Hnd Hne Hdeps Hrun.
  assert (owner_request q qc owner = Some (q, milestone_key m)) as Hreq by by rewrite Ho.
  pose proof (NormalizeMilestone_names_ok live_resolver m ((w, pending), n) Hnd Hne) as Hnames.
  rewrite Hdeps in Hnames.
  pose proof (published_stays liveMilestoneReconciler m (q, milestone_key m) (eq_sym Ho) Hreq (λ _ _, eq_refl)
    live_milestone_normalize ((w, pending), n) depErrs Hdeps Hnames Hw) as Hst.
  unfold live_milestone_status in Hrun. rewrite Hrun in Hst. exact Hst.
Qed.

(** The same of a ClusterMilestone; Namespace events are [Wiring.v]'s. *)
Lemma cluster_published_status_stays_current cm w pending n depErrs cm' w1 pending1 n1 :
  owner = oa_OwnerKey _ (ClusterMilestoneAdapter (W := live)) cm → run_inv q qc w →
  (NormalizeClusterMilestone (Some live_resolver) (Some client_ListNamespaces) cm ((w, pending), n)).1 = (deps, depErrs) →
  names_ok deps depErrs →
  live_cmilestone_status cm ((w, pending), n) = (cm', ((w1, pending1), n1)) →
  ∀ w2 pending2, rtc (tick owner deps) (w1, pending1) (w2, pending2) →
    IsStatusConditionTrue (Conditions (cm_Status cm')) ConditionStalled = true ∨
    woken (qc, ("", om_Name (cm_Meta cm))) (op_adds w) w2 ∨ on_its_way deps pending2 ∨
    (∀ st, st ∈ elems (DependsOn (cm_Status cm')) ↔ ∃ d, d ∈ deps ∧ st = current_rollup w2 d) ∧
    (readyConditionStatus (cm_Status cm') = ConditionTrue ↔
       deps ≠ [] ∧ ∀ d, d ∈ deps → ds_Ready (current_rollup w2 d) = ConditionTrue).
Proof.
  intros Ho Hw Hdeps Hnames Hrun.
  assert (owner_request q qc owner = Some (qc, ("", om_Name (cm_Meta cm)))) as Hreq by by rewrite Ho.
  pose proof (published_stays liveClusterMilestoneReconciler cm (qc, ("", om_Name (cm_Meta cm))) (eq_sym Ho) Hreq
    (λ _ _, eq_refl) live_cmilestone_normalize ((w, pending), n) depErrs Hdeps Hnames Hw) as Hst.
  unfold live_cmilestone_status in Hrun. rewrite Hrun in Hst. exact Hst.
Qed.
End laws.
End live.

(** ** A Widget that becomes ready, and one that is relabelled *)
Module InterferenceFix.
Import OperatorFix.
#[local] Existing Instance Fix.labels.
#[local] Existing Instance Fix.unstructured.
#[local] Existing Instance Fix.formatting.
#[local] Existing Instance Fix.api_errors.
#[local] Existing Instance Fix.conditions.
#[local] Existing Instance Fix.conditions_laws.
#[local] Existing Instance Fix.finalizers.
#[local] Existing Instance PatchFix.meta_json.
#[local] Existing Instance server_crds.
#[local] Existing Instance server_namespaces.
#[local] Existing Instance server_milestones.
#[local] Existing Instance server_cmilestones.

Definition owner : OwnerKey := Build_OwnerKey "Milestone" "ns" "m".
Definition web_widgets : Milestone LabelSelector :=
  Build_Milestone _ (Build_ObjectMeta "m" "ns" 1 ∅ [Finalizer] None 0)
    [Build_DependencyRef _ "widgets" EmptySetUnknown SuspendIgnore
       (Build_TargetSpec _ "x.io" "" "Widget" (Some [("app", "web")]))]
    Demo.status0.

Definition widget (app status : string) : Unstructured :=
  Fix.Build_object widgets_v1 "ns" "a" {["app" := app]} false status "".

Definition before : operator server := {|
  op_resolver := NewResolver discoverer 60 (λ _, 0%Z);
  op_process := Build_process (NewRegistry 0 0) 0 (λ _, Ok tt) (λ _, Ok [widget "web" "InProgress"]) ∅ [];
  op_milestoneSource := Some 0;
  op_cmilestoneSource := Some 1;
  op_adds := [];
  op_lastObserved := ∅;
  op_server := Build_server ∅ [web_widgets];
|}.

Abbreviation running := (operator server * list (GroupVersionKind * notification))%type.
Definition quiet (n : nat) (s : running) : running := s.
Definition run (env : nat → running → running) : Milestone LabelSelector * (running * nat) :=
  live_milestone_status None owner env web_widgets ((before, []), 0).

Definition deps : list Dependency :=
  (NormalizeMilestone (Some (live_resolver quiet)) web_widgets ((before, []), 0)).1.1.

(** The Widget turns Current right after it was listed, and its notification is
    delivered at once: the owner is queued before its status is written. *)
Definition becomes_ready (u : Unstructured) : notification :=
  OnUpdate (AnUnstructured u) (AnUnstructured (widget "web" "Current")).
Definition turns_ready (n : nat) (s : running) : running :=
  match n, p_cache (op_process s.1) widgets_v1 with
  | 5, Ok [u] =>
      ((event_handler widgets_v1 (becomes_ready u) (set_cached widgets_v1 [widget "web" "Current"] s.1)).2, s.2)
  | _, _ => s
  end.

Definition ready : operator server := (run turns_ready).2.1.1.

Example web_widgets_published :
  ds_Ready <$> elems (DependsOn (m_Status (run turns_ready).1)) = [ConditionUnknown] ∧
  ds_Ready ∘ current_rollup ready <$> deps = [ConditionTrue] ∧ op_adds ready = [(0, ("ns", "m"))] ∧
  (run turns_ready).2.1.2 = [] ∧ (run turns_ready).2.2 = 6.
Proof. vm_compute. done. Qed.

Lemma before_inv : op_inv before.
Proof. apply started_inv. split; [by exists 0%Z, 0%Z|by eexists _, _, _]. Qed.
Lemma before_run_inv : run_inv 0 1 before.
Proof. split; [apply before_inv|done]. Qed.

Lemma deps_admit : Forall (λ d, d_GVK d = widgets_v1 ∧ admitted_by d (widget "web" "Current") = true) deps.
Proof. apply (bool_decide_unpack _). vm_compute. exact I. Qed.

Lemma turns_ready_ticks n s : rtc (tick owner deps) s (turns_ready n s).
Proof.
  destruct s as [w p]. do 5 (destruct n as [|n]; [apply rtc_refl|]). destruct n as [|n]; [|apply rtc_refl].
  unfold turns_ready. cbn [fst snd]. destruct (p_cache (op_process w) widgets_v1) as [[|u [|u' us]]|err] eqn:Hc;
    [apply rtc_refl| |apply rtc_refl..].
  eapply rtc_l; [apply (tick_change owner deps widgets_v1 (becomes_ready u) [u] [widget "web" "Current"] w p Hc)|].
  - by exists u, (widget "web" "Current"), [].
  - intros d Hd _ (u1 & u2 & _ & [= <-] & _ & Hno). pose proof deps_admit as Hadmit. rewrite Forall_forall in Hadmit.
    destruct (Hadmit d Hd) as [_ Hyes]. congruence.
  - pose proof (tick_deliver owner deps widgets_v1 (becomes_ready u) (set_cached widgets_v1 [widget "web" "Current"] w) p []) as Hd.
    rewrite app_nil_r in Hd. by apply rtc_once.
Qed.

Lemma published_status_stays_current_witness : woken (0, ("ns", "m")) [] ready.
Proof.
  assert (NoDup (dr_Name <$> m_DependsOn web_widgets)) as Hnd by (apply (bool_decide_unpack _); vm_compute; exact I).
  assert ("" ∉ dr_Name <$> m_DependsOn web_widgets) as Hne by (apply (bool_decide_unpack _); vm_compute; exact I).
  assert (live_milestone_status None owner turns_ready web_widgets ((before, []), 0) =
    ((run turns_ready).1, ((ready, []), 6))) as Hrun.
  { destruct web_widgets_published as (_ & _ & _ & Hp & Hn). unfold ready. change (live_milestone_status _ _ _ _ _) with (run turns_ready).
    destruct (run turns_ready) as [m' [[w1 p1] n1]]. cbn [fst snd] in Hp, Hn |- *. by rewrite Hp, Hn. }
  destruct (published_status_stays_current None owner turns_ready 0 1 deps turns_ready_ticks web_widgets before [] 0 []
    (run turns_ready).1 ready [] 6 eq_refl before_run_inv Hnd Hne ltac:(vm_compute; reflexivity) Hrun ready [] (rtc_refl _ _))
    as [Hst|[Hw|[(n & d & Hin & _)|[_ Hready]]]].
  - vm_compute in Hst. discriminate Hst.
  - exact Hw.
  - destruct (not_elem_of_nil _ Hin).
  - exfalso. assert (readyConditionStatus (m_Status (run turns_ready).1) = ConditionTrue) as Ht.
    { apply Hready. split; [intros Hnil%(f_equal length); vm_compute in Hnil; discriminate Hnil|].
      apply Forall_forall. apply (bool_decide_unpack _). vm_compute. exact I. }
    vm_compute in Ht. discriminate Ht.
Defined.

(** *** Relabelled *)

Definition after : operator server := (run quiet).2.1.1.

Lemma quiet_ticks n s : rtc (tick owner deps) s (quiet n s).
Proof. apply rtc_refl. Qed.

Lemma after_asked : run_inv 0 1 after ∧ asked owner deps after.
Proof.
  pose proof (NormalizeMilestone_names_ok (live_resolver quiet) web_widgets ((before, []), 0)) as Hnames.
  destruct (NormalizeMilestone (Some (live_resolver quiet)) web_widgets ((before, []), 0)).1 as [deps' depErrs] eqn:Hdeps.
  assert (deps' = deps) as -> by (unfold deps; by rewrite Hdeps).
  pose proof (published_tracked owner quiet 0 1 deps quiet_ticks (liveMilestoneReconciler None quiet) web_widgets
    (0, ("ns", "m")) eq_refl eq_refl (λ _ _, eq_refl) (live_milestone_normalize None owner quiet deps quiet_ticks)
    ((before, []), 0) depErrs Hdeps) as Hc.
  change (compute_status _ _ _) with (run quiet) in Hc. unfold after.
  destruct (run quiet) as [m' [[w1 p1] n1]] eqn:Hrun. destruct Hc as [Hst|(published & Htr & _)].
  - apply Hnames; apply (bool_decide_unpack _); vm_compute; exact I.
  - exact before_run_inv.
  - pose proof (f_equal fst Hrun) as Hm. cbn [fst] in Hm. rewrite <- Hm in Hst. vm_compute in Hst. discriminate Hst.
  - destruct (Forall2_lookup_l _ _ _ 0 _ Htr eq_refl) as (st & _ & Ht). 
    destruct Ht as (Hw & Hasked & _). exact (conj Hw Hasked).
Qed.

(** Every subscription of an index, checked one by one. *)
Lemma subscriptions_forall (idx : SubscriberIndex) (P : OwnerKey → Prop) :
  Forall (λ gs, Forall (λ os, P os.1) (map_to_list gs.2)) (map_to_list (byGVK idx)) →
  ∀ g o, is_Some (subscription idx g o) → P o.
Proof.
  rewrite Forall_forall. intros Hall g o [sub Hs]. unfold subscription in Hs.
  apply bind_Some in Hs as (subs & Hg%elem_of_map_to_list & Ho%elem_of_map_to_list).
  specialize (Hall _ Hg). rewrite Forall_forall in Hall. by apply (Hall (o, sub)).
Qed.

(** The Widget loses its label. *)
Definition relabelled : notification :=
  OnUpdate (AnUnstructured (widget "web" "InProgress")) (AnUnstructured (widget "db" "InProgress")).
Definition missed : operator server :=
  (event_handler widgets_v1 relabelled (set_cached widgets_v1 [widget "db" "InProgress"] after)).2.

Lemma relabelled_object_missed_witness :
  (ds_Reason <$> elems (DependsOn (m_Status (run quiet).1)) = [ReasonResourcesInProgress] ∧
   ds_Reason ∘ current_rollup missed <$> deps = [ReasonEmptySet]) ∧
  rtc (tick owner []) (after, []) (missed, []) ∧ ¬ woken (0, ("ns", "m")) [] missed.
Proof.
  split; [split; vm_compute; reflexivity|].
  assert (d_GVK <$> deps = [widgets_v1]) as Hgs by (vm_compute; reflexivity).
  assert ((λ d, (admitted_by d (widget "web" "InProgress"), admitted_by d (widget "db" "InProgress"))) <$> deps =
    [(true, false)]) as Hadm by (vm_compute; reflexivity).
  destruct after_asked as [Hrun Hasked].
  destruct deps as [|d [|d' ds]] eqn:Hdeps; [discriminate Hgs| |discriminate Hgs].
  injection Hgs as Hg. injection Hadm as Hweb Hdb.
  assert (∀ g o, is_Some (op_subs after g o) → ok_Kind o = "ClusterMilestone" → ok_Namespace o = "") as Hns.
  { apply (subscriptions_forall _ (λ o, ok_Kind o = "ClusterMilestone" → ok_Namespace o = "")).
    apply (bool_decide_unpack _). vm_compute. exact I. }
  assert (p_cache (op_process after) widgets_v1 = Ok [widget "web" "InProgress"]) as Hcached by (vm_compute; reflexivity).
  assert (op_adds after = []) as Hnone by (vm_compute; reflexivity). rewrite <- Hg in Hcached.
  destruct (relabelled_object_missed owner [d] d (AnUnstructured (widget "web" "InProgress"))
    (AnUnstructured (widget "db" "InProgress")) (widget "web" "InProgress") (widget "db" "InProgress") [] after 0 1
    (0, ("ns", "m")) ltac:(discriminate) Hrun eq_refl ltac:(discriminate) Hns Hasked ltac:(by left) Hcached
    eq_refl eq_refl Hweb) as (Hturns & _ & _ & Hnot).
  - by intros d' ->%list_elem_of_singleton _.
  - rewrite Hg, ?Hnone in Hturns, Hnot. split; [exact Hturns|exact Hnot].
Defined.
End InterferenceFix.
