(* ===== verification/Steady.v ===== *)
(** * A steady owner is left alone

    The controllers watch the objects whose status they write, so a reconcile that
    patches is followed by another one. It has to find nothing to write, or the
    controller would spin. Here the whole way back is one statement: the second
    reconcile normalises, subscribes, lists and applies again, over caches that
    list the same objects in whatever order, and does not write. *)

From S2P Require Import Prelude GoStd ApiV1 K8s Fixtures Metrics Status Membership Discovery Normalize SubscriberIndex Registry StatusHelpers StatusPatch Reconciler ReconcilerSpec ReconcilerWrites Process Concurrent CRDWatcher Evaluate Informers Wiring Operator Updates Interference.

Section steady.
Context `{LabelsAPI} `{UnstructuredAPI} `{Formatting} `{ApiErrors} `{ConditionsLaws}
  `{FinalizerAPI} `{MetaJSON}.
Context {E : Type} `{!CRDClient E} `{!NamespaceClient E}.
Context `{!OwnerClient E (Milestone LabelSelector)} `{!OwnerClient E (ClusterMilestone LabelSelector)}.

Abbreviation cached w := (p_cache (op_process w)).

(** ** A reconcile leaves the caches, the queues and the API server alone *)

Definition undisturbed (w w' : operator E) : Prop :=
  cached w' = cached w ∧ op_adds w' = op_adds w ∧ op_server w' = op_server w ∧
  op_milestoneSource w' = op_milestoneSource w ∧ op_cmilestoneSource w' = op_cmilestoneSource w.

#[local] Instance undisturbed_order : PreOrder undisturbed.
Proof. split; [by intros w; split_and!|]. intros w1 w2 w3 (?&?&?&?&?) (?&?&?&?&?). split_and!; congruence. Qed.

Lemma undisturbed_process {A} (m : M (process unit) A) w :
  later (op_process w) (m (op_process w)).2 → undisturbed w (on_process m w).2.
Proof. intros (_ & _ & Hc & _). unfold on_process. destruct (m _). by split_and!. Qed.

Lemma undisturbed_resolver {A} (m : M resolver A) (w : operator E) : undisturbed w (on_resolver m w).2.
Proof. unfold on_resolver. destruct (m _). by split_and!. Qed.

Lemma still_resolver {A} (m : M resolver A) (w : operator E) : still op_pinv op_subs w (on_resolver m w).2.
Proof. unfold on_resolver. by destruct (m _). Qed.

#[local] Instance undisturbed_time : TimeLaws (operator E) undisturbed.
Proof.
  split; [apply _|..]; intros; apply undisturbed_process;
    [apply (time_record (R := later))|apply (time_clock (R := later))|apply (time_subscribe (R := later))
    |apply (time_unsubscribe (R := later))|apply (time_unsubscribe_all (R := later))
    |apply (time_list (R := later))|apply (time_gvks (R := later))].
Qed.

Abbreviation calm := (λ w w', undisturbed w w' ∧ still op_pinv op_subs w w').

#[local] Instance calm_quiet : QuietLaws (operator E) calm.
Proof.
  pose proof (quiet_order (R := still (op_pinv (E := E)) op_subs)).
  split; [|intros; split; [apply quiet_record|apply (quiet_record (R := still op_pinv op_subs))]
          |intros; split; [apply quiet_clock|apply (quiet_clock (R := still op_pinv op_subs))]
          |intros; split; [apply quiet_list|apply (quiet_list (R := still op_pinv op_subs))]].
  split; [by split|]. intros w1 w2 w3 [] []. split; by etrans.
Qed.

(** ** A kind somebody is subscribed to can be subscribed to *)

Lemma subscribe_running gvk scope sub (w : operator E) :
  op_pinv w → (∃ o, is_Some (op_subs w gvk o)) → (reg_Subscribe gvk scope sub w).1 = None.
Proof.
  intros Hw Ho. apply (running_subscribed (op_process w)) in Ho as [e He]; [|exact Hw].
  cbn [reg_Subscribe op_registry]. rewrite on_process_fst. cbn [reg_Subscribe process_registry].
  unfold process_Subscribe, Subscribe, Subscribe_enter. by rewrite He.
Qed.

Lemma subscribe_groups_running owner groups order errs (w : operator E) :
  op_pinv w → (∀ g, g ∈ order → is_Some (op_subs w g owner)) →
  (subscribe_groups owner groups order errs w).1 = errs.
Proof.
  revert errs w. induction order as [|gvk order IH]; intros errs w Hw Hall; [done|]. cbn [subscribe_groups].
  destruct (groups !! gvk) as [g|]; [|apply IH; [done|]; intros g' Hg'; apply Hall; by right].
  unfold mbind, M_bind. set (sub := Build_Subscriber owner (g_matchers g)).
  pose proof (subscribe_running gvk (g_scope g) sub w Hw (ex_intro _ owner (Hall gvk ltac:(by left)))) as Hok.
  pose proof (subscribe_inv (subs := op_subs) gvk (g_scope g) sub w Hw) as Hi.
  pose proof (λ g', subscribe_ok (subs := op_subs) gvk (g_scope g) sub w g' owner Hw Hok) as Hs.
  destruct (reg_Subscribe gvk (g_scope g) sub w) as [err w1]. simpl in Hok, Hi, Hs. subst err.
  rewrite app_nil_r. apply IH; [done|]. intros g' Hg'. rewrite Hs.
  destruct (decide _); [by exists sub|]. apply Hall. by right.
Qed.

Lemma reconcileSubscriptions_running controller owner deps (w : operator E) :
  op_pinv w → (∀ d, d ∈ deps → is_Some (op_subs w (d_GVK d) owner)) →
  (reconcileSubscriptions controller owner deps w).1 = [].
Proof.
  intros Hw Hall. unfold reconcileSubscriptions, observed. pose proof (group_dependencies_spec deps) as Hg.
  destruct (group_dependencies deps) as [order groups]. destruct Hg as (_ & Ho & _).
  unfold mbind, M_bind, mret, M_ret. pose proof (gvks_state (inv := op_pinv) (subs := op_subs) owner w Hw) as Hst.
  destruct (reg_GVKsByOwner owner w) as [prior w1]. simpl in Hst. subst w1.
  pose proof (subscribe_groups_running owner groups order [] w Hw) as Hs.
  destruct (subscribe_groups owner groups order [] w) as [errs w2]. simpl in Hs.
  destruct (drop_stale owner groups prior w2) as [u w3]. destruct (record _ w3) as [u' w4]. cbn [fst]. apply Hs.
  intros g Hin%Ho. destruct (deps_of g deps) as [|d ds] eqn:Hd; [done|].
  assert (d ∈ deps_of g deps) as [Hin' <-]%elem_of_deps_of by (rewrite Hd; by left). by apply Hall.
Qed.

(** ** What a reconcile computes, from the caches *)

Lemma listed_running x w' gvk owner res :
  happened calm x w' (reg_List gvk) res → op_pinv x → is_Some (op_subs x gvk owner) → res = cached w' gvk.
Proof.
  intros (wi & [_ Hs] & [(Hc & _) _] & Hl) Hx Ho. destruct (Hs Hx) as [Hi Hsubs].
  assert (∃ e, informers (p_registry (op_process wi)) !! gvk = Some e) as [e He].
  { apply (running_subscribed (op_process wi)); [exact Hi|]. exists owner. specialize (Hsubs gvk owner).
    unfold op_subs in Hsubs, Ho. by rewrite Hsubs. }
  cbn [reg_List op_registry] in Hc, Hl. rewrite on_process_fst in Hl. rewrite on_process_snd in Hc.
  cbn [reg_List process_registry fst snd] in Hc, Hl. unfold List_gvk in Hl. rewrite He in Hl. by rewrite Hc, <- Hl.
Qed.

(** What the caches hold of the dependencies. *)
Definition cached_obs (w : operator E) (deps : list Dependency) : list observation :=
  (λ d, Listed (cached w (d_GVK d))) <$> deps.
Definition listable (w : operator E) (deps : list Dependency) : Prop :=
  ∀ d, d ∈ deps → ∃ objs, cached w (d_GVK d) = Ok objs.

Lemma cached_obs_ok w deps o : listable w deps → o ∈ cached_obs w deps → observation_failed o = false.
Proof. intros Hl (d & -> & Hd)%list_elem_of_fmap. by destruct (Hl d Hd) as [objs ->]. Qed.

Lemma no_watch_errors fails deps :
  watch_errors fails deps = [] ↔ ∀ d, d ∈ deps → fails !! d_GVK d = None.
Proof.
  split.
  - intros Hnil d Hd. destruct (fails !! d_GVK d) as [err|] eqn:Hf; [|done].
    destruct (not_elem_of_nil (watch_error (d_GVK d) err d)). rewrite <- Hnil. apply elem_of_watch_errors. eauto.
  - intros Hno. destruct (watch_errors fails deps) as [|e es] eqn:He; [done|].
    assert (e ∈ watch_errors fails deps) as (d & err & Hd & Hf & _)%elem_of_watch_errors by (rewrite He; by left).
    by rewrite Hno in Hf.
Qed.

(** Every watch set up, every dependency is seen as the caches have it. *)
Lemma seen_cached fails depErrs deps obs owner x w' :
  names_ok deps depErrs → op_pinv x → asked owner deps x → (∀ d, d ∈ deps → fails !! d_GVK d = None) →
  Forall2 (seen calm (failedDependencyReasons (watch_errors fails deps)) x w') deps obs →
  obs = cached_obs w' deps.
Proof.
  intros Hnames Hx Hasked Hno Hseen. apply list_eq_Forall2, Forall2_fmap_r, Forall2_flip, Forall2_same_length_lookup.
  apply Forall2_same_length_lookup in Hseen as [Hlen Hseen]. split; [done|].
  intros i d o Hi Ho. specialize (Hseen i d o Hi Ho). apply list_elem_of_lookup_2 in Hi.
  unfold seen in Hseen. rewrite (skipped_names fails deps depErrs d Hnames Hi), (Hno d Hi) in Hseen.
  destruct o as [|res]; [done|]. destruct Hseen as [_ Hl]. unfold flip. f_equal.
  apply (listed_running x w' (d_GVK d) owner); [exact Hl|exact Hx|]. by rewrite Hasked.
Qed.

Lemma no_list_errors w deps : listable w deps →
  (zip deps (cached_obs w deps) ≫= λ p, list_errors_of p.1 p.2) = [].
Proof.
  intros Hl. unfold cached_obs. induction deps as [|d ds IH]; [done|]. simpl. destruct (Hl d ltac:(by left)) as [objs ->]. simpl.
  apply IH. intros d' Hd'. apply Hl. by right.
Qed.

(** ** The caches, the same but for the order they list in *)

Definition same_objects (w w' : operator E) (deps : list Dependency) : Prop :=
  ∀ d objs, d ∈ deps → cached w (d_GVK d) = Ok objs → ∃ objs', cached w' (d_GVK d) = Ok objs' ∧ objs' ≡ₚ objs.

(** An object has one version, as the API server has it. *)
Definition one_version (w : operator E) (deps : list Dependency) : Prop :=
  ∀ d d' objs objs' u u', d ∈ deps → d' ∈ deps → cached w (d_GVK d) = Ok objs → cached w (d_GVK d') = Ok objs' →
    u ∈ objs → u' ∈ objs' → GetGVK u = GetGVK u' → GetNamespace u = GetNamespace u' → GetName u = GetName u' → u = u'.

Lemma members_perm d objs objs' : objs' ≡ₚ objs → members d objs' ≡ₚ members d objs.
Proof. intros Hp. unfold members. by apply fmap_Permutation, Permutation_filter. Qed.

Lemma same_rollups w w' deps : listable w deps → same_objects w w' deps →
  rollups_of ∅ (zip deps (cached_obs w' deps)) = rollups_of ∅ (zip deps (cached_obs w deps)).
Proof.
  unfold rollups_of, cached_obs. generalize (∅ : gmap string DependencyStatus) as base.
  induction deps as [|d ds IH]; intros base Hl Hs; [done|]. cbn [fmap list_fmap zip_with foldl fst snd].
  destruct (Hl d ltac:(by left)) as [objs Ho]. destruct (Hs d objs ltac:(by left) Ho) as (objs' & Ho' & Hp).
  rewrite Ho, Ho', (rollup_of_perm d objs objs') by (by apply members_perm).
  apply IH; [intros d' Hd'; apply Hl|intros d' os Hd'; apply Hs]; by right.
Qed.

(** A resource that is not ready, with the object it reports. *)
Lemma elem_of_not_ready w deps x :
  x ∈ (zip deps (cached_obs w deps) ≫= λ p, not_ready_of p.1 p.2) ↔
  ∃ d objs, d ∈ deps ∧ cached w (d_GVK d) = Ok objs ∧ x ∈ notReadyResourcesOf (members d objs) (d_SuspendPolicy d).
Proof.
  unfold cached_obs. rewrite list_elem_of_bind. split.
  - intros ([d o] & Hx & (i & Hi)%list_elem_of_lookup). apply lookup_zip_with_Some in Hi as (d' & o' & [= <- <-] & Hd & Ho).
    rewrite list_lookup_fmap, Hd in Ho. injection Ho as <-. apply list_elem_of_lookup_2 in Hd. simpl in Hx.
    destruct (cached w (d_GVK d)) as [objs|] eqn:Hc; [by exists d, objs|]. by apply not_elem_of_nil in Hx.
  - intros (d & objs & (i & Hi)%list_elem_of_lookup & Hc & Hx). exists (d, Listed (Ok objs)). split; [done|].
    apply list_elem_of_lookup. exists i. by rewrite lookup_zip_with, list_lookup_fmap, Hi, <- Hc.
Qed.

Lemma not_ready_perm l l' policy : l ≡ₚ l' → notReadyResourcesOf l policy ≡ₚ notReadyResourcesOf l' policy.
Proof. intros Hp. unfold notReadyResourcesOf. by apply fmap_Permutation, Permutation_filter. Qed.

Lemma same_not_ready w w' deps x : listable w deps → same_objects w w' deps →
  x ∈ (zip deps (cached_obs w' deps) ≫= λ p, not_ready_of p.1 p.2) ↔
  x ∈ (zip deps (cached_obs w deps) ≫= λ p, not_ready_of p.1 p.2).
Proof.
  intros Hl Hs. rewrite !elem_of_not_ready.
  split; intros (d & os & Hd & Hc & Hx); destruct (Hl d Hd) as [objs Ho];
    destruct (Hs d objs Hd Ho) as (objs' & Ho' & Hp); exists d; [exists objs|exists objs'];
    (split; [done|split; [done|]]);
    pose proof (not_ready_perm _ _ (d_SuspendPolicy d) (members_perm d objs objs' Hp)) as Hm.
  - rewrite Hc in Ho'. injection Ho' as <-. by rewrite <- Hm.
  - rewrite Hc in Ho. injection Ho as <-. by rewrite Hm.
Qed.

Lemma one_version_consistent w deps : one_version w deps →
  consistent (zip deps (cached_obs w deps) ≫= λ p, not_ready_of p.1 p.2).
Proof.
  intros Hone x y (d & os & Hd & Hc & Hx)%elem_of_not_ready (d' & os' & Hd' & Hc' & Hy)%elem_of_not_ready Hid.
  unfold notReadyResourcesOf, members in Hx, Hy.
  apply list_elem_of_fmap in Hx as (a & -> & (_ & (u & -> & (_ & Hu)%list_elem_of_filter)%list_elem_of_fmap)%list_elem_of_filter).
  apply list_elem_of_fmap in Hy as (b & -> & (_ & (v & -> & (_ & Hv)%list_elem_of_filter)%list_elem_of_fmap)%list_elem_of_filter).
  assert (∀ u, identity (not_ready_status (Compute u)) =
    (Group (GetGVK u), Version (GetGVK u), Kind (GetGVK u), GetNamespace u, GetName u)) as Hident.
  { intros u'. unfold Compute. destruct (NestedBool _ _) as [[s ?] ?]. unfold not_ready_status.
    destruct (kstatus_Compute _) as [[]|]; by destruct (IsCurrent _). }
  rewrite !Hident in Hid. injection Hid as Hg Hver Hk Hns Hn. do 2 f_equal.
  apply (Hone d d' os os' u v); try done. destruct (GetGVK u), (GetGVK v). simpl in *. by subst.
Qed.

(** ** Twice the same status *)

Section computed.
Context {T : Type} `{!OwnerClient (operator E) T} (r : Reconciler (W := operator E) T).
Hypothesis status_lens : ∀ sb obj, oa_Status _ (rc_Adapter _ r) (oa_set_Status _ (rc_Adapter _ r) sb obj) = sb.
Hypothesis normalize_calm : ∀ obj w, calm w (oa_Dependencies _ (rc_Adapter _ r) obj (rc_Resolver _ r) w).2.

Lemma computed_from_caches obj w deps depErrs :
  let owner := oa_OwnerKey _ (rc_Adapter _ r) obj in
  (oa_Dependencies _ (rc_Adapter _ r) obj (rc_Resolver _ r) w).1 = (deps, depErrs) → names_ok deps depErrs → op_pinv w →
  let '(obj', w') := compute_status r obj w in
  undisturbed w w' ∧ op_pinv w' ∧
  (IsStatusConditionTrue (Conditions (oa_Status _ (rc_Adapter _ r) obj')) ConditionStalled = false ∨
   depErrs = [] ∧ (∀ d, d ∈ deps → is_Some (op_subs w (d_GVK d) owner)) ∧ listable w deps →
   depErrs = [] ∧ asked owner deps w' ∧ listable w' deps ∧ ∃ now1 now2,
     obj' = oa_set_Status _ (rc_Adapter _ r) (apply_status (rc_ResourceCap _ r) (rc_StalledErrorCap _ r) now1 now2
       (oa_Status _ (rc_Adapter _ r) obj) (om_Generation (oa_Meta _ (rc_Adapter _ r) obj))
       (rollups_of ∅ (zip deps (cached_obs w' deps)))
       (zip deps (cached_obs w' deps) ≫= λ p, not_ready_of p.1 p.2) []) obj).
Proof.
  intros owner Hdeps Hnames Hw.
  pose proof (compute_status_phases undisturbed r (λ obj w, proj1 (normalize_calm obj w)) op_pinv op_subs calm
    (λ _ _ Hc, Hc) obj w deps depErrs Hdeps Hnames (proj2 (normalize_calm obj w))) as Hrun.
  destruct (compute_status r obj w) as [obj' w'].
  destruct Hrun as (asking & x & obs & fails & now1 & now2 & (_ & Hasking & Hcall) & Hr & [Hq Hqs] & Hseen & _ & Hfails & _ & Hsubs & ->).
  destruct (Hsubs Hw) as [Hx Hre], (Hasking Hw) as [Hwa Ea], (Hqs Hx) as [Hw' E'].
  assert (undisturbed w w') as Hund by (by etrans). split; [done|]. split; [done|]. intros Hcase.
  set (sb := apply_status _ _ _ _ _ _ _ _ _) in *.
  assert (IsStatusConditionTrue (Conditions sb) ConditionStalled = false →
    depErrs = [] ∧ ∀ o, o ∈ obs → observation_failed o = false) as Hunst.
  { intros Hst%not_true_iff_false. unfold sb in Hst. rewrite apply_status_stalled, errors_nil in Hst by done.
    split; [destruct depErrs; [done|]; exfalso; apply Hst; by left|].
    intros o Ho. apply not_true_iff_false. intros Hf. apply Hst. right. eauto. }
  assert (depErrs = [] ∧ ∀ d, d ∈ deps → fails !! d_GVK d = None) as [-> Hno].
  { rewrite status_lens in Hcase. destruct Hcase as [Hst|(Hd & Hsub & _)].
    - destruct (Hunst Hst) as [Hd Hok]. split; [exact Hd|]. intros d (i & Hi)%list_elem_of_lookup.
      destruct (Forall2_lookup_l _ _ _ _ _ Hfails Hi) as (o & Ho & Hiff).
      destruct (fails !! d_GVK d) as [err|]; [|done]. apply list_elem_of_lookup_2 in Ho.
      specialize (Hok _ Ho). by rewrite (proj2 Hiff (mk_is_Some _ _ eq_refl)) in Hok.
    - split; [exact Hd|]. apply no_watch_errors. change (watch_errors fails deps) with (watch_errors fails deps, x).1.
      rewrite <- Hcall. apply reconcileSubscriptions_running; [exact Hwa|]. intros d Hin. rewrite Ea. by apply Hsub. }
  assert (asked owner deps x) as Hax.
  { intros d Hd. rewrite Hre, decide_True, decide_False, Hno by (done || intros Hnil%deps_of_nil; eauto). done. }
  assert (obs = cached_obs w' deps) as -> by (by apply (seen_cached fails [] _ _ owner x)).
  assert (listable w' deps) as Hl.
  { rewrite status_lens in Hcase. intros d Hd. destruct Hcase as [Hst|(_ & _ & Hl)].
    - destruct (Hunst Hst) as [_ Hok]. specialize (Hok (Listed (cached w' (d_GVK d)))). simpl in Hok.
      destruct (cached w' (d_GVK d)) as [objs|] eqn:Hc; [by exists objs|].
      discriminate Hok. apply list_elem_of_fmap. exists d. by rewrite Hc.
    - destruct Hund as [-> _]. by apply Hl. }
  assert (watch_errors fails deps = []) as Hnil by by apply no_watch_errors.
  unfold sb. rewrite Hnil, no_list_errors by done. split_and!; [done| |done|by exists now1, now2].
  intros d Hd. rewrite E'. by apply Hax.
Qed.

(** The second of two reconciles computes the status it finds. *)
Lemma second_status_same obj stored w w2 deps depErrs stored_at :
  let owner := oa_OwnerKey _ (rc_Adapter _ r) obj in
  (oa_Dependencies _ (rc_Adapter _ r) obj (rc_Resolver _ r) w).1 = (deps, depErrs) → names_ok deps depErrs → op_pinv w →
  let '(obj1, w1) := compute_status r obj w in
  IsStatusConditionTrue (Conditions (oa_Status _ (rc_Adapter _ r) obj1)) ConditionStalled = false →
  oa_OwnerKey _ (rc_Adapter _ r) stored = owner →
  om_Generation (oa_Meta _ (rc_Adapter _ r) stored) = om_Generation (oa_Meta _ (rc_Adapter _ r) obj) →
  oa_Status _ (rc_Adapter _ r) stored = set_LastEvaluatedTime stored_at (oa_Status _ (rc_Adapter _ r) obj1) →
  op_pinv w2 → (∀ g, op_subs w2 g owner = op_subs w1 g owner) → same_objects w1 w2 deps → one_version w1 deps →
  (oa_Dependencies _ (rc_Adapter _ r) stored (rc_Resolver _ r) w2).1 = (deps, []) →
  let '(obj2, w3) := compute_status r stored w2 in
  undisturbed w2 w3 ∧
  statusEqualIgnoringTimestamp (oa_Status _ (rc_Adapter _ r) stored) (oa_Status _ (rc_Adapter _ r) obj2) = true ∧
  IsStatusConditionTrue (Conditions (oa_Status _ (rc_Adapter _ r) obj2)) ConditionStalled = false.
Proof.
  intros owner Hdeps Hnames Hw. pose proof (computed_from_caches obj w deps depErrs Hdeps Hnames Hw) as H1'.
  destruct (compute_status r obj w) as [obj1 w1]. intros Hst Hkey Hgen Hstored Hw2 Hsubs Hsame Hone Hdeps2.
  destruct H1' as (_ & _ & H1'). destruct H1' as (-> & Hasked & Hl & now1 & now2 & Heq); [by left|].
  pose proof (computed_from_caches stored w2 deps [] Hdeps2 Hnames Hw2) as H2'.
  destruct (compute_status r stored w2) as [obj2 w3]. destruct H2' as (Hund & _ & H2').
  assert (listable w2 deps) as Hl2.
  { intros d Hd. destruct (Hl d Hd) as [objs Ho]. destruct (Hsame d objs Hd Ho) as (objs' & Ho' & _). by exists objs'. }
  destruct H2' as (_ & _ & _ & now3 & now4 & Heq2).
  { right. split_and!; [done| |done]. intros d Hd. rewrite Hkey, Hsubs, Hasked by done. done. }
  assert (cached_obs w3 deps = cached_obs w2 deps) as Hobs by (unfold cached_obs; by rewrite (proj1 Hund)).
  rewrite Hobs, (same_rollups w1 w2 deps) in Heq2 by done. split; [done|].
  rewrite Heq in Hstored. rewrite Heq2, status_lens, Hgen, Hstored. rewrite status_lens. split.
  - apply apply_status_idempotent; [by apply one_version_consistent| |constructor|done].
    intros x. by apply same_not_ready.
  - apply not_true_iff_false. intros Hne%apply_status_stalled. by apply Hne.
Qed.

Lemma steady_reconcile obj stored w w2 deps depErrs stored_at :
  let owner := oa_OwnerKey _ (rc_Adapter _ r) obj in
  (oa_Dependencies _ (rc_Adapter _ r) obj (rc_Resolver _ r) w).1 = (deps, depErrs) → names_ok deps depErrs → op_pinv w →
  let '(obj1, w1) := compute_status r obj w in
  IsStatusConditionTrue (Conditions (oa_Status _ (rc_Adapter _ r) obj1)) ConditionStalled = false →
  oa_OwnerKey _ (rc_Adapter _ r) stored = owner →
  om_Generation (oa_Meta _ (rc_Adapter _ r) stored) = om_Generation (oa_Meta _ (rc_Adapter _ r) obj) →
  oa_Status _ (rc_Adapter _ r) stored = set_LastEvaluatedTime stored_at (oa_Status _ (rc_Adapter _ r) obj1) →
  is_deleted (oa_Meta _ (rc_Adapter _ r) stored) = false →
  ContainsFinalizer (om_Finalizers (oa_Meta _ (rc_Adapter _ r) stored)) Finalizer = true →
  op_pinv w2 → (∀ g, op_subs w2 g owner = op_subs w1 g owner) → same_objects w1 w2 deps → one_version w1 deps →
  (oa_Dependencies _ (rc_Adapter _ r) stored (rc_Resolver _ r) w2).1 = (deps, []) →
  (ReconcileObject r stored w2).1.2 = Ok 0%Z ∧ undisturbed w2 (ReconcileObject r stored w2).2.
Proof.
  intros owner Hdeps Hnames Hw.
  pose proof (λ w2, second_status_same obj stored w w2 deps depErrs stored_at Hdeps Hnames Hw) as Hsecond.
  destruct (compute_status r obj w) as [obj1 w1].
  intros Hst Hkey Hgen Hstored Hdel Hfin Hw2 Hsubs Hsame Hone Hdeps2.
  specialize (Hsecond w2 Hst Hkey Hgen Hstored Hw2 Hsubs Hsame Hone Hdeps2).
  unfold ReconcileObject. rewrite Hdel, Hfin. unfold mbind, M_bind.
  destruct (compute_status r stored w2) as [obj2 w3]. destruct Hsecond as (Hund & Hsb & Hst2).
  unfold write_status. rewrite Hsb. unfold mbind, M_bind, mret, M_ret.
  pose proof (time_record (R := undisturbed) (Inc StatusPatchTotal [rc_Controller _ r; PatchUnchanged]) w3) as Hrec.
  destruct (record _ w3) as [u w4]. cbn [snd] in Hrec. split; [|by etrans].
  cbn [fst]. unfold requeue. rewrite status_lens. cbn [set_LastEvaluatedTime Conditions]. by rewrite Hst2.
Qed.
End computed.

(** ** The owners *)

Context (milestoneFluxNotifier : option (Milestone LabelSelector → M E unit)).
Abbreviation milestones := (milestoneReconciler milestoneFluxNotifier).

Lemma milestone_calm m (w : operator E) :
  calm w (oa_Dependencies _ (rc_Adapter _ milestones) m (rc_Resolver _ milestones) w).2.
Proof.
  pose proof (quiet_order (R := calm)). apply (NormalizeMilestone_frame calm shared_resolver).
  intros group kind version v. split; [apply undisturbed_resolver|apply still_resolver].
Qed.

(** C5: a steady owner is left alone. A Milestone was reconciled, its status says
    Stalled of nothing, and it is stored with that status and any
    LastEvaluatedTime. Other steps follow, as many as one likes: notifications of
    any caches' changes, other owners' reconciles, the CRD watcher's invalidations
    of kinds the Milestone is not subscribed to, whatever goes on at the API
    server. If the dependencies normalise as before and their caches list the same
    objects, in whatever order, then reconciling the stored Milestone does not
    write: no patch and no notification reaches the API server, whatever either
    would do to it, nothing is put on a queue, and no requeue is asked for. So the
    operator does not answer its own writes. *)
Theorem steady_owner_not_patched q qc m stored w m1 w1 pending w2 pending2 deps depErrs stored_at :
  run_inv q qc w → NoDup (dr_Name <$> m_DependsOn m) → "" ∉ dr_Name <$> m_DependsOn m →
  (NormalizeMilestone (Some shared_resolver) m w).1 = (deps, depErrs) →
  compute_status milestones m w = (m1, w1) →
  IsStatusConditionTrue (Conditions (m_Status m1)) ConditionStalled = false →
  m_Meta stored = m_Meta m → m_Status stored = set_LastEvaluatedTime stored_at (m_Status m1) →
  is_deleted (m_Meta m) = false → ContainsFinalizer (om_Finalizers (m_Meta m)) Finalizer = true →
  rtc (tick (oa_OwnerKey _ (MilestoneAdapter (W := operator E)) m) []) (w1, pending) (w2, pending2) →
  same_objects w1 w2 deps → one_version w1 deps →
  (NormalizeMilestone (Some shared_resolver) stored w2).1 = (deps, []) →
  let '((_, res), w3) := ReconcileObject milestones stored w2 in
  res = Ok 0%Z ∧ op_server w3 = op_server w2 ∧ op_adds w3 = op_adds w2.
Proof.
  intros Hw Hnd Hne Hdeps Hrun Hst Hmeta Hstatus Hdel Hfin Hticks Hsame Hone Hdeps2.
  pose proof (NormalizeMilestone_names_ok shared_resolver m w Hnd Hne) as Hnames. rewrite Hdeps in Hnames.
  pose proof (steady_reconcile milestones (λ _ _, eq_refl) milestone_calm m stored w w2 deps depErrs stored_at
    Hdeps Hnames (proj1 Hw)) as Hsteady.
  pose proof (computed_from_caches milestones (λ _ _, eq_refl) milestone_calm m w deps depErrs Hdeps Hnames
    (proj1 Hw)) as Hfirst.
  rewrite Hrun in Hsteady, Hfirst. destruct Hfirst as ((_ & _ & _ & Hq & Hqc) & Hw1 & _).
  assert (run_inv q qc w1) as Hi1 by (destruct Hw as (_ & ? & ?); split_and!; [exact Hw1|congruence..]).
  destruct (ticks_passes q qc _ _ _ _ Hticks Hi1) as ((Hi2 & _) & _ & Hsubs). cbn [fst] in Hi2, Hsubs.
  cbn [oa_Meta oa_OwnerKey oa_Status rc_Adapter milestoneReconciler MilestoneAdapter] in Hsteady.
  rewrite Hmeta in Hsteady. destruct (Hsteady Hst eq_refl eq_refl Hstatus Hdel Hfin Hi2 Hsubs Hsame Hone Hdeps2) as [Hres Hund].
  destruct (ReconcileObject milestones stored w2) as [[obj2 res] w3]. cbn [fst snd] in Hres, Hund.
  destruct Hund as (_ & Ha & Hs & _). by split_and!.
Qed.

(** The same of a ClusterMilestone, over an API server that only reads to list. *)
Context (clusterMilestoneFluxNotifier : option (ClusterMilestone LabelSelector → M E unit)).
Abbreviation cmilestones := (clusterMilestoneReconciler clusterMilestoneFluxNotifier).
Hypothesis list_reads : ∀ sel (e : E), (client_ListNamespaces sel e).2 = e.

Lemma cmilestone_calm cm (w : operator E) :
  calm w (oa_Dependencies _ (rc_Adapter _ cmilestones) cm (rc_Resolver _ cmilestones) w).2.
Proof.
  pose proof (quiet_order (R := calm)). apply (NormalizeClusterMilestone_frame calm shared_resolver).
  - intros group kind version v. split; [apply undisturbed_resolver|apply still_resolver].
  - intros sel v. cbn [client_ListNamespaces op_namespaces]. unfold on_server. pose proof (list_reads sel (op_server v)) as Hl.
    destruct (client_ListNamespaces sel (op_server v)) as [a e]. cbn [snd] in *. subst e. by split.
Qed.

Lemma cluster_steady_owner_not_patched cm stored w cm1 w1 w2 deps depErrs stored_at :
  op_pinv w → names_ok deps depErrs →
  (NormalizeClusterMilestone (Some shared_resolver) (Some client_ListNamespaces) cm w).1 = (deps, depErrs) →
  compute_status cmilestones cm w = (cm1, w1) →
  IsStatusConditionTrue (Conditions (cm_Status cm1)) ConditionStalled = false →
  cm_Meta stored = cm_Meta cm → cm_Status stored = set_LastEvaluatedTime stored_at (cm_Status cm1) →
  is_deleted (cm_Meta cm) = false → ContainsFinalizer (om_Finalizers (cm_Meta cm)) Finalizer = true →
  op_pinv w2 → (∀ g, op_subs w2 g (Build_OwnerKey "ClusterMilestone" "" (om_Name (cm_Meta cm))) =
                     op_subs w1 g (Build_OwnerKey "ClusterMilestone" "" (om_Name (cm_Meta cm)))) →
  same_objects w1 w2 deps → one_version w1 deps →
  (NormalizeClusterMilestone (Some shared_resolver) (Some client_ListNamespaces) stored w2).1 = (deps, []) →
  (ReconcileObject cmilestones stored w2).1.2 = Ok 0%Z ∧ undisturbed w2 (ReconcileObject cmilestones stored w2).2.
Proof.
  intros Hw Hnames Hdeps Hrun Hst Hmeta Hstatus Hdel Hfin Hw2 Hsubs Hsame Hone Hdeps2.
  pose proof (steady_reconcile cmilestones (λ _ _, eq_refl) cmilestone_calm cm stored w w2 deps depErrs stored_at
    Hdeps Hnames Hw) as Hsteady. rewrite Hrun in Hsteady.
  cbn [oa_Meta oa_OwnerKey oa_Status rc_Adapter clusterMilestoneReconciler ClusterMilestoneAdapter] in Hsteady.
  rewrite Hmeta in Hsteady. exact (Hsteady Hst eq_refl eq_refl Hstatus Hdel Hfin Hw2 Hsubs Hsame Hone Hdeps2).
Qed.
End steady.

(** ** Two Widgets, listed the other way round *)
Module SteadyFix.
Import OperatorFix InterferenceFix.
#[local] Existing Instance Fix.labels.
#[local] Existing Instance Fix.unstructured.
#[local] Existing Instance Fix.formatting.
#[local] Existing Instance Fix.api_errors.
#[local] Existing Instance Fix.conditions.
#[local] Existing Instance Fix.conditions_laws.
#[local] Existing Instance Fix.finalizers.
#[local] Existing Instance PatchFix.meta_json.
#[local] Existing Instance server_crds.
#[local] Existing Instance server_namespaces.
#[local] Existing Instance server_milestones.
#[local] Existing Instance server_cmilestones.

Definition named (name : string) : Unstructured :=
  Fix.Build_object widgets_v1 "ns" name {["app" := "web"]} false "InProgress" "".

Definition start : operator server := set_cached widgets_v1 [named "a"; named "b"] InterferenceFix.before.
Definition first : Milestone LabelSelector * operator server := compute_status (milestoneReconciler None) web_widgets start.

(** As the status patch left it, at 7. *)
Definition patched : Milestone LabelSelector :=
  Build_Milestone _ (m_Meta web_widgets) (m_DependsOn web_widgets) (set_LastEvaluatedTime 7 (m_Status first.1)).

(** A resync notifies of a Widget that has not changed, and wakes the owner. *)
Definition resynced : notification := OnUpdate (AnUnstructured (named "a")) (AnUnstructured (named "a")).
Definition resync : operator server :=
  (event_handler widgets_v1 resynced (set_cached widgets_v1 [named "b"; named "a"] first.2)).2.

Definition start_deps : list Dependency := (NormalizeMilestone (Some shared_resolver) web_widgets start).1.1.

Example resync_wakes :
  op_adds resync = [(0, ("ns", "m"))] ∧ rs_Name <$> elems (NotReadyResources (m_Status patched)) = ["a"; "b"] ∧
  p_cache (op_process first.2) widgets_v1 = Ok [named "a"; named "b"] ∧
  p_cache (op_process resync) widgets_v1 = Ok [named "b"; named "a"].
Proof. vm_compute. done. Qed.

Lemma steady_owner_not_patched_witness :
  let '((_, res), w3) := ReconcileObject (milestoneReconciler None) patched resync in
  res = Ok 0%Z ∧ op_server w3 = op_server resync ∧ op_adds w3 = op_adds resync.
Proof.
  destruct resync_wakes as (_ & _ & Hfirst & Hcache).
  assert (Forall (λ d, d_GVK d = widgets_v1) start_deps) as Hgvk by (apply (bool_decide_unpack _); vm_compute; exact I).
  rewrite Forall_forall in Hgvk.
  assert (NoDup (dr_Name <$> m_DependsOn web_widgets)) as Hnd by (apply (bool_decide_unpack _); vm_compute; exact I).
  assert ("" ∉ dr_Name <$> m_DependsOn web_widgets) as Hne by (apply (bool_decide_unpack _); vm_compute; exact I).
  assert (run_inv 0 1 start) as Hinv by exact (conj (proj1 before_run_inv) (conj eq_refl eq_refl)).
  apply (steady_owner_not_patched None 0 1 web_widgets patched start first.1 first.2 [] resync [] start_deps [] 7 Hinv Hnd Hne).
  - vm_compute. reflexivity.
  - unfold first. by destruct (compute_status _ _ _).
  - vm_compute. reflexivity.
  - reflexivity.
  - reflexivity.
  - reflexivity.
  - vm_compute. reflexivity.
  - eapply rtc_l; [apply (tick_change _ [] widgets_v1 resynced _ [named "b"; named "a"] _ [] Hfirst)|].
    + exists (named "a"), (named "a"), [named "b"]. split_and!; [done..|apply perm_swap].
    + intros d Hd. destruct (not_elem_of_nil _ Hd).
    + apply rtc_once, (tick_deliver _ [] widgets_v1 resynced _ [] []).
  - intros d objs Hd Ho. rewrite (Hgvk d Hd) in Ho |- *. rewrite Hfirst in Ho. injection Ho as <-.
    exists [named "b"; named "a"]. split; [exact Hcache|apply perm_swap].
  - intros d d' objs objs' u u' Hd Hd' Ho Ho' Hu Hu' _ _ Hname. rewrite (Hgvk _ Hd) in Ho. rewrite (Hgvk _ Hd') in Ho'.
    rewrite Hfirst in Ho, Ho'. injection Ho as <-. injection Ho' as <-.
    apply elem_of_cons in Hu as [->|Hu%list_elem_of_singleton]; apply elem_of_cons in Hu' as [->|Hu'%list_elem_of_singleton]; subst;
      done.
  - vm_compute. reflexivity.
Defined.
End SteadyFix.
