(* ===== verification/Cli.v ===== *)
(** * internal/cli: kind.go, row.go, selector.go and output.go

    What milestonectl shows of an owner: the kinds it knows, the decoded object,
    its row, the status selector that filters rows, and the -o flag. Decoding and
    JSON are client libraries' and stay parameters. *)

From S2P Require Import Prelude GoStd ApiV1 K8s Fixtures Status Membership Discovery Normalize Evaluate StatusHelpers Text.
From Stdlib Require Import Ascii.

(** ** Definitions *)

(** *** kind.go *)

(** [Kind]. *)
Record OwnerKind := {
  kd_Kind : string;
  kd_Singular : string;
  kd_Plural : string;
  kd_ShortName : string;
  kd_Namespaced : bool;
}.

Definition OwnerKind_zero : OwnerKind := Build_OwnerKind "" "" "" "" false.

Definition MilestoneKind : OwnerKind := Build_OwnerKind "Milestone" "milestone" "milestones" "mile" true.
Definition ClusterMilestoneKind : OwnerKind :=
  Build_OwnerKind "ClusterMilestone" "clustermilestone" "clustermilestones" "cmile" false.

Definition Kinds : list OwnerKind := [MilestoneKind; ClusterMilestoneKind].

Definition named (k : OwnerKind) (name : string) : bool :=
  bool_decide (name = kd_Singular k) || bool_decide (name = kd_Plural k) || bool_decide (name = kd_ShortName k).

Definition LookupKind `{UnicodeTables} (name : string) : OwnerKind * bool :=
  let name := strings_ToLower name in
  match filter (λ k, named k name = true) Kinds with
  | k :: _ => (k, true)
  | [] => (OwnerKind_zero, false)
  end.

(** apiv1.GroupVersion. *)
Definition apiv1_Group : string := "milestone.as-code.io".
Definition apiv1_Version : string := "v1".

Definition GVR (k : OwnerKind) : GroupVersionResource :=
  Build_GroupVersionResource apiv1_Group apiv1_Version (kd_Plural k).

(** The accessor and the converter of apimachinery's unstructured objects. *)
Class OwnerObjects `{LabelsAPI} `{UnstructuredAPI} := {
  GetResourceVersion : Unstructured → string;
  FromUnstructured_Milestone : Unstructured → result (Milestone LabelSelector);
  FromUnstructured_ClusterMilestone : Unstructured → result (ClusterMilestone LabelSelector);
}.

Section owners.
Context `{LabelsAPI} `{UnstructuredAPI} `{!OwnerObjects}.

(** [Owner]: one of the two typed pointers is set. *)
Record cli_Owner := {
  ow_Kind : OwnerKind;
  ow_Object : Unstructured;
  ow_typed : Milestone LabelSelector + ClusterMilestone LabelSelector;
}.

Definition Decode (k : OwnerKind) (u : Unstructured) : result cli_Owner :=
  let decoded :=
    if kd_Namespaced k then
      match FromUnstructured_Milestone u with Ok m => Ok (inl m) | Err err => Err err end
    else
      match FromUnstructured_ClusterMilestone u with Ok m => Ok (inr m) | Err err => Err err end in
  match decoded with
  | Err err => Err (fmt_Errorf ("decode " +:+ kd_Kind k +:+ " " +:+ GetName u +:+ ": " +:+ err_Error err) [err])
  | Ok typed => Ok (Build_cli_Owner k u typed)
  end.

Definition Meta (o : cli_Owner) : ObjectMeta :=
  match ow_typed o with inl m => m_Meta m | inr cm => cm_Meta cm end.

Definition owner_Status (o : cli_Owner) : MilestoneStatusBase :=
  match ow_typed o with inl m => m_Status m | inr cm => cm_Status cm end.

Definition Ref (o : cli_Owner) : string :=
  let m := Meta o in
  if decide (om_Namespace m = "") then kd_Kind (ow_Kind o) +:+ "/" +:+ om_Name m
  else kd_Kind (ow_Kind o) +:+ "/" +:+ om_Namespace m +:+ "/" +:+ om_Name m.

Section world.
Context {W : Type} `{Formatting}.

Definition owner_Evaluate `{ApiErrors} `{!DynamicClient W} (wall_clock : M W time) (fuel : nat)
    (o : cli_Owner) (e : Evaluator) : MO W (MError + Report) :=
  match ow_typed o with
  | inl m => Evaluator_Milestone wall_clock fuel e m
  | inr cm => Evaluator_ClusterMilestone wall_clock fuel e cm
  end.

Definition owner_Normalize (o : cli_Owner) (r : option (Resolver W)) (ns : option (NamespaceLister (W := W)))
    : M W (list Dependency * list MError) :=
  match ow_typed o with
  | inl m => NormalizeMilestone r m
  | inr cm => NormalizeClusterMilestone r ns cm
  end.
End world.

(** *** row.go *)

Record Row := {
  rw_Namespace : string;
  rw_Name : string;
  rw_Ready : ConditionStatus;
  rw_Reason : string;
  rw_Message : string;
  rw_Stalled : ConditionStatus;
  rw_Stale : bool;
  rw_Summary : Summary;
  rw_DepsReady : Z;
  rw_DepsTotal : Z;
  rw_Created : time;
  rw_LastEvaluated : time;
}.

#[export] Instance Row_eq_dec : EqDecision Row.
Proof. solve_decision. Defined.

Definition owner_Row `{ConditionsAPI} (o : cli_Owner) : Row :=
  let meta := Meta o in
  let st := owner_Status o in
  let '(ready, reason, message) :=
    match FindStatusCondition (Conditions st) ConditionReady with
    | Some c => (c_Status c, c_Reason c, c_Message c)
    | None => (ConditionUnknown, "", "")
    end in
  let stalled :=
    match FindStatusCondition (Conditions st) ConditionStalled with
    | Some c => c_Status c
    | None => ConditionUnknown
    end in
  let depsReady := foldl (λ n d, if decide (ds_Ready d = ConditionTrue) then (n + 1)%Z else n) 0%Z
                     (elems (DependsOn st)) in
  Build_Row (om_Namespace meta) (om_Name meta) ready reason message stalled
    (ObservedGeneration st <? om_Generation meta)%Z (sb_Summary st) depsReady
    (Z.of_nat (length (elems (DependsOn st)))) (om_CreationTimestamp meta) (LastEvaluatedTime st).
End owners.
Arguments cli_Owner {_ _}.

(** *** selector.go *)

Record statusTerm := { condition : string; want : ConditionStatus }.

Definition StatusSelector : Type := list statusTerm.

Definition conditionStatuses : list ConditionStatus := [ConditionTrue; ConditionFalse; ConditionUnknown].

Section selector.
Context `{UnicodeTables} `{Formatting}.

Definition parseConditionStatus (s : string) : result ConditionStatus :=
  match filter (λ cs, strings_EqualFold s cs = true) conditionStatuses with
  | cs :: _ => Ok cs
  | [] => Err (fmt_Errorf ("status must be True, False or Unknown, not " +:+ Quote s) [])
  end.

Definition invalid_selector (expr why : string) (wrapped : list error) : error :=
  fmt_Errorf ("invalid status selector " +:+ Quote expr +:+ ": " +:+ why) wrapped.

(** One turn of the loop. *)
Definition parse_term (expr : string) : result statusTerm :=
  let '(key, value, ok) := strings_Cut expr "=" in
  if negb ok then Err (invalid_selector expr "want ready=<status> or stalled=<status>" [])
  else
    let key := strings_ToLower (strings_TrimSpace key) in
    if bool_decide (key ≠ "ready") && bool_decide (key ≠ "stalled")
    then Err (invalid_selector expr "key must be ready or stalled" [])
    else match parseConditionStatus (strings_TrimSpace value) with
         | Err err => Err (invalid_selector expr (err_Error err) [err])
         | Ok want => Ok (Build_statusTerm key want)
         end.

Fixpoint parse_terms (exprs : list string) (terms : list statusTerm) : result StatusSelector :=
  match exprs with
  | [] => Ok terms
  | expr :: exprs =>
      match parse_term expr with
      | Err err => Err err
      | Ok t => parse_terms exprs (terms ++ [t])
      end
  end.

Definition ParseStatusSelector (exprs : list string) : result StatusSelector := parse_terms exprs [].
End selector.

Definition term_holds (r : Row) (t : statusTerm) : bool :=
  let got := if decide (condition t = "stalled") then rw_Stalled r else rw_Ready r in
  bool_decide (got = want t).

(** [StatusSelector.Matches]. *)
Fixpoint selector_Matches (s : StatusSelector) (r : Row) : bool :=
  match s with
  | [] => true
  | t :: s => if term_holds r t then selector_Matches s r else false
  end.

(** *** output.go *)

Definition OutputTable : string := "table".
Definition OutputWide : string := "wide".
Definition OutputTree : string := "tree".
Definition OutputJSON : string := "json".
Definition OutputYAML : string := "yaml".

Record OutputFlag := { of_value : string; of_allowed : list string }.

(** [allowed[0]] panics when there is none. *)
Definition NewOutputFlag (allowed : list string) : option OutputFlag :=
  match allowed with [] => None | v :: _ => Some (Build_OutputFlag v allowed) end.

Definition OutputFlag_String (o : OutputFlag) : string := of_value o.
Definition OutputFlag_Type (o : OutputFlag) : string := "format".

Definition OutputFlag_Set (s : string) (o : OutputFlag) : option error * OutputFlag :=
  if bool_decide (s ∈ of_allowed o) then (None, Build_OutputFlag s (of_allowed o))
  else (Some (fmt_Errorf ("must be one of: " +:+ strings_Join (of_allowed o) "|") []), o).

Definition Allowed (o : OutputFlag) : list string := of_allowed o.

Definition Structured (o : OutputFlag) : bool :=
  bool_decide (of_value o = OutputJSON) || bool_decide (of_value o = OutputYAML).

(** The text json.MarshalIndent gives a value of type [V], with a two-space
    indent, and sigs.k8s.io/yaml's JSONToYAML. *)
Class Marshal (V : Type) := { MarshalIndent : V → result string }.
Class YAML := { JSONToYAML : string → result string }.

(** The command's writers: a.out and a.errOut. *)
Class Writers (W : Type) := {
  out_Write : string → M W (option error);
  err_Write : string → M W (option error);
}.

Definition LF_string : string := String "010" "".

Definition PrintStructured {W V} `{!Writers W} `{!Marshal V} `{YAML} (format : string) (v : V)
    : M W (option error) :=
  match MarshalIndent v with
  | Err err => mret (Some err)
  | Ok data =>
      if decide (format = OutputYAML) then
        match JSONToYAML data with
        | Err err => mret (Some err)
        | Ok data => out_Write data
        end
      else out_Write (data +:+ LF_string)
  end.

(** The map NewList answers. *)
Record ListDocument (U : Type) := { ld_apiVersion : string; ld_kind : string; ld_items : list U }.

Definition NewList {U} (items : list U) : ListDocument U := Build_ListDocument U "v1" "List" items.

(** ** The status selector *)

Section selector_spec.
Context `{UnicodeTables} `{Formatting}.

(** The texts that mean a term: key and value in any case, white space around
    each. *)
Definition spells (t : statusTerm) (expr : string) : Prop :=
  (condition t = "ready" ∨ condition t = "stalled") ∧
  (want t = ConditionTrue ∨ want t = ConditionFalse ∨ want t = ConditionUnknown) ∧
  ∃ w1 key w2 w3 value w4,
    expr = (w1 +:+ key +:+ w2) +:+ String "=" (w3 +:+ value +:+ w4) ∧
    blank w1 = true ∧ blank w2 = true ∧ blank w3 = true ∧ blank w4 = true ∧
    lower key = condition t ∧ lower value = lower (want t).

Lemma contains_byte_app s t c : contains_byte (s +:+ t) c = contains_byte s c || contains_byte t c.
Proof.
  induction s as [|c' s IH]; [done|]. rewrite str_app_cons. simpl. by rewrite IH, orb_assoc.
Qed.

(** No byte but '=' lowers to '='. *)
Lemma contains_eq_lower s : contains_byte (lower s) "=" = contains_byte s "=".
Proof.
  induction s as [|c s IH]; simpl; [done|]. rewrite IH. f_equal.
  pose proof (all_bytes (λ c, Bool.eqb (bool_decide (lower_byte c = "="%char)) (bool_decide (c = "="%char))) eq_refl c) as Hc.
  by apply eqb_prop in Hc.
Qed.

Lemma blank_no_eq s : blank s = true → contains_byte s "=" = false.
Proof.
  unfold blank. induction s as [|c s IH]; simpl; [done|]. intros [Hc Hs]%andb_true_iff.
  rewrite IH by done. rewrite orb_false_r. apply bool_decide_eq_false. by intros ->.
Qed.

Lemma spells_cut t expr :
  spells t expr → is_ascii expr = true → ∃ key value,
    strings_Cut expr "=" = (key, value, true) ∧ is_ascii key = true ∧ is_ascii value = true ∧
    is_ascii (strings_TrimSpace key) = true ∧ is_ascii (strings_TrimSpace value) = true ∧
    lower (strings_TrimSpace key) = condition t ∧ lower (strings_TrimSpace value) = lower (want t).
Proof.
  intros (Hc & Hw & w1 & key & w2 & w3 & value & w4 & -> & Hb1 & Hb2 & Hb3 & Hb4 & Hk & Hv) Ha.
  rewrite is_ascii_app in Ha. apply andb_true_iff in Ha as [Ha1 Ha2]. simpl in Ha2.
  exists (w1 +:+ key +:+ w2), (w3 +:+ value +:+ w4).
  rewrite (TrimSpace_padded w1 key w2); [|done..|].
  - rewrite (TrimSpace_padded w3 value w4); [|done..|].
    + split_and!; [|done|done| | |done|done].
      * apply strings_Cut_found. split; [done|]. rewrite !contains_byte_app, (blank_no_eq w1), (blank_no_eq w2) by done.
        rewrite <- contains_eq_lower, Hk. destruct Hc as [-> | ->]; reflexivity.
      * rewrite !is_ascii_app in Ha1. by repeat apply andb_true_iff in Ha1 as [? Ha1].
      * rewrite !is_ascii_app in Ha2. by repeat apply andb_true_iff in Ha2 as [? Ha2].
    + rewrite <- spaceless_lower, Hv. destruct Hw as [-> | [-> | ->]]; reflexivity.
  - rewrite <- spaceless_lower, Hk. destruct Hc as [-> | ->]; reflexivity.
Qed.

Lemma parseConditionStatus_spec s cs :
  is_ascii s = true →
  (parseConditionStatus s = Ok cs ↔ cs ∈ conditionStatuses ∧ lower s = lower cs).
Proof.
  intros Hs. unfold parseConditionStatus.
  assert (∀ cs, cs ∈ filter (λ cs, strings_EqualFold s cs = true) conditionStatuses ↔
    cs ∈ conditionStatuses ∧ lower s = lower cs) as Hf.
  { intros c. rewrite list_elem_of_filter, (and_comm (_ ∈ _)).
    unfold strings_EqualFold. rewrite Hs. unfold conditionStatuses. rewrite !elem_of_cons, elem_of_nil.
    split; intros [Hl Hin]; (split; [|done]); destruct Hin as [-> | [-> | [-> | []]]]; simpl in *;
      first [exact (bool_decide_eq_true_1 _ Hl) | exact (bool_decide_eq_true_2 _ Hl)]. }
  destruct (filter _ conditionStatuses) as [|c l].
  - split; [done|]. intros Hcs. apply Hf in Hcs. by apply elem_of_nil in Hcs.
  - destruct (proj1 (Hf c) ltac:(by left)) as [Hin Hl]. split; [by intros [= <-]|].
    intros [Hin' Hl']. f_equal. rewrite Hl in Hl'. clear -Hin Hin' Hl'.
    unfold conditionStatuses in *. rewrite !elem_of_cons, elem_of_nil in *.
    destruct Hin as [-> | [-> | [-> | []]]], Hin' as [-> | [-> | [-> | []]]]; done.
Qed.

Lemma parse_term_spec expr t : is_ascii expr = true → (parse_term expr = Ok t ↔ spells t expr).
Proof.
  intros Ha. split.
  - unfold parse_term. destruct (strings_Cut_missing expr "=") as [(key & value & Hcut)|[-> _]]; [|done].
    rewrite Hcut. simpl negb. cbv iota beta zeta.
    apply strings_Cut_found in Hcut as [-> _]. rewrite is_ascii_app in Ha. simpl in Ha.
    apply andb_true_iff in Ha as [Hka Hva].
    destruct (TrimSpace_split key Hka) as (w1 & w2 & Hkey & Hb1 & Hb2).
    destruct (TrimSpace_split value Hva) as (w3 & w4 & Hvalue & Hb3 & Hb4).
    revert Hkey Hvalue. generalize (strings_TrimSpace key), (strings_TrimSpace value). intros k v -> ->.
    rewrite !is_ascii_app in Hka, Hva. repeat apply andb_true_iff in Hka as [? Hka]. repeat apply andb_true_iff in Hva as [? Hva].
    unfold strings_ToLower. assert (is_ascii k = true) as -> by done.
    destruct (bool_decide (lower k ≠ "ready") && _) eqn:Hk; [done|].
    destruct (parseConditionStatus v) as [cs|err] eqn:Hv; [|done]. intros [= <-].
    apply parseConditionStatus_spec in Hv as [Hcs Hv]; [|done]. split_and!; simpl.
    + rewrite andb_false_iff, !bool_decide_eq_false in Hk. destruct Hk as [Hk|Hk]; apply dec_stable in Hk; auto.
    + unfold conditionStatuses in Hcs. rewrite !elem_of_cons, elem_of_nil in Hcs. tauto.
    + by exists w1, k, w2, w3, v, w4.
  - intros Hsp. pose proof Hsp as (Hc & Hw & _).
    destruct (spells_cut t expr Hsp Ha) as (key & value & Hcut & _ & _ & Hka & Hva & Hk & Hv).
    unfold parse_term. rewrite Hcut. simpl negb. cbv iota beta zeta.
    unfold strings_ToLower. rewrite Hka, Hk.
    assert (bool_decide (condition t ≠ "ready") && bool_decide (condition t ≠ "stalled") = false) as ->.
    { rewrite andb_false_iff, !bool_decide_eq_false. tauto. }
    assert (parseConditionStatus (strings_TrimSpace value) = Ok (want t)) as ->.
    { apply parseConditionStatus_spec; [done|]. split; [|done].
      unfold conditionStatuses. rewrite !elem_of_cons. tauto. }
    by destruct t.
Qed.

Lemma parse_terms_spec exprs terms sel :
  Forall (λ expr, is_ascii expr = true) exprs →
  parse_terms exprs terms = Ok sel ↔ ∃ ts, sel = terms ++ ts ∧ Forall2 spells ts exprs.
Proof.
  intros Ha. revert terms. induction Ha as [|expr exprs Ha _ IH]; intros terms; simpl.
  - split.
    + intros [= <-]. exists []. by rewrite app_nil_r.
    + intros (ts & -> & Hts). apply Forall2_nil_inv_r in Hts as ->. by rewrite app_nil_r.
  - destruct (parse_term expr) as [t|err] eqn:Ht.
    + rewrite IH. apply parse_term_spec in Ht; [|done]. split.
      * intros (ts & -> & Hts). exists (t :: ts). rewrite <- app_assoc. auto.
      * intros (ts & -> & Hts). apply Forall2_cons_inv_r in Hts as (t' & ts' & Ht' & Hts & ->).
        assert (t' = t) as ->.
        { apply (parse_term_spec expr) in Ht, Ht'; congruence. }
        exists ts'. by rewrite <- app_assoc.
    + split; [done|]. intros (ts & -> & Hts). apply Forall2_cons_inv_r in Hts as (t' & ts' & Ht' & _ & _).
      apply (parse_term_spec expr) in Ht'; congruence.
Qed.

(** --status-selector reads back what it means. For ASCII expressions,
    parsing answers a selector exactly when each expression spells, in any case
    and with any white space, one of the terms ready=S or stalled=S with S one of
    True, False and Unknown, and then the selector is those terms in order; any
    other expression is an error, never a filter that is silently dropped. The
    selector matches the rows that satisfy every term. *)
Theorem ParseStatusSelector_spells exprs :
  Forall (λ expr, is_ascii expr = true) exprs →
  (∀ sel, ParseStatusSelector exprs = Ok sel ↔ Forall2 spells sel exprs) ∧
  ((∃ err, ParseStatusSelector exprs = Err err) ↔ ∃ expr, expr ∈ exprs ∧ ∀ t, ¬ spells t expr) ∧
  ∀ sel r, selector_Matches sel r = true ↔
    ∀ t, t ∈ sel → want t = (if decide (condition t = "stalled") then rw_Stalled r else rw_Ready r).
Proof.
  intros Ha. assert (∀ sel, ParseStatusSelector exprs = Ok sel ↔ Forall2 spells sel exprs) as Hok.
  { intros sel. unfold ParseStatusSelector. rewrite parse_terms_spec by done. split.
    - by intros (ts & -> & Hts).
    - intros Hts. by exists sel. }
  split_and!; [done| |].
  - split.
    + intros [err Herr]. assert (¬ ∃ sel, Forall2 spells sel exprs) as Hno.
      { intros [sel Hsel]. apply Hok in Hsel. congruence. }
      clear Hok Herr. induction Ha as [|expr exprs Ha _ IH]; [exfalso; apply Hno; by exists []|].
      destruct (parse_term expr) as [t|err'] eqn:Ht.
      * apply parse_term_spec in Ht; [|done]. destruct IH as (e & He & Hbad).
        { intros [sel Hsel]. apply Hno. exists (t :: sel). auto. }
        exists e. split; [by right|done].
      * exists expr. split; [by left|]. intros t Ht'. apply parse_term_spec in Ht'; congruence.
    + intros (expr & Hin & Hbad). destruct (ParseStatusSelector exprs) as [sel|err]; [|eauto].
      pose proof (proj1 (Hok sel) eq_refl) as Hp. apply list_elem_of_lookup in Hin as [i Hi].
      eapply Forall2_lookup_r in Hp as (t & _ & Ht); [|done]. by apply Hbad in Ht.
  - intros sel r. induction sel as [|t sel IH]; simpl; [set_solver|].
    unfold term_holds at 1. case_bool_decide as Ht.
    + rewrite IH. setoid_rewrite elem_of_cons. naive_solver.
    + split; [done|]. intros Hall. exfalso. apply Ht. symmetry. apply Hall. by left.
Qed.
End selector_spec.

(** ** Concrete expressions *)
Module CliFix.
#[local] Existing Instance Fix.formatting.

(** No case folding beyond ASCII. *)
Definition tables : UnicodeTables := {|
  unicode_ToLower := lower;
  unicode_EqualFold := λ s t, bool_decide (lower s = lower t);
|}.
#[local] Existing Instance tables.

Definition exprs : list string := [" Ready = False "; "stalled=TRUE"].

Example lookup_kinds :
  (LookupKind "CMile", LookupKind "milestones", LookupKind "pods") =
  ((ClusterMilestoneKind, true), (MilestoneKind, true), (OwnerKind_zero, false)).
Proof. vm_compute. reflexivity. Qed.

Lemma ParseStatusSelector_spells_witness :
  Forall2 spells [Build_statusTerm "ready" ConditionFalse; Build_statusTerm "stalled" ConditionTrue] exprs ∧
  ¬ Forall2 spells [Build_statusTerm "ready" ConditionFalse; Build_statusTerm "stalled" ConditionFalse] exprs.
Proof.
  assert (Forall (λ expr, is_ascii expr = true) exprs) as Ha by (repeat constructor).
  pose proof (ParseStatusSelector_spells exprs Ha) as (Hok & _).
  split; [apply Hok; vm_compute; reflexivity|].
  intros Hsp. apply Hok in Hsp. vm_compute in Hsp. discriminate Hsp.
Defined.
End CliFix.
