(* ===== verification/Table.v ===== *)
(** * internal/cli/style.go and table.go

    Glyphs and colours, and the tables milestonectl prints. text/tabwriter is
    modelled with the settings the source gives it: cells are left-aligned in
    columns padded by three spaces, and no flag is set. The writer's escape byte
    0xff is not modelled: no UTF-8 text has one. *)

From S2P Require Import Prelude GoStd ApiV1 K8s Fixtures Status Membership Discovery Normalize Evaluate StatusHelpers Text Cli.
From Stdlib Require Import Ascii.
From stdpp Require Import pretty.

(** ** Definitions *)

(** *** style.go *)

Definition glyph : Type := string.
Definition GlyphReady : glyph := "✔".
Definition GlyphNotReady : glyph := "✗".
Definition GlyphSuspended : glyph := "⏸".
Definition GlyphInProgress : glyph := "◌".
Definition GlyphUnknown : glyph := "?".
Definition GlyphWarning : glyph := "⚠".

Definition ansi (code : string) : string := String "027" "[" +:+ code +:+ "m".
Definition ansiReset : string := ansi "0".
Definition ansiRed : string := ansi "31".
Definition ansiGreen : string := ansi "32".
Definition ansiYellow : string := ansi "33".
Definition ansiCyan : string := ansi "36".
Definition ansiGrey : string := ansi "90".
Definition ansiBold : string := ansi "1".

Definition glyphColour : gmap string string :=
  {[ GlyphReady := ansiGreen; GlyphNotReady := ansiRed; GlyphSuspended := ansiYellow;
     GlyphInProgress := ansiCyan; GlyphUnknown := ansiGrey; GlyphWarning := ansiYellow ]}.

(** [Style]: its Color. *)
Record Style := { Color : bool }.

(** [no_color_env] is the variable NO_COLOR, [terminal] whether the writer is a
    file that is a terminal. *)
Definition NewStyle (no_color_env : string) (terminal noColor : bool) : Style :=
  if noColor || bool_decide (no_color_env ≠ "") then Build_Style false else Build_Style terminal.

Definition paint (s : Style) (code text : string) : string :=
  if negb (Color s) || bool_decide (code = "") || bool_decide (text = "") then text
  else code +:+ text +:+ ansiReset.

(** A read of an absent key is the empty string. *)
Definition Style_Glyph (s : Style) (g : glyph) : string := paint s (default "" (glyphColour !! g)) g.
Definition Bold (s : Style) (text : string) : string := paint s ansiBold text.
Definition Faint (s : Style) (text : string) : string := paint s ansiGrey text.

Definition ConditionGlyph (ready : ConditionStatus) (reason : string) : glyph :=
  if decide (ready = ConditionTrue) then GlyphReady
  else if decide (ready = ConditionFalse) then
    if decide (reason = ReasonResourcesSuspended) then GlyphSuspended else GlyphNotReady
  else if bool_decide (reason = ReasonResourcesInProgress) || bool_decide (reason = ReasonDependenciesInProgress)
  then GlyphInProgress
  else GlyphUnknown.

Definition MemberGlyph (m : Member) : glyph :=
  let st := r_Status (mb_Resource m) in
  if decide (st = CurrentStatus) then
    if r_Suspended (mb_Resource m) then GlyphSuspended else GlyphReady
  else if bool_decide (st = InProgressStatus) || bool_decide (st = TerminatingStatus) then GlyphInProgress
  else if bool_decide (st = FailedStatus) || bool_decide (st = NotFoundStatus) then GlyphNotReady
  else GlyphUnknown.

(** *** text/tabwriter *)

Definition TAB : ascii := "009".
Definition VT : ascii := "011".
Definition FF : ascii := "012".

Definition padding : nat := 3.

(** The cells of a line; the last one is not terminated. *)
Definition split_cells (line : string) : list string := split_on TAB line ≫= split_on VT.

(** A column exists on a line that has a terminated cell there. *)
Definition has_column (column : nat) (line : list string) : bool := bool_decide (column < length line - 1).

Definition pad_right (w : nat) (cell : string) : string :=
  cell +:+ strings_Repeat " " (w - RuneCountInString cell).

(** [writeLines], for one line: the cells of the columns with a width are padded
    to it. *)
Fixpoint write_line (widths : list nat) (line : list string) : string :=
  match line with
  | [] => ""
  | cell :: line =>
      match widths with
      | w :: widths => pad_right w cell +:+ write_line widths line
      | [] => cell +:+ write_line [] line
      end
  end.

(** The lines up to the first that fails [f], and the rest. *)
Fixpoint span {A} (f : A → bool) (l : list A) : list A * list A :=
  match l with
  | [] => ([], [])
  | x :: l' => if f x then let '(a, b) := span f l' in (x :: a, b) else ([], l)
  end.

Definition column_width (column : nat) (lines : list (list string)) : nat :=
  foldr max 0 ((λ line, RuneCountInString (default "" (line !! column)) + padding) <$> lines).

(** [format]: the lines are consecutive and have the columns of [widths]. Each
    call has less to do: it has one column more, or fewer lines. *)
Fixpoint format (fuel : nat) (widths : list nat) (lines : list (list string)) : list string :=
  match fuel with
  | O => []
  | S fuel =>
      let column := length widths in
      let '(unprinted, rest) := span (λ line, negb (has_column column line)) lines in
      (write_line widths <$> unprinted) ++
      match rest with
      | [] => []
      | _ =>
          let '(block, rest) := span (has_column column) rest in
          format fuel (widths ++ [column_width column block]) block ++ format fuel widths rest
      end
  end.

Definition format_fuel (lines : list (list string)) : nat := S (length lines + sum_list_with length lines).

(** The whole text: a form feed ends a line and starts the columns afresh. *)
Definition tabwrite (text : string) : string :=
  strings_Join
    (split_on FF text ≫= λ block,
       let lines := split_cells <$> split_on LF block in format (format_fuel lines) [] lines)
    LF_string.

(** *** table.go *)

(** k8s.io/apimachinery's duration.HumanDuration, of nanoseconds. *)
Class Durations := { HumanDuration : Z → string }.

(** [now.Sub(t)]: the difference saturates at the ends of int64. *)
Definition time_Sub (now t : time) : Z := Z.max (- 2 ^ 63) (Z.min (2 ^ 63 - 1) (now - t)).

Definition Age `{Durations} (t now : time) : string :=
  if decide (t = 0%Z) then "<unknown>" else HumanDuration (Z.max (time_Sub now t) 0).

Definition itoa (n : Z) : string := pretty n.

Definition oneLine (s : string) : string := strings_Join (strings_Fields s) " ".

Record TableOptions := { to_Namespace : bool; to_Wide : bool; to_NoHeaders : bool; to_Now : time }.

Definition Headers (opts : TableOptions) : list string :=
  (if to_Namespace opts then ["NAMESPACE"] else []) ++
  ["NAME"; "READY"; "REASON"; "CURRENT/TOTAL"] ++
  (if to_Wide opts then ["INPROGRESS"; "FAILED"; "NOTFOUND"; "TERMINATING"; "UNKNOWN"; "SUSPENDED"] else []) ++
  ["DEPS"; "STALLED"; "AGE"] ++
  (if to_Wide opts then ["LAST EVALUATED"] else []) ++ ["MESSAGE"].

Definition Cells `{Durations} (opts : TableOptions) (r : Row) : list string :=
  let ready := if rw_Stale r then rw_Ready r +:+ " (stale)" else rw_Ready r in
  let s := rw_Summary r in
  (if to_Namespace opts then [rw_Namespace r] else []) ++
  [rw_Name r; ready; rw_Reason r; itoa (Current s) +:+ "/" +:+ itoa (ApiV1.Total s)] ++
  (if to_Wide opts then
     [itoa (InProgress s); itoa (Failed s); itoa (NotFound s); itoa (Terminating s); itoa (Unknown s);
      itoa (Suspended s)]
   else []) ++
  [itoa (rw_DepsReady r) +:+ "/" +:+ itoa (rw_DepsTotal r); rw_Stalled r; Age (rw_Created r) (to_Now opts)] ++
  (if to_Wide opts then
     [if decide (rw_LastEvaluated r = 0%Z) then "<never>" else Age (rw_LastEvaluated r) (to_Now opts)]
   else []) ++ [oneLine (rw_Message r)].

(** The text Fprintln and strings.Join give tabwriter; a nil header is not
    written. *)
Definition columns_text (header : option (list string)) (rows : list (list string)) : string :=
  concat_runes ((λ r, strings_Join r (String TAB "") +:+ LF_string) <$>
    (match header with Some h => [h] | None => [] end ++ rows)).

(** strings.Lines: the lines of a text with their newlines; a last line without
    one is there unless it is empty. *)
Definition text_lines (s : string) : list string :=
  let pieces := split_on LF s in
  ((λ p, p +:+ LF_string) <$> removelast pieces) ++
  match last pieces with Some "" | None => [] | Some p => [p] end.

Definition trim_line (line : string) : string := strings_TrimRight line [" "%char; LF] +:+ LF_string.

Definition columns (header : option (list string)) (rows : list (list string)) : string :=
  concat_runes (trim_line <$> text_lines (tabwrite (columns_text header rows))).

Section print.
Context {W : Type} `{!Writers W} `{Durations}.

Definition WriteColumns (header : option (list string)) (rows : list (list string)) : M W (option error) :=
  out_Write (columns header rows).

Definition PrintTable (rows : list Row) (opts : TableOptions) : M W (option error) :=
  WriteColumns (if to_NoHeaders opts then None else Some (Headers opts)) (Cells opts <$> rows).
End print.

(** ** The tables of table_test.go *)

Module TableFix.

(** Enough of HumanDuration for the ages below. *)
#[local] Instance durations : Durations := {|
  HumanDuration := λ d,
    let s := (d / 1000000000)%Z in
    if (s <? 120)%Z then pretty s +:+ "s" else if (s <? 7200)%Z then pretty (s / 60)%Z +:+ "m"
    else if (s <? 172800)%Z then pretty (s / 3600)%Z +:+ "h" else pretty (s / 86400)%Z +:+ "d";
|}.

Definition seconds (n : Z) : Z := n * 1000000000.
Definition test_now : time := seconds 1000000.

Definition wave0 : Row :=
  Build_Row "flux-system" "wave-0" ConditionTrue ReasonAllDependenciesReady "all 2 dependencies ready"
    ConditionFalse false (Build_Summary 5 5 0 0 0 0 0 1) 2 2 (test_now - seconds 172800) (test_now - seconds 42).
Definition wave1 : Row :=
  Build_Row "flux-system" "wave-1" ConditionFalse ReasonDependenciesNotReady
    ("not ready:" +:+ LF_string +:+ "helmreleases") ConditionFalse true
    (Build_Summary 3 1 1 1 0 0 0 0) 0 1 (test_now - seconds 300) 0.

Definition table (opts : TableOptions) (rows : list Row) : string :=
  columns (if to_NoHeaders opts then None else Some (Headers opts)) (Cells opts <$> rows).

Example namespaced_table :
  table (Build_TableOptions true false false test_now) [wave0; wave1] =
  "NAMESPACE     NAME     READY           REASON                 CURRENT/TOTAL   DEPS   STALLED   AGE   MESSAGE" +:+ LF_string +:+
  "flux-system   wave-0   True            AllDependenciesReady   5/5             2/2    False     2d    all 2 dependencies ready" +:+ LF_string +:+
  "flux-system   wave-1   False (stale)   DependenciesNotReady   1/3             0/1    False     5m    not ready: helmreleases" +:+ LF_string.
Proof. vm_compute. reflexivity. Qed.

Example wide_table :
  table (Build_TableOptions false true false test_now) [wave0; wave1] =
  "NAME     READY           REASON                 CURRENT/TOTAL   INPROGRESS   FAILED   NOTFOUND   TERMINATING   UNKNOWN   SUSPENDED   DEPS   STALLED   AGE   LAST EVALUATED   MESSAGE" +:+ LF_string +:+
  "wave-0   True            AllDependenciesReady   5/5             0            0        0          0             0         1           2/2    False     2d    42s              all 2 dependencies ready" +:+ LF_string +:+
  "wave-1   False (stale)   DependenciesNotReady   1/3             1            1        0          0             0         0           0/1    False     5m    <never>          not ready: helmreleases" +:+ LF_string.
Proof. vm_compute. reflexivity. Qed.
End TableFix.

(** ** Aligned columns *)

(** A cell is text without the bytes that end cells and lines. *)
Definition clean (s : string) : bool :=
  negb (contains_byte s TAB) && negb (contains_byte s VT) && negb (contains_byte s FF) && negb (contains_byte s LF).

Lemma clean_spec s : clean s = true ↔ ∀ c, c ∈ [TAB; VT; FF; LF] → contains_byte s c = false.
Proof.
  unfold clean. rewrite !andb_true_iff, !negb_true_iff. split.
  - intros [[[? ?] ?] ?] c. rewrite !elem_of_cons. intros [-> | [-> | [-> | [-> | []%elem_of_nil]]]]; done.
  - intros Hc. split_and!; apply Hc; rewrite !elem_of_cons; tauto.
Qed.

Lemma split_on_cons sep a b :
  contains_byte a sep = false → split_on sep (a +:+ String sep b) = a :: split_on sep b.
Proof.
  induction a as [|c a IH]; intros Ha; [rewrite str_app_nil; simpl; by rewrite decide_True|].
  simpl in Ha. apply orb_false_iff in Ha as [Hc Ha]. apply bool_decide_eq_false in Hc.
  rewrite str_app_cons. simpl. rewrite decide_False by done. by rewrite IH.
Qed.

Lemma split_on_one sep a : contains_byte a sep = false → split_on sep a = [a].
Proof.
  induction a as [|c a IH]; intros Ha; [done|].
  simpl in Ha. apply orb_false_iff in Ha as [Hc Ha]. apply bool_decide_eq_false in Hc.
  simpl. rewrite decide_False by done. by rewrite IH.
Qed.

Lemma split_on_join sep (l : list string) :
  l ≠ [] → Forall (λ s, contains_byte s sep = false) l → split_on sep (strings_Join l (String sep "")) = l.
Proof.
  induction l as [|s l IH]; intros Hne Hl; [done|]. apply Forall_cons in Hl as [Hs Hl].
  destruct l as [|s' l]; [by apply split_on_one|].
  change (strings_Join (s :: s' :: l) (String sep "")) with (s +:+ String sep (strings_Join (s' :: l) (String sep ""))).
  rewrite split_on_cons by done. f_equal. by apply IH.
Qed.

(** Lines, each ended by a newline. *)
Definition ended (ls : list string) : string := concat_runes ((λ l, l +:+ LF_string) <$> ls).

Lemma ended_cons l ls : ended (l :: ls) = l +:+ String LF (ended ls).
Proof. unfold ended. rewrite fmap_cons. simpl. by rewrite <- string_app_assoc. Qed.

Lemma split_on_ended ls :
  Forall (λ l, contains_byte l LF = false) ls → split_on LF (ended ls) = ls ++ [""].
Proof.
  induction 1 as [|l ls Hl _ IH]; [done|]. rewrite ended_cons, split_on_cons by done. by rewrite IH.
Qed.

Lemma join_ended ls : strings_Join (ls ++ [""]) LF_string = ended ls.
Proof.
  induction ls as [|l ls IH]; [done|]. rewrite ended_cons, <- IH.
  simpl. by destruct (ls ++ [""]) eqn:E; [destruct ls|].
Qed.

Lemma text_lines_ended ls :
  Forall (λ l, contains_byte l LF = false) ls → text_lines (ended ls) = (λ l, l +:+ LF_string) <$> ls.
Proof.
  intros Hls. unfold text_lines. rewrite split_on_ended by done.
  by rewrite removelast_last, last_snoc, app_nil_r.
Qed.

Lemma contains_join c (l : list string) sep :
  contains_byte sep c = false → Forall (λ s, contains_byte s c = false) l → contains_byte (strings_Join l sep) c = false.
Proof.
  intros Hsep Hl. induction Hl as [|s l Hs Hl IH]; [done|]. destruct l as [|s' l]; [done|].
  change (strings_Join (s :: s' :: l) sep) with (s +:+ sep +:+ strings_Join (s' :: l) sep).
  by rewrite !contains_byte_app, Hs, Hsep, IH.
Qed.

Lemma contains_spaces n c : c ≠ " "%char → contains_byte (strings_Repeat " " n) c = false.
Proof.
  intros Hc. induction n as [|n IH]; [done|]. cbn [strings_Repeat]. rewrite str_app_cons. simpl.
  by rewrite bool_decide_eq_false_2, str_app_nil, IH by congruence.
Qed.

Lemma write_line_no_LF widths line :
  Forall (λ s, contains_byte s LF = false) line → contains_byte (write_line widths line) LF = false.
Proof.
  intros Hl. revert widths. induction Hl as [|s l Hs _ IH]; intros widths; [done|].
  destruct widths as [|w widths]; simpl; unfold pad_right; rewrite !contains_byte_app, Hs, IH; [done|].
  by rewrite contains_spaces.
Qed.

(** *** The layout of a rectangular table *)

(** The widths of the columns from [k] on, for lines of [S n] cells. *)
Definition widths_from (k n : nat) (lines : list (list string)) : list nat :=
  (λ j, column_width j lines) <$> seq k (n - k).

Lemma span_all {A} (f : A → bool) l1 l2 :
  Forall (λ x, f x = true) l1 → match l2 with x :: _ => f x = false | [] => True end → span f (l1 ++ l2) = (l1, l2).
Proof.
  intros Hl1 Hl2. induction Hl1 as [|x l1 Hx _ IH]; simpl.
  - destruct l2; [done|]. simpl. by rewrite Hl2.
  - by rewrite Hx, IH.
Qed.

Lemma format_nil fuel widths : format fuel widths [] = [].
Proof. by destruct fuel. Qed.

Lemma has_column_rect n k (lines : list (list string)) (b : bool) :
  Forall (λ l, length l = S n) lines → bool_decide (k < n) = b → Forall (λ l, has_column k l = b) lines.
Proof.
  intros Hl <-. eapply Forall_impl; [exact Hl|]. intros l Hlen. unfold has_column. rewrite Hlen. simpl.
  by rewrite Nat.sub_0_r.
Qed.

Lemma format_rect n lines fuel widths :
  Forall (λ l, length l = S n) lines → length widths ≤ n → n - length widths < fuel →
  format fuel widths lines = write_line (widths ++ widths_from (length widths) n lines) <$> lines.
Proof.
  intros Hl. revert widths. induction fuel as [|fuel IH]; intros widths Hw Hf; [lia|].
  cbn [format]. destruct (decide (length widths = n)) as [E|E].
  - pose proof (has_column_rect n (length widths) lines false Hl (bool_decide_eq_false_2 (length widths < n) ltac:(lia))) as Hno.
    assert (span (λ line, negb (has_column (length widths) line)) (lines ++ []) = (lines, [])) as Hs.
    { apply span_all; [|done]. eapply Forall_impl; [exact Hno|]. by intros l ->. }
    rewrite app_nil_r in Hs. rewrite Hs. unfold widths_from. rewrite E, Nat.sub_diag. simpl. by rewrite !app_nil_r.
  - pose proof (has_column_rect n (length widths) lines true Hl (bool_decide_eq_true_2 (length widths < n) ltac:(lia))) as Hyes.
    destruct lines as [|l0 lines']; [done|]. set (lines := l0 :: lines') in *.
    assert (span (λ line, negb (has_column (length widths) line)) lines = ([], lines)) as ->.
    { apply (span_all _ [] lines); [done|]. inversion Hyes as [|? ? Hy]. simpl. by rewrite Hy. }
    assert (span (has_column (length widths)) lines = (lines, [])) as Hs.
    { rewrite <- (app_nil_r lines) at 1. by apply span_all. }
    cbn iota beta. subst lines. cbv iota. rewrite Hs, format_nil, app_nil_r. cbn [fmap list_fmap app].
    rewrite IH by (rewrite ?length_app; simpl; lia). rewrite length_app. simpl length.
    rewrite <- app_assoc. f_equal. f_equal. unfold widths_from.
    replace (n - length widths) with (S (n - (length widths + 1))) by lia. simpl. by rewrite Nat.add_1_r.
Qed.

Lemma split_cells_join row :
  row ≠ [] → Forall (λ s, clean s = true) row → split_cells (strings_Join row (String TAB "")) = row.
Proof.
  intros Hne Hrow. unfold split_cells. rewrite split_on_join; [|done|].
  - clear Hne. induction Hrow as [|s row Hs _ IH]; [done|]. rewrite bind_cons, IH.
    rewrite split_on_one; [done|]. apply (proj1 (clean_spec s) Hs). set_solver.
  - eapply Forall_impl; [exact Hrow|]. intros s Hs. apply (proj1 (clean_spec s) Hs). set_solver.
Qed.

Definition rectangular (n : nat) (rows : list (list string)) : Prop :=
  Forall (λ row, length row = S n ∧ Forall (λ s, clean s = true) row) rows.

Lemma format_table n rows :
  rectangular n rows →
  format (format_fuel (rows ++ [[""]])) [] (rows ++ [[""]]) =
  (write_line (widths_from 0 n rows) <$> rows) ++ [""].
Proof.
  intros Hr. assert (Forall (λ l : list string, length l = S n) rows) as Hl.
  { eapply Forall_impl; [exact Hr|]. by intros row [? _]. }
  destruct (decide (n = 0)) as [->|Hn].
  - rewrite (format_rect 0); [|apply Forall_app; split; [done|by repeat constructor]|simpl; lia|simpl; unfold format_fuel; lia].
    by rewrite fmap_app.
  - unfold format_fuel. set (fuel := length (rows ++ [[""]]) + sum_list_with length (rows ++ [[""]])).
    destruct rows as [|row rows]; [done|]. set (lines := row :: rows) in *.
    assert (n < fuel) as Hfuel.
    { subst fuel lines. inversion Hl. rewrite sum_list_with_app, length_app. simpl. lia. }
    cbn [format]. change (length (@nil nat)) with 0.
    pose proof (has_column_rect n 0 lines true Hl (bool_decide_eq_true_2 (0 < n) ltac:(lia))) as Hyes.
    assert (span (λ line, negb (has_column 0 line)) (lines ++ [[""]]) = ([], lines ++ [[""]])) as ->.
    { apply (span_all _ [] (lines ++ [[""]])); [done|]. inversion Hyes as [|? ? Hy]. simpl. by rewrite Hy. }
    assert (span (has_column 0) (lines ++ [[""]]) = (lines, [[""]])) as Hs by (by apply span_all).
    cbn [fmap list_fmap app]. subst lines. cbn [app]. cbv iota. cbn [app] in Hs. rewrite Hs.
    rewrite (format_rect n) by (simpl; first [done|lia]). f_equal.
    cbn [app length]. unfold widths_from. rewrite Nat.sub_0_r. destruct n as [|n]; [done|].
    simpl. by rewrite Nat.sub_0_r.
Qed.

(** The layout in words: each line is the row's cells, all but the last padded
    with spaces to their column's width, stripped of trailing spaces. The width
    of a column is that of its widest cell plus three. *)
Definition aligned_line (rows : list (list string)) (row : list string) : string :=
  trim_line (concat_runes (imap (λ j cell,
    if decide (S j < length row) then pad_right (column_width j rows) cell else cell) row)).

Lemma write_line_imap n k rows row :
  length row = S (n - k) → k ≤ n →
  write_line (widths_from k n rows) row =
  concat_runes (imap (λ j cell, if decide (S j < length row) then pad_right (column_width (k + j) rows) cell else cell) row).
Proof.
  revert k. induction row as [|cell row IH]; intros k Hlen Hk; [done|]. simpl in Hlen.
  cbn [imap concat_runes foldr]. unfold widths_from. destruct (n - k) as [|m] eqn:Em.
  - destruct row; [|done]. done.
  - cbn [seq fmap list_fmap write_line]. rewrite decide_True by (simpl; lia).
    rewrite Nat.add_0_r. fold concat_runes. f_equal.
    pose proof (IH (S k)) as IHk. unfold widths_from in IHk. replace (n - S k) with m in IHk by lia.
    rewrite IHk by lia. unfold concat_runes. f_equal. apply imap_ext. intros j c Hj. unfold compose.
    simpl. rewrite Nat.add_succ_r. apply decide_ext. lia.
Qed.

Lemma columns_rect n header rows :
  rectangular n (match header with Some h => [h] | None => [] end ++ rows) →
  columns header rows =
  concat_runes (aligned_line (match header with Some h => [h] | None => [] end ++ rows) <$>
    (match header with Some h => [h] | None => [] end ++ rows)).
Proof.
  unfold columns, columns_text. generalize (match header with Some h => [h] | None => [] end ++ rows).
  clear header rows. intros rows Hr.
  change (concat_runes ((λ r, strings_Join r (String TAB "") +:+ LF_string) <$> rows))
    with (concat_runes (((λ l, l +:+ LF_string) ∘ (λ r, strings_Join r (String TAB ""))) <$> rows)).
  rewrite list_fmap_compose. fold (ended ((λ r, strings_Join r (String TAB "")) <$> rows)).
  assert (∀ c, c ∈ [VT; FF; LF] → Forall (λ l, contains_byte l c = false)
    ((λ r, strings_Join r (String TAB "")) <$> rows)) as Hjoined.
  { intros c Hc. apply Forall_fmap. eapply Forall_impl; [exact Hr|]. intros row [_ Hrow]. apply contains_join.
    - rewrite !elem_of_cons in Hc. destruct Hc as [-> | [-> | [-> | []%elem_of_nil]]]; done.
    - eapply Forall_impl; [exact Hrow|]. intros s Hs. apply (proj1 (clean_spec s) Hs). by right. }
  assert (contains_byte (ended ((λ r, strings_Join r (String TAB "")) <$> rows)) FF = false) as Hff.
  { unfold ended. specialize (Hjoined FF ltac:(set_solver)). induction Hjoined as [|l ls Hl _ IH]; [done|].
    rewrite fmap_cons. simpl. by rewrite !contains_byte_app, Hl, IH. }
  unfold tabwrite. rewrite split_on_one by done. rewrite bind_cons, app_nil_r.
  rewrite split_on_ended by (apply Hjoined; set_solver). rewrite fmap_app. cbn [fmap list_fmap].
  rewrite <- list_fmap_compose. unfold compose.
  assert ((λ x, split_cells (strings_Join x (String TAB ""))) <$> rows = rows) as ->.
  { rewrite <- (list_fmap_id rows) at 2. apply list_fmap_ext. intros i row Hi.
    eapply Forall_lookup_1 in Hr as [Hlen Hrow]; [|exact Hi]. apply split_cells_join; [|done]. by destruct row. }
  change (split_cells "") with [""]. rewrite (format_table n) by done. rewrite join_ended, text_lines_ended.
  - rewrite <- !list_fmap_compose. f_equal. apply list_fmap_ext. intros i row Hi. unfold compose, aligned_line.
    eapply Forall_lookup_1 in Hr as [Hlen _]; [|exact Hi].
    rewrite (write_line_imap n 0 rows) by (rewrite ?Nat.sub_0_r; first [done|lia]). simpl.
    unfold trim_line, strings_TrimRight. f_equal. f_equal. rewrite list_ascii_app.
    apply drop_right_while_app. repeat constructor.
  - apply Forall_fmap. eapply Forall_impl; [exact Hr|]. intros row [_ Hrow]. apply write_line_no_LF.
    eapply Forall_impl; [exact Hrow|]. intros s Hs. apply (proj1 (clean_spec s) Hs). set_solver.
Qed.

(** *** The cells of a row are clean *)

Lemma clean_app s t : clean (s +:+ t) = clean s && clean t.
Proof.
  unfold clean. rewrite !contains_byte_app, !negb_orb.
  destruct (contains_byte s TAB), (contains_byte s VT), (contains_byte s FF), (contains_byte s LF),
    (contains_byte t TAB), (contains_byte t VT), (contains_byte t FF), (contains_byte t LF); reflexivity.
Qed.

Lemma clean_String c s : clean (String c s) = clean (String c "") && clean s.
Proof. exact (clean_app (String c "") s). Qed.

Lemma clean_pretty_N (n : N) : clean (pretty n) = true.
Proof.
  assert (∀ x s, clean s = true → clean (pretty_N_go x s) = true) as Hgo.
  { intros x. induction (N.lt_wf_0 x) as [x _ IH]. intros s Hs.
    assert (x = 0 ∨ 0 < x)%N as [->|Hx] by lia; [by rewrite pretty_N_go_0|].
    rewrite pretty_N_go_step by done. apply IH; [by apply N.div_lt|].
    rewrite clean_String, Hs, andb_true_r. unfold pretty_N_char. by repeat case_match. }
  unfold pretty, pretty_N. case_decide; [done|]. by apply Hgo.
Qed.

Lemma clean_itoa z : clean (itoa z) = true.
Proof.
  unfold itoa, pretty, pretty_Z. destruct z as [|p|p]; [done|by apply clean_pretty_N|].
  rewrite clean_app. change (clean "-") with true. apply clean_pretty_N.
Qed.

(** A rune is one byte, or has no ASCII byte. *)
Lemma wide_rune_bytes a b t c :
  is_rune (String a (String b t)) = true → is_ascii_byte c = true → contains_byte (String a (String b t)) c = false.
Proof.
  intros Hr Hc.
  assert (∀ x, (128 <= byte_of x)%Z → bool_decide (x = c) = false) as Hne.
  { intros x Hx. apply bool_decide_eq_false. intros ->. unfold is_ascii_byte, in_range in Hc.
    rewrite andb_true_iff, !Z.leb_le in Hc. lia. }
  destruct t as [|x [|y []]]; simpl in Hr; unfold is_cont, in_range in Hr;
    rewrite ?orb_true_iff, ?andb_true_iff, ?Z.leb_le in Hr; simpl; rewrite !Hne by lia; try done.
  all: by repeat case_match.
Qed.

Lemma runes_bytes s : Forall (λ r, (∃ c, r = String c "") ∨ ∀ c, is_ascii_byte c = true → contains_byte r c = false) (runes s).
Proof.
  unfold runes. generalize (String.length s) at 1. intros fuel. revert s.
  induction fuel as [|fuel IH]; intros s; [constructor|]. destruct s as [|a s]; [constructor|].
  cbn [split_runes]. constructor; [|apply IH].
  assert (∀ n, rune_width (String a s) = n → n = 1 ∨ is_rune (String.substring 0 n (String a s)) = true) as Hw.
  { intros n <-. unfold rune_width. repeat case_match; auto. }
  destruct (Hw _ eq_refl) as [-> | Hr].
  - left. exists a. simpl. by destruct s.
  - destruct (String.substring _ _ _) as [|x [|y t]] eqn:E; [done|left; by exists x|].
    right. intros c Hc. by apply wide_rune_bytes.
Qed.

Lemma concat_runes_clean l : Forall (λ r, clean r = true) l → clean (concat_runes l) = true.
Proof. induction 1 as [|r l Hr _ IH]; [done|]. unfold concat_runes in *. simpl. by rewrite clean_app, Hr, IH. Qed.

Lemma fields_from_ok {A} (f : A → bool) cur l :
  Forall (λ x, f x = false) cur → Forall (Forall (λ x, f x = false ∧ (x ∈ cur ∨ x ∈ l))) (fields_from f cur l).
Proof.
  revert cur. induction l as [|x l IH]; intros cur Hcur; simpl.
  - destruct cur as [|y cur]; [constructor|]. constructor; [|constructor]. apply Forall_forall. intros z Hz.
    rewrite elem_of_reverse in Hz. split; [|by left]. by eapply Forall_forall in Hcur.
  - assert (∀ c, Forall (Forall (λ y, f y = false ∧ (y ∈ c ∨ y ∈ l))) (fields_from f c l) →
      (∀ y, y ∈ c → y ∈ cur ∨ y = x) → Forall (Forall (λ y, f y = false ∧ (y ∈ cur ∨ y ∈ x :: l))) (fields_from f c l)) as Hmono.
    { intros c Hc Hin. eapply Forall_impl; [exact Hc|]. intros fs Hfs. eapply Forall_impl; [exact Hfs|].
      intros y [Hy Hy']. split; [done|]. destruct Hy' as [Hy'|Hy']; [|by right; right].
      destruct (Hin y Hy') as [| ->]; [by left|right; by left]. }
    destruct (f x) eqn:Hx.
    + assert (Forall (Forall (λ y, f y = false ∧ (y ∈ cur ∨ y ∈ x :: l))) (fields_from f [] l)) as Hrest.
      { apply Hmono; [by apply IH|]. intros y []%elem_of_nil. }
      destruct cur as [|y cur]; [done|]. constructor; [|done]. apply Forall_forall. intros z Hz.
      rewrite elem_of_reverse in Hz. split; [|by left]. by eapply Forall_forall in Hcur.
    + apply Hmono; [apply IH; by constructor|]. intros y [->|]%elem_of_cons; auto.
Qed.

Lemma clean_oneLine s : clean (oneLine s) = true.
Proof.
  unfold oneLine, strings_Fields.
  assert (Forall (λ f, clean f = true) (concat_runes <$> fields_from IsSpace [] (runes s))) as Hf.
  { apply Forall_fmap. eapply Forall_impl; [by apply fields_from_ok|]. intros fs Hfs. apply concat_runes_clean.
    eapply Forall_impl; [exact Hfs|]. intros r [Hsp [[]%elem_of_nil|Hr]].
    pose proof (proj1 (Forall_forall _ _) (runes_bytes s) r Hr) as [[c ->]|Hc]; apply clean_spec; intros c' Hc'.
    - simpl. rewrite orb_false_r. apply bool_decide_eq_false. intros ->. clear Hr Hfs.
      rewrite !elem_of_cons in Hc'. destruct Hc' as [-> | [-> | [-> | [-> | []%elem_of_nil]]]];
        vm_compute in Hsp; discriminate.
    - apply Hc. rewrite !elem_of_cons in Hc'. by destruct Hc' as [-> | [-> | [-> | [-> | []%elem_of_nil]]]]. }
  apply clean_spec. intros c Hc. apply contains_join.
  - rewrite !elem_of_cons in Hc. by destruct Hc as [-> | [-> | [-> | [-> | []%elem_of_nil]]]].
  - eapply Forall_impl; [exact Hf|]. intros f Hcf. by apply (proj1 (clean_spec f)).
Qed.

Section print_spec.
Context {W : Type} `{!Writers W} `{Durations}.

(** The fields of a row that are printed as they are. *)
Definition clean_row (r : Row) : Prop :=
  Forall (λ s, clean s = true) [rw_Namespace r; rw_Name r; rw_Ready r; rw_Reason r; rw_Stalled r].

Lemma Cells_length opts r : length (Cells opts r) = length (Headers opts).
Proof. unfold Cells, Headers. destruct (to_Namespace opts), (to_Wide opts); reflexivity. Qed.

(** a table is aligned. Headers and Cells agree on the columns for every
    choice of options, so the rows are rectangular; when the fields the API
    validates hold no control characters (the free-text message may hold any),
    PrintTable writes once, and what it writes is one line per row after the
    header line, each the row's cells padded to their column's widest cell plus
    three, with no trailing space. *)
Theorem PrintTable_aligned rows opts w :
  (∀ d, clean (HumanDuration d) = true) → Forall clean_row rows →
  let all := (if to_NoHeaders opts then [] else [Headers opts]) ++ (Cells opts <$> rows) in
  PrintTable rows opts w = out_Write (concat_runes (aligned_line all <$> all)) w ∧
  Forall (λ row, length row = length (Headers opts)) all.
Proof.
  intros Hd Hrows. cbv zeta.
  assert (∀ t, clean (Age t (to_Now opts)) = true) as Hage.
  { intros t. unfold Age. case_decide; [done|]. apply Hd. }
  assert (rectangular (pred (length (Headers opts))) [Headers opts] ∧
    rectangular (pred (length (Headers opts))) (Cells opts <$> rows)) as [Hh Hc].
  { unfold rectangular. split.
    - constructor; [|constructor]. unfold Headers. destruct (to_Namespace opts), (to_Wide opts); (split; [done|]);
        repeat constructor.
    - apply Forall_fmap. eapply Forall_impl; [exact Hrows|]. intros r Hr. unfold compose. split.
      { rewrite Cells_length. unfold Headers. by destruct (to_Namespace opts), (to_Wide opts). }
      repeat (apply Forall_cons in Hr as [? Hr]). unfold Cells. rewrite !Forall_app. split_and!.
      + destruct (to_Namespace opts); by repeat constructor.
      + repeat constructor; try done; [destruct (rw_Stale r); [by rewrite clean_app, andb_true_iff|done]|].
        by rewrite !clean_app, !clean_itoa.
      + destruct (to_Wide opts); repeat constructor; apply clean_itoa.
      + repeat constructor; [by rewrite !clean_app, !clean_itoa|done|apply Hage].
      + destruct (to_Wide opts); repeat constructor. case_decide; [done|apply Hage].
      + repeat constructor. apply clean_oneLine. }
  split.
  - unfold PrintTable, WriteColumns. rewrite (columns_rect (pred (length (Headers opts)))).
    + by destruct (to_NoHeaders opts).
    + destruct (to_NoHeaders opts); [done|]. by apply Forall_app.
  - apply Forall_app. split.
    + destruct (to_NoHeaders opts); by repeat constructor.
    + apply Forall_fmap, Forall_true. intros r. apply Cells_length.
Qed.
End print_spec.

(** ** A concrete table *)
Module TableRun.
Import TableFix.
#[local] Existing Instance TableFix.durations.

(** A writer that keeps what it is given. *)
#[local] Instance stdout : Writers string := {|
  out_Write := λ s w, (None, w +:+ s);
  err_Write := λ s w, (None, w);
|}.

Lemma durations_clean d : clean (HumanDuration d) = true.
Proof.
  simpl. repeat case_match; rewrite clean_app; apply andb_true_iff; (split; [|done]);
    first [apply (clean_itoa (_ / _)%Z)|apply clean_itoa].
Qed.

Definition one_table : TableOptions := Build_TableOptions true false false test_now.

Lemma PrintTable_aligned_witness :
  Forall clean_row [wave0; wave1] ∧
  PrintTable [wave0; wave1] one_table "" =
    (None, "NAMESPACE     NAME     READY           REASON                 CURRENT/TOTAL   DEPS   STALLED   AGE   MESSAGE" +:+ LF_string +:+
           "flux-system   wave-0   True            AllDependenciesReady   5/5             2/2    False     2d    all 2 dependencies ready" +:+ LF_string +:+
           "flux-system   wave-1   False (stale)   DependenciesNotReady   1/3             0/1    False     5m    not ready: helmreleases" +:+ LF_string).
Proof.
  assert (Forall clean_row [wave0; wave1]) as Hrows by (repeat constructor).
  split; [exact Hrows|].
  rewrite (proj1 (PrintTable_aligned [wave0; wave1] one_table "" durations_clean Hrows)).
  vm_compute. reflexivity.
Defined.
End TableRun.
