(* ===== verification/App.v ===== *)
(** * cmd/milestonectl/root.go

    The state every command shares and the clients it hands out. The client
    factory, the dynamic client's resources and the typed client are classes of
    operations on the world [W]; [Clients.v] has the factory of the running
    program, and [Root.v] cobra's commands and flags. *)

From S2P Require Import Prelude GoStd ApiV1 K8s Fixtures Status Membership Discovery Normalize Evaluate Text Cli Table.

(** ** Definitions *)

(** time.Minute. *)
Definition resolverTTL : Z := 60 * 1000000000.

(** dynamic.ResourceInterface: a resource in one namespace, or in all. *)
Record ResourceInterface := { ri_gvr : GroupVersionResource; ri_namespace : string }.

(** Get, and List with no options: the items and the list's resourceVersion. *)
Class ResourceAPI (W : Type) `{UnstructuredAPI} := {
  ri_Get : ResourceInterface → string → M W (result Unstructured);
  ri_List : ResourceInterface → M W (result (list Unstructured * string));
}.

(** apimeta.RESTMapper, with the methods the evaluator does not call;
    [cm_Scope] is the scope of the mapping RESTMapping answers. *)
Record cli_RESTMapper (W : Type) := {
  cm_mapper : RESTMapper W;
  cm_ResourceFor : GroupVersionResource → M W (result GroupVersionResource);
  cm_KindFor : GroupVersionResource → M W (result GroupVersionKind);
  cm_Scope : GroupKind → string → M W (result RESTScopeName);
}.
Arguments cm_mapper {_} _.
Arguments cm_ResourceFor {_} _ _.
Arguments cm_KindFor {_} _ _.
Arguments cm_Scope {_} _ _ _.

(** What version.go reads of an apps/v1 Deployment: the images of its
    containers. *)
Record Deployment := { dpl_Namespace : string; dpl_Name : string; dpl_Images : list string }.

(** [clientFactory]. A dynamic or typed client that could be built is the
    world's; [new_Resolver] is NewResolver over WrapClient of a discovery client,
    with a TTL. *)
Class clientFactory (W : Type) := {
  discovery_client : Type;
  cf_Dynamic : M W (result unit);
  cf_Discovery : M W (result discovery_client);
  cf_RESTMapper : M W (result (cli_RESTMapper W));
  cf_Kube : M W (result unit);
  cf_DefaultNamespace : M W (result string);
  new_Resolver : discovery_client → Z → Resolver W;
  kube_ListNamespaces : string → M W (result (list string));
  kube_ListDeployments : string → M W (result (list Deployment));
}.

Section app.
Context {W : Type} `{LabelsAPI} `{!clientFactory W}.

(** [app]: its name, the --namespace and --no-color flags, its clock, and what
    NewStyle reads of the environment and of its two writers. *)
Record app := {
  app_name : string;
  flag_Namespace : string;
  app_noColor : bool;
  app_now : M W time;
  env_NO_COLOR : string;
  out_terminal : bool;
  err_terminal : bool;
}.

Definition app_style (a : app) : Style := NewStyle (env_NO_COLOR a) (out_terminal a) (app_noColor a).
(** NewStyle(a.errOut, a.noColor). *)
Definition err_style (a : app) : Style := NewStyle (env_NO_COLOR a) (err_terminal a) (app_noColor a).

Definition app_namespace (a : app) : M W (result string) :=
  if decide (flag_Namespace a ≠ "") then mret (Ok (flag_Namespace a)) else cf_DefaultNamespace.

Definition scoped (a : app) (gvr : GroupVersionResource) (namespaced : bool)
    : M W (result (ResourceInterface * string)) :=
  dyn ← cf_Dynamic;
  match dyn with
  | Err err => mret (Err err)
  | Ok _ =>
      if negb namespaced then mret (Ok (Build_ResourceInterface gvr NamespaceAll, ""))
      else
        ns ← app_namespace a;
        mret match ns with
             | Err err => Err err
             | Ok ns => Ok (Build_ResourceInterface gvr ns, ns)
             end
  end.

Definition namespaceLister : M W (result (NamespaceLister (W := W))) :=
  kube ← cf_Kube;
  mret match kube with
       | Err err => Err err
       | Ok _ => Ok (λ sel, kube_ListNamespaces (Selector_String sel))
       end.

Definition app_resolver : M W (result (Resolver W)) :=
  dc ← cf_Discovery;
  mret match dc with
       | Err err => Err err
       | Ok dc => Ok (new_Resolver dc resolverTTL)
       end.

Definition evaluator (a : app) : M W (result (Evaluator (W := W))) :=
  resolver ← app_resolver;
  match resolver with
  | Err err => mret (Err err)
  | Ok resolver =>
      mapper ← cf_RESTMapper;
      match mapper with
      | Err err => mret (Err err)
      | Ok mapper =>
          dyn ← cf_Dynamic;
          match dyn with
          | Err err => mret (Err err)
          | Ok _ =>
              nsLister ← namespaceLister;
              mret match nsLister with
                   | Err err => Err err
                   | Ok nsLister =>
                       Ok (Build_Evaluator (Some resolver) (Some (cm_mapper mapper)) (Some nsLister)
                             (Some (app_now a)))
                   end
          end
      end
  end.
End app.
Arguments app : clear implicits.
