(* ===== verification/Get.v ===== *)
(** * cmd/milestonectl/get.go

    Listing, filtering and following the recorded status of the owners. A watch's
    channel is the list of the events it delivers before it closes or the context
    is done; following watches without end takes fuel, one unit a watch. *)

From S2P Require Import Prelude GoStd ApiV1 K8s Fixtures Status Membership Discovery Normalize Evaluate Text Cli Table App.

(** ** Definitions *)

(** time.Second. *)
Definition watchBackoff : Z := 1000000000.

Record getOptions := {
  go_allNamespaces : bool;
  go_statusSelector : list string;
  go_watch : bool;
  go_output : OutputFlag;
}.

(** watch.EventType. *)
Definition watch_Added : string := "ADDED".
Definition watch_Modified : string := "MODIFIED".
Definition watch_Deleted : string := "DELETED".
Definition watch_Bookmark : string := "BOOKMARK".
Definition watch_Error : string := "ERROR".

Inductive event_object `{UnstructuredAPI} :=
  | AnObject (u : Unstructured)
  | AnotherObject (text : string).

Record event `{UnstructuredAPI} := { we_Type : string; we_Object : event_object }.
Arguments Build_event {_} _ _.

(** metav1.ListOptions of a watch, and a watch: the events it delivers. *)
Class WatchAPI (W : Type) `{UnstructuredAPI} := {
  (** the resource, the resourceVersion and the field selector *)
  ri_Watch : ResourceInterface → string → string → M W (result (list event));
  watch_Stop : M W unit;
  (** ctx.Err() is not nil *)
  ctx_done : M W bool;
  sleepCtx : Z → M W unit;
  (** apierrors *)
  FromObject : event_object → error;
  IsResourceExpired : error → bool;
  IsGone : error → bool;
  (** fields.OneTermEqualSelector(key, value).String() *)
  OneTermEqualSelector : string → string → string;
}.

Section get.
Context {W : Type} `{LabelsAPI} `{UnstructuredAPI} `{!OwnerObjects} `{ConditionsAPI} `{ApiErrors} `{Formatting}
  `{UnicodeTables} `{Durations}.
Context `{!clientFactory W} `{!ResourceAPI W} `{!Writers W}.

Record listing := {
  ls_kind : OwnerKind;
  ls_owners : list cli_Owner;
  ls_namespace : string;
  ls_resourceVersion : string;
}.

Definition resource (o : getOptions) (a : app W) (k : OwnerKind) : M W (result (ResourceInterface * string)) :=
  scoped a (GVR k) (kd_Namespaced k && negb (go_allNamespaces o)).

Definition tableOptions (o : getOptions) (a : app W) (k : OwnerKind) (noHeaders : bool) : M W TableOptions :=
  now ← app_now a;
  mret (Build_TableOptions (kd_Namespaced k && go_allNamespaces o)
          (bool_decide (OutputFlag_String (go_output o) = OutputWide)) noHeaders now).

Definition notFoundMessage (k : OwnerKind) (ns : string) : string :=
  if decide (ns = "") then "no " +:+ kd_Kind k +:+ " objects found"
  else "no " +:+ kd_Kind k +:+ " objects found in " +:+ Quote ns +:+ " namespace".

Definition notFoundError (k : OwnerKind) (ns name : string) : error :=
  fmt_Errorf
    (if decide (ns = "") then kd_Kind k +:+ " " +:+ Quote name +:+ " not found"
     else kd_Kind k +:+ " " +:+ Quote name +:+ " not found in " +:+ Quote ns +:+ " namespace") [].

(** *** fetch *)

(** The loop over the items. *)
Fixpoint decode_matching (k : OwnerKind) (sel : StatusSelector) (items : list Unstructured)
    (owners : list cli_Owner) : result (list cli_Owner) :=
  match items with
  | [] => Ok owners
  | u :: items =>
      match Decode k u with
      | Err err => Err err
      | Ok owner =>
          decode_matching k sel items (if selector_Matches sel (owner_Row owner) then owners ++ [owner] else owners)
      end
  end.

Definition fetch_items (ri : ResourceInterface) (k : OwnerKind) (ns name : string)
    : M W (result (list Unstructured * string)) :=
  if decide (name ≠ "") then
    u ← ri_Get ri name;
    mret match u with
         | Ok u => Ok ([u], GetResourceVersion u)
         | Err err => if IsNotFound err then Err (notFoundError k ns name) else Err err
         end
  else
    l ← ri_List ri;
    mret match l with
         | Ok l => Ok l
         | Err err => Err (fmt_Errorf ("list " +:+ kd_Plural k +:+ ": " +:+ err_Error err) [err])
         end.

Definition fetch (ri : ResourceInterface) (k : OwnerKind) (ns name : string) (sel : StatusSelector)
    : M W (result listing) :=
  res ← fetch_items ri k ns name;
  mret match res with
       | Err err => Err err
       | Ok (items, resourceVersion) =>
           match decode_matching k sel items [] with
           | Err err => Err err
           | Ok owners => Ok (Build_listing k owners ns resourceVersion)
           end
       end.

(** *** What the watch prints *)

(** The values [seen] holds: a resourceVersion or a row. *)
Inductive watch_key := KeyVersion (rv : string) | KeyRow (r : Row).

#[export] Instance watch_key_eq_dec : EqDecision watch_key.
Proof. solve_decision. Defined.

Definition forget_LastEvaluated (r : Row) : Row :=
  Build_Row (rw_Namespace r) (rw_Name r) (rw_Ready r) (rw_Reason r) (rw_Message r) (rw_Stalled r) (rw_Stale r)
    (rw_Summary r) (rw_DepsReady r) (rw_DepsTotal r) (rw_Created r) 0.

Definition watchKey (o : getOptions) (owner : cli_Owner) : watch_key :=
  if Structured (go_output o) then KeyVersion (GetResourceVersion (ow_Object owner))
  else
    let r := owner_Row owner in
    KeyRow (if decide (OutputFlag_String (go_output o) ≠ OutputWide) then forget_LastEvaluated r else r).

Context `{!Marshal Unstructured} `{!Marshal (ListDocument Unstructured)} `{YAML}.

Definition printWatched (o : getOptions) (a : app W) (owner : cli_Owner) : M W (option error) :=
  let format := OutputFlag_String (go_output o) in
  if decide (format = OutputYAML) then
    err ← out_Write ("---" +:+ LF_string);
    match err with
    | Some err => mret (Some err)
    | None => PrintStructured format (ow_Object owner)
    end
  else if decide (format = OutputJSON) then PrintStructured format (ow_Object owner)
  else
    opts ← tableOptions o a (ow_Kind owner) true;
    PrintTable [owner_Row owner] opts.

Definition object_key (u : Unstructured) : string := GetNamespace u +:+ "/" +:+ GetName u.

Context `{!WatchAPI W}.

(** What drain answers, with the map it shares with its caller. *)
Record drained := {
  dr_seen : gmap string watch_key;
  dr_next : string;
  dr_delivered : bool;
  dr_err : option error;
}.

Definition watch_failed (k : OwnerKind) (err : error) : error :=
  fmt_Errorf ("watch " +:+ kd_Plural k +:+ ": " +:+ err_Error err) [err].

Fixpoint drain (o : getOptions) (a : app W) (w : list event) (k : OwnerKind) (sel : StatusSelector)
    (seen : gmap string watch_key) (rv : string) (delivered : bool) : M W drained :=
  match w with
  | [] => mret (Build_drained seen rv delivered None)
  | ev :: w =>
      if decide (we_Type ev = watch_Error) then
        let err := FromObject (we_Object ev) in
        mret (if IsResourceExpired err || IsGone err then Build_drained seen "" true None
              else Build_drained seen rv true (Some (watch_failed k err)))
      else
        match we_Object ev with
        | AnotherObject _ => drain o a w k sel seen rv true
        | AnObject u =>
            let rv := GetResourceVersion u in
            let key := object_key u in
            if decide (we_Type ev = watch_Deleted) then drain o a w k sel (delete key seen) rv true
            else
              match Decode k u with
              | Err err => mret (Build_drained seen rv true (Some err))
              | Ok owner =>
                  let wk := watchKey o owner in
                  if negb (selector_Matches sel (owner_Row owner)) || bool_decide (seen !! key = Some wk)
                  then drain o a w k sel seen rv true
                  else
                    err ← printWatched o a owner;
                    match err with
                    | Some err => mret (Build_drained (<[key := wk]> seen) rv true (Some err))
                    | None => drain o a w k sel (<[key := wk]> seen) rv true
                    end
              end
        end
  end.

Definition seen_listed (o : getOptions) (owners : list cli_Owner) : gmap string watch_key :=
  foldl (λ seen owner, <[object_key (ow_Object owner) := watchKey o owner]> seen) ∅ owners.

(** The loop of watchKind. *)
Fixpoint watch_loop (fuel : nat) (o : getOptions) (a : app W) (ri : ResourceInterface) (k : OwnerKind)
    (sel : StatusSelector) (fieldSelector : string) (seen : gmap string watch_key) (rv : string)
    : MO W (option error) :=
  match fuel with
  | O => λ _, None
  | S fuel =>
      w ← run_M (ri_Watch ri rv fieldSelector);
      match w with
      | Err err =>
          done ← run_M ctx_done;
          mret (if (done : bool) then None else Some (watch_failed k err))
      | Ok w =>
          d ← run_M (drain o a w k sel seen rv false);
          run_M watch_Stop;;
          done ← run_M ctx_done;
          if (done : bool) then mret None
          else
            match dr_err d with
            | Some err => mret (Some err)
            | None =>
                if dr_delivered d then watch_loop fuel o a ri k sel fieldSelector (dr_seen d) (dr_next d)
                else
                  run_M (sleepCtx watchBackoff);;
                  done ← run_M ctx_done;
                  if (done : bool) then mret None
                  else watch_loop fuel o a ri k sel fieldSelector (dr_seen d) (dr_next d)
            end
      end
  end.

Definition watchKind (fuel : nat) (o : getOptions) (a : app W) (ri : ResourceInterface) (l : listing)
    (name : string) (sel : StatusSelector) : MO W (option error) :=
  watch_loop fuel o a ri (ls_kind l) sel
    (if decide (name ≠ "") then OneTermEqualSelector "metadata.name" name else "")
    (seen_listed o (ls_owners l)) (ls_resourceVersion l).

(** *** The commands *)

Definition rows (owners : list cli_Owner) : list Row := owner_Row <$> owners.
Definition objects (owners : list cli_Owner) : list Unstructured := ow_Object <$> owners.

Definition print_listing (o : getOptions) (a : app W) (k : OwnerKind) (ns name : string) (l : listing)
    : M W (option error) :=
  let format := OutputFlag_String (go_output o) in
  if Structured (go_output o) then
    match ls_owners l with
    | [owner] => if decide (name ≠ "") then PrintStructured format (ow_Object owner)
                 else PrintStructured format (NewList (objects (ls_owners l)))
    | _ => PrintStructured format (NewList (objects (ls_owners l)))
    end
  else if bool_decide (ls_owners l = []) && negb (go_watch o) then err_Write (notFoundMessage k ns +:+ LF_string)
  else
    opts ← tableOptions o a k false;
    PrintTable (rows (ls_owners l)) opts.

Definition runKind (fuel : nat) (o : getOptions) (a : app W) (k : OwnerKind) (name : string)
    : MO W (option error) :=
  match ParseStatusSelector (go_statusSelector o) with
  | Err err => mret (Some err)
  | Ok sel =>
      if bool_decide (name ≠ "") && go_allNamespaces o && kd_Namespaced k then
        mret (Some (errors_New "a resource cannot be retrieved by name across all namespaces"))
      else
        res ← run_M (resource o a k);
        match res with
        | Err err => mret (Some err)
        | Ok (ri, ns) =>
            l ← run_M (fetch ri k ns name sel);
            match l with
            | Err err => mret (Some err)
            | Ok l =>
                err ← run_M (print_listing o a k ns name l);
                match err with
                | Some err => mret (Some err)
                | None => if go_watch o then watchKind fuel o a ri l name sel else mret None
                end
            end
        end
  end.

(** rs[i].Name = k.Singular + "/" + rs[i].Name *)
Definition prefix_name (k : OwnerKind) (r : Row) : Row :=
  Build_Row (rw_Namespace r) (kd_Singular k +:+ "/" +:+ rw_Name r) (rw_Ready r) (rw_Reason r) (rw_Message r)
    (rw_Stalled r) (rw_Stale r) (rw_Summary r) (rw_DepsReady r) (rw_DepsTotal r) (rw_Created r)
    (rw_LastEvaluated r).

(** The loop of runAll over the kinds: the objects gathered and the tables
    printed, or the error that ends the command. *)
Fixpoint run_kinds (o : getOptions) (a : app W) (sel : StatusSelector) (kinds : list OwnerKind)
    (all : list Unstructured) (printed : nat) : M W (result (list Unstructured * nat)) :=
  match kinds with
  | [] => mret (Ok (all, printed))
  | k :: kinds =>
      res ← resource o a k;
      match res with
      | Err err => mret (Err err)
      | Ok (ri, ns) =>
          l ← fetch ri k ns "" sel;
          match l with
          | Err err => mret (Err err)
          | Ok l =>
              if Structured (go_output o) then run_kinds o a sel kinds (all ++ objects (ls_owners l)) printed
              else if decide (ls_owners l = []) then run_kinds o a sel kinds all printed
              else
                (if decide (0 < printed) then out_Write LF_string else mret None);;
                opts ← tableOptions o a k false;
                err ← PrintTable (prefix_name k <$> rows (ls_owners l)) opts;
                match err with
                | Some err => mret (Err err)
                | None => run_kinds o a sel kinds all (S printed)
                end
          end
      end
  end.

Definition runAll (o : getOptions) (a : app W) : M W (option error) :=
  if go_watch o then mret (Some (errors_New "--watch is not supported with 'get all'; watch one kind at a time"))
  else
    match ParseStatusSelector (go_statusSelector o) with
    | Err err => mret (Some err)
    | Ok sel =>
        res ← run_kinds o a sel Kinds [] 0;
        match res with
        | Err err => mret (Some err)
        | Ok (all, printed) =>
            if Structured (go_output o) then PrintStructured (OutputFlag_String (go_output o)) (NewList all)
            else if decide (printed = 0) then
              err_Write ("no Milestone or ClusterMilestone objects found" +:+ LF_string)
            else mret None
        end
    end.
End get.

(** ** What is fetched *)

Section fetch_spec.
Context {W : Type} `{LabelsAPI} `{UnstructuredAPI} `{!OwnerObjects} `{ConditionsAPI} `{ApiErrors} `{Formatting}
  `{!ResourceAPI W}.

(** The status an owner records for a condition, absent ones reading Unknown. *)
Definition recorded_status (o : cli_Owner) (type : string) : ConditionStatus :=
  match FindStatusCondition (Conditions (owner_Status o)) type with
  | Some c => c_Status c
  | None => ConditionUnknown
  end.

(** A term about an owner. *)
Definition term_of_owner (o : cli_Owner) (t : statusTerm) : Prop :=
  recorded_status o (if decide (condition t = "stalled") then ConditionStalled else ConditionReady) = want t.

#[export] Instance term_of_owner_dec o t : Decision (term_of_owner o t).
Proof. unfold term_of_owner. apply _. Defined.

Lemma selector_Matches_owner sel o :
  selector_Matches sel (owner_Row o) = true ↔ Forall (term_of_owner o) sel.
Proof.
  induction sel as [|t sel IH]; simpl; [by split|]. rewrite Forall_cons, <- IH.
  unfold term_holds, term_of_owner, recorded_status, owner_Row.
  destruct (decide (condition t = "stalled")), (FindStatusCondition _ ConditionReady),
    (FindStatusCondition _ ConditionStalled); cbn [rw_Ready rw_Stalled]; case_bool_decide; naive_solver.
Qed.

Lemma decode_matching_spec k sel items acc :
  match decode_matching k sel items acc with
  | Ok owners => ∃ all, Forall2 (λ u o, Decode k u = Ok o) items all ∧
      owners = acc ++ filter (λ o, Forall (term_of_owner o) sel) all
  | Err err => ∃ u, u ∈ items ∧ Decode k u = Err err
  end.
Proof.
  revert acc. induction items as [|u items IH]; intros acc; simpl.
  - exists []. split; [constructor|]. by rewrite app_nil_r.
  - destruct (Decode k u) as [o|err] eqn:Hu; [|exists u; split; [by left|done]].
    specialize (IH (if selector_Matches sel (owner_Row o) then acc ++ [o] else acc)).
    destruct (decode_matching _ _ _ _) as [owners|err].
    + destruct IH as (all & Hall & ->). exists (o :: all). split; [by constructor|].
      rewrite filter_cons. pose proof (selector_Matches_owner sel o) as Ho.
      destruct (selector_Matches sel (owner_Row o)); case_decide as Hd; try naive_solver.
      by rewrite <- app_assoc.
    + destruct IH as (u' & Hu' & He). exists u'. split; [by right|done].
Qed.

(** get shows exactly the objects the selector asks for. Listing answers, in
    the server's order, the decoded owners whose recorded Ready (or Stalled)
    condition has the status every term wants, an absent condition reading
    Unknown, and the list's resourceVersion for the watch to start from; it fails
    only when the list fails or an item does not decode. Getting one object by
    name is the same for the one item, and an object that is not there is an
    error, not an empty listing. *)
Theorem fetch_selects ri k ns name sel w :
  match fetch ri k ns name sel w with
  | (Ok l, w') =>
      ls_kind l = k ∧ ls_namespace l = ns ∧ ∃ items all,
        (if decide (name = "") then ri_List ri w = (Ok (items, ls_resourceVersion l), w')
         else ∃ u, items = [u] ∧ ri_Get ri name w = (Ok u, w') ∧ ls_resourceVersion l = GetResourceVersion u) ∧
        Forall2 (λ u o, Decode k u = Ok o) items all ∧
        ls_owners l = filter (λ o, Forall (term_of_owner o) sel) all
  | (Err err, w') =>
      if decide (name = "") then
        (∃ cause, ri_List ri w = (Err cause, w') ∧
           err = fmt_Errorf ("list " +:+ kd_Plural k +:+ ": " +:+ err_Error cause) [cause]) ∨
        (∃ items rv u, ri_List ri w = (Ok (items, rv), w') ∧ u ∈ items ∧ Decode k u = Err err)
      else
        (∃ cause, ri_Get ri name w = (Err cause, w') ∧
           err = if IsNotFound cause then notFoundError k ns name else cause) ∨
        (∃ u, ri_Get ri name w = (Ok u, w') ∧ Decode k u = Err err)
  end.
Proof.
  unfold fetch, fetch_items. unfold_M. destruct (decide (name = "")) as [->|Hname].
  - rewrite decide_False by tauto. destruct (ri_List ri w) as [[[items rv]|cause] w']; simpl.
    + pose proof (decode_matching_spec k sel items []) as Hd.
      destruct (decode_matching k sel items []) as [owners|err]; simpl.
      * destruct Hd as (all & Hall & ->). split_and!; [done..|]. by exists items, all.
      * destruct Hd as (u & Hu & He). right. by exists items, rv, u.
    + left. by exists cause.
  - rewrite decide_True by done. destruct (ri_Get ri name w) as [[u|cause] w']; cbn -[decode_matching].
    + pose proof (decode_matching_spec k sel [u] []) as Hd.
      destruct (decode_matching k sel [u] []) as [owners|err].
      * destruct Hd as (all & Hall & ->). split_and!; [done..|]. exists [u], all.
        split_and!; [|done..]. by exists u.
      * destruct Hd as (u' & ->%list_elem_of_singleton & He). right. by exists u.
    + destruct (IsNotFound cause) eqn:Hnf; left; exists cause; by rewrite Hnf.
Qed.
End fetch_spec.

(** ** What a watch shows *)

(** The elements that differ from the one before; [None] forgets the last. *)
Fixpoint changes {A} `{EqDecision A} (prev : option A) (l : list (option A)) : list A :=
  match l with
  | [] => []
  | None :: l => changes None l
  | Some x :: l => if decide (prev = Some x) then changes prev l else x :: changes (Some x) l
  end.

Definition latest {A} (prev : option A) (l : list (option A)) : option A := foldl (λ _ x, x) prev l.

Section watch_spec.
Context {W : Type} `{LabelsAPI} `{UnstructuredAPI} `{!OwnerObjects} `{ConditionsAPI} `{ApiErrors} `{Formatting}
  `{UnicodeTables} `{Durations}.
Context `{!clientFactory W} `{!ResourceAPI W} `{!Writers W} `{!Marshal Unstructured}
  `{!Marshal (ListDocument Unstructured)} `{YAML} `{!WatchAPI W}.
Context (o : getOptions) (a : app W) (k : OwnerKind) (sel : StatusSelector).

(** An event that is no error, about an object that decodes. *)
Definition readable (ev : event) : Prop :=
  we_Type ev ≠ watch_Error ∧
  ∀ u, we_Object ev = AnObject u → we_Type ev ≠ watch_Deleted → ∃ owner, Decode k u = Ok owner.

(** What an event says about the object [key]: it is gone, or the selector
    matches it and what is printed for it is this. *)
Definition object_news (key : string) (ev : event) : list (option watch_key) :=
  match we_Object ev with
  | AnotherObject _ => []
  | AnObject u =>
      if decide (object_key u = key) then
        if decide (we_Type ev = watch_Deleted) then [None]
        else match Decode k u with
             | Ok owner => if decide (Forall (term_of_owner owner) sel) then [Some (watchKey o owner)] else []
             | Err _ => []
             end
      else []
  end.

Definition news (key : string) (ev : event) : list (option watch_key) :=
  if decide (we_Type ev = watch_Error) then [] else object_news key ev.

(** The resourceVersion of the last object. *)
Definition resume (rv : string) (ev : event) : string :=
  match we_Object ev with AnObject u => GetResourceVersion u | AnotherObject _ => rv end.

(** Printing owners one after the other. *)
Definition print_all (shown : list cli_Owner) (w : W) : W :=
  foldl (λ w owner, (printWatched o a owner w).2) w shown.

Definition object_of (owner : cli_Owner) : string := object_key (ow_Object owner).

Lemma Decode_object u owner : Decode k u = Ok owner → ow_Object owner = u.
Proof. unfold Decode. destruct (kd_Namespaced k); repeat case_match; by intros [= <-]. Qed.

(** How [drain] ends once the readable events are read: the watch closed, or an
    expired resourceVersion. *)
Definition ends_watch (rest : list event) : Prop :=
  rest = [] ∨ ∃ ev, rest = [ev] ∧ we_Type ev = watch_Error ∧
    IsResourceExpired (FromObject (we_Object ev)) || IsGone (FromObject (we_Object ev)) = true.

Lemma drain_run evs rest seen rv delivered w :
  Forall readable evs → ends_watch rest → (∀ owner v, (printWatched o a owner v).1 = None) →
  ∃ shown seen',
    drain o a (evs ++ rest) k sel seen rv delivered w =
      (Build_drained seen' (match rest with [] => foldl resume rv evs | _ => "" end)
         (delivered || bool_decide (evs ++ rest ≠ [])) None, print_all shown w) ∧
    (∀ key, watchKey o <$> filter (λ owner, object_of owner = key) shown = changes (seen !! key) (evs ≫= news key)) ∧
    (∀ key, seen' !! key = latest (seen !! key) (evs ≫= news key)) ∧
    Forall (λ owner, Forall (term_of_owner owner) sel) shown.
Proof.
  intros Hevs Hrest Hprint. revert seen rv delivered w. induction Hevs as [|ev evs [Hne Hdec] _ IH]; intros seen rv delivered w.
  - exists [], seen. split; [|done]. destruct Hrest as [->|(ev & -> & Herr & Hexp)]; simpl.
    + by rewrite orb_false_r.
    + rewrite decide_True by done. rewrite Hexp, orb_true_r. done.
  - rewrite bool_decide_eq_true_2, orb_true_r by done.
    assert (∀ key, (ev :: evs) ≫= news key = object_news key ev ++ (evs ≫= news key)) as Hnews.
    { intros key. rewrite bind_cons. unfold news at 1. by rewrite decide_False. }
    setoid_rewrite Hnews. cbn [Datatypes.app drain foldl]. rewrite decide_False by done.
    unfold object_news, resume at 2. destruct (we_Object ev) as [u|text]; [|by apply (IH seen rv true w)].
    case_decide as Hdel.
    + destruct (IH (delete (object_key u) seen) (GetResourceVersion u) true w) as (shown & seen' & Hrun & Hch & Hla & Hsel).
      exists shown, seen'. split_and!; [exact Hrun| | |done]; intros key; rewrite ?Hch, ?Hla; case_decide as Hk.
      * subst key. by rewrite lookup_delete_eq.
      * by rewrite lookup_delete_ne.
      * subst key. by rewrite lookup_delete_eq.
      * by rewrite lookup_delete_ne.
    + destruct (Hdec u eq_refl Hdel) as [owner Hu]. rewrite Hu. pose proof (Decode_object u owner Hu) as Hobj.
      pose proof (selector_Matches_owner sel owner) as Hmatch.
      destruct (selector_Matches sel (owner_Row owner)) eqn:Hm; cbn [negb orb].
      2: { rewrite (decide_False (P := Forall (term_of_owner owner) sel)) by (intros E; by apply Hmatch in E).
           destruct (IH seen (GetResourceVersion u) true w) as (shown & seen' & Hrun & Hch & Hla & Hsel).
           exists shown, seen'. split_and!; [exact Hrun| | |done]; intros key; rewrite ?Hch, ?Hla; by case_decide. }
      rewrite (decide_True (P := Forall (term_of_owner owner) sel)) by by apply Hmatch.
      destruct (decide (seen !! object_key u = Some (watchKey o owner))) as [Hseen|Hseen];
        [rewrite (bool_decide_eq_true_2 _ Hseen)|rewrite (bool_decide_eq_false_2 _ Hseen)].
      * destruct (IH seen (GetResourceVersion u) true w) as (shown & seen' & Hrun & Hch & Hla & Hsel).
        exists shown, seen'. split_and!; [exact Hrun| | |done]; intros key; rewrite ?Hch, ?Hla; case_decide as Hk; [|done| |done].
        -- subst key. cbn [Datatypes.app changes]. by rewrite decide_True.
        -- subst key. rewrite Hseen. done.
      * unfold mbind, M_bind. pose proof (Hprint owner w) as Hp.
        destruct (printWatched o a owner w) as [err w'] eqn:Hpw. simpl in Hp. subst err.
        destruct (IH (<[object_key u := watchKey o owner]> seen) (GetResourceVersion u) true w')
          as (shown & seen' & Hrun & Hch & Hla & Hsel).
        exists (owner :: shown), seen'. split_and!.
        -- rewrite Hrun. unfold print_all. cbn [foldl]. by rewrite Hpw.
        -- assert (object_of owner = object_key u) as Ho by (unfold object_of; by rewrite Hobj).
           intros key. rewrite filter_cons. case_decide as Hk'; case_decide as Hk; [|congruence..|].
           ++ clear Hk'. subst key. rewrite fmap_cons, Hch. cbn [Datatypes.app changes]. rewrite lookup_insert_eq, decide_False by done. done.
           ++ by rewrite Hch, lookup_insert_ne.
        -- intros key. rewrite Hla. case_decide as Hk.
           ++ subst key. by rewrite lookup_insert_eq.
           ++ by rewrite lookup_insert_ne.
        -- constructor; [by apply Hmatch|done].
Qed.

Lemma changes_app {A} `{EqDecision A} (prev : option A) l1 l2 :
  changes prev (l1 ++ l2) = changes prev l1 ++ changes (latest prev l1) l2.
Proof.
  revert prev. induction l1 as [|[x|] l1 IH]; intros prev; [done| |apply IH].
  cbn [Datatypes.app changes]. case_decide as Hx; [|by rewrite IH].
  rewrite IH. unfold latest. by rewrite Hx.
Qed.

Context (ri : ResourceInterface) (fieldSelector : string).

(** Two observers: of what is printed, to which each owner adds its entry, and of
    the events the watches delivered. *)
Context {L : Type} (log : W → list L) (entry : cli_Owner → L) (heard : W → list event).
Hypothesis print_seen : ∀ owner v, (printWatched o a owner v).1 = None ∧
  log (printWatched o a owner v).2 = log v ++ [entry owner] ∧ heard (printWatched o a owner v).2 = heard v.
Hypothesis watch_seen : ∀ rv v, log (ri_Watch ri rv fieldSelector v).2 = log v ∧
  heard (ri_Watch ri rv fieldSelector v).2 =
    heard v ++ match (ri_Watch ri rv fieldSelector v).1 with Ok evs => evs | Err _ => [] end.
Hypothesis stop_seen : ∀ v, log (watch_Stop v).2 = log v ∧ heard (watch_Stop v).2 = heard v.
Hypothesis done_seen : ∀ v, log (ctx_done v).2 = log v ∧ heard (ctx_done v).2 = heard v.
Hypothesis sleep_seen : ∀ v, log (sleepCtx watchBackoff v).2 = log v ∧ heard (sleepCtx watchBackoff v).2 = heard v.

(** Every watch the server opens delivers readable events, then ends. *)
Hypothesis watches : ∀ rv v evs, (ri_Watch ri rv fieldSelector v).1 = Ok evs →
  ∃ evs' rest, evs = evs' ++ rest ∧ Forall readable evs' ∧ ends_watch rest.

Lemma print_all_seen shown v :
  log (print_all shown v) = log v ++ (entry <$> shown) ∧ heard (print_all shown v) = heard v.
Proof.
  revert v. induction shown as [|owner shown IH]; intros v; [by rewrite app_nil_r|].
  destruct (print_seen owner v) as (_ & Hl & Hh). unfold print_all in *. cbn [foldl].
  destruct (IH (printWatched o a owner v).2) as [-> ->]. by rewrite Hl, Hh, <- app_assoc.
Qed.

Lemma news_ends rest key : ends_watch rest → rest ≫= news key = [].
Proof.
  intros [->|(ev & -> & Herr & _)]; [done|]. rewrite bind_cons. unfold news. by rewrite decide_True.
Qed.

(** What was printed and heard between two worlds: object by object, the changes
    among the states the events report. *)
Definition shown_changes (seen : gmap string watch_key) (w w' : W) : Prop :=
  ∃ reported shown,
    heard w' = heard w ++ reported ∧ log w' = log w ++ (entry <$> shown) ∧
    (∀ key, watchKey o <$> filter (λ owner, object_of owner = key) shown =
            changes (seen !! key) (reported ≫= news key)) ∧
    Forall (λ owner, Forall (term_of_owner owner) sel) shown.

(** One watch, and what follows it. *)
Definition one_watch (seen seen' : gmap string watch_key) (w v : W) : Prop :=
  ∃ evs rest shown, ends_watch rest ∧
    heard v = heard w ++ (evs ++ rest) ∧ log v = log w ++ (entry <$> shown) ∧
    (∀ key, watchKey o <$> filter (λ owner, object_of owner = key) shown =
            changes (seen !! key) (evs ≫= news key)) ∧
    (∀ key, seen' !! key = latest (seen !! key) (evs ≫= news key)) ∧
    Forall (λ owner, Forall (term_of_owner owner) sel) shown.

Lemma one_watch_shown seen seen' w v : one_watch seen seen' w v → shown_changes seen w v.
Proof.
  intros (evs & rest & shown & Hrest & Kv & Lv & Hch & _ & Hsel). exists (evs ++ rest), shown.
  split_and!; [done..| |done]. intros key. by rewrite bind_app, (news_ends rest), app_nil_r.
Qed.

Lemma one_watch_then seen seen' w v w' :
  one_watch seen seen' w v → shown_changes seen' v w' → shown_changes seen w w'.
Proof.
  intros (evs & rest & shown & Hrest & Kv & Lv & Hch & Hla & Hsel) (reported & shown' & Hheard & Hlog & Hch' & Hsel').
  exists ((evs ++ rest) ++ reported), (shown ++ shown'). split_and!.
  - by rewrite Hheard, Kv, <- app_assoc.
  - by rewrite Hlog, Lv, fmap_app, <- app_assoc.
  - intros key. rewrite filter_app, fmap_app, Hch, Hch', !bind_app, (news_ends rest), app_nil_r by done.
    by rewrite changes_app, Hla.
  - by apply Forall_app.
Qed.

Definition ended_with (err : option error) : Prop :=
  match err with
  | None => ∃ v, (ctx_done v).1 = true
  | Some err => ∃ v rv cause, (ri_Watch ri rv fieldSelector v).1 = Err cause ∧ err = watch_failed k cause
  end.

(** C33: a watch prints an object exactly when what it shows for it changes, also
    across reconnections. Let the watches deliver readable events, each ending by
    closing or by an expired resourceVersion, and printing succeed. When the loop
    returns it has printed, object by object, the successive states that the
    events of all its watches report and the selector matches, less those equal to
    the one shown before: the state shown first by the listing ([seen]), later by
    an earlier line, until the object is deleted. It returns without an error only
    once it is cancelled, and with one only when a watch cannot be opened;
    cancelled, it returns at the next watch. *)
Theorem watch_shows_changes fuel seen rv w :
  ((∀ v, (ctx_done v).1 = true) → ∃ w', watch_loop (S fuel) o a ri k sel fieldSelector seen rv w = Some (None, w')) ∧
  ∀ err w', watch_loop fuel o a ri k sel fieldSelector seen rv w = Some (err, w') →
    shown_changes seen w w' ∧ ended_with err.
Proof.
  assert (∀ owner v, (printWatched o a owner v).1 = None) as Hprint by (intros; apply print_seen).
  split.
  - intros Hdone. cbn [watch_loop]. unfold mbind, MO_bind, run_M.
    destruct (ri_Watch ri rv fieldSelector w) as [[evs|err] w1].
    + destruct (drain _ _ _ _ _ _ _ _ w1) as [d w2], (watch_Stop w2) as [u w3].
      pose proof (Hdone w3) as Hd. destruct (ctx_done w3) as [b w4]. simpl in Hd. subst b. by exists w4.
    + pose proof (Hdone w1) as Hd. destruct (ctx_done w1) as [b w2]. simpl in Hd. subst b. by exists w2.
  - revert seen rv w. induction fuel as [|fuel IH]; intros seen rv w err w'; [done|].
    cbn [watch_loop]. unfold mbind, MO_bind, run_M.
    pose proof (watches rv w) as Hw. destruct (watch_seen rv w) as [Lw Kw].
    destruct (ri_Watch ri rv fieldSelector w) as [[evs|cause] w1] eqn:Ew; cbn [fst snd] in *.
    2: { destruct (done_seen w1) as [Ld Kd]. destruct (ctx_done w1) as [b w2] eqn:Ed. cbn [fst snd] in *.
         intros [= <- <-]. split.
         - exists [], []. rewrite !app_nil_r, Ld, Lw, Kd, Kw, app_nil_r. done.
         - destruct b; [exists w1; by rewrite Ed|]. exists w, rv, cause. by rewrite Ew. }
    destruct (Hw evs eq_refl) as (evs' & rest & -> & Hevs & Hrest).
    destruct (drain_run evs' rest seen rv false w1 Hevs Hrest Hprint) as (shown & seen' & Hd & Hch & Hla & Hsel).
    rewrite Hd. destruct (print_all_seen shown w1) as [Lp Kp]. set (w2 := print_all shown w1) in *.
    destruct (stop_seen w2) as [Ls Ks]. destruct (watch_Stop w2) as [u w3]. cbn [fst snd] in *.
    destruct (done_seen w3) as [Ld Kd]. destruct (ctx_done w3) as [b w4] eqn:Ed. cbn [fst snd] in *.
    assert (∀ v, log v = log w4 → heard v = heard w4 → one_watch seen seen' w v) as Hone.
    { intros v Lv Kv. exists evs', rest, shown. split_and!; [done|congruence..|done|done|done]. }
    assert (∀ rv' v, log v = log w4 → heard v = heard w4 →
      watch_loop fuel o a ri k sel fieldSelector seen' rv' v = Some (err, w') →
      shown_changes seen w w' ∧ ended_with err) as Hnext.
    { intros rv' v Lv Kv [Hshown Hend]%IH. split; [|exact Hend]. by eapply one_watch_then; [apply Hone|]. }
    cbn [dr_err dr_delivered dr_seen dr_next orb]. destruct b.
    + intros [= <- <-]. split; [by eapply one_watch_shown, Hone|]. exists w3. by rewrite Ed.
    + case_bool_decide; [by apply Hnext|].
      destruct (sleep_seen w4) as [Lsl Ksl]. destruct (sleepCtx watchBackoff w4) as [u' w5]. cbn [fst snd] in *.
      destruct (done_seen w5) as [Ld' Kd']. destruct (ctx_done w5) as [b w6] eqn:Ed'. cbn [fst snd] in *.
      destruct b; [|apply Hnext; congruence].
      intros [= <- <-]. split; [eapply one_watch_shown, Hone; congruence|]. exists w5. by rewrite Ed'.
Qed.
End watch_spec.

(** ** A concrete watch: one reconnection, three lines printed *)
Module GetFix.
#[local] Existing Instance Fix.labels.
#[local] Existing Instance Fix.unstructured.
#[local] Existing Instance Fix.formatting.
#[local] Existing Instance Fix.api_errors.
#[local] Existing Instance Fix.conditions.
#[local] Existing Instance CliFix.tables.
#[local] Existing Instance TableFix.durations.

(** The number of watches opened, the texts written and the events delivered. *)
Record world := { opened : nat; written : list string; delivered : list event }.

Definition condition_of (st : string) : Condition := Build_Condition ConditionReady st 1 0 "" "".

(** An object carries its Ready status, and its resourceVersion as a message. *)
Definition milestone_of (u : Fix.object) : Milestone LabelSelector :=
  Build_Milestone _ (Build_ObjectMeta (Fix.o_Name u) (Fix.o_Namespace u) 1 ∅ [] None 0) []
    (Build_MilestoneStatusBase 1 (Some [condition_of (Fix.o_Status u)]) Summary_zero None None false 0).

#[local] Instance owner_objects : OwnerObjects := {|
  GetResourceVersion := Fix.o_Message;
  FromUnstructured_Milestone := λ u, Ok (milestone_of u);
  FromUnstructured_ClusterMilestone := λ u, Err (errors_New "not a ClusterMilestone");
|}.

#[local] Instance clients : clientFactory world := {|
  discovery_client := unit;
  cf_Dynamic := λ w, (Ok tt, w);
  cf_Discovery := λ w, (Ok tt, w);
  cf_RESTMapper := λ w, (Err (errors_New "no mapper"), w);
  cf_Kube := λ w, (Ok tt, w);
  cf_DefaultNamespace := λ w, (Ok "default", w);
  new_Resolver := λ _ _, {| Resolve := λ _ _ _ w, (Err ErrGVKNotEstablished, w);
                            Resolver_Invalidate := λ w, (tt, w);
                            Resolver_InvalidateGroupKind := λ _ _ w, (tt, w) |};
  kube_ListNamespaces := λ _ w, (Ok [], w);
  kube_ListDeployments := λ _ w, (Ok [], w);
|}.

Definition listed : list Fix.object :=
  [Fix.Build_object GVK_zero "ns" "a" ∅ false ConditionTrue "1"; Fix.Build_object GVK_zero "ns" "b" ∅ false ConditionFalse "2"].

#[local] Instance resources : ResourceAPI world := {|
  ri_Get := λ _ name w, (match filter (λ u, Fix.o_Name u = name) listed with
                         | u :: _ => Ok u
                         | [] => Err (ext_error "NotFound" "not found")
                         end, w);
  ri_List := λ _ w, (Ok (listed, "7"), w);
|}.

#[local] Instance writers : Writers world := {|
  out_Write := λ s w, (None, Build_world (opened w) (written w ++ [s]) (delivered w));
  err_Write := λ s w, (None, w);
|}.

Definition text (u : Fix.object) : string := Fix.o_Name u +:+ "@" +:+ Fix.o_Message u.

#[local] Instance marshal_object : Marshal Fix.object := {| MarshalIndent := λ u, Ok (text u) |}.
#[local] Instance marshal_list : Marshal (ListDocument Fix.object) :=
  {| MarshalIndent := λ l, Ok (strings_Join (text <$> ld_items _ l) ",") |}.
#[local] Instance yaml : YAML := {| JSONToYAML := λ s, Ok s |}.

Definition object (name status rv : string) : event_object :=
  AnObject (Fix.Build_object GVK_zero "ns" name ∅ false status rv).
Definition ev (type name status rv : string) : event := Build_event type (object name status rv).

Definition first_watch : list event :=
  [ev watch_Modified "a" ConditionTrue "1"; ev watch_Added "b" ConditionTrue "2"; ev watch_Added "c" ConditionFalse "3"].
Definition expired : event := Build_event watch_Error (AnotherObject "Expired").
Definition second_watch : list event :=
  [ev watch_Added "b" ConditionTrue "2"; ev watch_Modified "a" ConditionTrue "4"; ev watch_Deleted "a" ConditionTrue "5";
   ev watch_Added "a" ConditionTrue "4"].
Definition script : list (list event) := [first_watch ++ [expired]; second_watch].

(** The command is cancelled when the script is over. *)
#[local] Instance watch : WatchAPI world := {|
  ri_Watch := λ _ _ _ w, match script !! opened w with
                         | Some evs => (Ok evs, Build_world (S (opened w)) (written w) (delivered w ++ evs))
                         | None => (Err (errors_New "closed"), w)
                         end;
  watch_Stop := λ w, (tt, w);
  ctx_done := λ w, (bool_decide (length script ≤ opened w), w);
  sleepCtx := λ _ w, (tt, w);
  FromObject := λ _, errors_New "expired";
  IsResourceExpired := λ _, true;
  IsGone := λ _, false;
  OneTermEqualSelector := λ key value, key +:+ "=" +:+ value;
|}.

Definition start : world := Build_world 0 [] [].

Definition the_app : app world := Build_app "milestonectl" "" false (λ w, (0%Z, w)) "" false false.
Definition as_json : getOptions := Build_getOptions false ["ready=True"] true (Build_OutputFlag OutputJSON [OutputJSON]).
Definition ready_only : StatusSelector := [Build_statusTerm "ready" ConditionTrue].
Definition shown_first : gmap string watch_key := {["ns/a" := KeyVersion "1"]}.
Definition ri : ResourceInterface := Build_ResourceInterface (GVR MilestoneKind) "ns".

Definition finished : option (option error * world) :=
  watch_loop 3 as_json the_app ri MilestoneKind ready_only "" shown_first "7" start.

Example printed_lines :
  (λ p, (p.1, written p.2)) <$> finished =
  Some (None, (λ s, s +:+ LF_string) <$> ["b@2"; "a@4"; "a@4"]).
Proof. vm_compute. reflexivity. Qed.

Definition entry (owner : cli_Owner) : string := text (ow_Object owner) +:+ LF_string.

Lemma script_watches rv v evs :
  (ri_Watch ri rv "" v).1 = Ok evs →
  ∃ evs' rest, evs = evs' ++ rest ∧ Forall (readable MilestoneKind) evs' ∧ ends_watch rest.
Proof.
  assert (∀ type name st rv, type ≠ watch_Error → readable MilestoneKind (ev type name st rv)) as Hr.
  { intros type name st rv' Hne. split; [done|]. intros u Hu _. eexists. reflexivity. }
  simpl. destruct (script !! opened v) as [e|] eqn:He; [|done]. intros [= <-].
  assert (e = first_watch ++ [expired] ∨ e = second_watch) as [-> | ->].
  { destruct (opened v) as [|[|n]]; simpl in He; simplify_eq; auto. }
  - exists first_watch, [expired]. split; [done|]. split; [by repeat (constructor; [by apply Hr|])|].
    right. by exists expired.
  - exists second_watch, []. rewrite app_nil_r. split; [done|]. split; [|by left].
    by repeat (constructor; [by apply Hr|]).
Qed.

Lemma watch_shows_changes_witness :
  ∃ w', finished = Some (None, w') ∧
    shown_changes as_json MilestoneKind ready_only written entry delivered shown_first start w'.
Proof.
  destruct finished as [[err w']|] eqn:Hrun; [|vm_compute in Hrun; discriminate Hrun].
  pose proof (watch_shows_changes as_json the_app MilestoneKind ready_only ri "" written entry delivered) as Hth.
  destruct (Hth
    ltac:(intros; split; [reflexivity|]; split; reflexivity)
    ltac:(intros rv v; simpl; destruct (script !! opened v); simpl; rewrite ?app_nil_r; split; reflexivity)
    ltac:(intros; split; reflexivity) ltac:(intros; split; reflexivity) ltac:(intros; split; reflexivity)
    script_watches 3 shown_first "7" start) as [_ Hret].
  exists w'. pose proof (Hret err w' Hrun) as [Hshown _].
  assert (err = None) as -> by (vm_compute in Hrun; congruence).
  split; [reflexivity|exact Hshown].
Defined.
End GetFix.
