(* ===== verification/Tree.v ===== *)
(** * internal/cli/tree.go and cmd/milestonectl/tree.go

    The live view: an owner line, a branch per dependency, a leaf per member.
    strings.Repeat panics on a negative count, so what may reach it answers an
    option; [None] is the panic. *)

From S2P Require Import Prelude GoStd ApiV1 K8s Fixtures Status Membership Discovery Normalize Evaluate StatusHelpers Text Cli Table App Get.

(** ** Definitions *)

(** *** tree.go *)

Record TreeOptions := { tro_NotReady : bool; tro_Style : Style }.

Definition branchMid : string := "├── ".
Definition branchLast : string := "└── ".
Definition indentMid : string := "│   ".
Definition indentLast : string := "    ".
Definition colGap : string := "  ".
Definition memberGap : string := "   ".

(** strings.Repeat(" ", n). *)
Definition Repeat_space (n : Z) : option string :=
  if (n <? 0)%Z then None else Some (strings_Repeat " " (Z.to_nat n)).

Definition owner_ref (kind namespace name : string) : string :=
  if decide (namespace ≠ "") then kind +:+ "/" +:+ namespace +:+ "/" +:+ name else kind +:+ "/" +:+ name.

Section tree.
Context `{Durations}.

Definition ownerLine (r : Report) (s : Style) : string :=
  let ref := owner_ref (or_Kind (rp_Owner r)) (or_Namespace (rp_Owner r)) (or_Name (rp_Owner r)) in
  let when :=
    if decide (rec_LastEvaluatedTime (rp_Recorded r) ≠ 0%Z)
    then "evaluated " +:+ Age (rec_LastEvaluatedTime (rp_Recorded r)) (rp_EvaluatedAt r) +:+ " ago"
    else "never evaluated by the operator" in
  let when :=
    if rec_Stale (rp_Recorded r)
    then when +:+ ", stale: generation " +:+ itoa (or_Generation (rp_Owner r)) +:+ " not yet observed"
    else when in
  strings_Join [Bold s ref; "Ready=" +:+ rp_Ready r; rp_Reason r; Faint s ("(" +:+ when +:+ ")")] colGap.

Definition kindRef (d : DependencyReport) : string :=
  let t := dp_Target d in
  let ref := if decide (tr_Group t ≠ "") then tr_Kind t +:+ "." +:+ tr_Group t else tr_Kind t in
  let version := if decide (ds_Version (dp_Status d) = "") then tr_Version t else ds_Version (dp_Status d) in
  if decide (version ≠ "") then ref +:+ "/" +:+ version else ref.

Definition orAll (selector : string) : string := if decide (selector = "") then "<all>" else selector.

Definition dependencyLine (d : DependencyReport) (s : Style) : string :=
  let st := dp_Status d in
  let t := dp_Target d in
  let parts :=
    [Style_Glyph s (ConditionGlyph (ds_Ready st) (ds_Reason st)) +:+ " " +:+ dp_Name d; kindRef d; orAll (tr_Selector t)] in
  let parts :=
    match tr_Namespaces t with
    | _ :: _ => parts ++ ["namespaces=" +:+ strings_Join (tr_Namespaces t) ","]
    | [] => if decide (tr_NamespaceSelector t ≠ "")
            then parts ++ ["namespaceSelector=" +:+ tr_NamespaceSelector t] else parts
    end in
  let parts :=
    if dp_Forbidden d then parts ++ ["cannot check: forbidden (your credentials)"]
    else if decide (dp_Error d ≠ "") then parts ++ [ds_Reason st +:+ ": " +:+ dp_Error d]
    else parts ++ [itoa (Current (ds_Summary st)) +:+ "/" +:+ itoa (ApiV1.Total (ds_Summary st)); ds_Reason st] in
  strings_Join parts colGap.

Definition emptySetOutcome (ready : ConditionStatus) : string :=
  if decide (ready = ConditionTrue) then EmptySetReady
  else if decide (ready = ConditionFalse) then EmptySetNotReady
  else EmptySetUnknown.

Definition resourceDetail (r : Resource) : string :=
  if bool_decide (r_Reason r ≠ "") && bool_decide (r_Message r ≠ "") then r_Reason r +:+ ": " +:+ oneLine (r_Message r)
  else if decide (r_Reason r ≠ "") then r_Reason r
  else oneLine (r_Message r).

Definition memberDetail (m : Member) : string :=
  if negb (mb_Blocking m) then ""
  else if IsCurrent (mb_Resource m) then ReasonSuspended +:+ ": spec.suspend is true"
  else resourceDetail (mb_Resource m).

Definition memberState (m : Member) : string :=
  let r := mb_Resource m in if r_Suspended r then r_Status r +:+ " (suspended)" else r_Status r.

Definition memberName (m : Member) : string :=
  let r := mb_Resource m in
  if decide (r_Namespace r = "") then r_Name r else r_Namespace r +:+ "/" +:+ r_Name r.

Definition rune_count (s : string) : Z := Z.of_nat (RuneCountInString s).

Definition memberLine (m : Member) (s : Style) (width : Z) : option string :=
  let name := memberName m in
  pad ← Repeat_space (width - rune_count name);
  let line := Style_Glyph s (MemberGlyph m) +:+ " " +:+ name +:+ pad +:+ memberGap +:+ memberState m in
  let detail := memberDetail m in
  Some (if decide (detail ≠ "") then line +:+ colGap +:+ detail else line).

(** The members that will be shown: the [continue] of both loops. *)
Definition skipped (notReady : bool) (m : Member) : bool := notReady && negb (mb_Blocking m).

(** The two loops of memberWidth. *)
Definition width_of_members (notReady : bool) (w : Z) (members : list Member) : Z :=
  foldl (λ w m, if skipped notReady m then w else Z.max w (rune_count (memberName m))) w members.

Definition memberWidth (r : Report) (notReady : bool) : Z :=
  foldl (λ w d, width_of_members notReady w (elems (dp_Members d))) 0%Z (rp_Dependencies r).

(** The loop over the members. *)
Fixpoint member_lines (opts : TreeOptions) (width : Z) (members : list Member) (out : list string)
    : option (list string) :=
  match members with
  | [] => Some out
  | m :: members =>
      if skipped (tro_NotReady opts) m then member_lines opts width members out
      else
        line ← memberLine m (tro_Style opts) width;
        member_lines opts width members (out ++ [line])
  end.

Definition drift_note (d : DependencyReport) (s : Style) : list string :=
  match dp_Drift d, dp_Recorded d with
  | true, Some rec =>
      [Style_Glyph s GlyphWarning +:+ " live differs from recorded (recorded: Ready=" +:+ ds_Ready rec +:+ " " +:+
       ds_Reason rec +:+ ")"]
  | _, _ => []
  end.

Definition empty_note (d : DependencyReport) (s : Style) : list string :=
  if bool_decide (dp_Error d = "") && bool_decide (ApiV1.Total (ds_Summary (dp_Status d)) = 0%Z)
  then [Faint s ("no matching resources (emptySetPolicy: " +:+ emptySetOutcome (ds_Ready (dp_Status d)) +:+ ")")]
  else [].

Definition dependencyChildren (d : DependencyReport) (opts : TreeOptions) (width : Z) : option (list string) :=
  member_lines opts width (elems (dp_Members d))
    (drift_note d (tro_Style opts) ++ empty_note d (tro_Style opts)).

(** The inner loop: the last child gets the last branch. *)
Fixpoint child_lines (indent : string) (children : list string) : list string :=
  match children with
  | [] => []
  | [c] => [indent +:+ branchLast +:+ c]
  | c :: children => (indent +:+ branchMid +:+ c) :: child_lines indent children
  end.

(** The outer loop. *)
Fixpoint dependency_lines (opts : TreeOptions) (width : Z) (deps : list DependencyReport) : option (list string) :=
  match deps with
  | [] => Some []
  | d :: deps =>
      let '(branch, indent) :=
        match deps with [] => (branchLast, indentLast) | _ => (branchMid, indentMid) end in
      children ← dependencyChildren d opts width;
      rest ← dependency_lines opts width deps;
      Some ((branch +:+ dependencyLine d (tro_Style opts)) :: child_lines indent children ++ rest)
  end.

(** The text RenderTree writes. *)
Definition tree_text (r : Report) (opts : TreeOptions) : option string :=
  lines ← dependency_lines opts (memberWidth r (tro_NotReady opts)) (rp_Dependencies r);
  Some (concat_runes ((λ l, l +:+ LF_string) <$> ownerLine r (tro_Style opts) :: lines)).
End tree.

Definition RenderTree {W} `{!Writers W} `{Durations} (r : Report) (opts : TreeOptions) : MO W (option error) :=
  match tree_text r opts with
  | None => λ _, None
  | Some text => run_M (out_Write text)
  end.

(** *** The tree command *)

(** A membership.Error as an error value. *)
Definition MError_error (e : MError) : error := fmt_Errorf (MError_Error e) [MError_Unwrap e].

Record treeOptions := { tre_notReady : bool; tre_output : OutputFlag }.

Section command.
Context {W : Type} `{LabelsAPI} `{UnstructuredAPI} `{!OwnerObjects} `{ApiErrors} `{Formatting} `{Durations}.
Context `{!clientFactory W} `{!ResourceAPI W} `{!Writers W} `{!DynamicClient W} `{!Marshal Report} `{YAML}.
Context (wall_clock : M W time).

Definition tree_run (fuel : nat) (o : treeOptions) (a : app W) (k : OwnerKind) (name : string) : MO W (option error) :=
  res ← run_M (scoped a (GVR k) (kd_Namespaced k));
  match res with
  | Err err => mret (Some err)
  | Ok (ri, ns) =>
      u ← run_M (ri_Get ri name);
      match u with
      | Err err => mret (Some (if IsNotFound err then notFoundError k ns name else err))
      | Ok u =>
          match Decode k u with
          | Err err => mret (Some err)
          | Ok owner =>
              eval ← run_M (evaluator a);
              match eval with
              | Err err => mret (Some err)
              | Ok eval =>
                  report ← owner_Evaluate wall_clock fuel owner eval;
                  match report with
                  | inl err => mret (Some (MError_error err))
                  | inr report =>
                      if Structured (tre_output o)
                      then run_M (PrintStructured (OutputFlag_String (tre_output o)) report)
                      else RenderTree report (Build_TreeOptions (tre_notReady o) (app_style a))
                  end
              end
          end
      end
  end.
End command.

(** ** The rendered tree *)

Section tree_spec.
Context `{Durations}.

(** The members a tree shows. *)
Definition shown_members (opts : TreeOptions) (d : DependencyReport) : list Member :=
  filter (λ m, tro_NotReady opts = true → mb_Blocking m = true) (elems (dp_Members d)).

(** A member's line, its name padded to [width] runes. *)
Definition member_text (s : Style) (width : nat) (m : Member) : string :=
  Style_Glyph s (MemberGlyph m) +:+ " " +:+ pad_right width (memberName m) +:+ memberGap +:+ memberState m +:+
  (if decide (memberDetail m ≠ "") then colGap +:+ memberDetail m else "").

Lemma skipped_spec notReady m : skipped notReady m = true ↔ ¬ (notReady = true → mb_Blocking m = true).
Proof. unfold skipped. destruct notReady, (mb_Blocking m); naive_solver. Qed.

Lemma shown_cons opts m members :
  filter (λ m, tro_NotReady opts = true → mb_Blocking m = true) (m :: members) =
  (if skipped (tro_NotReady opts) m then [] else [m]) ++
  filter (λ m, tro_NotReady opts = true → mb_Blocking m = true) members.
Proof.
  rewrite filter_cons. pose proof (skipped_spec (tro_NotReady opts) m) as Hs.
  destruct (skipped _ m); case_decide; naive_solver.
Qed.

Lemma memberLine_fits s (width : nat) m :
  RuneCountInString (memberName m) ≤ width → memberLine m s (Z.of_nat width) = Some (member_text s width m).
Proof.
  intros Hw. unfold memberLine, Repeat_space, rune_count.
  destruct (Z.ltb_spec (Z.of_nat width - Z.of_nat (RuneCountInString (memberName m))) 0); [lia|].
  simpl. f_equal. unfold member_text, pad_right.
  replace (Z.to_nat (Z.of_nat width - Z.of_nat (RuneCountInString (memberName m))))
    with (width - RuneCountInString (memberName m)) by lia.
  case_decide; by rewrite ?string_app_empty, <- ?string_app_assoc.
Qed.

Lemma member_lines_fit opts (width : nat) members out :
  Forall (λ m, RuneCountInString (memberName m) ≤ width)
    (filter (λ m, tro_NotReady opts = true → mb_Blocking m = true) members) →
  member_lines opts (Z.of_nat width) members out =
  Some (out ++ (member_text (tro_Style opts) width <$>
    filter (λ m, tro_NotReady opts = true → mb_Blocking m = true) members)).
Proof.
  revert out. induction members as [|m members IH]; intros out Hw; [by rewrite app_nil_r|].
  rewrite shown_cons in *. cbn [member_lines]. destruct (skipped (tro_NotReady opts) m); [by apply IH|].
  apply Forall_cons in Hw as [Hm Hw]. rewrite memberLine_fits by done. simpl. rewrite IH by done.
  by rewrite <- app_assoc.
Qed.

Lemma width_of_members_spec notReady w members :
  let w' := width_of_members notReady w members in
  (0 <= w → 0 <= w')%Z ∧ (w <= w')%Z ∧
  (∀ m, m ∈ members → skipped notReady m = false → rune_count (memberName m) <= w')%Z ∧
  (w' = w ∨ ∃ m, m ∈ members ∧ skipped notReady m = false ∧ rune_count (memberName m) = w').
Proof.
  cbv zeta. revert w. induction members as [|m members IH]; intros w.
  - split_and!; [done|done| |by left]. intros m []%elem_of_nil.
  - unfold width_of_members in *. cbn [foldl]. destruct (skipped notReady m) eqn:Hm.
    + destruct (IH w) as (H1 & H2 & H3 & H4). split_and!; [done|done| |].
      * intros m' [->|Hin]%elem_of_cons Hs; [congruence|auto].
      * destruct H4 as [->|(m' & Hin & Hs & He)]; [by left|right]. exists m'. split; [by right|done].
    + destruct (IH (Z.max w (rune_count (memberName m)))) as (H1 & H2 & H3 & H4). split_and!; [lia|lia| |].
      * intros m' [->|Hin]%elem_of_cons Hs; [lia|auto].
      * destruct H4 as [->|(m' & Hin & Hs & He)]; [|right; exists m'; split; [by right|done]].
        destruct (Z.max_spec w (rune_count (memberName m))) as [[Hlt ->]|[Hle ->]]; [|by left].
        right. exists m. split; [by left|done].
Qed.

Lemma memberWidth_spec r notReady :
  (0 <= memberWidth r notReady)%Z ∧
  (∀ d m, d ∈ rp_Dependencies r → m ∈ elems (dp_Members d) → skipped notReady m = false →
     (rune_count (memberName m) <= memberWidth r notReady)%Z) ∧
  (memberWidth r notReady = 0%Z ∨ ∃ d m, d ∈ rp_Dependencies r ∧ m ∈ elems (dp_Members d) ∧
     skipped notReady m = false ∧ rune_count (memberName m) = memberWidth r notReady).
Proof.
  unfold memberWidth.
  assert (∀ w deps, let w' := foldl (λ w d, width_of_members notReady w (elems (dp_Members d))) w deps in
    (w <= w')%Z ∧
    (∀ d m, d ∈ deps → m ∈ elems (dp_Members d) → skipped notReady m = false → (rune_count (memberName m) <= w')%Z) ∧
    (w' = w ∨ ∃ d m, d ∈ deps ∧ m ∈ elems (dp_Members d) ∧ skipped notReady m = false ∧
       rune_count (memberName m) = w')) as Hgen.
  { intros w deps. cbv zeta. revert w. induction deps as [|d deps IH]; intros w; cbn [foldl].
    - split_and!; [done| |by left]. intros d m []%elem_of_nil.
    - destruct (width_of_members_spec notReady w (elems (dp_Members d))) as (_ & W2 & W3 & W4).
      destruct (IH (width_of_members notReady w (elems (dp_Members d)))) as (I2 & I3 & I4). split_and!; [lia| |].
      + intros d' m [->|Hd]%elem_of_cons Hm Hs; [|by eapply I3]. specialize (W3 m Hm Hs). lia.
      + destruct I4 as [->|(d' & m & Hd & Hm)].
        * destruct W4 as [->|(m & Hm & Hs & He)]; [by left|]. right. exists d, m. split; [by left|done].
        * right. exists d', m. split; [by right|done]. }
  destruct (Hgen 0%Z (rp_Dependencies r)) as (G1 & G2 & G3). auto.
Qed.

(** A dependency's lines; [last] tells whether it is the last one. *)
Definition dependency_block (opts : TreeOptions) (width : nat) (last : bool) (d : DependencyReport) : list string :=
  ((if last then branchLast else branchMid) +:+ dependencyLine d (tro_Style opts)) ::
  child_lines (if last then indentLast else indentMid)
    (drift_note d (tro_Style opts) ++ empty_note d (tro_Style opts) ++
     (member_text (tro_Style opts) width <$> shown_members opts d)).

Fixpoint dependency_blocks (opts : TreeOptions) (width : nat) (deps : list DependencyReport) : list string :=
  match deps with
  | [] => []
  | d :: deps => dependency_block opts width (bool_decide (deps = [])) d ++ dependency_blocks opts width deps
  end.

(** rendering a tree never panics, and aligns it. Whatever the report,
    RenderTree's text is the owner line and one block per dependency, in order:
    the dependency's line, then the drift and empty-set notes, then one line for
    each member shown, all of them or with --not-ready exactly the blocking ones,
    each name padded to the width of the longest name shown, so that the
    strings.Repeat count is never negative. *)
Theorem tree_text_aligned r opts :
  ∃ width,
    tree_text r opts = Some (concat_runes ((λ l, l +:+ LF_string) <$>
      ownerLine r (tro_Style opts) :: dependency_blocks opts width (rp_Dependencies r))) ∧
    (∀ d m, d ∈ rp_Dependencies r → m ∈ shown_members opts d → RuneCountInString (memberName m) ≤ width) ∧
    (width = 0 ∨ ∃ d m, d ∈ rp_Dependencies r ∧ m ∈ shown_members opts d ∧
       RuneCountInString (memberName m) = width) ∧
    (tro_NotReady opts = false → ∀ d, shown_members opts d = elems (dp_Members d)).
Proof.
  destruct (memberWidth_spec r (tro_NotReady opts)) as (W1 & W2 & W3).
  set (w := memberWidth r (tro_NotReady opts)) in *. exists (Z.to_nat w).
  assert (∀ m, skipped (tro_NotReady opts) m = false ↔ (tro_NotReady opts = true → mb_Blocking m = true)) as Hsk.
  { intros m. unfold skipped. destruct (tro_NotReady opts), (mb_Blocking m); naive_solver. }
  assert (∀ d m, d ∈ rp_Dependencies r → m ∈ shown_members opts d → RuneCountInString (memberName m) ≤ Z.to_nat w) as Hfit.
  { intros d m Hd [Hs Hm]%list_elem_of_filter. apply Hsk in Hs. specialize (W2 d m Hd Hm Hs). unfold rune_count in W2. lia. }
  split_and!; [|done| |].
  - unfold tree_text. fold w.
    assert (dependency_lines opts w (rp_Dependencies r) = Some (dependency_blocks opts (Z.to_nat w) (rp_Dependencies r))) as ->; [|done].
    clear W2 W3. clearbody w. revert Hfit. generalize (rp_Dependencies r). intros deps.
    assert (w = Z.of_nat (Z.to_nat w)) as Hw by lia. clear W1. revert Hw. generalize (Z.to_nat w). intros n ->.
    induction deps as [|d deps IH]; intros Hfit; [done|]. cbn [dependency_lines dependency_blocks].
    unfold dependencyChildren. rewrite member_lines_fit.
    + destruct deps as [|d' deps]; [|rewrite IH by (intros d0 m0 Hd0; apply Hfit; by right)];
        cbn -[dependency_blocks]; by rewrite <- app_assoc.
    + apply Forall_forall. intros m Hm. apply (Hfit d); [by left|done].
  - destruct W3 as [->|(d & m & Hd & Hm & Hs & He)]; [by left|]. right. exists d, m. split; [done|].
    split; [|unfold rune_count in He; lia]. apply list_elem_of_filter. split; [by apply Hsk|done].
  - intros Hno d. unfold shown_members. rewrite Hno.
    induction (elems (dp_Members d)) as [|m l IH]; [done|]. rewrite filter_cons, decide_True by done. by rewrite IH.
Qed.
End tree_spec.

(** ** The trees of tree_test.go *)
Module TreeFix.
Import TableFix.
#[local] Existing Instance TableFix.durations.

Definition groupKust : string := "kustomize.toolkit.fluxcd.io".
Definition groupHelm : string := "helm.toolkit.fluxcd.io".

Definition member (kind name st reason message : string) (suspended blocking : bool) : Member :=
  Build_Member (Build_Resource "" "" kind "flux-system" name st reason message suspended) blocking.

Definition depStatus (name kind group version ready reason : string) (current total : Z) : DependencyStatus :=
  Build_DependencyStatus name group version kind ready reason (Build_Summary total current 0 0 0 0 0 0).

Definition kustomizations : DependencyReport :=
  Build_DependencyReport "kustomizations" (Build_TargetRef groupKust "" "Kustomization" "wave=0" [] "")
    (depStatus "kustomizations" "Kustomization" groupKust "v1" ConditionTrue ReasonAllResourcesReady 2 2) None
    (Some [member "Kustomization" "infra" "Current" "" "" false false;
           member "Kustomization" "monitoring" "Current" "" "" true false]) "" false false.

Definition helmreleases : DependencyReport :=
  Build_DependencyReport "helmreleases" (Build_TargetRef groupHelm "v2" "HelmRelease" "wave=0" [] "")
    (depStatus "helmreleases" "HelmRelease" groupHelm "v2" ConditionFalse ReasonResourcesNotReady 1 2)
    (Some (depStatus "helmreleases" "" "" "" ConditionTrue ReasonAllResourcesReady 0 0))
    (Some [member "HelmRelease" "podinfo" "Current" "" "" false false;
           member "HelmRelease" "redis" "Failed" "InstallFailed" "timed out waiting for condition" false true])
    "" false true.

Definition optional : DependencyReport :=
  Build_DependencyReport "optional" (Build_TargetRef "" "" "ConfigMap" "" ["a"; "b"] "")
    (depStatus "optional" "ConfigMap" "" "v1" ConditionTrue ReasonEmptySet 0 0) None None "" false false.

Definition sample (deps : list DependencyReport) : Report :=
  Build_Report (Build_OwnerRef "Milestone" "flux-system" "wave-0" 3)
    (Build_RecordedStatus None 3 (test_now - seconds 42) false) ConditionFalse ReasonDependenciesNotReady ""
    Summary_zero deps test_now.

Definition rendered (lines : list string) : option string := Some (concat_runes ((λ l, l +:+ LF_string) <$> lines)).

Example sample_tree :
  tree_text (sample [kustomizations; helmreleases; optional]) (Build_TreeOptions false (Build_Style false)) = rendered
  [ "Milestone/flux-system/wave-0  Ready=False  DependenciesNotReady  (evaluated 42s ago)";
    "├── ✔ kustomizations  Kustomization.kustomize.toolkit.fluxcd.io/v1  wave=0  2/2  AllResourcesReady";
    "│   ├── ✔ flux-system/infra        Current";
    "│   └── ⏸ flux-system/monitoring   Current (suspended)";
    "├── ✗ helmreleases  HelmRelease.helm.toolkit.fluxcd.io/v2  wave=0  1/2  ResourcesNotReady";
    "│   ├── ⚠ live differs from recorded (recorded: Ready=True AllResourcesReady)";
    "│   ├── ✔ flux-system/podinfo      Current";
    "│   └── ✗ flux-system/redis        Failed  InstallFailed: timed out waiting for condition";
    "└── ✔ optional  ConfigMap/v1  <all>  namespaces=a,b  0/0  EmptySet";
    "    └── no matching resources (emptySetPolicy: Ready)" ].
Proof. vm_compute. reflexivity. Qed.

Example sample_not_ready :
  tree_text (sample [kustomizations; helmreleases]) (Build_TreeOptions true (Build_Style false)) = rendered
  [ "Milestone/flux-system/wave-0  Ready=False  DependenciesNotReady  (evaluated 42s ago)";
    "├── ✔ kustomizations  Kustomization.kustomize.toolkit.fluxcd.io/v1  wave=0  2/2  AllResourcesReady";
    "└── ✗ helmreleases  HelmRelease.helm.toolkit.fluxcd.io/v2  wave=0  1/2  ResourcesNotReady";
    "    ├── ⚠ live differs from recorded (recorded: Ready=True AllResourcesReady)";
    "    └── ✗ flux-system/redis   Failed  InstallFailed: timed out waiting for condition" ].
Proof. vm_compute. reflexivity. Qed.
End TreeFix.
