(* ===== verification/Trace.v ===== *)
(** * internal/cli/trace.go and cmd/milestonectl/trace.go

    Which dependencies admit one object: the owners that could are listed, each
    is normalised as the operator normalises it, and the dependencies that match
    the object are reported, with a warning for whatever could not be checked. *)

From S2P Require Import Prelude GoStd ApiV1 K8s Fixtures Status Membership Discovery Normalize Evaluate StatusHelpers Text Cli Table App Get Tree.
From Stdlib Require Import Ascii.

(** ** Definitions *)

(** *** internal/cli/trace.go *)

(** [Membership]. *)
Record cli_Membership := {
  ms_Owner : OwnerRef;
  ms_Dependency : string;
  ms_OwnerReady : ConditionStatus;
  ms_OwnerReason : string;
  ms_OwnerStale : bool;
  ms_Blocking : bool;
}.

Record TraceReport := {
  tc_Object : Resource;
  tc_Memberships : list cli_Membership;
  tc_Unchecked : list string;
}.

Definition ResourceRef (r : Resource) : string :=
  let ref := r_Kind r in
  let ref := if decide (r_Group r ≠ "") then ref +:+ "." +:+ r_Group r else ref in
  let ref := if decide (r_Namespace r ≠ "") then ref +:+ "/" +:+ r_Namespace r else ref in
  ref +:+ "/" +:+ r_Name r.

Definition membership_cells (m : cli_Membership) : list string :=
  let ready := if ms_OwnerStale m then ms_OwnerReady m +:+ " (stale)" else ms_OwnerReady m in
  let ref := owner_ref (or_Kind (ms_Owner m)) (or_Namespace (ms_Owner m)) (or_Name (ms_Owner m)) in
  [ref; ms_Dependency m; ready; ms_OwnerReason m; if ms_Blocking m then "yes" else "no"].

Definition trace_headers : list string := ["OWNER"; "DEPENDENCY"; "OWNER READY"; "OWNER REASON"; "BLOCKING"].

Definition trace_head (r : TraceReport) (s : Style) : string :=
  let obj := Build_Member (tc_Object r) false in
  let head := Style_Glyph s (MemberGlyph obj) +:+ " " +:+ Bold s (ResourceRef (tc_Object r)) +:+ "  " +:+ memberState obj in
  let detail := resourceDetail (tc_Object r) in
  if bool_decide (detail ≠ "") && negb (IsCurrent (tc_Object r)) then head +:+ colGap +:+ detail else head.

Definition PrintTrace {W} `{!Writers W} (r : TraceReport) (s : Style) : M W (option error) :=
  let head := trace_head r s in
  match tc_Memberships r with
  | [] =>
      let miss := "not a member of any milestone" in
      let miss := match tc_Unchecked r with
                  | [] => miss
                  | _ => miss +:+ " (some owner kinds could not be checked)"
                  end in
      out_Write (head +:+ LF_string +:+ miss +:+ LF_string)
  | _ =>
      err ← out_Write (head +:+ LF_string +:+ LF_string);
      match err with
      | Some err => mret (Some err)
      | None => WriteColumns (Some trace_headers) (membership_cells <$> tc_Memberships r)
      end
  end.

(** *** cmd/milestonectl/trace.go *)

(** [args[0]] panics when there are no arguments; cobra passes one or two. *)
Definition parseTraceArgs `{Formatting} (args : list string) : option (result (string * string)) :=
  match args with
  | [typ; name] => Some (Ok (typ, name))
  | arg :: _ =>
      let '(typ, name, ok) := strings_Cut arg "/" in
      Some (if negb ok || bool_decide (typ = "") || bool_decide (name = "")
            then Err (fmt_Errorf ("expected TYPE/NAME or TYPE NAME, got " +:+ Quote arg) [])
            else Ok (typ, name))
  | [] => None
  end.

Record traceTarget := { tg_gvr : GroupVersionResource; tg_gvk : GroupVersionKind; tg_namespaced : bool }.

(** schema.GroupResource and schema.ParseResourceArg. *)
Record GroupResource := { gr_Group : string; gr_Resource : string }.
Class ResourceArgs := { ParseResourceArg : string → option GroupVersionResource * GroupResource }.

Definition WithVersion (gr : GroupResource) (version : string) : GroupVersionResource :=
  Build_GroupVersionResource (gr_Group gr) version (gr_Resource gr).

Definition whyForbidden : string := "forbidden".
Definition whyNotFound : string := "not found".

Definition skippable `{ApiErrors} (err : option error) : string :=
  match err with
  | None => ""
  | Some err =>
      if IsForbidden err then whyForbidden
      else if IsNotFound err || IsNoMatchError err then whyNotFound
      else ""
  end.

Section trace.
Context {W : Type} `{LabelsAPI} `{UnstructuredAPI} `{!OwnerObjects} `{ConditionsAPI} `{ApiErrors} `{Formatting}
  `{UnicodeTables} `{Durations} `{ResourceArgs}.
Context `{!clientFactory W} `{!ResourceAPI W} `{!Writers W} `{!Marshal TraceReport} `{YAML}.

Definition resolveType (mapper : cli_RESTMapper W) (typ : string) : M W (result traceTarget) :=
  let '(fully, gr) := ParseResourceArg (strings_ToLower typ) in
  res ← match fully with
        | Some fully =>
            res ← cm_ResourceFor mapper fully;
            match res with
            | Ok gvr => mret (Ok gvr)
            | Err _ => cm_ResourceFor mapper (WithVersion gr "")
            end
        | None => cm_ResourceFor mapper (WithVersion gr "")
        end;
  match res with
  | Err err => mret (Err (fmt_Errorf ("resource type " +:+ Quote typ +:+ ": " +:+ err_Error err) [err]))
  | Ok gvr =>
      gvk ← cm_KindFor mapper gvr;
      match gvk with
      | Err err => mret (Err err)
      | Ok gvk =>
          scope ← cm_Scope mapper (GVK_GroupKind gvk) (Version gvk);
          mret match scope with
               | Err err => Err err
               | Ok scope => Ok (Build_traceTarget gvr gvk (bool_decide (scope = RESTScopeNameNamespace)))
               end
      end
  end.

(** What the loop of candidateOwners appends to. *)
Record candidates := {
  ca_owners : list cli_Owner;
  ca_unchecked : list string;
  ca_skipErrs : list error;
  ca_attempted : nat;
}.

Definition warn_skipped (a : app W) (k : OwnerKind) (why : string) : M W (option error) :=
  err_Write (Style_Glyph (err_style a) GlyphWarning +:+ " cannot list " +:+ kd_Kind k +:+ "s (" +:+ why +:+
    "): membership via " +:+ kd_Kind k +:+ "s not checked" +:+ LF_string).

(** The namespace a kind is listed in; [None] is the [continue]. *)
Definition candidate_scope (target : traceTarget) (ns : string) (k : OwnerKind) : option ResourceInterface :=
  if kd_Namespaced k then
    if tg_namespaced target then Some (Build_ResourceInterface (GVR k) ns) else None
  else Some (Build_ResourceInterface (GVR k) NamespaceAll).

Fixpoint candidate_loop (a : app W) (target : traceTarget) (ns : string) (kinds : list OwnerKind)
    (c : candidates) : M W (result candidates) :=
  match kinds with
  | [] => mret (Ok c)
  | k :: kinds =>
      match candidate_scope target ns k with
      | None => candidate_loop a target ns kinds c
      | Some ri =>
          l ← fetch ri k ns "" [];
          match l with
          | Ok l =>
              candidate_loop a target ns kinds
                (Build_candidates (ca_owners c ++ ls_owners l) (ca_unchecked c) (ca_skipErrs c) (S (ca_attempted c)))
          | Err err =>
              let why := skippable (Some err) in
              if decide (why ≠ "") then
                warn_skipped a k why;;
                candidate_loop a target ns kinds
                  (Build_candidates (ca_owners c) (ca_unchecked c ++ [kd_Kind k]) (ca_skipErrs c ++ [err])
                     (S (ca_attempted c)))
              else mret (Err err)
          end
      end
  end.

Definition candidateOwners (a : app W) (target : traceTarget) (ns : string)
    : M W (result (list cli_Owner * list string)) :=
  dyn ← cf_Dynamic;
  match dyn with
  | Err err => mret (Err err)
  | Ok _ =>
      c ← candidate_loop a target ns Kinds (Build_candidates [] [] [] 0);
      mret match c with
           | Err err => Err err
           | Ok c =>
               if bool_decide (0 < ca_attempted c) && bool_decide (length (ca_skipErrs c) = ca_attempted c)
               then Err (errors_Join (ca_skipErrs c))
               else Ok (ca_owners c, ca_unchecked c)
           end
  end.

(** The errors that might have admitted the object. *)
Definition may_concern (gk : GroupKind) (e : MError) : bool :=
  bool_decide (e_Name e = "") || (bool_decide (e_Group e = gk_Group gk) && bool_decide (e_Kind e = gk_Kind gk)).

Definition warning_text (a : app W) (owner : cli_Owner) (e : MError) : string :=
  let what := if decide (e_Name e ≠ "") then " dependency " +:+ Quote (e_Name e) else "" in
  Style_Glyph (err_style a) GlyphWarning +:+ " " +:+ Ref owner +:+ what +:+ " could not be evaluated (" +:+
    e_Reason e +:+ "): " +:+ MError_Error e +:+ LF_string.

Fixpoint warnUnevaluated (a : app W) (owner : cli_Owner) (gk : GroupKind) (errs : list MError) : M W unit :=
  match errs with
  | [] => mret tt
  | e :: errs =>
      if may_concern gk e then err_Write (warning_text a owner e);; warnUnevaluated a owner gk errs
      else warnUnevaluated a owner gk errs
  end.

Definition new_membership (owner : cli_Owner) (obj : Resource) (d : Dependency) : cli_Membership :=
  let row := owner_Row owner in
  Build_cli_Membership
    (Build_OwnerRef (kd_Kind (ow_Kind owner)) (rw_Namespace row) (rw_Name row) (om_Generation (Meta owner)))
    (d_Name d) (rw_Ready row) (rw_Reason row) (rw_Stale row) (Blocks obj (d_SuspendPolicy d)).

(** The loop over the owners. *)
Fixpoint trace_owners (a : app W) (resolver : Resolver W) (nsLister : NamespaceLister (W := W)) (obj : Resource)
    (objLabels : gmap string string) (owners : list cli_Owner) (memberships : list cli_Membership)
    : M W (list cli_Membership) :=
  match owners with
  | [] => mret memberships
  | owner :: owners =>
      '(deps, errs) ← owner_Normalize owner (Some resolver) (Some nsLister);
      warnUnevaluated a owner (GK (r_Group obj) (r_Kind obj)) errs;;
      trace_owners a resolver nsLister obj objLabels owners
        (memberships ++
         (new_membership owner obj <$> Matches deps (GK (r_Group obj) (r_Kind obj)) (r_Namespace obj) objLabels))
  end.

Definition trace (a : app W) (owners : list cli_Owner) (obj : Resource) (objLabels : gmap string string)
    : M W (result TraceReport) :=
  resolver ← app_resolver;
  match resolver with
  | Err err => mret (Err err)
  | Ok resolver =>
      nsLister ← namespaceLister;
      match nsLister with
      | Err err => mret (Err err)
      | Ok nsLister =>
          memberships ← trace_owners a resolver nsLister obj objLabels owners [];
          mret (Ok (Build_TraceReport obj memberships []))
      end
  end.

Definition trace_run (output : OutputFlag) (a : app W) (typ name : string) : M W (option error) :=
  mapper ← cf_RESTMapper;
  match mapper with
  | Err err => mret (Some err)
  | Ok mapper =>
      target ← resolveType mapper typ;
      match target with
      | Err err => mret (Some err)
      | Ok target =>
          res ← scoped a (tg_gvr target) (tg_namespaced target);
          match res with
          | Err err => mret (Some err)
          | Ok (ri, ns) =>
              u ← ri_Get ri name;
              match u with
              | Err err =>
                  mret (Some (if IsNotFound err
                              then notFoundError (Build_OwnerKind (Kind (tg_gvk target)) "" "" "" false) ns name
                              else err))
              | Ok u =>
                  let u := if decide (GetKind u = "") then SetGVK (tg_gvk target) u else u in
                  res ← candidateOwners a target ns;
                  match res with
                  | Err err => mret (Some err)
                  | Ok (owners, unchecked) =>
                      report ← trace a owners (Compute u) (GetLabels u);
                      match report with
                      | Err err => mret (Some err)
                      | Ok report =>
                          let report := Build_TraceReport (tc_Object report) (tc_Memberships report) unchecked in
                          if Structured output then PrintStructured (OutputFlag_String output) report
                          else PrintTrace report (app_style a)
                      end
                  end
              end
          end
      end
  end.
End trace.

(** ** Which owners are checked *)

Section candidates_spec.
Context {W : Type} `{LabelsAPI} `{UnstructuredAPI} `{!OwnerObjects} `{ConditionsAPI} `{ApiErrors} `{Formatting}.
Context `{!clientFactory W} `{!ResourceAPI W} `{!Writers W}.
Context (a : app W) (target : traceTarget) (ns : string).

(** The kind was listed where the object's owners can be, every item decoded,
    and all of them are candidates. *)
Definition kind_listed (owners : list cli_Owner) (k : OwnerKind) : Prop :=
  ∃ ri v items rv all, candidate_scope target ns k = Some ri ∧ (ri_List ri v).1 = Ok (items, rv) ∧
    Forall2 (λ u o, Decode k u = Ok o) items all ∧ ∀ o, o ∈ all → o ∈ owners.

(** Listing the kind failed in a way that is tolerated. *)
Definition kind_skipped (unchecked : list string) (k : OwnerKind) : Prop :=
  kd_Kind k ∈ unchecked ∧ ∃ ri v err, candidate_scope target ns k = Some ri ∧
    (fetch ri k ns "" [] v).1 = Err err ∧
    (IsForbidden err = true ∨ IsNotFound err = true ∨ IsNoMatchError err = true).

Lemma skippable_spec err :
  skippable (Some err) ≠ "" ↔ IsForbidden err = true ∨ IsNotFound err = true ∨ IsNoMatchError err = true.
Proof.
  simpl. destruct (IsForbidden err); [split; [tauto|done]|].
  destruct (IsNotFound err), (IsNoMatchError err); simpl; naive_solver.
Qed.

Lemma fetch_all ri k v l :
  (fetch ri k ns "" [] v).1 = Ok l →
  ∃ items rv, (ri_List ri v).1 = Ok (items, rv) ∧ Forall2 (λ u o, Decode k u = Ok o) items (ls_owners l).
Proof.
  unfold fetch, fetch_items. unfold_M. destruct (ri_List ri v) as [[[items rv]|err] v']; simpl; [|done].
  pose proof (decode_matching_spec k [] items []) as Hd.
  destruct (decode_matching k [] items []) as [owners|err]; simpl; [|done]. intros [= <-]. simpl.
  destruct Hd as (all & Hall & ->). exists items, rv. split; [done|]. simpl.
  replace (filter _ all) with all; [done|]. clear Hall. induction all as [|o all IH]; [done|].
  rewrite filter_cons, decide_True by constructor. by rewrite <- IH.
Qed.

Lemma listed_intro ri k v l (owners : list cli_Owner) :
  candidate_scope target ns k = Some ri → (fetch ri k ns "" [] v).1 = Ok l →
  (∀ o, o ∈ ls_owners l → o ∈ owners) → kind_listed owners k.
Proof.
  intros Hri Hl Hin. destruct (fetch_all ri k v l Hl) as (items & rv & Hitems & Hall).
  by exists ri, v, items, rv, (ls_owners l).
Qed.

Lemma skipped_intro ri k v err (unchecked : list string) :
  candidate_scope target ns k = Some ri → (fetch ri k ns "" [] v).1 = Err err → skippable (Some err) ≠ "" →
  kd_Kind k ∈ unchecked → kind_skipped unchecked k.
Proof. intros Hri Hl Hs%skippable_spec Hin. split; [done|]. by exists ri, v, err. Qed.

(** One turn of the loop for a kind that is listed. *)
Lemma candidate_step k kinds ri c w :
  candidate_scope target ns k = Some ri →
  (∃ l w', (fetch ri k ns "" [] w).1 = Ok l ∧
     candidate_loop a target ns (k :: kinds) c w =
     candidate_loop a target ns kinds
       (Build_candidates (ca_owners c ++ ls_owners l) (ca_unchecked c) (ca_skipErrs c) (S (ca_attempted c))) w') ∨
  (∃ err w', (fetch ri k ns "" [] w).1 = Err err ∧ skippable (Some err) ≠ "" ∧
     candidate_loop a target ns (k :: kinds) c w =
     candidate_loop a target ns kinds
       (Build_candidates (ca_owners c) (ca_unchecked c ++ [kd_Kind k]) (ca_skipErrs c ++ [err])
          (S (ca_attempted c))) w') ∨
  (∃ err w', (fetch ri k ns "" [] w).1 = Err err ∧ skippable (Some err) = "" ∧
     candidate_loop a target ns (k :: kinds) c w = (Err err, w')).
Proof.
  intros Hri. cbn [candidate_loop]. rewrite Hri. unfold mbind, M_bind.
  destruct (fetch ri k ns "" [] w) as [[l|err] w1].
  - left. by exists l, w1.
  - destruct (decide (skippable (Some err) = "")) as [Hs|Hs].
    + right. right. exists err, w1. rewrite decide_False by tauto. done.
    + right. left. rewrite decide_True by done. destruct (warn_skipped _ _ _ w1) as [e w2]. by exists err, w2.
Qed.

(** A run over kinds with their scopes: the candidates gathered are the kinds'
    listings, in order. *)
Inductive gathered : list OwnerKind → candidates → Prop :=
  | gathered_nil : gathered [] (Build_candidates [] [] [] 0)
  | gathered_none ks c k :
      gathered ks c → candidate_scope target ns k = None → gathered (ks ++ [k]) c
  | gathered_listed ks c k ri v l :
      gathered ks c → candidate_scope target ns k = Some ri → (fetch ri k ns "" [] v).1 = Ok l →
      gathered (ks ++ [k])
        (Build_candidates (ca_owners c ++ ls_owners l) (ca_unchecked c) (ca_skipErrs c) (S (ca_attempted c)))
  | gathered_skipped ks c k ri v err :
      gathered ks c → candidate_scope target ns k = Some ri → (fetch ri k ns "" [] v).1 = Err err →
      skippable (Some err) ≠ "" →
      gathered (ks ++ [k])
        (Build_candidates (ca_owners c) (ca_unchecked c ++ [kd_Kind k]) (ca_skipErrs c ++ [err])
           (S (ca_attempted c))).

Lemma candidate_loop_gathered kinds ks c w :
  gathered ks c →
  match (candidate_loop a target ns kinds c w).1 with
  | Ok c' => gathered (ks ++ kinds) c'
  | Err err => ∃ k ri v, k ∈ kinds ∧ candidate_scope target ns k = Some ri ∧
      (fetch ri k ns "" [] v).1 = Err err ∧ skippable (Some err) = ""
  end.
Proof.
  revert ks c w. induction kinds as [|k kinds IH]; intros ks c w Hg; [by rewrite app_nil_r|].
  assert (∀ c' w', gathered (ks ++ [k]) c' →
    match (candidate_loop a target ns kinds c' w').1 with
    | Ok c' => gathered (ks ++ k :: kinds) c'
    | Err err => ∃ k' ri v, k' ∈ k :: kinds ∧ candidate_scope target ns k' = Some ri ∧
        (fetch ri k' ns "" [] v).1 = Err err ∧ skippable (Some err) = ""
    end) as Hnext.
  { intros c' w' Hc'. specialize (IH (ks ++ [k]) c' w' Hc'). destruct (candidate_loop _ _ _ kinds c' w').1.
    - by rewrite <- app_assoc in IH.
    - destruct IH as (k' & ri & v & Hin & Hrest). exists k', ri, v. split; [by right|done]. }
  destruct (candidate_scope target ns k) as [ri|] eqn:Hri.
  - destruct (candidate_step k kinds ri c w Hri)
      as [(l & w' & Hl & ->)|[(err & w' & Hl & Hs & ->)|(err & w' & Hl & Hs & ->)]].
    + apply Hnext. by eapply gathered_listed.
    + apply Hnext. by eapply gathered_skipped.
    + exists k, ri, w. split; [by left|done].
  - cbn [candidate_loop]. rewrite Hri. apply Hnext. by apply gathered_none.
Qed.

Lemma gathered_spec ks c :
  gathered ks c →
  (∀ k, k ∈ ks → candidate_scope target ns k = None ∨ kind_listed (ca_owners c) k ∨ kind_skipped (ca_unchecked c) k) ∧
  (∀ o, o ∈ ca_owners c → ∃ k u, k ∈ ks ∧ Decode k u = Ok o) ∧
  ca_attempted c = length (filter (λ k, is_Some (candidate_scope target ns k)) ks) ∧
  Forall (λ e, skippable (Some e) ≠ "") (ca_skipErrs c) ∧
  length (ca_skipErrs c) ≤ ca_attempted c ∧
  (length (ca_skipErrs c) < ca_attempted c → ∃ k, k ∈ ks ∧ kind_listed (ca_owners c) k).
Proof.
  assert (∀ o o' k, (∀ x, x ∈ o → x ∈ o') → kind_listed o k → kind_listed o' k) as Hlm.
  { intros o o' k Hsub (ri & v & items & rv & all & ? & ? & ? & Hin). exists ri, v, items, rv, all. naive_solver. }
  assert (∀ o o' k, (∀ x, x ∈ o → x ∈ o') → kind_skipped o k → kind_skipped o' k) as Hsm.
  { intros o o' k Hsub [Hin Hex]. split; [auto|done]. }
  induction 1 as [|ks c k Hg (I1 & I2 & I3 & I4 & I5 & I6) Hri|ks c k ri v l Hg (I1 & I2 & I3 & I4 & I5 & I6) Hri Hl
                 |ks c k ri v err Hg (I1 & I2 & I3 & I4 & I5 & I6) Hri Hl Hs]; cbn [ca_owners ca_unchecked ca_skipErrs ca_attempted].
  - split_and!; try done; try (by intros ? []%elem_of_nil). simpl. lia.
  - rewrite filter_app, length_app. split_and!; [| |by rewrite filter_cons, Hri, decide_False by (by intros []); simpl; lia|done|done|].
    + intros k' [Hk'| ->%list_elem_of_singleton]%elem_of_app; [auto|by left].
    + intros o Ho. destruct (I2 o Ho) as (k' & u & Hk' & Hu). exists k', u. rewrite elem_of_app. auto.
    + intros Hlt. destruct (I6 Hlt) as (k' & Hk' & Hkl). exists k'. rewrite elem_of_app. auto.
  - rewrite filter_app, length_app. split_and!; [| |by rewrite filter_cons, Hri, decide_True by eauto; simpl; lia|done|lia|].
    + intros k' [Hk'| ->%list_elem_of_singleton]%elem_of_app.
      * destruct (I1 k' Hk') as [|[Hkl|]]; [auto| |auto]. right. left. eapply Hlm; [|exact Hkl]. set_solver.
      * right. left. eapply listed_intro; [exact Hri|exact Hl|]. set_solver.
    + intros o [Ho|Ho]%elem_of_app.
      * destruct (I2 o Ho) as (k' & u & Hk' & Hu). exists k', u. rewrite elem_of_app. auto.
      * destruct (fetch_all ri k v l Hl) as (items & rv & _ & Hall). apply list_elem_of_lookup in Ho as [i Hi].
        eapply Forall2_lookup_r in Hall as (u & _ & Hu); [|exact Hi]. exists k, u. split; [|done]. set_solver.
    + intros _. exists k. split; [set_solver|]. eapply listed_intro; [exact Hri|exact Hl|]. set_solver.
  - rewrite filter_app, !length_app. split_and!; [| |by rewrite filter_cons, Hri, decide_True by eauto; simpl; lia| |simpl; lia|].
    + intros k' [Hk'| ->%list_elem_of_singleton]%elem_of_app.
      * destruct (I1 k' Hk') as [|[|Hks]]; [auto..|]. right. right. eapply Hsm; [|exact Hks]. set_solver.
      * right. right. eapply skipped_intro; [exact Hri|exact Hl|exact Hs|]. set_solver.
    + intros o Ho. destruct (I2 o Ho) as (k' & u & Hk' & Hu). exists k', u. rewrite elem_of_app. auto.
    + apply Forall_app. by repeat constructor.
    + simpl. intros Hlt. destruct (I6 ltac:(lia)) as (k' & Hk' & Hkl). exists k'. rewrite elem_of_app. auto.
Qed.

(** a trace that answers has checked every owner that could admit the object,
    or says which kinds it has not. When candidateOwners answers, each kind either
    cannot admit the object (Milestones, for a cluster-scoped one), or was listed
    (Milestones in the object's namespace only) with every item among the
    candidates, or is named in the unchecked kinds and its listing was forbidden
    or found no such resource; and at least one kind was listed. It fails only
    when the client does, when a listing fails for another reason, or when every
    kind was skipped: then the errors are joined. *)
Theorem candidateOwners_covers w :
  match (candidateOwners a target ns w).1 with
  | Ok (owners, unchecked) =>
      (∀ k, k ∈ Kinds → (kd_Namespaced k = true ∧ tg_namespaced target = false) ∨
         kind_listed owners k ∨ kind_skipped unchecked k) ∧
      (∃ k, k ∈ Kinds ∧ kind_listed owners k) ∧
      (∀ o, o ∈ owners → ∃ k u, k ∈ Kinds ∧ Decode k u = Ok o)
  | Err err =>
      (cf_Dynamic w).1 = Err err ∨
      (∃ k ri v, k ∈ Kinds ∧ candidate_scope target ns k = Some ri ∧ (fetch ri k ns "" [] v).1 = Err err ∧
         skippable (Some err) = "") ∨
      (∃ errs, err = errors_Join errs ∧ Forall (λ e, skippable (Some e) ≠ "") errs ∧
         length errs = length (filter (λ k, is_Some (candidate_scope target ns k)) Kinds))
  end.
Proof.
  unfold candidateOwners, mbind, M_bind. destruct (cf_Dynamic w) as [[u|err] w0]; [|by left].
  pose proof (candidate_loop_gathered Kinds [] (Build_candidates [] [] [] 0) w0 gathered_nil) as Hg.
  destruct (candidate_loop _ _ _ _ _ _) as [[c|err] w1]; simpl in *; [|by right; left].
  destruct (gathered_spec Kinds c Hg) as (G1 & G2 & G3 & G4 & G5 & G6).
  assert (0 < ca_attempted c) as Hpos.
  { rewrite G3. unfold candidate_scope. destruct (tg_namespaced target); vm_compute; lia. }
  rewrite (bool_decide_eq_true_2 _ Hpos). simpl. case_bool_decide as Hall; simpl.
  - right. right. exists (ca_skipErrs c). by rewrite Hall.
  - split_and!; [|apply G6; lia|done]. intros k Hk. destruct (G1 k Hk) as [Hn|]; [|auto]. left.
    unfold candidate_scope in Hn. destruct (kd_Namespaced k), (tg_namespaced target); done.
Qed.
End candidates_spec.

(** ** What a trace reports *)

Lemma elem_of_concat {A} (x : A) (ls : list (list A)) : x ∈ concat ls ↔ ∃ l, x ∈ l ∧ l ∈ ls.
Proof.
  induction ls as [|l ls IH]; simpl.
  - split; [by intros []%elem_of_nil|]. by intros (l & _ & []%elem_of_nil).
  - rewrite elem_of_app, IH. setoid_rewrite elem_of_cons. naive_solver.
Qed.

Section trace_spec.
Context {W : Type} `{LabelsAPI} `{UnstructuredAPI} `{!OwnerObjects} `{ConditionsAPI} `{ApiErrors} `{Formatting}.
Context `{!clientFactory W} `{!Writers W}.
Context (a : app W) (resolver : Resolver W) (nsLister : NamespaceLister (W := W)).

(** The warnings written so far: errOut takes every one, and the resolver and the
    lister write none. *)
Context (warned : W → list string).
Hypothesis warn_seen : ∀ s v, warned (err_Write s v).2 = warned v ++ [s].
Hypothesis resolve_seen : ∀ group kind version v,
  warned (Resolve (Resolver := resolver) group kind version v).2 = warned v.
Hypothesis lister_seen : ∀ sel v, warned (nsLister sel v).2 = warned v.

Lemma normalize_seen owner v : warned (owner_Normalize owner (Some resolver) (Some nsLister) v).2 = warned v.
Proof.
  assert (PreOrder (λ v v', warned v' = warned v)) as Hpre by (split; [done|intros ???; congruence]).
  unfold owner_Normalize. destruct (ow_typed owner) as [m|cm].
  - by apply (NormalizeMilestone_frame (λ v v', warned v' = warned v)).
  - by apply (NormalizeClusterMilestone_frame (λ v v', warned v' = warned v)).
Qed.

(** An owner's dependencies and errors, as normalised during the trace. *)
Definition normalised (owner : cli_Owner) (res : list Dependency * list MError) : Prop :=
  ∃ v, (owner_Normalize owner (Some resolver) (Some nsLister) v).1 = res.

Lemma warnUnevaluated_seen owner gk errs v :
  warned (warnUnevaluated a owner gk errs v).2 =
  warned v ++ (warning_text a owner <$> filter (λ e, may_concern gk e = true) errs).
Proof.
  revert v. induction errs as [|e errs IH]; intros v; [by rewrite app_nil_r|].
  rewrite filter_cons. cbn [warnUnevaluated]. unfold mbind, M_bind. destruct (may_concern gk e); simpl.
  - pose proof (warn_seen (warning_text a owner e) v) as Hw. destruct (err_Write _ v) as [r v']. simpl in Hw.
    by rewrite IH, Hw, <- app_assoc.
  - apply IH.
Qed.

Lemma trace_owners_spec obj objLabels owners ms w :
  let gk := GK (r_Group obj) (r_Kind obj) in
  let '(ms', w') := trace_owners a resolver nsLister obj objLabels owners ms w in
  ∃ norms, Forall2 normalised owners norms ∧
    ms' = ms ++ concat (zip_with (λ owner res,
      new_membership owner obj <$> Matches res.1 gk (r_Namespace obj) objLabels) owners norms) ∧
    warned w' = warned w ++ concat (zip_with (λ owner res,
      warning_text a owner <$> filter (λ e, may_concern gk e = true) res.2) owners norms).
Proof.
  cbv zeta. revert ms w. induction owners as [|owner owners IH]; intros ms w.
  - exists []. rewrite !app_nil_r. split; [constructor|done].
  - cbn [trace_owners]. unfold mbind, M_bind.
    pose proof (normalize_seen owner w) as Hn.
    destruct (owner_Normalize owner (Some resolver) (Some nsLister) w) as [[deps errs] w1] eqn:Ho. simpl in Hn.
    pose proof (warnUnevaluated_seen owner (GK (r_Group obj) (r_Kind obj)) errs w1) as Hwarn.
    destruct (warnUnevaluated _ _ _ _ w1) as [u w2]. simpl in Hwarn.
    specialize (IH (ms ++ (new_membership owner obj <$>
      Matches deps (GK (r_Group obj) (r_Kind obj)) (r_Namespace obj) objLabels)) w2).
    destruct (trace_owners _ _ _ _ _ _ _ w2) as [ms' w3]. destruct IH as (norms & Hall & -> & Hw3).
    exists ((deps, errs) :: norms). split_and!.
    + constructor; [|done]. exists w. by rewrite Ho.
    + simpl. by rewrite <- app_assoc.
    + simpl. by rewrite Hw3, Hwarn, Hn, <- app_assoc.
Qed.

(** C20: a trace reports exactly the dependencies that admit the object. Each owner
    is normalised once; a membership is in the report exactly when it is a
    dependency of an owner's normalised list, of the object's group and kind,
    whose namespace filter and selector admit the object, shown with the owner's
    recorded verdict and whether the object blocks it; and for every entry that
    could not be normalised and might have admitted the object (of its group and
    kind, or of no entry in particular) a warning is written. *)
Theorem trace_owners_exact obj objLabels owners w :
  let '(ms, w') := trace_owners a resolver nsLister obj objLabels owners [] w in
  ∃ norms, Forall2 normalised owners norms ∧
    (∀ m, m ∈ ms ↔ ∃ i owner deps errs d, owners !! i = Some owner ∧ norms !! i = Some (deps, errs) ∧ d ∈ deps ∧
       GVK_GroupKind (d_GVK d) = GK (r_Group obj) (r_Kind obj) ∧ Admits d (r_Namespace obj) objLabels = true ∧
       m = new_membership owner obj d) ∧
    ∀ i owner deps errs e, owners !! i = Some owner → norms !! i = Some (deps, errs) → e ∈ errs →
      e_Name e = "" ∨ (e_Group e = r_Group obj ∧ e_Kind e = r_Kind obj) →
      warning_text a owner e ∈ warned w'.
Proof.
  pose proof (trace_owners_spec obj objLabels owners [] w) as Hspec. cbv zeta in Hspec.
  destruct (trace_owners _ _ _ _ _ _ _ w) as [ms w']. destruct Hspec as (norms & Hall & -> & Hw').
  exists norms. split; [done|]. rewrite app_nil_l. split.
  - intros m. rewrite elem_of_concat. split.
    + intros (l & Hm & Hl). apply list_elem_of_lookup in Hl as [i Hi].
      apply lookup_zip_with_Some in Hi as (owner & [deps errs] & -> & Ho & Hn).
      apply list_elem_of_fmap in Hm as (d & -> & Hd). apply Matches_spec in Hd as (Hd & Hg & Hk & Ha).
      exists i, owner, deps, errs, d. split_and!; try done. unfold GVK_GroupKind. simpl in *. by rewrite Hg, Hk.
    + intros (i & owner & deps & errs & d & Ho & Hn & Hd & Hgk & Ha & ->).
      exists (new_membership owner obj <$> Matches deps (GK (r_Group obj) (r_Kind obj)) (r_Namespace obj) objLabels).
      split.
      * apply list_elem_of_fmap. exists d. split; [done|]. apply Matches_spec.
        unfold GVK_GroupKind in Hgk. by simplify_eq/=.
      * apply list_elem_of_lookup. exists i. apply lookup_zip_with_Some. by exists owner, (deps, errs).
  - intros i owner deps errs e Ho Hn He Hc. rewrite Hw', elem_of_app. right. rewrite elem_of_concat.
    exists (warning_text a owner <$> filter (λ e, may_concern (GK (r_Group obj) (r_Kind obj)) e = true) errs). split.
    + apply list_elem_of_fmap. exists e. split; [done|]. apply list_elem_of_filter. split; [|done].
      unfold may_concern. simpl. rewrite orb_true_iff, andb_true_iff, !bool_decide_eq_true. tauto.
    + apply list_elem_of_lookup. exists i. apply lookup_zip_with_Some. by exists owner, (deps, errs).
Qed.
End trace_spec.

(** ** A concrete trace: a Pod, and a Milestone with one entry that includes it
    and one that could not be normalised *)
Module TraceFix.
Import NormalizeFix.
#[local] Existing Instance Fix.labels.
#[local] Existing Instance Fix.unstructured.
#[local] Existing Instance Fix.formatting.
#[local] Existing Instance Fix.conditions.

(** The world is the warnings written. *)
#[local] Instance warnings : Writers (list string) := {|
  out_Write := λ s w, (None, w);
  err_Write := λ s w, (None, w ++ [s]);
|}.

Definition namespaces : NamespaceLister (W := list string) := λ sel w, (Ok ["team-a"], w).
Definition the_app : app (list string) := Build_app "milestonectl" "" false (λ w, (0%Z, w)) "" false false.
Definition pod : Resource := Build_Resource "" "v1" "Pod" "team-a" "p" CurrentStatus "" "" false.
Definition owner : cli_Owner :=
  Build_cli_Owner MilestoneKind (Fix.Build_object GVK_zero "team-a" "m" ∅ false "" "") (inl milestone).

Definition traced : list cli_Membership * list string :=
  trace_owners the_app static_resolver namespaces pod ∅ [owner] [] [].

Example traced_shape : (ms_Dependency <$> traced.1, length traced.2) = (["pods"], 1).
Proof. vm_compute. reflexivity. Qed.

Definition membership : cli_Membership :=
  Build_cli_Membership (Build_OwnerRef "Milestone" "team-a" "m" 1) "pods" ConditionUnknown "" true false.

Lemma trace_owners_exact_witness :
  ∃ norms, Forall2 (normalised static_resolver namespaces) [owner] norms ∧
    ∃ i o deps errs d, [owner] !! i = Some o ∧ norms !! i = Some (deps, errs) ∧ d ∈ deps ∧
      GVK_GroupKind (d_GVK d) = GK "" "Pod" ∧ Admits d "team-a" ∅ = true ∧
      membership = new_membership o pod d.
Proof.
  assert (∀ s v, id (err_Write s v).2 = id v ++ [s]) as Hw by (intros; reflexivity).
  assert (∀ group kind version v, id (Resolve (Resolver := static_resolver) group kind version v).2 = id v) as Hr
    by (intros; reflexivity).
  assert (∀ sel v, id (namespaces sel v).2 = id v) as Hl by (intros; reflexivity).
  pose proof (trace_owners_exact the_app static_resolver namespaces id Hw Hr Hl pod ∅ [owner] []) as Hth.
  change (trace_owners the_app static_resolver namespaces pod ∅ [owner] [] []) with traced in Hth.
  assert (membership ∈ traced.1) as Hin by (vm_compute; left).
  destruct traced as [ms w']. destruct Hth as (norms & Hall & Hms & _).
  exists norms. split; [exact Hall|]. apply Hms. exact Hin.
Defined.
End TraceFix.
