(* ===== verification/Commands.v ===== *)
(** * cmd/milestonectl/main.go, version.go and completion.go, and
    internal/version/version.go

    How the program was invoked, the versions it reports and what the shell
    offers. The command tree and [run] are [Root.v]'s. *)

From S2P Require Import Prelude GoStd ApiV1 K8s Fixtures Status Membership Discovery Normalize Evaluate StatusHelpers Text Cli Table App Get Tree Trace.
From Stdlib Require Import Ascii.

(** ** Definitions *)

(** *** internal/version/version.go *)

Definition unknown : string := "dev".
Definition shortCommitLen : nat := 7.

(** debug.BuildInfo: the main module's version and the settings. *)
Record BuildInfo := { bi_Version : string; bi_Settings : list (string * string) }.

Record Info := {
  in_Version : string;
  in_Commit : string;
  in_Date : string;
  in_GoVersion : string;
  in_Platform : string;
}.

Definition set_Version v (i : Info) : Info := Build_Info v (in_Commit i) (in_Date i) (in_GoVersion i) (in_Platform i).
Definition set_Commit c (i : Info) : Info := Build_Info (in_Version i) c (in_Date i) (in_GoVersion i) (in_Platform i).
Definition set_Date d (i : Info) : Info := Build_Info (in_Version i) (in_Commit i) d (in_GoVersion i) (in_Platform i).

(** One turn of the loop over the settings. *)
Definition read_setting (i : Info) (s : string * string) : Info :=
  if bool_decide (s.1 = "vcs.revision") && bool_decide (in_Commit i = "") then set_Commit s.2 i
  else if bool_decide (s.1 = "vcs.time") && bool_decide (in_Date i = "") then set_Date s.2 i
  else i.

(** The variables stamped at link time, what package runtime says, and what
    debug.ReadBuildInfo finds. *)
Definition version_Get (Version Commit Date goVersion platform : string) (bi : option BuildInfo) : Info :=
  let i := Build_Info Version Commit Date goVersion platform in
  let i :=
    match bi with
    | Some bi =>
        let i := if bool_decide (in_Version i = "") && bool_decide (bi_Version bi ≠ "(devel)")
                 then set_Version (bi_Version bi) i else i in
        foldl read_setting i (bi_Settings bi)
    | None => i
    end in
  if decide (in_Version i = "") then set_Version unknown i else i.

Definition Info_String (i : Info) : string :=
  let parts := if decide (in_Commit i ≠ "")
               then ["commit " +:+ String.substring 0 (min (String.length (in_Commit i)) shortCommitLen) (in_Commit i)]
               else [] in
  let parts := if decide (in_Date i ≠ "") then parts ++ ["built " +:+ in_Date i] else parts in
  let rt := strings_TrimSpace (in_GoVersion i +:+ " " +:+ in_Platform i) in
  let parts := if decide (rt ≠ "") then parts ++ [rt] else parts in
  match parts with
  | [] => in_Version i
  | _ => in_Version i +:+ " (" +:+ strings_Join parts ", " +:+ ")"
  end.

(** *** main.go *)

Definition defaultName : string := "milestonectl".
Definition pluginUse : string := "kubectl-milestone".
Definition pluginName : string := "kubectl milestone".
Definition pluginCompleter : string := "kubectl_complete-milestone".

(** filepath.Base, with '/' the only separator. *)
Definition filepath_Base (path : string) : string :=
  if decide (path = "") then "."
  else
    let path := strings_TrimRight path ["/"%char] in
    if decide (path = "") then "/" else default "" (last (split_on "/" path)).

(** The root command's Use and the arguments; [complete] is
    cobra.ShellCompRequestCmd. *)
Definition invocation (complete : string) (argv : list string) : string * list string :=
  let args := tail argv in
  match argv with
  | [] => (defaultName, args)
  | argv0 :: _ =>
      let name := strings_TrimSuffix (filepath_Base argv0) ".exe" in
      if decide (name = pluginUse) then (pluginUse, args)
      else if decide (name = pluginCompleter) then (pluginUse, complete :: args)
      else (defaultName, args)
  end.

Definition rename {W} (name : string) (a : app W) : app W :=
  Build_app name (flag_Namespace a) (app_noColor a) (app_now a) (env_NO_COLOR a) (out_terminal a) (err_terminal a).

(** *** version.go *)

Definition operatorSelector : string := "app.kubernetes.io/name=milestone-operator".

Record versionInfo := {
  vi_Client : Info;
  vi_Operators : list Deployment;
  vi_OperatorError : string;
}.

Section version.
Context {W : Type} `{!clientFactory W} `{!Writers W} `{ApiErrors} `{!Marshal versionInfo} `{YAML}.

(** An operatorInfo is the Deployment's namespace, name and images. *)
Definition operatorVersions : M W (list Deployment * string) :=
  kube ← cf_Kube;
  match kube with
  | Err err => mret ([], "unavailable (" +:+ err_Error err +:+ ")")
  | Ok _ =>
      l ← kube_ListDeployments operatorSelector;
      mret match l with
           | Err err =>
               if IsForbidden err
               then ([], "unavailable (forbidden: your credentials cannot list deployments across namespaces)")
               else ([], "unavailable (" +:+ err_Error err +:+ ")")
           | Ok [] => ([], "not found (no deployment labelled " +:+ operatorSelector +:+ ")")
           | Ok items => (items, "")
           end
  end.

Fixpoint print_operators (ops : list Deployment) : M W (option error) :=
  match ops with
  | [] => mret None
  | op :: ops =>
      err ← out_Write ("operator: " +:+ dpl_Namespace op +:+ "/" +:+ dpl_Name op +:+ " " +:+
                       strings_Join (dpl_Images op) "," +:+ LF_string);
      match err with
      | Some err => mret (Some err)
      | None => print_operators ops
      end
  end.

Definition printVersion (info : versionInfo) (clientOnly : bool) : M W (option error) :=
  err ← out_Write ("client: " +:+ Info_String (vi_Client info) +:+ LF_string);
  if bool_decide (err ≠ None) || clientOnly then mret err
  else if decide (vi_OperatorError info ≠ "")
  then out_Write ("operator: " +:+ vi_OperatorError info +:+ LF_string)
  else print_operators (vi_Operators info).

Definition version_run (client : Info) (output : OutputFlag) (clientOnly : bool) : M W (option error) :=
  info ← (if clientOnly then mret (Build_versionInfo client [] "")
          else '(ops, why) ← operatorVersions; mret (Build_versionInfo client ops why));
  if Structured output then PrintStructured (OutputFlag_String output) info
  else printVersion info clientOnly.
End version.

(** *** completion.go *)

Section completion.
Context {W : Type} `{LabelsAPI} `{UnstructuredAPI} `{Formatting} `{UnicodeTables} `{ResourceArgs}.
Context `{!clientFactory W} `{!ResourceAPI W}.

Definition names (a : app W) (gvr : GroupVersionResource) (namespaced : bool) (prefix : string) : M W (list string) :=
  res ← scoped a gvr namespaced;
  match res with
  | Err _ => mret []
  | Ok (ri, _) =>
      l ← ri_List ri;
      mret match l with
           | Err _ => []
           | Ok (items, _) => (λ u, prefix +:+ GetName u) <$> items
           end
  end.

Definition completeOwnerNames (a : app W) (k : OwnerKind) (args : list string) : M W (list string) :=
  match args with
  | _ :: _ => mret []
  | [] => names a (GVR k) (kd_Namespaced k) ""
  end.

(** The TYPE typed so far and the prefix of the completions. *)
Definition typed_so_far (args : list string) (toComplete : string) : option (string * string) :=
  match args with
  | [] => if contains_byte toComplete "/"
          then let typ := (strings_Cut toComplete "/").1.1 in Some (typ, typ +:+ "/")
          else None
  | [arg] => if contains_byte arg "/" then None else Some (arg, "")
  | _ => None
  end.

Definition completeTraceArgs (a : app W) (args : list string) (toComplete : string) : M W (list string) :=
  match typed_so_far args toComplete with
  | None => mret []
  | Some (typ, prefix) =>
      mapper ← cf_RESTMapper;
      match mapper with
      | Err _ => mret []
      | Ok mapper =>
          target ← resolveType mapper typ;
          match target with
          | Err _ => mret []
          | Ok target => names a (tg_gvr target) (tg_namespaced target) prefix
          end
      end
  end.

Definition completeNamespaces : M W (list string) :=
  lister ← namespaceLister;
  match lister with
  | Err _ => mret []
  | Ok lister =>
      res ← lister Everything;
      mret match res with Ok names => names | Err _ => [] end
  end.
End completion.

(** ** Theorems *)

(** The first value recorded for a key that is not empty. *)
Definition recorded (key : string) (settings : list (string * string)) : string :=
  default "" (head (filter (λ v, v ≠ "") (snd <$> filter (λ s, s.1 = key) settings))).

Lemma recorded_cons key k v l :
  recorded key ((k, v) :: l) = if decide (k = key ∧ v ≠ "") then v else recorded key l.
Proof.
  unfold recorded. rewrite filter_cons. simpl. destruct (decide (k = key)) as [->|Hk].
  - rewrite fmap_cons, filter_cons. simpl. repeat case_decide; naive_solver.
  - by rewrite decide_False by tauto.
Qed.

Lemma read_settings l i :
  let i' := foldl read_setting i l in
  in_Version i' = in_Version i ∧ in_GoVersion i' = in_GoVersion i ∧ in_Platform i' = in_Platform i ∧
  in_Commit i' = (if decide (in_Commit i = "") then recorded "vcs.revision" l else in_Commit i) ∧
  in_Date i' = (if decide (in_Date i = "") then recorded "vcs.time" l else in_Date i).
Proof.
  cbv zeta. revert i. induction l as [|[k v] l IH]; intros i; cbn [foldl].
  - split_and!; try done; by case_decide.
  - destruct (IH (read_setting i (k, v))) as (-> & -> & -> & -> & ->). rewrite !recorded_cons. unfold read_setting.
    cbn [fst snd]. destruct (decide (k = "vcs.revision")) as [->|Hr].
    + rewrite (decide_False (P := "vcs.revision" = "vcs.time" ∧ v ≠ "")) by (intros [? _]; done).
      rewrite (bool_decide_eq_true_2 ("vcs.revision" = "vcs.revision")) by done.
      rewrite (bool_decide_eq_false_2 ("vcs.revision" = "vcs.time")) by done. cbn [andb].
      case_bool_decide; simpl; repeat case_decide; naive_solver.
    + rewrite (decide_False (P := k = "vcs.revision" ∧ v ≠ "")) by tauto.
      rewrite (bool_decide_eq_false_2 (k = "vcs.revision")) by done. cbn [andb].
      repeat case_bool_decide; simpl; repeat case_decide; naive_solver.
Qed.

(** a build always identifies itself, and a stamped value is never
    overridden: the version is the linker's, else the main module's unless that is
    (devel) or empty, else dev; the commit and the date are the linker's, else the
    first value the toolchain recorded, else empty, each on its own. *)
Theorem version_Get_precedence Version Commit Date goVersion platform bi :
  let i := version_Get Version Commit Date goVersion platform bi in
  let settings := match bi with Some bi => bi_Settings bi | None => [] end in
  in_Version i ≠ "" ∧
  in_Version i =
    (if decide (Version ≠ "") then Version
     else match bi with
          | Some bi => if decide (bi_Version bi = "(devel)" ∨ bi_Version bi = "") then unknown else bi_Version bi
          | None => unknown
          end) ∧
  in_Commit i = (if decide (Commit = "") then recorded "vcs.revision" settings else Commit) ∧
  in_Date i = (if decide (Date = "") then recorded "vcs.time" settings else Date) ∧
  in_GoVersion i = goVersion ∧ in_Platform i = platform.
Proof.
  cbv zeta.
  assert (∀ i : Info, let i' := if decide (in_Version i = "") then set_Version unknown i else i in
    in_Version i' = (if decide (in_Version i = "") then unknown else in_Version i) ∧ in_GoVersion i' = in_GoVersion i ∧
    in_Platform i' = in_Platform i ∧ in_Commit i' = in_Commit i ∧ in_Date i' = in_Date i) as Hlast.
  { intros i. cbv zeta. by case_decide. }
  unfold version_Get. set (i0 := Build_Info Version Commit Date goVersion platform). destruct bi as [bi|].
  - set (i1 := if bool_decide (in_Version i0 = "") && _ then _ else _).
    destruct (Hlast (foldl read_setting i1 (bi_Settings bi))) as (-> & -> & -> & -> & ->).
    destruct (read_settings (bi_Settings bi) i1) as (-> & -> & -> & -> & ->).
    subst i1 i0. simpl. repeat case_bool_decide; simpl; repeat case_decide; naive_solver.
  - destruct (Hlast i0) as (-> & -> & -> & -> & ->). subst i0. unfold recorded. simpl.
    repeat case_decide; naive_solver.
Qed.

Section completion_spec.
Context {W : Type} `{LabelsAPI} `{UnstructuredAPI} `{Formatting} `{UnicodeTables} `{ResourceArgs}.
Context `{!clientFactory W} `{!ResourceAPI W}.

Lemma names_spec (a : app W) gvr namespaced prefix w c :
  c ∈ (names a gvr namespaced prefix w).1 → ∃ ri v items rv u,
    ri_gvr ri = gvr ∧ (ri_List ri v).1 = Ok (items, rv) ∧ u ∈ items ∧ c = prefix +:+ GetName u.
Proof.
  unfold names, scoped. unfold_M. intros Hc. destruct (cf_Dynamic w) as [[d|err] w1]; [|by apply elem_of_nil in Hc].
  destruct (negb namespaced).
  - destruct (ri_List _ w1) as [[[items rv]|err] w2] eqn:Hl; simpl in Hc; [|by apply elem_of_nil in Hc].
    apply list_elem_of_fmap in Hc as (u & -> & Hu). eexists _, w1, items, rv, u. by rewrite Hl.
  - destruct (app_namespace a w1) as [[ns|err] w2]; [|by apply elem_of_nil in Hc].
    destruct (ri_List _ w2) as [[[items rv]|err] w3] eqn:Hl; simpl in Hc; [|by apply elem_of_nil in Hc].
    apply list_elem_of_fmap in Hc as (u & -> & Hu). eexists _, w2, items, rv, u. by rewrite Hl.
Qed.

(** what completion offers is what trace reads back. Completing the argument
    of trace offers only names of objects of the type typed, each in the form
    typed: TYPE/NAME after a slash, NAME alone as the second argument; and
    parseTraceArgs reads the completed command line as that type and that
    object's name. *)
Theorem completeTraceArgs_roundtrip (a : app W) args toComplete w c :
  c ∈ (completeTraceArgs a args toComplete w).1 → ∃ typ ri v items rv u,
    (ri_List ri v).1 = Ok (items, rv) ∧ u ∈ items ∧
    ((args = [] ∧ c = typ +:+ "/" +:+ GetName u ∧ ∃ rest, toComplete = typ +:+ "/" +:+ rest) ∨
     (args = [typ] ∧ c = GetName u)) ∧
    (typ ≠ "" → GetName u ≠ "" → parseTraceArgs (args ++ [c]) = Some (Ok (typ, GetName u))).
Proof.
  unfold completeTraceArgs. destruct (typed_so_far args toComplete) as [[typ prefix]|] eqn:Htyped; unfold_M;
    [|by intros []%elem_of_nil].
  destruct cf_RESTMapper as [[mapper|err] w1]; [|by intros []%elem_of_nil].
  destruct (resolveType mapper typ w1) as [[target|err] w2]; [|by intros []%elem_of_nil].
  intros (ri & v & items & rv & u & _ & Hl & Hu & ->)%names_spec. exists typ, ri, v, items, rv, u.
  split; [done|]. split; [done|]. unfold typed_so_far in Htyped. destruct args as [|arg [|]]; [| |done].
  - destruct (contains_byte toComplete "/") eqn:Hc; [|done]. simplify_eq/=.
    destruct (strings_Cut_missing toComplete "/") as [(typ & rest & Hcut)|[_ Hno]]; [|congruence].
    rewrite Hcut. simpl. pose proof (proj1 (strings_Cut_found _ _ _ _) Hcut) as [-> Hnone]. split.
    + left. split; [done|]. split; [by rewrite <- string_app_assoc|]. by exists rest.
    + intros Hty Hname. rewrite <- string_app_assoc.
      assert (strings_Cut (typ +:+ "/" +:+ GetName u) "/" = (typ, GetName u, true)) as -> by by apply strings_Cut_found.
      by rewrite !bool_decide_eq_false_2.
  - destruct (contains_byte arg "/"); [done|]. simplify_eq/=. split; [by right|]. done.
Qed.
End completion_spec.

(** ** Concrete commands *)
Module CommandsFix.
#[local] Existing Instance Fix.labels.
#[local] Existing Instance Fix.unstructured.
#[local] Existing Instance Fix.formatting.
#[local] Existing Instance CliFix.tables.

Example invocations :
  invocation "__complete" <$>
    [[]; ["milestonectl"; "get"]; ["/usr/local/bin/kubectl-milestone"; "tree"]; ["/opt/bin/kubectl-milestone.exe"];
     ["kubectl_complete-milestone"; "get"; ""]; ["renamed-binary"]] =
  [("milestonectl", []); ("milestonectl", ["get"]); ("kubectl-milestone", ["tree"]); ("kubectl-milestone", []);
   ("kubectl-milestone", ["__complete"; "get"; ""]); ("milestonectl", [])].
Proof. vm_compute. reflexivity. Qed.

Example version_line :
  Info_String (Build_Info "v1.2.3" "abc1234def" "2026-01-01T00:00:00Z" "go1.26.3" "linux/amd64") =
  "v1.2.3 (commit abc1234, built 2026-01-01T00:00:00Z, go1.26.3 linux/amd64)".
Proof. vm_compute. reflexivity. Qed.

Definition deployments : GroupVersionResource := Build_GroupVersionResource "apps" "v1" "deployments".

Definition mapper : cli_RESTMapper unit := {|
  cm_mapper := {| RESTMapping := λ _ _ w, (Ok deployments, w); mapper_Reset := None |};
  cm_ResourceFor := λ _ w, (Ok deployments, w);
  cm_KindFor := λ _ w, (Ok (GVK "apps" "v1" "Deployment"), w);
  cm_Scope := λ _ _ w, (Ok RESTScopeNameNamespace, w);
|}.

#[local] Instance clients : clientFactory unit := {|
  discovery_client := unit;
  cf_Dynamic := λ w, (Ok tt, w);
  cf_Discovery := λ w, (Ok tt, w);
  cf_RESTMapper := λ w, (Ok mapper, w);
  cf_Kube := λ w, (Ok tt, w);
  cf_DefaultNamespace := λ w, (Ok "default", w);
  new_Resolver := λ _ _, {| Resolve := λ _ _ _ w, (Err ErrGVKNotEstablished, w);
                            Resolver_Invalidate := λ w, (tt, w);
                            Resolver_InvalidateGroupKind := λ _ _ w, (tt, w) |};
  kube_ListNamespaces := λ _ w, (Ok ["default"], w);
  kube_ListDeployments := λ _ w, (Ok [], w);
|}.

#[local] Instance web : ResourceAPI unit := {|
  ri_Get := λ _ _ w, (Err (errors_New "unused"), w);
  ri_List := λ _ w, (Ok ([Fix.Build_object (GVK "apps" "v1" "Deployment") "default" "web" ∅ false "" ""], "1"), w);
|}.

#[local] Instance resource_args : ResourceArgs := {| ParseResourceArg := λ s, (None, Build_GroupResource "" s) |}.

Definition the_app : app unit := Build_app "milestonectl" "" false (λ w, (0%Z, w)) "" false false.

Lemma completeTraceArgs_roundtrip_witness :
  (completeTraceArgs the_app [] "deploy/" tt).1 = ["deploy/web"] ∧
  ∃ typ u, typ ≠ "" → GetName u ≠ "" → parseTraceArgs ["deploy/web"] = Some (Ok (typ, GetName u)).
Proof.
  assert ((completeTraceArgs the_app [] "deploy/" tt).1 = ["deploy/web"]) as Hc by (vm_compute; reflexivity).
  split; [exact Hc|].
  assert ("deploy/web" ∈ (completeTraceArgs the_app [] "deploy/" tt).1) as Hin by (rewrite Hc; left).
  destruct (completeTraceArgs_roundtrip the_app [] "deploy/" tt "deploy/web" Hin)
    as (typ & ri & v & items & rv & u & _ & _ & _ & Hparse).
  exists typ, u. exact Hparse.
Defined.
End CommandsFix.
