(* ===== verification/Flags.v ===== *)
(** * Go's package flag, as far as cmd/manager/main.go uses it

    A flag set binds names to variables; here the variables are the fields of a
    value [A] that setting a flag updates. Parsing follows flag.FlagSet: one or
    two dashes, "=value" or the next argument, "--" ends the flags. *)

From S2P Require Import Prelude GoStd ApiV1 K8s Fixtures Text.
From Stdlib Require Import Ascii.

(** ** Definitions *)

(** A flag with its Value: whether it is boolean, and Set, which may refuse. *)
Record go_flag (A : Type) := {
  gf_Name : string;
  gf_IsBool : bool;
  gf_Usage : string;
  gf_Set : string → A → option A;
}.
Arguments Build_go_flag {_}.
Arguments gf_Name {_} _.
Arguments gf_IsBool {_} _.
Arguments gf_Set {_} _ _ _.

(** strconv.ParseBool. *)
Definition ParseBool (s : string) : option bool :=
  if decide (s ∈ ["1"; "t"; "T"; "true"; "TRUE"; "True"]) then Some true
  else if decide (s ∈ ["0"; "f"; "F"; "false"; "FALSE"; "False"]) then Some false
  else None.

(** StringVar and BoolVar of a variable with the given assignment. *)
Definition StringVar {A} (assign : string → A → A) (name usage : string) : go_flag A :=
  Build_go_flag name false usage (λ s a, Some (assign s a)).
Definition BoolVar {A} (assign : bool → A → A) (name usage : string) : go_flag A :=
  Build_go_flag name true usage (λ s a, (λ b, assign b a) <$> ParseBool s).

(** What an argument is. *)
Inductive flag_word := NotAFlag | Terminator | BadSyntax | AFlag (name : string) (value : option string).

Definition split_value (name : string) : flag_word :=
  let '(before, after, found) := strings_Cut name "=" in
  AFlag before (if found : bool then Some after else None).

Definition read_word (s : string) : flag_word :=
  match s with
  | String "-" (String "-" "") => Terminator
  | String "-" (String "-" (String c _ as name)) | String "-" (String c _ as name) =>
      if decide (c = "-"%char ∨ c = "="%char) then BadSyntax else split_value name
  | _ => NotAFlag
  end.

Inductive flag_error :=
  | BadFlagSyntax (arg : string)
  | FlagNotDefined (name : string)
  | InvalidValue (value name : string)
  | NeedsArgument (name : string).

(** How Parse ends: with the variables and the remaining arguments, with the help
    that -h or -help asks for when it is not a flag, or with an error. *)
Inductive parsed (A : Type) := Parsed (a : A) (args : list string) | HelpWanted | ParseFailed (err : flag_error).
Arguments Parsed {_}.
Arguments HelpWanted {_}.
Arguments ParseFailed {_}.

Definition find_flag {A} (formal : list (go_flag A)) (name : string) : option (go_flag A) :=
  head (filter (λ f, gf_Name f = name) formal).

(** [set] continues with what Set answers. *)
Definition set_or_fail {A B} (r : option A) (err : flag_error) (k : A → parsed B) : parsed B :=
  match r with Some a => k a | None => ParseFailed err end.

Fixpoint flag_Parse {A} (formal : list (go_flag A)) (args : list string) (a : A) : parsed A :=
  match args with
  | [] => Parsed a []
  | s :: rest =>
      match read_word s with
      | NotAFlag => Parsed a args
      | Terminator => Parsed a rest
      | BadSyntax => ParseFailed (BadFlagSyntax s)
      | AFlag name value =>
          match find_flag formal name with
          | None =>
              if decide (name = "help" ∨ name = "h") then HelpWanted
              else ParseFailed (FlagNotDefined name)
          | Some f =>
              if gf_IsBool f then
                set_or_fail (gf_Set f (default "true" value) a) (InvalidValue (default "true" value) name)
                  (flag_Parse formal rest)
              else
                match value, rest with
                | Some v, _ =>
                    set_or_fail (gf_Set f v a) (InvalidValue v name) (flag_Parse formal rest)
                | None, v :: rest' =>
                    set_or_fail (gf_Set f v a) (InvalidValue v name) (flag_Parse formal rest')
                | None, [] => ParseFailed (NeedsArgument name)
                end
          end
      end
  end.

(** ** Flags spelled with their values *)

(** One assignment, spelled with two dashes. *)
Definition spell (nv : string * string) : string := "--" +:+ nv.1 +:+ "=" +:+ nv.2.

#[local] Arguments spell : simpl never.
#[local] Arguments read_word : simpl never.

(** A name Parse reads back. *)
Definition flag_name (name : string) : bool :=
  match name with
  | "" => false
  | String c _ => negb (bool_decide (c = "-"%char)) && negb (contains_byte name "="%char)
  end.

Lemma read_spell name value : flag_name name = true → read_word (spell (name, value)) = AFlag name (Some value).
Proof.
  destruct name as [|c name]; [done|]. unfold flag_name. rewrite andb_true_iff, !negb_true_iff, bool_decide_eq_false.
  intros [Hd Heq]. assert (c ≠ "="%char) as Hc by (intros ->; by destruct name).
  assert (spell (String c name, value) = String "-" (String "-" (String c (name +:+ "=" +:+ value)))) as -> by done.
  assert (split_value (String c (name +:+ "=" +:+ value)) = AFlag (String c name) (Some value)) as Hs.
  { unfold split_value. by rewrite (proj2 (strings_Cut_found _ "="%char (String c name) value)). }
  unfold read_word. fold read_word. rewrite Hs, decide_False by naive_solver. done.
Qed.

(** The assignments of a list of flags in turn. *)
Fixpoint assign {A} (formal : list (go_flag A)) (l : list (string * string)) (a : A) : option A :=
  match l with
  | [] => Some a
  | (name, value) :: l =>
      match find_flag formal name with
      | Some f => match gf_Set f value a with Some a => assign formal l a | None => None end
      | None => None
      end
  end.

(** Parsing spelled flags assigns them, and goes on with the arguments after. *)
Lemma flag_Parse_spelled {A} (formal : list (go_flag A)) l rest (a a' : A) :
  Forall (λ nv, flag_name nv.1 = true) l → assign formal l a = Some a' →
  flag_Parse formal ((spell <$> l) ++ rest) a = flag_Parse formal rest a'.
Proof.
  intros Hl. revert a. induction Hl as [|[name value] l Hn _ IH]; intros a Ha; simpl in *; [congruence|].
  rewrite (read_spell name value) by done. destruct (find_flag formal name) as [f|]; [|done].
  destruct (gf_Set f value a) as [a1|] eqn:Hset; [|done]. simpl. rewrite Hset. simpl. by case_match; apply IH.
Qed.

(** A flag that is not defined ends parsing with an error, wherever it stands. *)
Lemma flag_Parse_undefined {A} (formal : list (go_flag A)) l name value rest (a a' : A) :
  Forall (λ nv, flag_name nv.1 = true) l → assign formal l a = Some a' →
  flag_name name = true → find_flag formal name = None → name ≠ "help" → name ≠ "h" →
  flag_Parse formal ((spell <$> l) ++ spell (name, value) :: rest) a = ParseFailed (FlagNotDefined name).
Proof.
  intros Hl Ha Hn Hf Hhelp Hh. rewrite (flag_Parse_spelled _ _ _ _ _ Hl Ha). simpl.
  by rewrite (read_spell name value), Hf, decide_False by naive_solver.
Qed.
