(* ===== verification/Clients.v ===== *)
(** * configClients and newApp of cmd/milestonectl/root.go

    The client factory of the running program: every client is built from one REST
    configuration, read from the kubeconfig flags on first use. The state of
    [configClients] sits beside the world its calls into client-go act on, and the
    factory is an instance of [clientFactory] over both. *)

From S2P Require Import Prelude GoStd ApiV1 K8s Fixtures Status Membership Discovery Normalize Evaluate StatusHelpers Text Cli Table App Get Tree Trace Commands.

(** ** Definitions *)

(** genericclioptions.ConfigFlags, rest.AddUserAgent and the client constructors
    of client-go. The namespace answered comes with whether it overrides. *)
Class KubeConfig (W : Type) := {
  rest_Config : Type;
  kube_discovery : Type;
  ToRESTConfig : M W (result rest_Config);
  AddUserAgent : rest_Config → string → rest_Config;
  dynamic_NewForConfig : rest_Config → M W (result unit);
  discovery_NewForConfig : rest_Config → M W (result kube_discovery);
  kubernetes_NewForConfig : rest_Config → M W (result unit);
  ToRESTMapper : M W (result (cli_RESTMapper W));
  kubeconfig_Namespace : M W (result (string * bool));
  resolver_over : kube_discovery → Z → Resolver W;
  typed_ListNamespaces : string → M W (result (list string));
  typed_ListDeployments : string → M W (result (list Deployment));
}.

Section clients.
Context {W : Type} `{!KubeConfig W}.
(** What version.Get answers. *)
Context (build : Info).

(** The memo of the configuration. *)
Record configClients := { cc_config : option rest_Config }.

(** An effect on the world beside the clients' state. *)
Definition beside {A} (m : M W A) : M (configClients * W) A := λ '(c, w), let '(a, w') := m w in (a, (c, w')).

Definition restConfig : M (configClients * W) (result rest_Config) := λ '(c, w),
  match cc_config c with
  | Some cfg => (Ok cfg, (c, w))
  | None =>
      let '(cfg, w) := ToRESTConfig w in
      match cfg with
      | Err err => (Err err, (c, w))
      | Ok cfg =>
          let cfg := AddUserAgent cfg ("milestonectl/" +:+ in_Version build) in
          (Ok cfg, (Build_configClients (Some cfg), w))
      end
  end.

(** A client from the configuration. *)
Definition from_config {A} (new : rest_Config → M W (result A)) : M (configClients * W) (result A) :=
  cfg ← restConfig;
  match cfg with
  | Err err => mret (Err err)
  | Ok cfg => beside (new cfg)
  end.

Definition clients_Dynamic : M (configClients * W) (result unit) := from_config dynamic_NewForConfig.
Definition clients_Discovery : M (configClients * W) (result kube_discovery) := from_config discovery_NewForConfig.
Definition clients_Kube : M (configClients * W) (result unit) := from_config kubernetes_NewForConfig.

(** A mapper and a resolver, whose calls leave the clients' state alone. *)
Definition mapper_beside (m : cli_RESTMapper W) : cli_RESTMapper (configClients * W) := {|
  cm_mapper := {|
    RESTMapping := λ gk version, beside (RESTMapping W (cm_mapper m) gk version);
    mapper_Reset := beside <$> mapper_Reset W (cm_mapper m);
  |};
  cm_ResourceFor := λ gvr, beside (cm_ResourceFor m gvr);
  cm_KindFor := λ gvr, beside (cm_KindFor m gvr);
  cm_Scope := λ gk version, beside (cm_Scope m gk version);
|}.
Definition resolver_beside (r : Resolver W) : Resolver (configClients * W) := {|
  Resolve := λ group kind version, beside (Resolve group kind version);
  Resolver_Invalidate := beside Resolver_Invalidate;
  Resolver_InvalidateGroupKind := λ group kind, beside (Resolver_InvalidateGroupKind group kind);
|}.

Definition clients_RESTMapper : M (configClients * W) (result (cli_RESTMapper (configClients * W))) :=
  m ← beside ToRESTMapper;
  mret match m with Ok m => Ok (mapper_beside m) | Err err => Err err end.

Definition clients_DefaultNamespace : M (configClients * W) (result string) :=
  ns ← beside kubeconfig_Namespace;
  mret match ns with Ok (ns, _) => Ok ns | Err err => Err err end.

#[export] Instance config_clients : clientFactory (configClients * W) := {
  discovery_client := kube_discovery;
  cf_Dynamic := clients_Dynamic;
  cf_Discovery := clients_Discovery;
  cf_RESTMapper := clients_RESTMapper;
  cf_Kube := clients_Kube;
  cf_DefaultNamespace := clients_DefaultNamespace;
  new_Resolver := λ dc ttl, resolver_beside (resolver_over dc ttl);
  kube_ListNamespaces := λ selector, beside (typed_ListNamespaces selector);
  kube_ListDeployments := λ selector, beside (typed_ListDeployments selector);
}.

(** newApp: the clients are the world's; what NewStyle reads of the environment
    and of the writers comes with them. *)
Definition new_configClients : configClients := {| cc_config := None |}.

Definition newApp (time_Now : M (configClients * W) time) (NO_COLOR : string) (out_is_terminal err_is_terminal : bool)
    : app (configClients * W) := {|
  app_name := defaultName;
  flag_Namespace := "";
  app_noColor := false;
  app_now := time_Now;
  env_NO_COLOR := NO_COLOR;
  out_terminal := out_is_terminal;
  err_terminal := err_is_terminal;
|}.

(** ** One configuration for every client *)

(** The clients a command may ask for. *)
Inductive client_request := WantDynamic | WantDiscovery | WantKube | WantMapper | WantNamespace.

Definition outcome {A} (m : M (configClients * W) (result A)) : M (configClients * W) (option error) :=
  r ← m;
  mret match r with Ok _ => None | Err err => Some err end.

Definition serve_client (q : client_request) : M (configClients * W) (option error) :=
  match q with
  | WantDynamic => outcome clients_Dynamic
  | WantDiscovery => outcome clients_Discovery
  | WantKube => outcome clients_Kube
  | WantMapper => outcome clients_RESTMapper
  | WantNamespace => outcome clients_DefaultNamespace
  end.

(** The configuration is read as long as reading it fails; what is read is given
    the user agent, kept, and what every later client is built from. *)
Lemma restConfig_spec c w :
  let '(cfg, (c', w')) := restConfig (c, w) in
  match cc_config c with
  | Some kept => cfg = Ok kept ∧ c' = c ∧ w' = w
  | None => w' = (ToRESTConfig w).2 ∧
      match (ToRESTConfig w).1 with
      | Err err => cfg = Err err ∧ c' = c
      | Ok read => cfg = Ok (AddUserAgent read ("milestonectl/" +:+ in_Version build)) ∧
          cc_config c' = Some (AddUserAgent read ("milestonectl/" +:+ in_Version build))
      end
  end.
Proof.
  unfold restConfig. destruct (cc_config c) as [kept|] eqn:Hc; [done|].
  by destruct (ToRESTConfig w) as [[read|err] w'].
Qed.

Lemma config_kept q c w cfg : cc_config c = Some cfg → (serve_client q (c, w)).2.1 = c.
Proof.
  intros Hc. destruct q; unfold serve_client, outcome, clients_Dynamic, clients_Discovery, clients_Kube, from_config,
    clients_RESTMapper, clients_DefaultNamespace; unfold_M; unfold restConfig; rewrite ?Hc; simpl;
    by repeat case_match; simplify_eq/=.
Qed.

(** Once a configuration is kept, a run of requests keeps it, and a typed, dynamic
    or discovery client is what its constructor makes of it. *)
Lemma one_config qs c w cfg :
  cc_config c = Some cfg →
  let '(c', w') := foldl (λ s q, (serve_client q s).2) (c, w) qs in
  cc_config c' = Some cfg ∧
  ∀ A (new : rest_Config → M W (result A)), from_config new (c', w') = beside (new cfg) (c', w').
Proof.
  revert c w. induction qs as [|q qs IH]; intros c w Hc; simpl.
  - split; [done|]. intros A new. unfold from_config. unfold_M. unfold restConfig. by rewrite Hc.
  - pose proof (config_kept q c w cfg Hc) as Hk. destruct (serve_client q (c, w)) as [err [c' w']]. simpl in *.
    subst c'. by apply IH.
Qed.
End clients.
