(* ===== verification/Manager.v ===== *)
(** * cmd/manager/main.go and the SetupWithManager methods: how the operator
    starts

    [main] reads its command line and performs a sequence of calls into
    controller-runtime, client-go and prometheus, exiting at the first that fails.
    A call is a value; [perform] makes it. What main hands to the manager (the
    reconcilers, the event sources, the options) is the data of the calls, and the
    reconcilers are those the transition system of [Operator.v] runs. *)

From S2P Require Import Prelude GoStd ApiV1 K8s Fixtures Text Metrics Status Membership Discovery Normalize SubscriberIndex Registry StatusHelpers StatusPatch Reconciler ReconcilerSpec ReconcilerWrites Process CRDWatcher FluxNotify Collector Evaluate Informers Wiring Operator Cli Table App Get Tree Trace Commands Flags.
From Stdlib Require Import Ascii.

(** ** Definitions *)

(** *** The command line *)

(** The variables of main's flags. *)
Record manager_flags := {
  metricsAddr : string;
  probeAddr : string;
  enableLeaderElection : bool;
  secureMetrics : bool;
  metricsCertPath : string;
  metricsCertName : string;
  metricsCertKey : string;
  enableHTTP2 : bool;
  enableFluxNotify : bool;
  showVersion : bool;
}.

Definition default_flags : manager_flags := {|
  metricsAddr := "0";
  probeAddr := ":8081";
  enableLeaderElection := true;
  secureMetrics := false;
  metricsCertPath := "";
  metricsCertName := "tls.crt";
  metricsCertKey := "tls.key";
  enableHTTP2 := false;
  enableFluxNotify := true;
  showVersion := false;
|}.

Definition set_metricsAddr v (f : manager_flags) := Build_manager_flags v (probeAddr f) (enableLeaderElection f)
  (secureMetrics f) (metricsCertPath f) (metricsCertName f) (metricsCertKey f) (enableHTTP2 f) (enableFluxNotify f) (showVersion f).
Definition set_probeAddr v (f : manager_flags) := Build_manager_flags (metricsAddr f) v (enableLeaderElection f)
  (secureMetrics f) (metricsCertPath f) (metricsCertName f) (metricsCertKey f) (enableHTTP2 f) (enableFluxNotify f) (showVersion f).
Definition set_enableLeaderElection v (f : manager_flags) := Build_manager_flags (metricsAddr f) (probeAddr f) v
  (secureMetrics f) (metricsCertPath f) (metricsCertName f) (metricsCertKey f) (enableHTTP2 f) (enableFluxNotify f) (showVersion f).
Definition set_secureMetrics v (f : manager_flags) := Build_manager_flags (metricsAddr f) (probeAddr f) (enableLeaderElection f)
  v (metricsCertPath f) (metricsCertName f) (metricsCertKey f) (enableHTTP2 f) (enableFluxNotify f) (showVersion f).
Definition set_metricsCertPath v (f : manager_flags) := Build_manager_flags (metricsAddr f) (probeAddr f) (enableLeaderElection f)
  (secureMetrics f) v (metricsCertName f) (metricsCertKey f) (enableHTTP2 f) (enableFluxNotify f) (showVersion f).
Definition set_metricsCertName v (f : manager_flags) := Build_manager_flags (metricsAddr f) (probeAddr f) (enableLeaderElection f)
  (secureMetrics f) (metricsCertPath f) v (metricsCertKey f) (enableHTTP2 f) (enableFluxNotify f) (showVersion f).
Definition set_metricsCertKey v (f : manager_flags) := Build_manager_flags (metricsAddr f) (probeAddr f) (enableLeaderElection f)
  (secureMetrics f) (metricsCertPath f) (metricsCertName f) v (enableHTTP2 f) (enableFluxNotify f) (showVersion f).
Definition set_enableHTTP2 v (f : manager_flags) := Build_manager_flags (metricsAddr f) (probeAddr f) (enableLeaderElection f)
  (secureMetrics f) (metricsCertPath f) (metricsCertName f) (metricsCertKey f) v (enableFluxNotify f) (showVersion f).
Definition set_enableFluxNotify v (f : manager_flags) := Build_manager_flags (metricsAddr f) (probeAddr f) (enableLeaderElection f)
  (secureMetrics f) (metricsCertPath f) (metricsCertName f) (metricsCertKey f) (enableHTTP2 f) v (showVersion f).
Definition set_showVersion v (f : manager_flags) := Build_manager_flags (metricsAddr f) (probeAddr f) (enableLeaderElection f)
  (secureMetrics f) (metricsCertPath f) (metricsCertName f) (metricsCertKey f) (enableHTTP2 f) (enableFluxNotify f) v.

Definition manager_formal : list (go_flag manager_flags) := [
  StringVar set_metricsAddr "metrics-bind-address" ("The address the metrics endpoint binds to. " +:+
    "Use :8443 for HTTPS or :8080 for HTTP, or leave as 0 to disable the metrics service.");
  StringVar set_probeAddr "health-probe-bind-address" "The address the probe endpoint binds to.";
  BoolVar set_enableLeaderElection "leader-elect" ("Enable leader election for controller manager. " +:+
    "Enabling this will ensure there is only one active controller manager.");
  BoolVar set_secureMetrics "metrics-secure"
    ("If set, the metrics endpoint is served via HTTPS with a bearer-token AuthN/AuthZ filter. " +:+
     "Default is plain HTTP with no authentication; restrict access by other means (e.g. NetworkPolicy).");
  StringVar set_metricsCertPath "metrics-cert-path" "The directory that contains the metrics server certificate.";
  StringVar set_metricsCertName "metrics-cert-name" "The name of the metrics server certificate file.";
  StringVar set_metricsCertKey "metrics-cert-key" "The name of the metrics server key file.";
  BoolVar set_enableHTTP2 "enable-http2" "If set, HTTP/2 will be enabled for the metrics server";
  BoolVar set_enableFluxNotify "flux-notify"
    "Poke FluxCD parent (Kustomization/HelmRelease) on Milestone Ready transitions.";
  BoolVar set_showVersion "version" "Print version information and exit." ].

(** The flags other packages bind to the same set (zap's and controller-runtime's
    --kubeconfig) set variables of their own. *)
Definition lift_flag {A B} (get : B → A) (put : A → B → B) (f : go_flag A) : go_flag B :=
  Build_go_flag (gf_Name f) (gf_IsBool f) (gf_Usage _ f) (λ s b, (λ a, put a b) <$> gf_Set f s (get b)).

Definition command_line {Z : Type} (other : list (go_flag Z)) : list (go_flag (manager_flags * Z)) :=
  (lift_flag fst (λ a b, (a, b.2)) <$> manager_formal) ++ (lift_flag snd (λ a b, (b.1, a)) <$> other).

(** *** Times, names and schemes *)

(** 10 * time.Minute and 60 * time.Second. *)
Definition informerResync : Z := 10 * 60 * 1000000000.
Definition discoveryTTL : Z := 60 * 1000000000.

Definition defaultMaxConcurrentReconciles : Z := 4.

(** init: utilruntime.Must panics when a group cannot be added to the scheme. *)
Definition Must {S} (err : M S (option error)) : MO S unit := λ s,
  match err s with
  | (Some _, _) => None
  | (None, s) => Some (tt, s)
  end.

Definition init {S} (clientgoscheme_AddToScheme apiv1_AddToScheme apiextv1_AddToScheme : M S (option error)) : MO S unit :=
  Must clientgoscheme_AddToScheme;;
  Must apiv1_AddToScheme;;
  Must apiextv1_AddToScheme.

(** path/filepath, with '/' the only separator: Clean's elements, innermost
    first, and Join. *)
Definition clean_step (rooted : bool) (stack : list string) (elem : string) : list string :=
  if decide (elem = "" ∨ elem = ".") then stack
  else if decide (elem = "..") then
    match stack with
    | top :: below => if decide (top = "..") then elem :: stack else below
    | [] => if rooted then [] else [elem]
    end
  else elem :: stack.

Definition filepath_Clean (path : string) : string :=
  let rooted := String.prefix "/" path in
  let out := String.concat "/" (reverse (foldl (clean_step rooted) [] (split_on "/"%char path))) in
  if rooted then "/" +:+ out else if decide (out = "") then "." else out.

Definition filepath_Join (elems : list string) : string :=
  match filter (λ e, e ≠ "") elems with
  | [] => ""
  | elems => filepath_Clean (String.concat "/" elems)
  end.

(** *** What main hands to the libraries *)

(** certwatcher.CertWatcher, by its files. *)
Record CertWatcher := { certPath : string; keyPath : string }.

(** What main sets of a tls.Config. *)
Record tls_Config := { NextProtos : list string; GetCertificate : option CertWatcher }.

Definition disableHTTP2 (c : tls_Config) : tls_Config := Build_tls_Config ["http/1.1"] (GetCertificate c).
Definition serve_certificate (w : CertWatcher) (c : tls_Config) : tls_Config := Build_tls_Config (NextProtos c) (Some w).

Inductive FilterProvider := WithAuthenticationAndAuthorization.

Record metricsserver_Options := {
  ms_BindAddress : string;
  ms_SecureServing : bool;
  ms_TLSOpts : list (tls_Config → tls_Config);
  ms_FilterProvider : option FilterProvider;
}.

Record ctrl_Options := {
  co_Metrics : metricsserver_Options;
  co_HealthProbeBindAddress : string;
  co_LeaderElection : bool;
  co_LeaderElectionID : string;
}.

(** A pointer to one of main's two EnqueueSources. *)
Inductive source_pointer := milestoneSource | cmilestoneSource.

(** controller-runtime's builder: a controller for a type, its further watches,
    the sources it starts with its queue, and the reconciler that reads it.
    [W] is the world the reconciler runs in. *)
Record watch (W : Type) := {
  wt_Object : string;
  wt_Map : M W (list Request);
  wt_Predicate : namespace_event → bool;
}.

Record builder (W : Type) := {
  cb_For : string;
  cb_Named : string;
  cb_MaxConcurrentReconciles : Z;
  cb_Watches : list (watch W);
  cb_RawSources : list source_pointer;
  cb_Reconcile : Request → M W (result Z);
}.
Arguments cb_Named {_} _.
Arguments cb_RawSources {_} _.
Arguments cb_Reconcile {_} _ _.

(** builder.WatchesRawSource. *)
Definition WatchesRawSource {W} (s : source_pointer) (b : builder W) : builder W :=
  Build_builder W (cb_For W b) (cb_Named b) (cb_MaxConcurrentReconciles W b) (cb_Watches W b)
    (cb_RawSources b ++ [s]) (cb_Reconcile b).

Inductive runnable := RegistryRunnable | CertWatcherRunnable (w : CertWatcher).

Inductive collector (W : Type) `{LabelsAPI} :=
  | VecCollector (v : Vec)
  | StateCollector (lister : StateLister (W := W)).
Arguments VecCollector {_ _}.
Arguments StateCollector {_ _}.

(** The calls main makes; what one is made on (the configuration, the manager)
    is what the call before answered. *)
Inductive setup_call (W : Type) `{LabelsAPI} :=
  | Usage (err : option flag_error)
  | Println (s : string)
  | SetLogger
  | LogInfo (msg : string) (kvs : list (string * string))
  | LogError (err : error) (msg : string) (kvs : list (string * string))
  | NewCertWatcher (w : CertWatcher)
  | GetConfig
  | SetupSignalHandler
  | NewManager (o : ctrl_Options)
  | NewDiscoveryClient
  | NewDynamicClient
  | AddRunnable (r : runnable)
  | Complete (b : builder W)
  | RegisterCollector (c : collector W)
  | SetBuildInfo (values : list string) (x : Z)
  | AddHealthzCheck (name : string)
  | AddReadyzCheck (name : string)
  | StartManager.
Arguments Usage {_ _}.
Arguments Println {_ _}.
Arguments SetLogger {_ _}.
Arguments LogInfo {_ _}.
Arguments LogError {_ _}.
Arguments NewCertWatcher {_ _}.
Arguments GetConfig {_ _}.
Arguments SetupSignalHandler {_ _}.
Arguments NewManager {_ _}.
Arguments NewDiscoveryClient {_ _}.
Arguments NewDynamicClient {_ _}.
Arguments AddRunnable {_ _}.
Arguments Complete {_ _}.
Arguments RegisterCollector {_ _}.
Arguments SetBuildInfo {_ _}.
Arguments AddHealthzCheck {_ _}.
Arguments AddReadyzCheck {_ _}.
Arguments StartManager {_ _}.

(** *** Programs that exit: a value, or the code of os.Exit *)
Definition MX (S A : Type) : Type := S → (A + Z) * S.

#[export] Instance MX_ret S : MRet (MX S) := λ A a s, (inl a, s).
#[export] Instance MX_bind S : MBind (MX S) := λ A B f m s,
  match m s with
  | (inl a, s') => f a s'
  | (inr code, s') => (inr code, s')
  end.
Definition os_Exit {S A} (code : Z) : MX S A := λ s, (inr code, s).

Section main.
Context `{LabelsAPI} `{UnstructuredAPI} `{Formatting} `{ApiErrors} `{ConditionsLaws}
  `{FinalizerAPI} `{MetaJSON}.
Context {E : Type} `{!CRDClient E} `{!NamespaceClient E} `{!Runtime E} `{!FluxClient E}.
Context `{!OwnerClient E (Milestone LabelSelector)} `{!OwnerClient E (ClusterMilestone LabelSelector)}.
(** time.Now. *)
Context (time_Now : M E time).

Abbreviation setup_call := (setup_call (operator E)).

(** *** SetupWithManager *)

Record MilestoneReconciler := {
  mr_Reconciler : Reconciler (W := operator E) (Milestone LabelSelector);
  mr_EventSource : option source_pointer;
}.
Record ClusterMilestoneReconciler := {
  cmr_Reconciler : Reconciler (W := operator E) (ClusterMilestone LabelSelector);
  cmr_EventSource : option source_pointer;
}.

(** A source that is not nil is watched. *)
Definition watch_source {W} (s : option source_pointer) (b : builder W) : builder W :=
  match s with Some s => WatchesRawSource s b | None => b end.

Definition MilestoneReconciler_builder (r : MilestoneReconciler) : builder (operator E) :=
  watch_source (mr_EventSource r) {|
    cb_For := "Milestone";
    cb_Named := "milestone";
    cb_MaxConcurrentReconciles := defaultMaxConcurrentReconciles;
    cb_Watches := [];
    cb_RawSources := [];
    cb_Reconcile := MilestoneReconciler_Reconcile (mr_Reconciler r);
  |}.

Definition ClusterMilestoneReconciler_builder (r : ClusterMilestoneReconciler) : builder (operator E) :=
  watch_source (cmr_EventSource r) {|
    cb_For := "ClusterMilestone";
    cb_Named := "clustermilestone";
    cb_MaxConcurrentReconciles := defaultMaxConcurrentReconciles;
    cb_Watches := [{|
      wt_Object := "Namespace";
      wt_Map := namespaceToClusterMilestones list_ClusterMilestones;
      wt_Predicate := namespaceMembershipPredicate |}];
    cb_RawSources := [];
    cb_Reconcile := ClusterMilestoneReconciler_Reconcile (cmr_Reconciler r);
  |}.

(** The CRD watcher, whose requests name a CRD; 0 is the controller default. *)
Definition CRDWatcher_builder : builder (operator E) := {|
  cb_For := "CustomResourceDefinition";
  cb_Named := "crd-watcher";
  cb_MaxConcurrentReconciles := 0;
  cb_Watches := [];
  cb_RawSources := [];
  cb_Reconcile := λ req w,
    match crd_handler req.2 w with
    | (None, w) => (Ok 0%Z, w)
    | (Some err, w) => (Err err, w)
    end;
|}.

(** *** What main builds from its flags *)

(** The informer factory, over the manager's mapper. *)
Definition dynFactory {W} (mapper : RESTMapper W) : DynamicFactory := NewDynamicFactory mapper informerResync.

Definition flux_notifier (controller : string) : Notifier (W := E) := Build_Notifier controller (Some time_Now).

Definition milestoneFluxNotifier (f : manager_flags) : option (Milestone LabelSelector → M E unit) :=
  if enableFluxNotify f
  then Some (λ m, NotifyTransition (Some (flux_notifier controllerMilestone)) (Some (m_Meta m))) else None.
Definition clusterMilestoneFluxNotifier (f : manager_flags) : option (ClusterMilestone LabelSelector → M E unit) :=
  if enableFluxNotify f
  then Some (λ m, NotifyTransition (Some (flux_notifier controllerClusterMilestone)) (Some (cm_Meta m))) else None.

Definition milestone_controller (f : manager_flags) : builder (operator E) :=
  MilestoneReconciler_builder (Build_MilestoneReconciler (milestoneReconciler (milestoneFluxNotifier f)) (Some milestoneSource)).
Definition cmilestone_controller (f : manager_flags) : builder (operator E) :=
  ClusterMilestoneReconciler_builder
    (Build_ClusterMilestoneReconciler (clusterMilestoneReconciler (clusterMilestoneFluxNotifier f)) (Some cmilestoneSource)).

(** The certificate watcher main asks for, when there is a path. *)
Definition wanted_certificate (f : manager_flags) : option CertWatcher :=
  if decide (0 < String.length (metricsCertPath f))
  then Some (Build_CertWatcher (filepath_Join [metricsCertPath f; metricsCertName f])
               (filepath_Join [metricsCertPath f; metricsCertKey f]))
  else None.

Definition metricsServerOptions (f : manager_flags) (watcher : option CertWatcher) : metricsserver_Options := {|
  ms_BindAddress := metricsAddr f;
  ms_SecureServing := secureMetrics f;
  ms_TLSOpts := (if enableHTTP2 f then [] else [disableHTTP2]) ++
    match watcher with Some w => [serve_certificate w] | None => [] end;
  ms_FilterProvider := if secureMetrics f then Some WithAuthenticationAndAuthorization else None;
|}.

Definition managerOptions (f : manager_flags) (watcher : option CertWatcher) : ctrl_Options := {|
  co_Metrics := metricsServerOptions f watcher;
  co_HealthProbeBindAddress := probeAddr f;
  co_LeaderElection := enableLeaderElection f;
  co_LeaderElectionID := "milestone-operator.as-code.io";
|}.

(** *** main *)

Context {S : Type} (perform : setup_call → M S (option error)) (already : error → bool) (build : Info).

(** A call whose outcome main ignores or that has none. *)
Definition do_call (c : setup_call) : MX S unit := λ s, (inl tt, (perform c s).2).

(** A step that must succeed: its error is logged and the program exits with 1. *)
Definition must (step : M S (option error)) (msg : string) (kvs : list (string * string)) : MX S unit := λ s,
  match step s with
  | (None, s) => (inl tt, s)
  | (Some err, s) => (do_call (LogError err msg kvs);; os_Exit 1) s
  end.

(** GetConfigOrDie logs and exits by itself. *)
Definition GetConfigOrDie : MX S unit := must (perform GetConfig) "unable to get kubeconfig" [].

(** The manager, the clients and the registry. *)
Definition setup_manager (f : manager_flags) : MX S unit :=
  do_call SetLogger;;
  do_call (LogInfo "starting milestone-operator"
    [("version", in_Version build); ("commit", in_Commit build); ("goVersion", in_GoVersion build)]);;
  match wanted_certificate f with
  | Some w =>
      do_call (LogInfo "Initializing metrics certificate watcher" [("path", metricsCertPath f)]);;
      must (perform (NewCertWatcher w)) "init metrics cert watcher" []
  | None => mret tt
  end;;
  GetConfigOrDie;;
  do_call SetupSignalHandler;;
  must (perform (NewManager (managerOptions f (wanted_certificate f)))) "unable to start manager" [];;
  must (perform NewDiscoveryClient) "unable to construct discovery client" [];;
  must (perform NewDynamicClient) "unable to construct dynamic client" [];;
  must (perform (AddRunnable RegistryRunnable)) "register watcher.Registry as manager.Runnable" [].

Definition setup_controllers (f : manager_flags) : MX S unit :=
  must (perform (Complete (milestone_controller f))) "unable to create controller" [("controller", controllerMilestone)];;
  must (perform (Complete (cmilestone_controller f))) "unable to create controller" [("controller", controllerClusterMilestone)];;
  must (perform (Complete CRDWatcher_builder)) "unable to create controller" [("controller", "CRDWatcher")].

Definition setup_metrics : MX S unit :=
  must (Register (λ v, perform (RegisterCollector (VecCollector v))) already (Some tt)) "register metrics" [];;
  do_call (SetBuildInfo [in_Version build; in_Commit build] 1);;
  must (perform (RegisterCollector (StateCollector (managerStateLister list_Milestones list_ClusterMilestones))))
    "register state collector" [].

Definition start_manager (f : manager_flags) : MX S unit :=
  match wanted_certificate f with
  | Some w => must (perform (AddRunnable (CertWatcherRunnable w))) "add metrics cert watcher" []
  | None => mret tt
  end;;
  must (perform (AddHealthzCheck "healthz")) "set up healthz" [];;
  must (perform (AddReadyzCheck "readyz")) "set up readyz" [];;
  do_call (LogInfo "starting manager" []);;
  must (perform StartManager) "problem running manager" [].

Definition serve (f : manager_flags) : MX S unit :=
  setup_manager f;; setup_controllers f;; setup_metrics;; start_manager f.

(** [other] are the flags other packages bind, with their values. A command line
    that does not parse exits with 2, and with 0 after -h. *)
Definition main {Z} (other : list (go_flag Z)) (z : Z) (args : list string) : MX S unit :=
  match flag_Parse (command_line other) args (default_flags, z) with
  | HelpWanted => do_call (Usage None);; os_Exit 0
  | ParseFailed err => do_call (Usage (Some err));; os_Exit 2
  | Parsed (f, _) _ =>
      if showVersion f then do_call (Println (Info_String build))
      else serve f
  end.
End main.

(** ** The command line *)

Definition bool_text (b : bool) : string := if b then "true" else "false".

(** Every flag with its value. *)
Definition spelled (f : manager_flags) : list (string * string) := [
  ("metrics-bind-address", metricsAddr f);
  ("health-probe-bind-address", probeAddr f);
  ("leader-elect", bool_text (enableLeaderElection f));
  ("metrics-secure", bool_text (secureMetrics f));
  ("metrics-cert-path", metricsCertPath f);
  ("metrics-cert-name", metricsCertName f);
  ("metrics-cert-key", metricsCertKey f);
  ("enable-http2", bool_text (enableHTTP2 f));
  ("flux-notify", bool_text (enableFluxNotify f));
  ("version", bool_text (showVersion f)) ].

Lemma find_own_flag {Z} (other : list (go_flag Z)) name g :
  find_flag manager_formal name = Some g →
  find_flag (command_line other) name = Some (lift_flag fst (λ a b, (a, b.2)) g).
Proof.
  unfold find_flag, command_line. rewrite filter_app. generalize manager_formal. intros l. induction l as [|h l IH]; [done|].
  rewrite filter_cons. csimpl. rewrite filter_cons. simpl. case_decide as Hn; [by intros [= <-]|done].
Qed.

(** Assignments to main's own flags do the same beside the other flags. *)
Lemma assign_own {Z} (other : list (go_flag Z)) z l a a' :
  assign manager_formal l a = Some a' → assign (command_line other) l (a, z) = Some (a', z).
Proof.
  revert a. induction l as [|[name value] l IH]; intros a; simpl; [by intros [= ->]|].
  destruct (find_flag manager_formal name) as [g|] eqn:Hg; [|done].
  rewrite (find_own_flag other name g Hg). simpl. destruct (gf_Set g value a) as [a1|]; [|done]. apply IH.
Qed.

Lemma assign_spelled f : assign manager_formal (spelled f) default_flags = Some f.
Proof. by destruct f as [? ? [] [] ? ? ? [] [] []]. Qed.

(** main reads its command line back. Whatever flags other packages bind
    beside main's own, a command line that gives each of main's flags once, as
    --name=value, parses to exactly those values and leaves no argument; a flag
    left out keeps its documented default; and a flag nobody defines is an error,
    wherever it stands. *)
Theorem flags_roundtrip {Z} (other : list (go_flag Z)) z f :
  flag_Parse (command_line other) (spell <$> spelled f) (default_flags, z) = Parsed (f, z) [] ∧
  (∀ l f', Forall (λ nv, flag_name nv.1 = true) l → assign manager_formal l default_flags = Some f' →
     flag_Parse (command_line other) (spell <$> l) (default_flags, z) = Parsed (f', z) []) ∧
  ∀ l f' name value rest, Forall (λ nv, flag_name nv.1 = true) l →
     assign manager_formal l default_flags = Some f' → flag_name name = true →
     find_flag (command_line other) name = None → name ≠ "help" → name ≠ "h" →
     flag_Parse (command_line other) ((spell <$> l) ++ spell (name, value) :: rest) (default_flags, z) =
       ParseFailed (FlagNotDefined name).
Proof.
  assert (∀ l f', Forall (λ nv, flag_name nv.1 = true) l → assign manager_formal l default_flags = Some f' →
    flag_Parse (command_line other) (spell <$> l) (default_flags, z) = Parsed (f', z) []) as Hall.
  { intros l f' Hl Ha. rewrite <- (app_nil_r (spell <$> l)).
    by rewrite (flag_Parse_spelled _ _ _ _ _ Hl (assign_own other z _ _ _ Ha)). }
  split_and!; [apply Hall, assign_spelled; by repeat constructor|exact Hall|].
  intros l f' name value rest Hl Ha Hn Hf Hhelp Hh.
  exact (flag_Parse_undefined _ _ _ _ _ _ _ Hl (assign_own other z _ _ _ Ha) Hn Hf Hhelp Hh).
Qed.

(** ** What main calls, and how it ends *)

Section trace.
Context `{LabelsAPI} `{UnstructuredAPI} `{Formatting} `{ApiErrors} `{ConditionsLaws}
  `{FinalizerAPI} `{MetaJSON}.
Context {E : Type} `{!CRDClient E} `{!NamespaceClient E} `{!Runtime E} `{!FluxClient E}.
Context `{!OwnerClient E (Milestone LabelSelector)} `{!OwnerClient E (ClusterMilestone LabelSelector)}.
Context (time_Now : M E time) (already : error → bool) (build : Info).

Abbreviation call := (setup_call (operator E)).

(** What each call answers; the world is the calls made so far. *)
Context (answer : call → option error).
Definition traced (c : call) : M (list call) (option error) := λ tr, (answer c, tr ++ [c]).

(** The calls that can fail. *)
Definition is_step (c : call) : bool :=
  match c with
  | Usage _ | Println _ | SetLogger | LogInfo _ _ | LogError _ _ _ | SetupSignalHandler | SetBuildInfo _ _ => false
  | _ => true
  end.
Definition steps_of (tr : list call) : list call := filter (λ c, is_step c = true) tr.

(** A call that does not stop main: a vector may be registered already. *)
Definition passes (c : call) : Prop :=
  match answer c with
  | None => True
  | Some err => match c with RegisterCollector (VecCollector _) => already err = true | _ => False end
  end.

#[local] Instance passes_dec c : Decision (passes c).
Proof. unfold passes. repeat case_match; apply _. Defined.

(** A program makes the planned calls in order, up to its first failure, which is
    the last thing it logs. *)
Definition follows {A} (p : MX (list call) A) (plan : list call) : Prop := ∀ tr,
  let '(r, tr') := p tr in
  ∃ made rest, plan = made ++ rest ∧ steps_of tr' = steps_of tr ++ made ∧
  match r with
  | inl _ => rest = [] ∧ Forall passes made
  | inr code => code = 1%Z ∧ ∃ before c err msg kvs,
      made = before ++ [c] ∧ Forall passes before ∧ ¬ passes c ∧ answer c = Some err ∧
      last tr' = Some (LogError err msg kvs)
  end.

Lemma follows_ret {A} (a : A) : follows (mret a) [].
Proof. intros tr. exists [], []. rewrite (app_nil_r (steps_of tr)). simpl. by split_and!. Qed.

Lemma follows_bind {A B} (p : MX (list call) A) (k : A → MX (list call) B) plan plan' :
  follows p plan → (∀ a, follows (k a) plan') → follows (p ≫= k) (plan ++ plan').
Proof.
  intros Hp Hk tr. unfold mbind, MX_bind. specialize (Hp tr). destruct (p tr) as [[a|code] tr1].
  - destruct Hp as (made & rest & -> & Ht & -> & Hok). specialize (Hk a tr1).
    destruct (k a tr1) as [[b|code] tr2]; destruct Hk as (made' & rest' & -> & Ht' & Hend).
    + exists (made ++ made'), rest'. split_and!; [by rewrite app_nil_r, app_assoc|by rewrite Ht', Ht, app_assoc|apply Hend|].
      destruct Hend. by apply Forall_app.
    + exists (made ++ made'), rest'. split_and!; [by rewrite app_nil_r, app_assoc|by rewrite Ht', Ht, app_assoc|apply Hend|].
      destruct Hend as (_ & before & c & err & msg & kvs & -> & Hb & Hrest).
      exists (made ++ before), c, err, msg, kvs. rewrite app_assoc. split_and!; [done| |apply Hrest..].
      by apply Forall_app.
  - destruct Hp as (made & rest & -> & Ht & Hend). exists made, (rest ++ plan'). by rewrite app_assoc.
Qed.

Lemma steps_snoc tr c : steps_of (tr ++ [c]) = steps_of tr ++ if is_step c then [c] else [].
Proof. unfold steps_of. rewrite filter_app, filter_cons. by destruct (is_step c). Qed.

Lemma follows_call c : is_step c = false → follows (do_call traced c) [].
Proof. intros Hc tr. unfold do_call, traced. simpl. exists [], []. rewrite steps_snoc, Hc. by split_and!. Qed.

Lemma follows_must c msg kvs :
  is_step c = true → match c with RegisterCollector (VecCollector _) => False | _ => True end →
  follows (must traced (traced c) msg kvs) [c].
Proof.
  intros Hc Hv tr. unfold must, do_call, traced, mbind, MX_bind, os_Exit. destruct (answer c) as [err|] eqn:Ha; simpl.
  - exists [c], []. split_and!; [done|by rewrite !steps_snoc, Hc, app_nil_r|done|].
    exists [], c, err, msg, kvs. unfold passes. rewrite Ha, last_snoc. split_and!; [done..| |done|done].
    destruct c as [| | | | | | | | | | | | |[]| | | |]; tauto.
  - exists [c], []. split_and!; [done|by rewrite steps_snoc, Hc|done|]. apply Forall_singleton. unfold passes. by rewrite Ha.
Qed.

(** A call that passes, then the rest. *)
Lemma follows_pass {A} c (p q : MX (list call) A) plan :
  is_step c = true → passes c → (∀ tr, p tr = q (tr ++ [c])) → follows q plan → follows p (c :: plan).
Proof.
  intros Hc Hok Hpq Hq tr. rewrite Hpq. specialize (Hq (tr ++ [c])). destruct (q (tr ++ [c])) as [r tr'].
  destruct Hq as (made & rest & -> & Ht & Hend). exists (c :: made), rest.
  rewrite Ht, steps_snoc, Hc, <- app_assoc. split_and!; [done..|]. destruct r as [a|code].
  - destruct Hend. split; [done|by constructor].
  - destruct Hend as (-> & before & c' & err & msg & kvs & -> & Hb & Hrest). split; [done|].
    exists (c :: before), c', err, msg, kvs. split_and!; [done|by constructor|apply Hrest..].
Qed.

(** metrics.Register, which passes over what is registered already. *)
Lemma follows_register vs msg kvs :
  follows (must traced (register_all (λ v, traced (RegisterCollector (VecCollector v))) already vs) msg kvs)
    ((λ v, RegisterCollector (VecCollector v)) <$> vs).
Proof.
  induction vs as [|v vs IH].
  - intros tr. exists [], []. rewrite (app_nil_r (steps_of tr)). simpl. by split_and!.
  - set (c := RegisterCollector (VecCollector v) : call).
    destruct (decide (passes c)) as [Hok|Hno].
    + refine (follows_pass c _ _ _ eq_refl Hok _ IH). intros tr. unfold must. cbn [register_all].
      unfold mbind, M_bind. change (traced _ tr) with (answer c, tr ++ [c]). cbv beta iota. unfold passes in Hok.
      destruct (answer c) as [err|]; [|done]. simpl in Hok. by rewrite Hok.
    + intros tr. unfold must. cbn [register_all]. unfold mbind, M_bind. change (traced _ tr) with (answer c, tr ++ [c]).
      cbv beta iota. unfold passes in Hno. destruct (answer c) as [err|] eqn:Ha; [|by destruct Hno].
      rewrite (not_true_is_false _ Hno). exists [c], ((λ v, RegisterCollector (VecCollector v)) <$> vs). simpl.
      split_and!; [done|by rewrite !steps_snoc, app_nil_r|done|].
      exists [], c, err, msg, kvs. unfold passes. rewrite Ha, last_snoc. by split_and!.
Qed.

(** Every call of a start that can fail, in order: Start is the last. *)
Definition setup_before (f : manager_flags) : list call :=
  match wanted_certificate f with Some w => [NewCertWatcher w] | None => [] end ++
  [GetConfig; NewManager (managerOptions f (wanted_certificate f)); NewDiscoveryClient; NewDynamicClient;
   AddRunnable RegistryRunnable;
   Complete (milestone_controller time_Now f); Complete (cmilestone_controller time_Now f); Complete CRDWatcher_builder] ++
  ((λ v, RegisterCollector (VecCollector v)) <$> All) ++
  [RegisterCollector (StateCollector (managerStateLister list_Milestones list_ClusterMilestones))] ++
  match wanted_certificate f with Some w => [AddRunnable (CertWatcherRunnable w)] | None => [] end ++
  [AddHealthzCheck "healthz"; AddReadyzCheck "readyz"].
Definition setup_plan (f : manager_flags) : list call := setup_before f ++ [StartManager].

Lemma follows_eq {A} (p : MX (list call) A) plan plan' : plan = plan' → follows p plan → follows p plan'.
Proof. by intros ->. Qed.

Ltac follow :=
  lazymatch goal with
  | |- follows (mbind _ _) _ => eapply follows_bind; [follow|intros; follow]
  | |- follows (match ?o with _ => _ end) _ => destruct o; follow
  | |- follows (mret _) _ => apply follows_ret
  | |- follows (do_call _ _) _ => by apply follows_call
  | |- follows (must _ (traced _) _ _) _ => by apply follows_must
  | |- follows (must _ (Register _ _ _) _ _) _ => apply follows_register
  | |- follows (GetConfigOrDie _) _ => by apply follows_must
  end.

Lemma serve_follows f : follows (serve time_Now traced already build f) (setup_plan f).
Proof.
  unfold serve, setup_manager, setup_controllers, setup_metrics, start_manager, setup_plan, setup_before.
  destruct (wanted_certificate f) as [w|]; (eapply follows_eq; [|follow]); reflexivity.
Qed.

(** C21: main either serves or exits, and says why. A command line that does not
    parse exits with 2, -h with 0, and --version prints the version, all without
    another call. Otherwise main makes the calls of its plan in order (the
    certificate watcher first, when a path is given; the manager; the clients; the
    registry; the three controllers; all metrics; the health checks; the manager's
    Start last): it returns, for exit code 0, exactly when all of them passed, a
    metric that was registered already being no failure; and at the first failure
    it makes no further call, logs that error, and exits with 1. *)
Theorem main_exits {Z} (other : list (go_flag Z)) z args :
  let '(r, tr) := main time_Now traced already build other z args [] in
  match flag_Parse (command_line other) args (default_flags, z) with
  | HelpWanted => r = inr 0%Z ∧ tr = [Usage None]
  | ParseFailed err => r = inr 2%Z ∧ tr = [Usage (Some err)]
  | Parsed (f, _) _ =>
      if showVersion f then r = inl tt ∧ tr = [Println (Info_String build)]
      else
        ∃ made rest, setup_plan f = made ++ rest ∧ steps_of tr = made ∧
        match r with
        | inl _ => rest = [] ∧ Forall passes made
        | inr code => code = 1%Z ∧ ∃ before c err msg kvs,
            made = before ++ [c] ∧ Forall passes before ∧ ¬ passes c ∧ answer c = Some err ∧
            last tr = Some (LogError err msg kvs)
        end
  end.
Proof.
  unfold main. destruct (flag_Parse _ _ _) as [[f z'] rest| |err]; [|done..].
  destruct (showVersion f); [done|]. exact (serve_follows f []).
Qed.
End trace.

(** ** What the manager starts *)

Section start.
Context `{LabelsAPI} `{UnstructuredAPI} `{Formatting} `{ApiErrors} `{ConditionsLaws}
  `{FinalizerAPI} `{MetaJSON}.
Context {E : Type} `{!CRDClient E} `{!NamespaceClient E} `{!Runtime E} `{!FluxClient E}.
Context `{!OwnerClient E (Milestone LabelSelector)} `{!OwnerClient E (ClusterMilestone LabelSelector)}.
Context (time_Now : M E time) (already : error → bool) (build : Info).

(** What main allocates before Start: the resolver with its TTL, the sources
    without a queue, the registry with its default timeouts. The world around it:
    what discovery answers, the clocks, whether an informer starts and what it
    has cached, the API server. *)
Definition allocated (d : Discoverer) (now : nat → time) (clock : time)
    (factory : GroupVersionKind → result unit) (cache : GroupVersionKind → result (list Unstructured))
    (server : E) : operator E := {|
  op_resolver := NewResolver d discoveryTTL now;
  op_process := Build_process (NewRegistry 0 0) clock factory cache ∅ [];
  op_milestoneSource := NewEnqueueSource;
  op_cmilestoneSource := NewEnqueueSource;
  op_adds := [];
  op_lastObserved := ∅;
  op_server := server;
|}.

(** Starting a controller starts its raw sources with its queue. *)
Definition start_source (q : workqueue) (w : operator E) (s : source_pointer) : operator E :=
  match s with
  | milestoneSource => Build_operator (op_resolver w) (op_process w) (source_Start q (op_milestoneSource w))
      (op_cmilestoneSource w) (op_adds w) (op_lastObserved w) (op_server w)
  | cmilestoneSource => Build_operator (op_resolver w) (op_process w) (op_milestoneSource w)
      (source_Start q (op_cmilestoneSource w)) (op_adds w) (op_lastObserved w) (op_server w)
  end.

Definition start_controller (queue : string → workqueue) (w : operator E) (b : builder (operator E)) : operator E :=
  foldl (start_source (queue (cb_Named b))) w (cb_RawSources b).

(** The controllers a run completed, and the options it made the manager with. *)
Definition completed (tr : list (setup_call (operator E))) : list (builder (operator E)) :=
  omap (λ c, match c with Complete b => Some b | _ => None end) tr.
Definition manager_made (tr : list (setup_call (operator E))) : list ctrl_Options :=
  omap (λ c, match c with NewManager o => Some o | _ => None end) tr.

Lemma omap_steps {B} (f : setup_call (operator E) → option B) tr :
  (∀ c b, f c = Some b → is_step c = true) → omap f tr = omap f (steps_of tr).
Proof.
  intros Hf. induction tr as [|c tr IH]; [done|]. unfold steps_of. rewrite filter_cons. csimpl.
  destruct (is_step c) eqn:Hc; [|destruct (f c) as [b|] eqn:Hb; [by rewrite (Hf c b Hb) in Hc|]].
  - rewrite decide_True by done. csimpl. by rewrite IH.
  - by rewrite decide_False.
Qed.

Lemma plan_completed f :
  completed (setup_plan time_Now f) =
  [milestone_controller time_Now f; cmilestone_controller time_Now f; CRDWatcher_builder].
Proof. unfold setup_plan, setup_before. by destruct (wanted_certificate f). Qed.

Lemma plan_managers f : manager_made (setup_plan time_Now f) = [managerOptions f (wanted_certificate f)].
Proof. unfold setup_plan, setup_before. by destruct (wanted_certificate f). Qed.

(** Start is the last call of a plan, and in it once. *)
Lemma plan_started f made rest : setup_plan time_Now f = made ++ rest → StartManager ∈ made → rest = [].
Proof.
  assert (StartManager ∉ setup_before time_Now f) as Hno.
  { intros Hin. assert (Forall (λ c, c ≠ StartManager) (setup_before time_Now f)) as Hall.
    { unfold setup_before. destruct (wanted_certificate f); by repeat constructor. }
    rewrite Forall_forall in Hall. by destruct (Hall _ Hin). }
  unfold setup_plan. destruct rest as [|c rest _] using rev_ind; [done|]. rewrite app_assoc. intros [Heq _]%app_inj_tail Hin.
  destruct Hno. rewrite Heq. apply elem_of_app. by left.
Qed.

(** A run that reaches Start has made every call of its plan. *)
Lemma reaches_start {Z} (other : list (go_flag Z)) z args f z' rest answer :
  flag_Parse (command_line other) args (default_flags, z) = Parsed (f, z') rest → showVersion f = false →
  StartManager ∈ (main time_Now (traced answer) already build other z args []).2 →
  steps_of (main time_Now (traced answer) already build other z args []).2 = setup_plan time_Now f.
Proof.
  intros Hparse Hv. unfold main. rewrite Hparse, Hv.
  pose proof (serve_follows time_Now already build answer f []) as Hf.
  destruct (serve _ _ _ _ f []) as [r tr]. destruct Hf as (made & left & Hplan & Ht & _). simpl in *. intros Hin.
  assert (StartManager ∈ made) as Hmade by (rewrite <- Ht; by apply list_elem_of_filter).
  by rewrite Ht, Hplan, (plan_started f made left Hplan Hmade), app_nil_r.
Qed.

(** The TLS options and the filter of the metrics server. *)
Lemma metrics_tls f watcher cfg :
  let cfg' := foldl (λ c opt, opt c) cfg (ms_TLSOpts (metricsServerOptions f watcher)) in
  NextProtos cfg' = (if enableHTTP2 f then NextProtos cfg else ["http/1.1"]) ∧
  GetCertificate cfg' = match watcher with Some w => Some w | None => GetCertificate cfg end.
Proof. unfold metricsServerOptions. simpl. by destruct (enableHTTP2 f), watcher. Qed.

Lemma launched queue f w :
  let w0 := foldl (start_controller queue) w (completed (setup_plan time_Now f)) in
  op_resolver w0 = op_resolver w ∧ op_process w0 = op_process w ∧
  op_milestoneSource w0 = Some (queue "milestone") ∧ op_cmilestoneSource w0 = Some (queue "clustermilestone").
Proof. by rewrite plan_completed. Qed.

Lemma controller_steps f b req w :
  b ∈ completed (setup_plan time_Now f) →
  op_step (milestoneFluxNotifier time_Now f) (clusterMilestoneFluxNotifier time_Now f) w (cb_Reconcile b req w).2.
Proof.
  rewrite plan_completed. rewrite !elem_of_cons. intros [->|[->|[->|[]%elem_of_nil]]]; simpl.
  - apply step_milestone.
  - apply step_cmilestone.
  - pose proof (step_crd (milestoneFluxNotifier time_Now f) (clusterMilestoneFluxNotifier time_Now f) w req.2) as Hs.
    by destruct (crd_handler req.2 w) as [[err|] w'].
Qed.

(** C18: what main starts is the operator, wired. When a start gets as far as the
    manager's Start, exactly three controllers have been completed: those that run
    the Milestone and the ClusterMilestone reconciler, each with a Flux notifier
    that reads the clock and counts under its own controller's name if
    --flux-notify is on and with none if it is off, and the CRD watcher's. The
    metrics server asks for
    authentication and authorisation exactly with --metrics-secure, speaks
    HTTP/1.1 only unless --enable-http2, and serves the watched certificate when
    there is one; leader election is on as --leader-elect says. Starting the
    controllers hands the queues of the two owner controllers to the sources
    events are enqueued to; the operator that then runs starts from an empty
    registry and cache, and through any sequence of reconciles, events and outside
    changes it keeps its invariant and both queues, and every reconcile of a
    completed controller is one of its steps. *)
Theorem manager_starts {Z} (other : list (go_flag Z)) z args f z' rest answer queue d now clock factory cache server :
  let tr := (main time_Now (traced answer) already build other z args []).2 in
  flag_Parse (command_line other) args (default_flags, z) = Parsed (f, z') rest → showVersion f = false →
  StartManager ∈ tr →
  let w0 := foldl (start_controller queue) (allocated d now clock factory cache server) (completed tr) in
  let notifier controller := Build_Notifier controller (Some time_Now) in
  let on_milestone := if enableFluxNotify f
    then Some (λ m, NotifyTransition (Some (notifier "Milestone")) (Some (m_Meta m))) else None in
  let on_cmilestone := if enableFluxNotify f
    then Some (λ m, NotifyTransition (Some (notifier "ClusterMilestone")) (Some (cm_Meta m))) else None in
  cb_Named <$> completed tr = ["milestone"; "clustermilestone"; "crd-watcher"] ∧
  cb_Reconcile <$> completed tr =
    [MilestoneReconciler_Reconcile (milestoneReconciler on_milestone);
     ClusterMilestoneReconciler_Reconcile (clusterMilestoneReconciler on_cmilestone);
     λ req w, match crd_handler req.2 w with (None, w) => (Ok 0%Z, w) | (Some err, w) => (Err err, w) end] ∧
  (∃ o, manager_made tr = [o] ∧ co_LeaderElection o = enableLeaderElection f ∧
     (ms_FilterProvider (co_Metrics o) = Some WithAuthenticationAndAuthorization ↔ secureMetrics f = true) ∧
     ∀ cfg, let cfg' := foldl (λ c opt, opt c) cfg (ms_TLSOpts (co_Metrics o)) in
       NextProtos cfg' = (if enableHTTP2 f then NextProtos cfg else ["http/1.1"]) ∧
       GetCertificate cfg' = match wanted_certificate f with Some w => Some w | None => GetCertificate cfg end) ∧
  started w0 ∧
  ∀ w, rtc (op_step on_milestone on_cmilestone) w0 w →
    op_inv w ∧ op_milestoneSource w = Some (queue "milestone") ∧
    op_cmilestoneSource w = Some (queue "clustermilestone") ∧
    ∀ b req, b ∈ completed tr → op_step on_milestone on_cmilestone w (cb_Reconcile b req w).2.
Proof.
  intros tr Hparse Hv Hin. pose proof (reaches_start other z args f z' rest answer Hparse Hv Hin) as Hsteps.
  fold tr in Hsteps. assert (completed tr = completed (setup_plan time_Now f)) as Hc.
  { unfold completed. rewrite <- Hsteps. apply omap_steps. by intros []. }
  assert (manager_made tr = [managerOptions f (wanted_certificate f)]) as Hm.
  { rewrite <- plan_managers, <- Hsteps. apply omap_steps. by intros []. }
  intros w0 notifier on_milestone on_cmilestone. subst w0. rewrite Hc. set (w0 := foldl _ _ _).
  change on_milestone with (milestoneFluxNotifier time_Now f).
  change on_cmilestone with (clusterMilestoneFluxNotifier time_Now f).
  destruct (launched queue f (allocated d now clock factory cache server)) as (Hr & Hp & Hs1 & Hs2). fold w0 in Hr, Hp, Hs1, Hs2.
  assert (started w0) as Hst.
  { split; [exists 0%Z, 0%Z; by rewrite Hp|]. exists d, discoveryTTL, now. by rewrite Hr. }
  split_and!; [by rewrite plan_completed| | |done|].
  - by rewrite plan_completed.
  - exists (managerOptions f (wanted_certificate f)). split_and!; [done..| |apply metrics_tls].
    simpl. by destruct (secureMetrics f).
  - intros w Hw. destruct (steps_sources _ _ _ _ Hw) as [Hk1 Hk2].
    split_and!; [by apply (op_inv_steps _ _ _ _ Hw), started_inv|by rewrite Hk1|by rewrite Hk2|].
    intros b req Hb. by apply controller_steps.
Qed.
End start.

(** ** A start with secured metrics and without Flux *)
Module ManagerFix.
Import OperatorFix.
#[local] Existing Instance Fix.labels.
#[local] Existing Instance Fix.unstructured.
#[local] Existing Instance Fix.formatting.
#[local] Existing Instance Fix.api_errors.
#[local] Existing Instance Fix.conditions.
#[local] Existing Instance Fix.conditions_laws.
#[local] Existing Instance Fix.finalizers.
#[local] Existing Instance PatchFix.meta_json.
#[local] Existing Instance server_crds.
#[local] Existing Instance server_namespaces.
#[local] Existing Instance server_milestones.
#[local] Existing Instance server_cmilestones.
#[local] Instance server_runtime : Runtime server := { wall_clock := λ w, (7%Z, w); record := λ _ w, (tt, w) }.
#[local] Instance server_flux : FluxClient server := {
  flux_Get := λ _ _ _ w, (Err (errors_New "no Flux"), w);
  flux_Patch := λ _ _ _ _ w, (None, w);
}.

Definition build : Info := Build_Info "v1" "abc" "" "go1" "".
Definition no_flags : list (go_flag unit) := [].
Definition secured : list string :=
  ["--metrics-secure"; "--metrics-cert-path"; "/certs/./"; "-flux-notify=false"; "--enable-http2=0"; "rest"].

Definition parsed_flags : manager_flags :=
  set_secureMetrics true (set_metricsCertPath "/certs/./" (set_enableFluxNotify false default_flags)).

Example secured_parsed :
  flag_Parse (command_line no_flags) secured (default_flags, tt) = Parsed (parsed_flags, tt) ["rest"] ∧
  wanted_certificate parsed_flags = Some (Build_CertWatcher "/certs/tls.crt" "/certs/tls.key").
Proof. split; reflexivity. Qed.

Example bad_lines :
  (λ args, flag_Parse (command_line no_flags) args (default_flags, tt)) <$>
    [["--leader-elect=maybe"]; ["--metrics-bind-address"]; ["---version"]; ["-h"]; ["--zap-devel"]] =
  [ParseFailed (InvalidValue "maybe" "leader-elect"); ParseFailed (NeedsArgument "metrics-bind-address");
   ParseFailed (BadFlagSyntax "---version"); HelpWanted; ParseFailed (FlagNotDefined "zap-devel")].
Proof. reflexivity. Qed.

(** The API server does not know the CRDs yet: completing the first controller
    fails. *)
Definition no_crds (c : setup_call (operator server)) : option error :=
  match c with Complete _ => Some (errors_New "no match") | _ => None end.

Definition time_Now : M server time := λ w, (7%Z, w).
Definition start_up answer := main time_Now (traced answer) (λ _, false) build no_flags tt secured [].

Example exits_early :
  (start_up no_crds).1 = inr 1%Z ∧ length (completed (start_up no_crds).2) = 1 ∧
  last (start_up no_crds).2 = Some (LogError (errors_New "no match") "unable to create controller" [("controller", "Milestone")]).
Proof. split_and!; reflexivity. Qed.

Lemma flags_roundtrip_witness :
  flag_Parse (command_line no_flags) ["--metrics-secure=true"; "--kubeconfig=x"] (default_flags, tt) =
    ParseFailed (FlagNotDefined "kubeconfig").
Proof.
  destruct (flags_roundtrip no_flags tt default_flags) as (_ & _ & Hbad).
  apply (Hbad [("metrics-secure", "true")] (set_secureMetrics true default_flags) "kubeconfig" "x" []);
    [by repeat constructor|reflexivity..|discriminate|discriminate].
Defined.

Definition all_well (c : setup_call (operator server)) : option error := None.
Definition queue (name : string) : workqueue := if decide (name = "milestone") then 0 else 1.
Definition running : operator server :=
  foldl (start_controller queue)
    (allocated discoverer (λ _, 0%Z) 0%Z (λ _, Ok tt) (λ _, Ok []) (Build_server ∅ []))
    (completed (start_up all_well).2).

Lemma manager_starts_witness :
  cb_Named <$> completed (start_up all_well).2 = ["milestone"; "clustermilestone"; "crd-watcher"] ∧
  (∃ o, manager_made (start_up all_well).2 = [o] ∧
     ms_FilterProvider (co_Metrics o) = Some WithAuthenticationAndAuthorization) ∧
  op_milestoneSource running = Some 0 ∧ op_cmilestoneSource running = Some 1 ∧ op_inv running.
Proof.
  assert (StartManager ∈ (start_up all_well).2) as Hin by (apply last_Some_elem_of; reflexivity).
  destruct (manager_starts time_Now (λ _, false) build no_flags tt secured parsed_flags tt ["rest"] all_well queue
    discoverer (λ _, 0%Z) 0%Z (λ _, Ok tt) (λ _, Ok []) (Build_server ∅ []) eq_refl eq_refl Hin)
    as (Hnames & _ & (o & Ho & _ & Hfilter & _) & _ & Hrun).
  destruct (Hrun running (rtc_refl _ running)) as (Hinv & Hq1 & Hq2 & _).
  split; [exact Hnames|]. split; [exists o; split; [exact Ho|by apply Hfilter]|]. by split.
Defined.
End ManagerFix.
