(* ===== verification/Root.v ===== *)
(** * The command tree of milestonectl: root.go, the constructors of get.go,
    tree.go, trace.go and version.go, internal/cli/help.go, and run of main.go

    Commands and flags are data, built by the constructors; a RunE is the function
    the command runs. cobra, which walks the tree, parses the flags, checks the
    arguments and calls RunE, is a class of operations, and the laws of its
    documentation the theorems need are a class of their own. *)

From S2P Require Import Prelude GoStd ApiV1 K8s Fixtures Status Membership Discovery Normalize Evaluate StatusHelpers Text Cli Table App Get Tree Trace Commands Clients.
From Stdlib Require Import Ascii.

(** ** Definitions *)

(** *** help.go *)

Definition dq : string := String "034"%char "".

Definition RootLong : string := "Inspect Milestones and ClusterMilestones.

The same binary works as a kubectl plugin: install or symlink it as
kubectl-milestone and run " +:+ dq +:+ "kubectl milestone ..." +:+ dq +:+ ".".

Definition GetLong : string := "Show the status the operator last recorded on Milestones and ClusterMilestones.

READY is marked " +:+ dq +:+ "(stale)" +:+ dq +:+ " while the operator has not yet observed the current
generation. CURRENT/TOTAL counts matched resources; DEPS counts ready
dependencies. Nothing is evaluated here: use " +:+ dq +:+ "tree" +:+ dq +:+ " for a live view.".

Definition GetExample : string := "  # Milestones in the current namespace
  %[1]s get milestones

  # Every Milestone and ClusterMilestone, cluster-wide
  %[1]s get all -A

  # Only not-ready Milestones in all namespaces, updating as they change
  %[1]s get mile -A --status-selector ready=False --watch

  # A single ClusterMilestone as YAML
  %[1]s get cmile platform -o yaml".

Definition TreeLong : string := "Evaluate a Milestone or ClusterMilestone live and show every member resource.

Membership is resolved with the operator's own rules, so the tree shows what
the operator would record right now. A ⚠ note marks a dependency whose live
verdict differs from the recorded one. Dependencies the operator cannot
evaluate, and lists your credentials may not read, are reported inline.

Legend: ✔ ready  ✗ not ready  ⏸ suspended  ◌ in progress  ? unknown".

Definition TreeExample : string := "  # Everything in wave-0
  %[1]s tree milestone wave-0 -n flux-system

  # Only the members holding a ClusterMilestone back
  %[1]s tree cmile platform --not-ready

  # The full evaluation as JSON
  %[1]s tree mile wave-0 -o json".

Definition TraceLong : string := "Show every Milestone and ClusterMilestone dependency that includes an object.

TYPE is any resource type kubectl understands, including short names
(deploy, ks, hr) and fully-qualified names (helmreleases.helm.toolkit.fluxcd.io).".

Definition TraceExample : string := "  %[1]s trace deploy/web -n apps
  %[1]s trace hr podinfo -n flux-system
  %[1]s trace kustomizations.kustomize.toolkit.fluxcd.io/infra -n flux-system -o yaml".

Definition VersionLong : string := "Print the client version and, unless --client is given, the image of every
milestone-operator deployment visible to your credentials.".

Definition Examples (template commandPath : string) : string := ReplaceAll template "%[1]s" commandPath.

(** *** main.go's command names *)

Definition cmdGet : string := "get".
Definition cmdTree : string := "tree".
Definition cmdTrace : string := "trace".
Definition cmdAll : string := "all".

(** *** cobra's commands and flags, as data *)

Inductive flag_value :=
  | BoolValue (b : bool)
  | StringValue (s : string)
  | StringArrayValue (l : list string)
  | FormatValue (o : OutputFlag).

(** A flag, its default, and the values completion offers for it. *)
Record flag := {
  fl_Name : string;
  fl_Shorthand : string;
  fl_Default : flag_value;
  fl_Usage : string;
  fl_Completions : list string;
}.

(** The declared flags' values after parsing. *)
Abbreviation flag_values := (gmap string flag_value).

Inductive PositionalArgs := NoArgs | ExactArgs (n : nat) | MaximumNArgs (n : nat) | RangeArgs (min max : nat).

Definition args_ok (p : PositionalArgs) (args : list string) : bool :=
  match p with
  | NoArgs => bool_decide (args = [])
  | ExactArgs n => bool_decide (length args = n)
  | MaximumNArgs n => bool_decide (length args ≤ n)
  | RangeArgs min max => bool_decide (min ≤ length args ≤ max)
  end.

(** A RunE gets the path of its command, the app as the flags leave it, their
    values, and the arguments. *)
Inductive command (W : Type) := Command {
  c_Use : string;
  c_Aliases : list string;
  c_Short : string;
  c_Long : string;
  c_Example : string;
  c_Args : option PositionalArgs;
  c_PersistentFlags : list flag;
  c_Flags : list flag;
  c_RunE : option (string → app W → flag_values → list string → MO W (option error));
  c_ValidArgs : option (app W → list string → string → M W (list string));
  c_Commands : list (command W);
}.
Arguments Command {_}.
Arguments c_Use {_} _.
Arguments c_Aliases {_} _.
Arguments c_Args {_} _.
Arguments c_PersistentFlags {_} _.
Arguments c_Flags {_} _.
Arguments c_RunE {_} _.
Arguments c_Commands {_} _.

(** The first word of the use line. *)
Definition command_Name {W} (c : command W) : string := (strings_Cut (c_Use c) " ").1.1.
Definition answers {W} (c : command W) (word : string) : Prop := command_Name c = word ∨ word ∈ c_Aliases c.

Definition bool_flag (name : string) (fl : flag_values) : bool :=
  match fl !! name with Some (BoolValue b) => b | _ => false end.
Definition string_flag (name : string) (fl : flag_values) : string :=
  match fl !! name with Some (StringValue s) => s | _ => "" end.
Definition strings_flag (name : string) (fl : flag_values) : list string :=
  match fl !! name with Some (StringArrayValue l) => l | _ => [] end.
Definition format_flag (o : OutputFlag) (fl : flag_values) : OutputFlag :=
  match fl !! "output" with Some (FormatValue o) => o | _ => o end.

(** genericclioptions: the flags AddFlags declares, namespace among them. *)
Class ConfigFlags := { config_flags : list flag }.

(** cobra and pflag. [cobra_Execute] answers the app as the flags leave it, and
    the error of the command line or of the command. *)
Class Cobra (W : Type) := {
  cobra_Help : string → M W (option error);
  pflag_Parse : list flag → list string → result (flag_values * list string);
  cobra_Execute : command W → list string → app W → MO W (app W * option error);
}.

(** The variables the root's flags are bound to. *)
Definition set_flags {W} (fl : flag_values) (a : app W) : app W :=
  Build_app (app_name a) (string_flag "namespace" fl) (bool_flag "no-color" fl) (app_now a) (env_NO_COLOR a)
    (out_terminal a) (err_terminal a).

Section root.
Context {W : Type} `{LabelsAPI} `{UnstructuredAPI} `{!OwnerObjects} `{ConditionsAPI} `{ApiErrors} `{Formatting}
  `{UnicodeTables} `{Durations} `{ResourceArgs}.
Context `{!clientFactory W} `{!ResourceAPI W} `{!Writers W} `{!WatchAPI W} `{!DynamicClient W}.
Context `{!Marshal Unstructured} `{!Marshal (ListDocument Unstructured)} `{!Marshal Report} `{!Marshal TraceReport}
  `{!Marshal versionInfo} `{YAML}.
Context `{!ConfigFlags} `{!Cobra W}.
(** The wall clock, what version.Get answers, and the fuel of get's watch loop and
    of tree's listing. *)
Context (wall_clock : M W time) (client : Info) (fuel : nat).

(** [helpForKind]. *)
Definition helpForKind : string → app W → flag_values → list string → MO W (option error) :=
  λ cmd _ _ _, run_M (cobra_Help cmd).

(** NewOutputFlag of formats of which the first is [v]. *)
Definition formats (v : string) (l : list string) : OutputFlag :=
  default (Build_OutputFlag v (v :: l)) (NewOutputFlag (v :: l)).

(** The --output flag with its completions ([registerOutputCompletion]). *)
Definition output_flag (o : OutputFlag) (usage : string) : flag :=
  Build_flag "output" "o" (FormatValue o) usage (Allowed o).

(** *** get *)

Definition get_output : OutputFlag := formats OutputTable [OutputWide; OutputJSON; OutputYAML].

Definition get_flags : list flag := [
  Build_flag "all-namespaces" "A" (BoolValue false) "List across all namespaces" [];
  Build_flag "status-selector" "" (StringArrayValue [])
    "Filter by recorded status: ready=True|False|Unknown or stalled=True|False|Unknown (repeatable, ANDed)"
    ["ready=True"; "ready=False"; "ready=Unknown"; "stalled=True"; "stalled=False"];
  Build_flag "watch" "w" (BoolValue false)
    "After listing, print each object again whenever its status changes" [];
  output_flag get_output "Output format: table|wide|json|yaml" ].

(** The getOptions the flags are bound to. *)
Definition get_options (fl : flag_values) : getOptions :=
  Build_getOptions (bool_flag "all-namespaces" fl) (strings_flag "status-selector" fl) (bool_flag "watch" fl)
    (format_flag get_output fl).

Definition get_kind_command (k : OwnerKind) : command W := {|
  c_Use := kd_Plural k +:+ " [NAME]";
  c_Aliases := [kd_Singular k; kd_ShortName k];
  c_Short := "Show the recorded status of " +:+ kd_Kind k +:+ "s";
  c_Long := "";
  c_Example := "";
  c_Args := Some (MaximumNArgs 1);
  c_PersistentFlags := [];
  c_Flags := [];
  c_RunE := Some (λ _ a fl args,
    runKind fuel (get_options fl) a k match args with [name] => name | _ => "" end);
  c_ValidArgs := Some (λ a args _, completeOwnerNames a k args);
  c_Commands := [];
|}.

Definition get_all_command : command W := {|
  c_Use := cmdAll;
  c_Aliases := [];
  c_Short := "Show the recorded status of every Milestone and ClusterMilestone";
  c_Long := "";
  c_Example := "";
  c_Args := Some NoArgs;
  c_PersistentFlags := [];
  c_Flags := [];
  c_RunE := Some (λ _ a fl _, run_M (runAll (get_options fl) a));
  c_ValidArgs := None;
  c_Commands := [];
|}.

Definition newGetCommand (a : app W) : command W := {|
  c_Use := cmdGet;
  c_Aliases := [];
  c_Short := "Show the recorded status of Milestones and ClusterMilestones";
  c_Long := GetLong;
  c_Example := Examples GetExample (app_name a);
  c_Args := Some NoArgs;
  c_PersistentFlags := get_flags;
  c_Flags := [];
  c_RunE := Some helpForKind;
  c_ValidArgs := None;
  c_Commands := (get_kind_command <$> Kinds) ++ [get_all_command];
|}.

(** *** tree *)

Definition tree_output : OutputFlag := formats OutputTree [OutputJSON; OutputYAML].

Definition tree_flags : list flag := [
  Build_flag "not-ready" "" (BoolValue false) "Show only the members holding their dependency back" [];
  output_flag tree_output "Output format: tree|json|yaml" ].

Definition tree_options (fl : flag_values) : treeOptions :=
  Build_treeOptions (bool_flag "not-ready" fl) (format_flag tree_output fl).

(** [args[0]] panics when there is none. *)
Definition tree_kind_command (k : OwnerKind) : command W := {|
  c_Use := kd_Singular k +:+ " NAME";
  c_Aliases := [kd_Plural k; kd_ShortName k];
  c_Short := "Evaluate a " +:+ kd_Kind k +:+ " live and show its members";
  c_Long := "";
  c_Example := "";
  c_Args := Some (ExactArgs 1);
  c_PersistentFlags := [];
  c_Flags := [];
  c_RunE := Some (λ _ a fl args w,
    match args with
    | name :: _ => tree_run wall_clock fuel (tree_options fl) a k name w
    | [] => None
    end);
  c_ValidArgs := Some (λ a args _, completeOwnerNames a k args);
  c_Commands := [];
|}.

Definition newTreeCommand (a : app W) : command W := {|
  c_Use := cmdTree;
  c_Aliases := [];
  c_Short := "Evaluate a Milestone or ClusterMilestone live and show its members";
  c_Long := TreeLong;
  c_Example := Examples TreeExample (app_name a);
  c_Args := Some NoArgs;
  c_PersistentFlags := tree_flags;
  c_Flags := [];
  c_RunE := Some helpForKind;
  c_ValidArgs := None;
  c_Commands := tree_kind_command <$> Kinds;
|}.

(** *** trace *)

Definition trace_output : OutputFlag := formats OutputTable [OutputJSON; OutputYAML].
Definition trace_flags : list flag := [output_flag trace_output "Output format: table|json|yaml"].

Definition newTraceCommand (a : app W) : command W := {|
  c_Use := cmdTrace +:+ " (TYPE/NAME | TYPE NAME)";
  c_Aliases := [];
  c_Short := "Show which Milestones and ClusterMilestones include an object";
  c_Long := TraceLong;
  c_Example := Examples TraceExample (app_name a);
  c_Args := Some (RangeArgs 1 2);
  c_PersistentFlags := [];
  c_Flags := trace_flags;
  c_RunE := Some (λ _ a fl args w,
    match parseTraceArgs args with
    | Some (Ok (typ, name)) => run_M (trace_run (format_flag trace_output fl) a typ name) w
    | Some (Err err) => Some (Some err, w)
    | None => None
    end);
  c_ValidArgs := Some (λ a args toComplete, completeTraceArgs a args toComplete);
  c_Commands := [];
|}.

(** *** version *)

Definition version_output : OutputFlag := formats OutputTable [OutputJSON; OutputYAML].
Definition version_flags : list flag := [
  Build_flag "client" "" (BoolValue false) "Print the client version only, without contacting the cluster" [];
  output_flag version_output "Output format: table|json|yaml" ].

Definition newVersionCommand : command W := {|
  c_Use := "version";
  c_Aliases := [];
  c_Short := "Print the client and operator versions";
  c_Long := VersionLong;
  c_Example := "";
  c_Args := Some NoArgs;
  c_PersistentFlags := [];
  c_Flags := version_flags;
  c_RunE := Some (λ _ _ fl _,
    run_M (version_run client (format_flag version_output fl) (bool_flag "client" fl)));
  c_ValidArgs := None;
  c_Commands := [];
|}.

(** *** The root, and the program *)

Definition no_color_flag : flag :=
  Build_flag "no-color" "" (BoolValue false) "Disable colour output (also honours NO_COLOR)" [].

(** The display name cobra shows, and the completion of --namespace, are set
    apart from the command. *)
Definition newRootCommand (a : app W) (use : string) : command W := {|
  c_Use := use;
  c_Aliases := [];
  c_Short := "Inspect milestone-operator Milestones and ClusterMilestones";
  c_Long := RootLong;
  c_Example := "";
  c_Args := None;
  c_PersistentFlags := config_flags ++ [no_color_flag];
  c_Flags := [];
  c_RunE := None;
  c_ValidArgs := None;
  c_Commands := [newGetCommand a; newTreeCommand a; newTraceCommand a; newVersionCommand];
|}.

Definition display_name (a : app W) (use : string) : option string :=
  if decide (app_name a ≠ use) then Some (app_name a) else None.

(** [complete] is cobra.ShellCompRequestCmd. *)
Definition run (complete : string) (argv : list string) (a : app W) : MO W Z :=
  let '(use, args) := invocation complete argv in
  let a := if decide (use = pluginUse) then rename pluginName a else a in
  '(a, err) ← cobra_Execute (newRootCommand a use) args a;
  match err with
  | Some err =>
      run_M (err_Write (Style_Glyph (err_style a) GlyphNotReady +:+ " " +:+ err_Error err +:+ LF_string));;
      mret 1%Z
  | None => mret 0%Z
  end.
End root.

(** ** cobra's laws

    The command a list of words leads to, each word the name or an alias of one
    subcommand, with the persistent flags met on the way. *)
Inductive reaches {W} : command W → list string → command W → list flag → Prop :=
  | reaches_here c : reaches c [] c (c_PersistentFlags c)
  | reaches_sub c sub word words c' fs :
      sub ∈ c_Commands c → answers sub word → (∀ sub', sub' ∈ c_Commands c → answers sub' word → sub' = sub) →
      reaches sub words c' fs → reaches c (word :: words) c' (c_PersistentFlags c ++ fs).

(** The words a command answers to. *)
Definition words_of {W} (c : command W) : list string := command_Name c :: c_Aliases c.

Lemma answers_words {W} (c : command W) word : answers c word ↔ word ∈ words_of c.
Proof. unfold answers, words_of. rewrite elem_of_cons. naive_solver. Qed.

(** Without a repeated word, no word is ambiguous. *)
Lemma words_of_unique {W} (l : list (command W)) c c' word :
  NoDup (l ≫= words_of) → c ∈ l → c' ∈ l → word ∈ words_of c → word ∈ words_of c' → c = c'.
Proof.
  induction l as [|x l IH]; intros Hnd Hc Hc' Hw Hw'; [by apply elem_of_nil in Hc|].
  rewrite bind_cons in Hnd. apply NoDup_app in Hnd as (_ & Hdis & Hnd).
  apply elem_of_cons in Hc as [->|Hc], Hc' as [->|Hc']; [done| | |by apply IH].
  - destruct (Hdis word Hw). apply list_elem_of_bind. eauto.
  - destruct (Hdis word Hw'). apply list_elem_of_bind. eauto.
Qed.

(** The arguments left by the flags name no subcommand. *)
Definition no_subcommand {W} (c : command W) (args : list string) : Prop :=
  ∀ arg sub, head args = Some arg → sub ∈ c_Commands c → ¬ answers sub arg.

(** Execute finds the command, parses the flags declared for it, validates the
    arguments, and runs it with the flags' variables set; arguments that are not
    accepted are an error, and nothing runs. *)
Class CobraLaws (W : Type) `{!Cobra W} : Prop := {
  execute_run root words c fs rest fl args f p a w :
    reaches root words c fs → pflag_Parse (fs ++ c_Flags c) rest = Ok (fl, args) → no_subcommand c args →
    c_RunE c = Some f → c_Args c = Some p → args_ok p args = true →
    ∃ path, cobra_Execute root (words ++ rest) a w =
      match f path (set_flags fl a) fl args w with
      | Some (err, w') => Some ((set_flags fl a, err), w')
      | None => None
      end;
  execute_rejects root words c fs rest fl args p a w :
    reaches root words c fs → pflag_Parse (fs ++ c_Flags c) rest = Ok (fl, args) → no_subcommand c args →
    c_Args c = Some p → args_ok p args = false →
    ∃ err, cobra_Execute root (words ++ rest) a w = Some ((set_flags fl a, Some err), w);
}.

(** ** What a command line runs *)

Section routing.
Context {W : Type} `{LabelsAPI} `{UnstructuredAPI} `{!OwnerObjects} `{ConditionsAPI} `{ApiErrors} `{Formatting}
  `{UnicodeTables} `{Durations} `{ResourceArgs}.
Context `{!clientFactory W} `{!ResourceAPI W} `{!Writers W} `{!WatchAPI W} `{!DynamicClient W}.
Context `{!Marshal Unstructured} `{!Marshal (ListDocument Unstructured)} `{!Marshal Report} `{!Marshal TraceReport}
  `{!Marshal versionInfo} `{YAML}.
Context `{!ConfigFlags} `{!Cobra W, !CobraLaws W}.
Context (wall_clock : M W time) (client : Info) (fuel : nat).

Abbreviation root_command := (newRootCommand wall_clock client fuel).
Abbreviation run_command := (run wall_clock client fuel).

(** The app of a run, named after the plugin when it is one. *)
Definition invoked (use : string) (a : app W) : app W := if decide (use = pluginUse) then rename pluginName a else a.

(** The exit code, the error reported on stderr. *)
Definition exit_of (a : app W) (r : option (option error * W)) : option (Z * W) :=
  match r with
  | None => None
  | Some (None, w) => Some (0%Z, w)
  | Some (Some err, w) =>
      Some (1%Z, (err_Write (Style_Glyph (err_style a) GlyphNotReady +:+ " " +:+ err_Error err +:+ LF_string) w).2)
  end.

Lemma run_reaches complete argv use words rest c fs fl args f p a w :
  invocation complete argv = (use, words ++ rest) → reaches (root_command (invoked use a) use) words c fs →
  pflag_Parse (fs ++ c_Flags c) rest = Ok (fl, args) → no_subcommand c args → c_RunE c = Some f →
  c_Args c = Some p → args_ok p args = true →
  ∃ path, run_command complete argv a w =
    exit_of (set_flags fl (invoked use a)) (f path (set_flags fl (invoked use a)) fl args w).
Proof.
  intros Hinv Hr Hp Hno Hf Ha Hargs. destruct (execute_run _ _ _ _ _ _ _ _ _ (invoked use a) w Hr Hp Hno Hf Ha Hargs) as [path He].
  exists path. unfold run. rewrite Hinv. fold (invoked use a). unfold mbind, MO_bind. rewrite He.
  destruct (f _ _ _ _ w) as [[[err|] w']|]; [|done|done]. unfold run_M. simpl. by destruct (err_Write _ w').
Qed.

Lemma run_rejects complete argv use words rest c fs fl args p a w :
  invocation complete argv = (use, words ++ rest) → reaches (root_command (invoked use a) use) words c fs →
  pflag_Parse (fs ++ c_Flags c) rest = Ok (fl, args) → no_subcommand c args → c_Args c = Some p →
  args_ok p args = false →
  ∃ err, run_command complete argv a w = exit_of (set_flags fl (invoked use a)) (Some (Some err, w)).
Proof.
  intros Hinv Hr Hp Hno Ha Hargs.
  destruct (execute_rejects _ _ _ _ _ _ _ _ (invoked use a) w Hr Hp Hno Ha Hargs) as [err He].
  exists err. unfold run. rewrite Hinv. fold (invoked use a). unfold mbind, MO_bind. rewrite He.
  unfold run_M. simpl. by destruct (err_Write _ w).
Qed.

Lemma no_subcommand_leaf (c : command W) args : c_Commands c = [] → no_subcommand c args.
Proof. intros Hc arg sub _ Hin. rewrite Hc in Hin. by apply elem_of_nil in Hin. Qed.

Lemma reaches_one (c : command W) sub word words c' fs :
  NoDup (c_Commands c ≫= words_of) → sub ∈ c_Commands c → word ∈ words_of sub → reaches sub words c' fs →
  reaches c (word :: words) c' (c_PersistentFlags c ++ fs).
Proof.
  intros Hnd Hin Hw Hr. apply (reaches_sub c sub); [done|by apply answers_words|..|done].
  intros sub' Hin' Hw'%answers_words. by apply (words_of_unique (c_Commands c) sub' sub word).
Qed.

Abbreviation base_flags := (config_flags ++ [no_color_flag]).

Lemma reaches_verb a use verb sub :
  sub ∈ c_Commands (root_command a use) → command_Name sub = verb →
  reaches (root_command a use) [verb] sub (base_flags ++ c_PersistentFlags sub).
Proof.
  intros Hin <-. apply (reaches_one (root_command a use) sub); [|done|by left|apply reaches_here].
  apply (bool_decide_unpack _). vm_compute. exact I.
Qed.

Lemma reaches_kind a use verb sub leaf word :
  sub ∈ c_Commands (root_command a use) → command_Name sub = verb → NoDup (c_Commands sub ≫= words_of) →
  leaf ∈ c_Commands sub → word ∈ words_of leaf →
  reaches (root_command a use) [verb; word] leaf (base_flags ++ c_PersistentFlags sub ++ c_PersistentFlags leaf).
Proof.
  intros Hin <- Hnd Hleaf Hword. apply (reaches_one (root_command a use) sub); [|done|by left|].
  - apply (bool_decide_unpack _). vm_compute. exact I.
  - by apply (reaches_one sub leaf); [..|apply reaches_here].
Qed.

Lemma get_words a : NoDup (c_Commands (newGetCommand fuel a) ≫= words_of).
Proof. apply (bool_decide_unpack _). vm_compute. exact I. Qed.
Lemma tree_words a : NoDup (c_Commands (newTreeCommand wall_clock fuel a) ≫= words_of).
Proof. apply (bool_decide_unpack _). vm_compute. exact I. Qed.

Lemma kind_words k word :
  k ∈ Kinds → named k word = true →
  word ∈ words_of (get_kind_command fuel k) ∧ word ∈ words_of (tree_kind_command wall_clock fuel k).
Proof.
  unfold named. rewrite !orb_true_iff, !bool_decide_eq_true. unfold Kinds.
  intros [->|[->|[]%elem_of_nil]%elem_of_cons]%elem_of_cons [[-> | ->]| ->];
    split; apply (bool_decide_unpack _); vm_compute; exact I.
Qed.

Lemma unnamed_no_subcommand a word args :
  (∀ k, k ∈ Kinds → named k word = false) →
  no_subcommand (newTreeCommand wall_clock fuel a) (word :: args) ∧
  (word ≠ cmdAll → no_subcommand (newGetCommand fuel a) (word :: args)).
Proof.
  intros Hno. assert (∀ k, k ∈ Kinds → word ≠ kd_Singular k ∧ word ≠ kd_Plural k ∧ word ≠ kd_ShortName k) as Hne.
  { intros k Hk. specialize (Hno k Hk). unfold named in Hno.
    rewrite !orb_false_iff, !bool_decide_eq_false in Hno. tauto. }
  destruct (Hne MilestoneKind) as (?&?&?); [by left|].
  destruct (Hne ClusterMilestoneKind) as (?&?&?); [by right; left|].
  split; [|intros Hall]; intros arg sub [= <-] Hin Hw%answers_words; cbn [c_Commands newTreeCommand newGetCommand] in Hin.
  - apply list_elem_of_fmap in Hin as (k & -> & Hk). unfold Kinds in Hk.
    repeat (apply elem_of_cons in Hk as [->|Hk]); [..|by apply elem_of_nil in Hk];
      repeat (apply elem_of_cons in Hw as [Hw|Hw]); (by apply elem_of_nil in Hw) || done.
  - apply elem_of_app in Hin as [(k & -> & Hk)%list_elem_of_fmap| ->%list_elem_of_singleton].
    + unfold Kinds in Hk. repeat (apply elem_of_cons in Hk as [->|Hk]); [..|by apply elem_of_nil in Hk];
        repeat (apply elem_of_cons in Hw as [Hw|Hw]); (by apply elem_of_nil in Hw) || done.
    + apply elem_of_cons in Hw as [Hw|Hw]; [done|by apply elem_of_nil in Hw].
Qed.

Lemma get_kind_run complete argv use k word rest fl args a w :
  let a' := set_flags fl (invoked use a) in
  k ∈ Kinds → named k word = true → invocation complete argv = (use, cmdGet :: word :: rest) →
  pflag_Parse (base_flags ++ get_flags) rest = Ok (fl, args) →
  if decide (length args ≤ 1)
  then run_command complete argv a w = exit_of a' (runKind fuel (get_options fl) a' k (default "" (head args)) w)
  else ∃ err, run_command complete argv a w = exit_of a' (Some (Some err, w)).
Proof.
  intros a' Hk Hw Hinv Hparse. destruct (kind_words k word Hk Hw) as [Hword _].
  pose proof (reaches_kind (invoked use a) use cmdGet (newGetCommand fuel (invoked use a)) (get_kind_command fuel k) word
    ltac:(by left) eq_refl (get_words _) ltac:(by apply elem_of_app; left; apply list_elem_of_fmap_2) Hword) as Hr.
  cbn [c_PersistentFlags newGetCommand get_kind_command] in Hr. rewrite app_nil_r in Hr.
  rewrite <- (app_nil_r (base_flags ++ get_flags)) in Hparse.
  pose proof (no_subcommand_leaf (get_kind_command fuel k) args eq_refl) as Hleaf. case_decide as Hlen.
  - destruct (run_reaches complete argv use [cmdGet; word] rest (get_kind_command fuel k) _ fl args _ (MaximumNArgs 1) a w
      Hinv Hr Hparse Hleaf eq_refl eq_refl) as [path ->]; [by apply bool_decide_eq_true|].
    by destruct args as [|name [|]]; simpl in Hlen; [| |lia].
  - apply (run_rejects complete argv use [cmdGet; word] rest (get_kind_command fuel k) _ fl args (MaximumNArgs 1) a w
      Hinv Hr Hparse Hleaf eq_refl). by apply bool_decide_eq_false.
Qed.

Lemma tree_kind_run complete argv use k word rest fl args a w :
  let a' := set_flags fl (invoked use a) in
  k ∈ Kinds → named k word = true → invocation complete argv = (use, cmdTree :: word :: rest) →
  pflag_Parse (base_flags ++ tree_flags) rest = Ok (fl, args) →
  match args with
  | [name] => run_command complete argv a w = exit_of a' (tree_run wall_clock fuel (tree_options fl) a' k name w)
  | _ => ∃ err, run_command complete argv a w = exit_of a' (Some (Some err, w))
  end.
Proof.
  intros a' Hk Hw Hinv Hparse. destruct (kind_words k word Hk Hw) as [_ Hword].
  pose proof (reaches_kind (invoked use a) use cmdTree (newTreeCommand wall_clock fuel (invoked use a))
    (tree_kind_command wall_clock fuel k) word ltac:(by right; left) eq_refl (tree_words _)
    ltac:(by apply list_elem_of_fmap_2) Hword) as Hr.
  cbn [c_PersistentFlags newTreeCommand tree_kind_command] in Hr. rewrite app_nil_r in Hr.
  rewrite <- (app_nil_r (base_flags ++ tree_flags)) in Hparse.
  pose proof (no_subcommand_leaf (tree_kind_command wall_clock fuel k) args eq_refl) as Hleaf.
  assert (length args ≠ 1 → ∃ err, run_command complete argv a w = exit_of a' (Some (Some err, w))) as Hrej.
  { intros Hlen. apply (run_rejects complete argv use [cmdTree; word] rest (tree_kind_command wall_clock fuel k) _ fl args
      (ExactArgs 1) a w Hinv Hr Hparse Hleaf eq_refl). by apply bool_decide_eq_false. }
  destruct args as [|name [|]]; [by apply Hrej| |by apply Hrej].
  destruct (run_reaches complete argv use [cmdTree; word] rest (tree_kind_command wall_clock fuel k) _ fl [name] _
    (ExactArgs 1) a w Hinv Hr Hparse Hleaf eq_refl eq_refl eq_refl) as [path ->]. done.
Qed.

(** A verb that takes arguments itself. *)
Lemma verb_run complete argv use verb sub rest fl args p f a w :
  let a' := set_flags fl (invoked use a) in
  sub ∈ c_Commands (root_command (invoked use a) use) → command_Name sub = verb → c_Commands sub = [] →
  c_Args sub = Some p → c_RunE sub = Some f →
  invocation complete argv = (use, verb :: rest) →
  pflag_Parse ((base_flags ++ c_PersistentFlags sub) ++ c_Flags sub) rest = Ok (fl, args) →
  if args_ok p args
  then ∃ path, run_command complete argv a w = exit_of a' (f path a' fl args w)
  else ∃ err, run_command complete argv a w = exit_of a' (Some (Some err, w)).
Proof.
  intros a' Hin Hname Hleaf Ha Hf Hinv Hparse. pose proof (reaches_verb _ _ _ _ Hin Hname) as Hr.
  pose proof (no_subcommand_leaf sub args Hleaf) as Hno. destruct (args_ok p args) eqn:Hargs.
  - by apply (run_reaches complete argv use [verb] rest sub _ fl args f p a w Hinv Hr).
  - by apply (run_rejects complete argv use [verb] rest sub _ fl args p a w Hinv Hr).
Qed.

Lemma trace_version_run complete argv use rest fl args a w :
  let a' := set_flags fl (invoked use a) in
  (invocation complete argv = (use, cmdTrace :: rest) → pflag_Parse (base_flags ++ trace_flags) rest = Ok (fl, args) →
   if decide (1 ≤ length args ≤ 2)
   then run_command complete argv a w = exit_of a'
          match parseTraceArgs args with
          | Some (Ok (typ, name)) => Some (trace_run (format_flag trace_output fl) a' typ name w)
          | Some (Err err) => Some (Some err, w)
          | None => None
          end
   else ∃ err, run_command complete argv a w = exit_of a' (Some (Some err, w))) ∧
  (invocation complete argv = (use, "version" :: rest) → pflag_Parse (base_flags ++ version_flags) rest = Ok (fl, args) →
   if decide (args = [])
   then run_command complete argv a w =
          exit_of a' (Some (version_run client (format_flag version_output fl) (bool_flag "client" fl) w))
   else ∃ err, run_command complete argv a w = exit_of a' (Some (Some err, w))).
Proof.
  intros a'. split; intros Hinv Hparse; rewrite <- (app_nil_r base_flags) in Hparse.
  - pose proof (verb_run complete argv use cmdTrace (newTraceCommand (invoked use a)) rest fl args _ _ a w
      ltac:(by right; right; left) eq_refl eq_refl eq_refl eq_refl Hinv Hparse) as Hv. cbn [args_ok] in Hv.
    case_bool_decide as Hl; [rewrite decide_True by done; by destruct Hv as [_ ->]|by rewrite decide_False].
  - pose proof (verb_run complete argv use "version" (newVersionCommand client) rest fl args _ _ a w
      ltac:(by right; right; right; left) eq_refl eq_refl eq_refl eq_refl Hinv Hparse) as Hv. cbn [args_ok] in Hv.
    case_bool_decide as Hl; [rewrite decide_True by done; by destruct Hv as [_ ->]|by rewrite decide_False].
Qed.

Lemma get_all_run complete argv use rest fl args a w :
  let a' := set_flags fl (invoked use a) in
  invocation complete argv = (use, cmdGet :: cmdAll :: rest) → pflag_Parse (base_flags ++ get_flags) rest = Ok (fl, args) →
  if decide (args = [])
  then run_command complete argv a w = exit_of a' (Some (runAll (get_options fl) a' w))
  else ∃ err, run_command complete argv a w = exit_of a' (Some (Some err, w)).
Proof.
  intros a' Hinv Hparse.
  pose proof (reaches_kind (invoked use a) use cmdGet (newGetCommand fuel (invoked use a)) get_all_command cmdAll
    ltac:(by left) eq_refl (get_words _) ltac:(by apply elem_of_app; right; left) ltac:(by left)) as Hr.
  cbn [c_PersistentFlags newGetCommand get_all_command] in Hr. rewrite app_nil_r in Hr.
  rewrite <- (app_nil_r (base_flags ++ get_flags)) in Hparse.
  pose proof (no_subcommand_leaf get_all_command args eq_refl) as Hleaf. case_decide as Hl.
  - by destruct (run_reaches complete argv use [cmdGet; cmdAll] rest get_all_command _ fl args _ NoArgs a w
      Hinv Hr Hparse Hleaf eq_refl eq_refl (bool_decide_eq_true_2 _ Hl)) as [path ->].
  - by apply (run_rejects complete argv use [cmdGet; cmdAll] rest get_all_command _ fl args NoArgs a w
      Hinv Hr Hparse Hleaf eq_refl), bool_decide_eq_false.
Qed.

(** C35: milestonectl runs what the command line says. Given cobra's documented
    behaviour: [get KIND] and [tree KIND], for any of a kind's three names, run
    the command of that kind with the options the flags spell and the one
    argument as its name; [get all] lists both kinds, [trace] traces what its one
    or two arguments name, [version] reports the versions; the exit code is 0
    unless the command fails. More or fewer arguments than a command takes, and
    any other word in the place of a kind, are an error with exit code 1, and touch
    nothing but stderr, where the error is reported. *)
Theorem milestonectl_routes complete argv use word rest fl args a w :
  let a' := set_flags fl (invoked use a) in
  (∀ k, k ∈ Kinds → named k word = true → invocation complete argv = (use, cmdGet :: word :: rest) →
     pflag_Parse (base_flags ++ get_flags) rest = Ok (fl, args) →
     if decide (length args ≤ 1)
     then run_command complete argv a w =
            exit_of a' (runKind fuel (get_options fl) a' k (default "" (head args)) w)
     else ∃ err, run_command complete argv a w = exit_of a' (Some (Some err, w))) ∧
  (∀ k, k ∈ Kinds → named k word = true → invocation complete argv = (use, cmdTree :: word :: rest) →
     pflag_Parse (base_flags ++ tree_flags) rest = Ok (fl, args) →
     match args with
     | [name] => run_command complete argv a w = exit_of a' (tree_run wall_clock fuel (tree_options fl) a' k name w)
     | _ => ∃ err, run_command complete argv a w = exit_of a' (Some (Some err, w))
     end) ∧
  (invocation complete argv = (use, cmdGet :: cmdAll :: rest) → pflag_Parse (base_flags ++ get_flags) rest = Ok (fl, args) →
   if decide (args = [])
   then run_command complete argv a w = exit_of a' (Some (runAll (get_options fl) a' w))
   else ∃ err, run_command complete argv a w = exit_of a' (Some (Some err, w))) ∧
  (invocation complete argv = (use, cmdTrace :: rest) → pflag_Parse (base_flags ++ trace_flags) rest = Ok (fl, args) →
   if decide (1 ≤ length args ≤ 2)
   then run_command complete argv a w = exit_of a'
          match parseTraceArgs args with
          | Some (Ok (typ, name)) => Some (trace_run (format_flag trace_output fl) a' typ name w)
          | Some (Err err) => Some (Some err, w)
          | None => None
          end
   else ∃ err, run_command complete argv a w = exit_of a' (Some (Some err, w))) ∧
  (invocation complete argv = (use, "version" :: rest) → pflag_Parse (base_flags ++ version_flags) rest = Ok (fl, args) →
   if decide (args = [])
   then run_command complete argv a w =
          exit_of a' (Some (version_run client (format_flag version_output fl) (bool_flag "client" fl) w))
   else ∃ err, run_command complete argv a w = exit_of a' (Some (Some err, w))) ∧
  (∀ verb, verb = cmdGet ∧ word ≠ cmdAll ∨ verb = cmdTree → (∀ k, k ∈ Kinds → named k word = false) →
     invocation complete argv = (use, verb :: word :: rest) →
     pflag_Parse (base_flags ++ if decide (verb = cmdGet) then get_flags else tree_flags) (word :: rest) =
       Ok (fl, word :: args) →
     ∃ err, run_command complete argv a w = exit_of a' (Some (Some err, w))).
Proof.
  intros a'. split; [intros k Hk Hw; by apply get_kind_run|]. split; [intros k Hk Hw; by apply tree_kind_run|].
  split; [by apply get_all_run|]. split; [apply trace_version_run|]. split; [apply trace_version_run|].
  intros verb Hverb Hno Hinv Hparse. destruct (unnamed_no_subcommand (invoked use a) word args Hno) as [Htree Hget].
  destruct Hverb as [[-> Hall]| ->].
  - rewrite decide_True, <- (app_nil_r (base_flags ++ get_flags)) in Hparse by done.
    by apply (run_rejects complete argv use [cmdGet] (word :: rest) (newGetCommand fuel (invoked use a)) _ fl
      (word :: args) NoArgs a w Hinv (reaches_verb _ _ _ _ ltac:(by left) eq_refl) Hparse (Hget Hall) eq_refl).
  - rewrite decide_False, <- (app_nil_r (base_flags ++ tree_flags)) in Hparse by done.
    by apply (run_rejects complete argv use [cmdTree] (word :: rest) (newTreeCommand wall_clock fuel (invoked use a)) _ fl
      (word :: args) NoArgs a w Hinv (reaches_verb _ _ _ _ ltac:(by right; left) eq_refl) Hparse Htree eq_refl).
Qed.
End routing.

(** ** A cobra that reads no flags, and two command lines *)
Module RootFix.
Import GetFix.
#[local] Existing Instance Fix.labels.
#[local] Existing Instance Fix.unstructured.
#[local] Existing Instance Fix.formatting.
#[local] Existing Instance Fix.api_errors.
#[local] Existing Instance Fix.conditions.
#[local] Existing Instance CliFix.tables.
#[local] Existing Instance TableFix.durations.
#[local] Existing Instance owner_objects.
#[local] Existing Instance clients.
#[local] Existing Instance resources.
#[local] Existing Instance writers.
#[local] Existing Instance watch.
#[local] Existing Instance marshal_object.
#[local] Existing Instance marshal_list.
#[local] Existing Instance yaml.

#[local] Instance dynamic : DynamicClient world := {| dynamic_List := λ _ _ _ w, (Err (errors_New "unused"), w) |}.
#[local] Instance resource_args : ResourceArgs := {| ParseResourceArg := λ s, (None, Build_GroupResource "" s) |}.
#[local] Instance marshal_report : Marshal Report := {| MarshalIndent := λ _, Ok "" |}.
#[local] Instance marshal_trace : Marshal TraceReport := {| MarshalIndent := λ _, Ok "" |}.
#[local] Instance marshal_version : Marshal versionInfo := {| MarshalIndent := λ _, Ok "" |}.
#[local] Instance kube_flags : ConfigFlags := {| config_flags := [Build_flag "namespace" "n" (StringValue "") "" []] |}.

Definition answering {W} (c : command W) (word : string) : list (command W) :=
  filter (λ sub, word ∈ words_of sub) (c_Commands c).

Fixpoint find {W} (c : command W) (words : list string) : command W * list flag * list string :=
  match words with
  | [] => (c, c_PersistentFlags c, [])
  | word :: words' =>
      match answering c word with
      | sub :: _ => let '(c', fs, rest) := find sub words' in (c', c_PersistentFlags c ++ fs, rest)
      | [] => (c, c_PersistentFlags c, words)
      end
  end.

Definition parse (fs : list flag) (rest : list string) : result (flag_values * list string) :=
  if existsb (String.prefix "-") rest then Err (errors_New "unknown flag")
  else Ok (list_to_map ((λ f, (fl_Name f, fl_Default f)) <$> fs), rest).

Definition accepted {W} (c : command W) (args : list string) : bool :=
  match c_Args c with Some p => args_ok p args | None => true end.

#[local] Instance cobra : Cobra world := {|
  cobra_Help := λ _ w, (None, w);
  pflag_Parse := parse;
  cobra_Execute := λ root argv a w,
    let '(c, fs, rest) := find root argv in
    match parse (fs ++ c_Flags c) rest with
    | Err err => Some ((a, Some err), w)
    | Ok (fl, args) =>
        if negb (accepted c args) then Some ((set_flags fl a, Some (errors_New "arguments")), w)
        else
          match c_RunE c with
          | Some f => match f (command_Name c) (set_flags fl a) fl args w with
                      | Some (err, w') => Some ((set_flags fl a, err), w')
                      | None => None
                      end
          | None => Some ((set_flags fl a, None), w)
          end
    end
|}.

Lemma find_here {W} (c : command W) rest : no_subcommand c rest → find c rest = (c, c_PersistentFlags c, rest).
Proof.
  intros Hno. destruct rest as [|word rest]; [done|]. simpl. destruct (answering c word) as [|sub l] eqn:Ha; [done|].
  assert (sub ∈ answering c word) as [Hw Hin]%list_elem_of_filter by (rewrite Ha; by left).
  destruct (Hno word sub eq_refl Hin). by apply answers_words.
Qed.

Lemma find_reaches {W} (root c : command W) words fs rest :
  reaches root words c fs → no_subcommand c rest → find root (words ++ rest) = (c, fs, rest).
Proof.
  induction 1 as [c|c sub word words c' fs Hin Hw Hu _ IH]; intros Hno; simpl; [by apply find_here|].
  destruct (answering c word) as [|sub' l] eqn:Ha.
  - assert (sub ∈ answering c word) as Hs by (apply list_elem_of_filter; by rewrite <- answers_words).
    rewrite Ha in Hs. by apply elem_of_nil in Hs.
  - assert (sub' ∈ answering c word) as [Hw' Hin']%list_elem_of_filter by (rewrite Ha; by left).
    rewrite (Hu sub' Hin') by (by apply answers_words). by rewrite IH.
Qed.

#[local] Instance cobra_laws : CobraLaws world.
Proof.
  assert (∀ fs rest fl args, parse fs rest = Ok (fl, args) → args = rest) as Hrest.
  { intros fs rest fl args. unfold parse. destruct (existsb _ rest); [done|]. by intros [= _ ->]. }
  split; simpl; intros *; intros Hr Hp Hno; pose proof (Hrest _ _ _ _ Hp) as ->;
    rewrite (find_reaches _ _ _ _ _ Hr Hno), Hp; unfold accepted.
  - intros Hf -> ->. exists (command_Name c). by rewrite Hf.
  - intros -> Ha. rewrite Ha. by eexists.
Qed.

Definition client : Info := Build_Info "v1" "" "" "" "".
Definition clock : M world time := λ w, (0%Z, w).
Definition milestonectl (argv : list string) : option (Z * world) :=
  run clock client 3 "__complete" argv the_app start.

Example command_lines :
  (λ argv, (λ r, (r.1, length (written r.2))) <$> milestonectl argv) <$>
    [["milestonectl"; "get"; "mile"]; ["kubectl-milestone"; "get"; "milestones"; "a"]; ["milestonectl"; "get"; "pods"];
     ["milestonectl"; "get"; "mile"; "a"; "b"]; ["milestonectl"; "tree"; "mile"]; ["milestonectl"; "tree"; "pods"; "a"]] =
  [Some (0%Z, 1); Some (0%Z, 1); Some (1%Z, 0); Some (1%Z, 0); Some (1%Z, 0); Some (1%Z, 0)].
Proof. vm_compute. reflexivity. Qed.

Definition defaults : flag_values :=
  list_to_map ((λ f, (fl_Name f, fl_Default f)) <$> (config_flags ++ [no_color_flag]) ++ get_flags).

Lemma milestonectl_routes_witness :
  named MilestoneKind "mile" = true ∧
  milestonectl ["milestonectl"; "get"; "mile"; "a"] =
    exit_of (set_flags defaults the_app) (runKind 3 (get_options defaults) (set_flags defaults the_app) MilestoneKind "a" start) ∧
  ∃ err, milestonectl ["milestonectl"; "get"; "pods"] = exit_of (set_flags defaults the_app) (Some (Some err, start)).
Proof.
  split; [reflexivity|]. split.
  - destruct (milestonectl_routes clock client 3 "__complete" ["milestonectl"; "get"; "mile"; "a"] "milestonectl" "mile"
      ["a"] defaults ["a"] the_app start) as [Hget _].
    exact (Hget MilestoneKind ltac:(by left) eq_refl eq_refl eq_refl).
  - destruct (milestonectl_routes clock client 3 "__complete" ["milestonectl"; "get"; "pods"] "milestonectl" "pods"
      [] defaults [] the_app start) as (_ & _ & _ & _ & _ & Hbad).
    apply (Hbad cmdGet); [by left| |reflexivity|reflexivity].
    apply Forall_forall. apply (bool_decide_unpack _). vm_compute. exact I.
Defined.
End RootFix.
