(* ===== verification/Listing.v ===== *)
(** * A listing, from the command line to the bytes

    What [milestonectl get KIND] puts on its standard output: the routing of
    [Root.v], the fetching and printing of [Get.v] and the layout of [Table.v],
    composed. *)

From S2P Require Import Prelude GoStd ApiV1 K8s Fixtures Status Membership Discovery Normalize Evaluate Text Cli Table App Get Tree Trace Commands Root.

Section listing.
Context {W : Type} `{LabelsAPI} `{UnstructuredAPI} `{!OwnerObjects} `{ConditionsAPI} `{ApiErrors} `{Formatting}
  `{UnicodeTables} `{Durations} `{ResourceArgs}.
Context `{!clientFactory W} `{!ResourceAPI W} `{!Writers W} `{!WatchAPI W} `{!DynamicClient W}.
Context `{!Marshal Unstructured} `{!Marshal (ListDocument Unstructured)} `{!Marshal Report} `{!Marshal TraceReport}
  `{!Marshal versionInfo} `{YAML}.
Context `{!ConfigFlags} `{!Cobra W, !CobraLaws W}.
Context (wall_clock : M W time) (client : Info) (fuel : nat).

(** The lines of a table, header first. *)
Definition table_lines (opts : TableOptions) (owners : list cli_Owner) : list (list string) :=
  Headers opts :: (Cells opts <$> rows owners).

(** What is printed of the owners that match: one aligned line each under the
    header, or on stderr that there are none. *)
Definition listed_output (o : getOptions) (a : app W) (k : OwnerKind) (ns : string) (owners : list cli_Owner)
    : M W (option error) := λ w,
  if decide (owners = []) then err_Write (notFoundMessage k ns +:+ LF_string) w
  else
    let '(opts, w) := tableOptions o a k false w in
    out_Write (concat_runes (aligned_line (table_lines opts owners) <$> table_lines opts owners)) w.

Lemma print_listing_lines o a k ns name l w :
  Structured (go_output o) = false → go_watch o = false →
  (∀ d, clean (HumanDuration d) = true) → Forall clean_row (rows (ls_owners l)) →
  print_listing o a k ns name l w = listed_output o a k ns (ls_owners l) w.
Proof.
  intros Hs Hwatch Hd Hrows. unfold print_listing, listed_output. rewrite Hs, Hwatch. cbn [negb]. rewrite andb_true_r.
  destruct (decide (ls_owners l = [])) as [Hnil|Hne]; [by rewrite bool_decide_true|].
  rewrite bool_decide_false by done. unfold tableOptions, mbind, M_bind, mret, M_ret.
  destruct (app_now a w) as [now w1]. destruct (PrintTable_aligned (rows (ls_owners l))
    (Build_TableOptions (kd_Namespaced k && go_allNamespaces o)
      (bool_decide (OutputFlag_String (go_output o) = OutputWide)) false now) w1 Hd Hrows) as [-> _]. done.
Qed.

(** The namespace a command line asks for: none, which is all of them, for a
    cluster-scoped kind and under --all-namespaces, else that of --namespace,
    else the kubeconfig's. The API client is built first. *)
Definition asked_namespace (o : getOptions) (a : app W) (k : OwnerKind) : M W (result string) := λ w,
  match cf_Dynamic w with
  | (Err err, w) => (Err err, w)
  | (Ok _, w) =>
      if decide (kd_Kind k = "Milestone" ∧ go_allNamespaces o = false) then
        if decide (flag_Namespace a = "") then cf_DefaultNamespace w else (Ok (flag_Namespace a), w)
      else (Ok "", w)
  end.

(** The one request: the objects of the kind in that namespace, or the one named. *)
Definition request (k : OwnerKind) (ns name : string) : M W (result (list Unstructured)) := λ w,
  let ri := Build_ResourceInterface (GVR k) ns in
  if decide (name = "") then
    match ri_List ri w with
    | (Ok (items, _), w) => (Ok items, w)
    | (Err err, w) => (Err (fmt_Errorf ("list " +:+ kd_Plural k +:+ ": " +:+ err_Error err) [err]), w)
    end
  else
    match ri_Get ri name w with
    | (Ok u, w) => (Ok [u], w)
    | (Err err, w) => (Err (if IsNotFound err then notFoundError k ns name else err), w)
    end.

Lemma resource_asks o a k w :
  k ∈ Kinds →
  resource o a k w = let '(ns, w) := asked_namespace o a k w in
                     (match ns with Ok ns => Ok (Build_ResourceInterface (GVR k) ns, ns) | Err err => Err err end, w).
Proof.
  intros Hk. unfold resource, scoped, asked_namespace, app_namespace, mbind, M_bind, mret, M_ret.
  destruct (cf_Dynamic w) as [[[]|err] w1]; [|done].
  apply elem_of_cons in Hk as [-> |Hk%list_elem_of_singleton]; [|by subst k].
  simpl. destruct (go_allNamespaces o); [done|]. simpl. destruct (decide (flag_Namespace a = "")) as [He|He].
  - rewrite decide_False by (intros Hn; exact (Hn He)). by destruct (cf_DefaultNamespace w1) as [[]].
  - by rewrite decide_True.
Qed.

Lemma fetch_asks k ns name w :
  let '(res, w') := fetch_items (Build_ResourceInterface (GVR k) ns) k ns name w in
  request k ns name w = (match res with Ok (items, _) => Ok items | Err err => Err err end, w').
Proof.
  unfold fetch_items, request, mbind, M_bind, mret, M_ret. destruct (decide (name = "")) as [He|He].
  - rewrite decide_False by (intros Hn; exact (Hn He)). by destruct (ri_List _ w) as [[[]|] ?].
  - rewrite decide_True by done. destruct (ri_Get _ _ w) as [[|err] ?]; [done|]. by destruct (IsNotFound err).
Qed.

Lemma named_across_namespaces {A} k name o (x y : A) :
  k ∈ Kinds →
  (if bool_decide (name ≠ "") && go_allNamespaces o && kd_Namespaced k then x else y) =
  if decide (name ≠ "" ∧ kd_Kind k = "Milestone" ∧ go_allNamespaces o = true) then x else y.
Proof.
  intros Hk.
  assert (bool_decide (name ≠ "") && go_allNamespaces o && kd_Namespaced k =
    bool_decide (name ≠ "" ∧ kd_Kind k = "Milestone" ∧ go_allNamespaces o = true)) as ->; [|by repeat case_bool_decide; case_decide].
  apply eq_true_iff_eq. rewrite !andb_true_iff, !bool_decide_eq_true.
  apply elem_of_cons in Hk as [-> |Hk%list_elem_of_singleton]; [|subst k]; simpl; naive_solver.
Qed.

(** C34: what [get KIND] prints, for a kind by any of its names, at most one
    object, no --watch and a table format. A --status that does not parse, and a
    Milestone's name with --all-namespaces (get.go:114-116), exit with 1 before any
    request. Otherwise there is one request, for the objects of the kind or the one
    named, across namespaces for a ClusterMilestone or --all-namespaces, else in the
    --namespace, else in the kubeconfig's default. Of the answer it shows, in the
    server's order, the owners whose conditions satisfy every term of --status: one
    write of a header line and a line for each, every cell padded to the widest of
    its column plus three; or one line on stderr when there is
    none. This is stated for rows whose namespace, name, Ready, Reason and Stalled
    hold no tab, vertical tab, form feed or newline (the message may). The exit is 0 unless that write fails. A client,
    a namespace or a request that fails, and an item that does not decode, print
    nothing on stdout and exit with 1. *)
Theorem get_prints_table complete argv use k word rest fl args a w :
  let a' := set_flags fl (invoked use a) in
  let o := get_options fl in
  let name := default "" (head args) in
  let ended r := run wall_clock client fuel complete argv a w = exit_of a' (Some r) in
  k ∈ Kinds → named k word = true → invocation complete argv = (use, cmdGet :: word :: rest) →
  pflag_Parse ((config_flags ++ [no_color_flag]) ++ get_flags) rest = Ok (fl, args) → length args ≤ 1 →
  go_watch o = false → Structured (go_output o) = false → (∀ d, clean (HumanDuration d) = true) →
  match ParseStatusSelector (go_statusSelector o) with
  | Err err => ended (Some err, w)
  | Ok sel =>
      if decide (name ≠ "" ∧ kd_Kind k = "Milestone" ∧ go_allNamespaces o = true) then
        ended (Some (errors_New "a resource cannot be retrieved by name across all namespaces"), w)
      else
      match asked_namespace o a' k w with
      | (Err err, w1) => ended (Some err, w1)
      | (Ok ns, w1) =>
          match request k ns name w1 with
          | (Err err, w2) => ended (Some err, w2)
          | (Ok items, w2) =>
              (∃ u err, u ∈ items ∧ Decode k u = Err err ∧ ended (Some err, w2)) ∨
              ∃ all, Forall2 (λ u owner, Decode k u = Ok owner) items all ∧
                let shown := filter (λ owner, Forall (term_of_owner owner) sel) all in
                Forall clean_row (rows shown) →
                ended (listed_output o a' k ns shown w2) ∧
                ∀ opts, Forall (λ line, length line = length (Headers opts)) (table_lines opts shown)
          end
      end
  end.
Proof.
  intros a' o name ended Hk Hw Hinv Hparse Hlen Hwatch Hs Hd. subst ended. cbv beta.
  pose proof (get_kind_run wall_clock client fuel complete argv use k word rest fl args a w Hk Hw Hinv Hparse) as Hrun.
  rewrite decide_True in Hrun by done. fold a' o name in Hrun. rewrite Hrun. clear Hrun. unfold runKind.
  destruct (ParseStatusSelector (go_statusSelector o)) as [sel|err]; [|done].
  rewrite named_across_namespaces by done. case_decide as Hns; [done|].
  rewrite run_M_bind, resource_asks by done. destruct (asked_namespace o a' k w) as [[ns|err] w1]; [|done].
  rewrite run_M_bind. set (ri := Build_ResourceInterface (GVR k) ns).
  assert (fetch ri k ns name sel w1 = let '(res, w2) := fetch_items ri k ns name w1 in
    (match res with
     | Err err => Err err
     | Ok (items, rv) => match decode_matching k sel items [] with
                         | Err err => Err err | Ok owners => Ok (Build_listing k owners ns rv) end
     end, w2)) as -> by done.
  pose proof (fetch_asks k ns name w1) as Hreq. fold ri in Hreq.
  destruct (fetch_items ri k ns name w1) as [[[items rv]|err] w2]; rewrite Hreq; [|done].
  pose proof (decode_matching_spec k sel items []) as Hdec.
  destruct (decode_matching k sel items []) as [owners|err].
  - destruct Hdec as (all & Hall & ->). right. exists all. split; [done|].
    set (shown := filter _ all). intros Hclean. split.
    + rewrite run_M_bind, (print_listing_lines o a' k ns name (Build_listing k ([] ++ shown) ns rv) w2 Hs Hwatch Hd Hclean).
      cbn [ls_owners Datatypes.app]. destruct (listed_output o a' k ns shown w2) as [[err|] w3]; [done|]. by rewrite Hwatch.
    + intros opts. apply Forall_cons. split; [done|]. apply Forall_fmap, Forall_true. intros r. apply Cells_length.
  - destruct Hdec as (u & Hu & He). left. by exists u, err.
Qed.
End listing.

(** ** Two milestones, one of them ready *)
Module ListingFix.
Import GetFix RootFix.
#[local] Existing Instance Fix.labels.
#[local] Existing Instance Fix.unstructured.
#[local] Existing Instance Fix.formatting.
#[local] Existing Instance Fix.api_errors.
#[local] Existing Instance Fix.conditions.
#[local] Existing Instance CliFix.tables.
#[local] Existing Instance TableFix.durations.
#[local] Existing Instance owner_objects.
#[local] Existing Instance clients.
#[local] Existing Instance resources.
#[local] Existing Instance writers.
#[local] Existing Instance watch.
#[local] Existing Instance marshal_object.
#[local] Existing Instance marshal_list.
#[local] Existing Instance yaml.
#[local] Existing Instance dynamic.
#[local] Existing Instance resource_args.
#[local] Existing Instance marshal_report.
#[local] Existing Instance marshal_trace.
#[local] Existing Instance marshal_version.
#[local] Existing Instance kube_flags.
#[local] Existing Instance cobra.
#[local] Existing Instance cobra_laws.

Definition mile : list string := ["milestonectl"; "get"; "mile"].

Definition printed : list string :=
  ["NAME   READY   REASON   CURRENT/TOTAL   DEPS   STALLED   AGE         MESSAGE" +:+ LF_string +:+
   "a      True             0/0             0/0    Unknown   <unknown>" +:+ LF_string +:+
   "b      False            0/0             0/0    Unknown   <unknown>" +:+ LF_string].

Example listing_printed : (λ r, (r.1, written r.2)) <$> milestonectl mile = Some (0%Z, printed).
Proof. vm_compute. reflexivity. Qed.

Definition owners_of (us : list Unstructured) : list cli_Owner :=
  us ≫= λ u, match Decode MilestoneKind u with Ok owner => [owner] | Err _ => [] end.
Definition owners : list cli_Owner := owners_of listed.

Lemma decoded_owners us all :
  Forall2 (λ u owner, Decode MilestoneKind u = Ok owner) us all → all = owners_of us.
Proof.
  unfold owners_of. induction 1 as [|u owner us all Hu _ IH]; [done|]. by rewrite bind_cons, Hu, <- IH.
Qed.

Lemma get_prints_table_witness :
  milestonectl mile = exit_of (set_flags defaults the_app)
    (Some (listed_output (get_options defaults) (set_flags defaults the_app) MilestoneKind "default" owners start)) ∧
  (λ r, (r.1, written r.2)) <$> milestonectl mile = Some (0%Z, printed).
Proof.
  split; [|exact listing_printed].
  destruct (get_prints_table clock client 3 "__complete" mile "milestonectl" MilestoneKind "mile" [] defaults [] the_app start
    ltac:(by left) eq_refl eq_refl eq_refl ltac:(simpl; lia) eq_refl eq_refl TableRun.durations_clean)
    as [(u & err & Hu & He & _)|(all & Hall & Hrun)].
  - assert (Forall (λ u : Fix.object, ∀ err, Decode MilestoneKind u ≠ Err err) listed) as Hno by by repeat constructor.
    rewrite Forall_forall in Hno. destruct (Hno u Hu err He).
  - apply decoded_owners in Hall. change (all = owners) in Hall. subst all.
    assert (filter (λ owner, Forall (term_of_owner owner) []) owners = owners) as Hf by (vm_compute; reflexivity).
    assert (Forall clean_row (rows owners)) as Hclean by (apply (bool_decide_unpack _); vm_compute; exact I).
    rewrite <- Hf in Hclean. destruct (Hrun Hclean) as [Hr _]. rewrite <- Hf. exact Hr.
Defined.
End ListingFix.
