(* ===== verification/Copy.v ===== *)
(** * api/v1/zz_generated.deepcopy.go and groupversion_info.go

    Elsewhere a Go value is a Rocq value, and a copy is the value itself. Here
    values have addresses: a heap of arrays, slices as headers into them, pointers
    as addresses of one-element arrays, and the generated functions as programs
    over that heap. What they promise is that a copy denotes the same value and
    lives in new cells alone, so that no later write through the original shows in
    it, nor the other way round. *)

From S2P Require Import Prelude GoStd ApiV1.

(** ** The heap *)

(** A non-nil slice: its array, its first element there, its length. *)
Record header := { sh_array : nat; sh_first : nat; sh_len : nat }.

(** Cells of type [C] that may hold an array of [A]s. *)
Class Arrays (C A : Type) := {
  array : list A → C;
  array_of : C → option (list A);
  array_of_array l : array_of (array l) = Some l;
}.

Section heap.
Context {C : Type}.

Abbreviation heap := (gmap nat C).

(** The address an allocation returns. *)
Definition next_address (h : heap) : nat := S (list_max (map_to_list h).*1).

Definition load {A} `{!Arrays C A} (l : nat) : MO heap (list A) := λ h,
  match h !! l with
  | Some c => match array_of c with Some xs => Some (xs, h) | None => None end
  | None => None
  end.

Definition store {A} `{!Arrays C A} (l : nat) (xs : list A) : MO heap unit := λ h,
  Some (tt, <[l := array xs]> h).

Definition alloc {A} `{!Arrays C A} (xs : list A) : MO heap nat := λ h,
  Some (next_address h, <[next_address h := array xs]> h).

(** [make([]A, n)], [s[i]] and [s[i] = x]. Out of range panics. *)
Definition make_slice {A} `{!Arrays C A} (zero : A) (n : nat) : MO heap header :=
  l ← alloc (replicate n zero);
  mret (Build_header l 0 n).

Definition slice_get {A} `{!Arrays C A} (s : header) (i : nat) : MO heap A := λ h,
  if decide (i < sh_len s)%nat then
    match load (sh_array s) h with
    | Some (xs, h) => match xs !! (sh_first s + i)%nat with Some x => Some (x, h) | None => None end
    | None => None
    end
  else None.

Definition slice_set {A} `{!Arrays C A} (s : header) (i : nat) (x : A) : MO heap unit := λ h,
  if decide (i < sh_len s)%nat then
    match load (A := A) (sh_array s) h with
    | Some (xs, h) =>
        if decide (sh_first s + i < length xs)%nat
        then store (sh_array s) (<[(sh_first s + i)%nat := x]> xs) h else None
    | None => None
    end
  else None.

(** The elements of a slice. *)
Definition slice_elems {A} `{!Arrays C A} (h : heap) (s : header) : option (list A) :=
  match h !! sh_array s with
  | Some c =>
      match array_of c with
      | Some xs => if decide (sh_first s + sh_len s ≤ length xs)%nat
                   then Some (take (sh_len s) (drop (sh_first s) xs)) else None
      | None => None
      end
  | None => None
  end.

(** The builtin [copy(dst, src)]. *)
Definition copy_builtin {A} `{!Arrays C A} (dst src : header) : MO heap nat := λ h,
  match slice_elems (A := A) h src, load (A := A) (sh_array dst) h with
  | Some xs, Some (old, _) =>
      let n := Nat.min (sh_len dst) (sh_len src) in
      match store (sh_array dst) (take (sh_first dst) old ++ take n xs ++ drop (sh_first dst + n) old) h with
      | Some (_, h) => Some (n, h)
      | None => None
      end
  | _, _ => None
  end.

(** *** Types with a DeepCopyInto

    [A] is the struct as it lies in memory and [V] what it denotes, pointers and
    slices followed. [deep_copy_into x] is the struct [x.DeepCopyInto(out)] leaves
    at [out]. *)
Class DeepCopyable (A V : Type) := {
  zero_of : A;
  denotes : heap → A → option V;
  deep_copy_into : A → MO heap A;
}.

(** The copy denotes the same value in the new cells alone. *)
Class DeepCopyLaws (A V : Type) `{!DeepCopyable A V} : Prop := {
  denotes_mono h h' x v : h ⊆ h' → denotes h x = Some v → denotes h' x = Some v;
  into_spec h x v : denotes h x = Some v →
    ∃ y h', deep_copy_into x h = Some (y, h') ∧ h ⊆ h' ∧ denotes (h' ∖ h) y = Some v;
}.

Section generated.
Context {A V : Type} `{!Arrays C A} `{!DeepCopyable A V}.

(** The loop over the elements, each copied into its place, from [i] on. *)
Fixpoint copy_elements (src dst : header) (i n : nat) : MO heap unit :=
  match n with
  | 0 => mret tt
  | S n =>
      x ← slice_get src i;
      y ← deep_copy_into x;
      slice_set dst i y;;
      copy_elements src dst (S i) n
  end.

(** The block of a slice field whose elements have a DeepCopyInto. *)
Definition copy_slice (s : option header) : MO heap (option header) :=
  match s with
  | None => mret None
  | Some src =>
      dst ← make_slice zero_of (sh_len src);
      copy_elements src dst 0 (sh_len src);;
      mret (Some dst)
  end.

(** The block of a pointer field, which is [DeepCopy] of the pointer as well. *)
Definition copy_pointer (p : option nat) : MO heap (option nat) :=
  match p with
  | None => mret None
  | Some l =>
      x ← slice_get (Build_header l 0 1) 0;
      out ← alloc [zero_of];
      y ← deep_copy_into x;
      slice_set (Build_header out 0 1) 0 y;;
      mret (Some out)
  end.

Definition denotes_slice (h : heap) (s : option header) : option (slice V) :=
  match s with
  | None => Some None
  | Some s => xs ← slice_elems h s; vs ← mapM (denotes h) xs; Some (Some vs)
  end.

Definition denotes_pointer (h : heap) (p : option nat) : option (option V) :=
  match p with
  | None => Some None
  | Some l => xs ← slice_elems h (Build_header l 0 1); vs ← mapM (denotes h) xs; Some (head vs)
  end.
End generated.

(** The block of a slice field whose elements are plain. *)
Definition copy_plain_slice {A} `{!Arrays C A} (zero : A) (s : option header) : MO heap (option header) :=
  match s with
  | None => mret None
  | Some src =>
      dst ← make_slice zero (sh_len src);
      copy_builtin (A := A) dst src;;
      mret (Some dst)
  end.

Definition denotes_plain_slice {A} `{!Arrays C A} (h : heap) (s : option header) : option (slice A) :=
  match s with
  | None => Some None
  | Some s => Some <$> slice_elems h s
  end.
(** ** Lemmas *)

Implicit Types (h : heap).

Lemma next_address_fresh h : h !! next_address h = None.
Proof.
  apply eq_None_not_Some. intros [c Hc%elem_of_map_to_list].
  assert (next_address h ∈ (map_to_list h).*1) as Hin by (apply list_elem_of_fmap; by exists (next_address h, c)).
  assert (Forall (λ k, k ≤ list_max (map_to_list h).*1)%nat (map_to_list h).*1) as Hmax by by apply list_max_le.
  rewrite Forall_forall in Hmax. specialize (Hmax _ Hin). unfold next_address in *. lia.
Qed.

Lemma grow_insert h h' l c : h ⊆ h' → h !! l = None → h ⊆ <[l := c]> h'.
Proof. intros Hh Hl. by apply insert_subseteq_r. Qed.

Lemma difference_grow h h1 h2 : h1 ⊆ h2 → h1 ∖ h ⊆ h2 ∖ h.
Proof.
  intros Hs. apply map_subseteq_spec. intros l c [Hl Hn]%lookup_difference_Some.
  apply lookup_difference_Some. split; [by eapply lookup_weaken|done].
Qed.

Lemma difference_shrink h h1 h2 : h ⊆ h1 → h2 ∖ h1 ⊆ h2 ∖ h.
Proof.
  intros Hs. apply map_subseteq_spec. intros l c [Hl Hn]%lookup_difference_Some.
  apply lookup_difference_Some. split; [done|]. by eapply lookup_weaken_None.
Qed.

Lemma slice_elems_mono {A} `{!Arrays C A} h h' s (xs : list A) :
  h ⊆ h' → slice_elems h s = Some xs → slice_elems h' s = Some xs.
Proof.
  intros Hh. unfold slice_elems. destruct (h !! sh_array s) as [c|] eqn:Hl; [|done].
  by rewrite (lookup_weaken _ _ _ _ Hl Hh).
Qed.

Lemma slice_elems_length {A} `{!Arrays C A} h s (xs : list A) :
  slice_elems h s = Some xs → length xs = sh_len s.
Proof.
  unfold slice_elems. destruct (_ !! _) as [c|]; [|done]. destruct (array_of c); [|done].
  case_decide; [|done]. intros [= <-]. rewrite length_take, length_drop. lia.
Qed.

Lemma slice_get_elems {A} `{!Arrays C A} h s (xs : list A) i x :
  slice_elems h s = Some xs → xs !! i = Some x → slice_get s i h = Some (x, h).
Proof.
  intros Hs Hx. pose proof (slice_elems_length h s xs Hs) as Hlen.
  pose proof (lookup_lt_Some _ _ _ Hx) as Hi. unfold slice_elems in Hs. unfold slice_get, load.
  rewrite decide_True by lia. destruct (_ !! _) as [c|]; [|done]. destruct (array_of c) as [ys|]; [|done].
  case_decide; [|done]. injection Hs as <-. rewrite lookup_take_lt, lookup_drop in Hx by lia. by rewrite Hx.
Qed.

(** A whole array, as [make] returns it. *)
Lemma slice_elems_whole {A} `{!Arrays C A} h l (xs : list A) n :
  h !! l = Some (array xs) → length xs = n → slice_elems h (Build_header l 0 n) = Some xs.
Proof.
  intros Hl Hn. unfold slice_elems. simpl. rewrite Hl, array_of_array, decide_True by lia.
  by rewrite drop_0, take_ge by lia.
Qed.

Lemma slice_set_whole {A} `{!Arrays C A} h l (xs : list A) n i x :
  h !! l = Some (array xs) → length xs = n → (i < n)%nat →
  slice_set (Build_header l 0 n) i x h = Some (tt, <[l := array (<[i := x]> xs)]> h).
Proof.
  intros Hl Hn Hi. unfold slice_set, load. simpl. rewrite decide_True by lia.
  by rewrite Hl, array_of_array, decide_True by lia.
Qed.

Section spec.
Context {A V : Type} `{!Arrays C A} `{!DeepCopyable A V} `{!DeepCopyLaws A V}.

Lemma denotes_all_mono h h' (xs : list A) (vs : list V) :
  h ⊆ h' → mapM (denotes h) xs = Some vs → mapM (denotes h') xs = Some vs.
Proof.
  rewrite !mapM_Some. intros Hh Hall. eapply Forall2_impl; [done|]. intros x v. by apply denotes_mono.
Qed.

(** The loop, after [i] elements: the array holds their copies. *)
Lemma copy_elements_run src l (h h0 : heap) (xs ys : list A) (vs : list V) i n :
  h !! l = None → h ⊆ h0 → h0 !! l = Some (array (ys ++ replicate n zero_of)) → length ys = i →
  slice_elems h src = Some xs → mapM (denotes h) xs = Some vs → length xs = (i + n)%nat →
  Forall2 (λ y v, denotes (delete l (h0 ∖ h)) y = Some v) ys (take i vs) →
  ∃ h' ys', copy_elements src (Build_header l 0 (i + n)) i n h0 = Some (tt, h') ∧ h ⊆ h' ∧
    h' !! l = Some (array ys') ∧ length ys' = (i + n)%nat ∧
    Forall2 (λ y v, denotes (delete l (h' ∖ h)) y = Some v) ys' vs.
Proof.
  revert h0 ys i. induction n as [|n IH]; intros h0 ys i Hl Hh Hl0 Hi Hxs Hvs Hlen Hys; simpl.
  { rewrite app_nil_r in Hl0. exists h0, ys. split_and!; [done..|lia|].
    rewrite take_ge in Hys; [done|]. rewrite <- (length_mapM _ _ _ Hvs). lia. }
  destruct (lookup_lt_is_Some_2 xs i) as [x Hx]; [lia|].
  pose proof (proj1 (mapM_Some _ _ _) Hvs) as Hall. destruct (Forall2_lookup_l _ _ _ _ _ Hall Hx) as (v & Hv & Hxv).
  unfold mbind at 1, MO_bind. rewrite (slice_get_elems h0 src xs i x) by (done || by eapply slice_elems_mono).
  destruct (into_spec h0 x v) as (y & h1 & Hy & Hh1 & Hyv); [by eapply denotes_mono|].
  unfold mbind at 1. rewrite Hy. unfold mbind at 1.
  assert (h1 !! l = Some (array (ys ++ replicate (S n) zero_of))) as Hl1 by by eapply lookup_weaken.
  rewrite (slice_set_whole h1 l _ _ i y Hl1) by (rewrite ?length_app, ?length_replicate; simpl; lia).
  replace (<[i:=y]> (ys ++ replicate (S n) zero_of)) with ((ys ++ [y]) ++ replicate n zero_of)
    by (rewrite <- app_assoc, insert_app_r_alt, Hi, Nat.sub_diag by lia; done).
  assert (delete l (h1 ∖ h) = delete l (<[l := array ((ys ++ [y]) ++ replicate n zero_of)]> h1 ∖ h)) as Hd.
  { apply map_eq. intros k. destruct (decide (k = l)) as [->|Hk]; [by rewrite !lookup_delete_eq|].
    by rewrite !lookup_delete_ne, !lookup_difference, lookup_insert_ne by done. }
  replace (i + S n)%nat with (S i + n)%nat by lia.
  destruct (IH (<[l := array ((ys ++ [y]) ++ replicate n zero_of)]> h1) (ys ++ [y]) (S i))
    as (h' & ys' & Hrun & Hrest); [done|by apply grow_insert; [etrans|]|by rewrite lookup_insert_eq| |done|done|lia| |].
  - rewrite length_app. simpl. lia.
  - rewrite <- Hd, (take_S_r _ _ v) by done. apply Forall2_app.
    + eapply Forall2_impl; [exact Hys|]. intros z vz. apply denotes_mono, delete_mono, difference_grow. done.
    + constructor; [|constructor]. eapply denotes_mono; [|exact Hyv].
      apply map_subseteq_spec. intros k c [Hk Hn]%lookup_difference_Some.
      rewrite lookup_delete_ne by (intros ->; congruence). apply lookup_difference_Some.
      split; [done|]. by eapply lookup_weaken_None.
  - exists h', ys'. by split.
Qed.

Lemma denotes_slice_mono h h' s (v : slice V) :
  h ⊆ h' → denotes_slice h s = Some v → denotes_slice h' s = Some v.
Proof.
  intros Hh. destruct s as [s|]; [|done]. simpl. intros (xs & Hxs & (vs & Hvs & [= <-])%bind_Some)%bind_Some.
  rewrite (slice_elems_mono h h' s xs Hh Hxs). simpl. by rewrite (denotes_all_mono h h' xs vs Hh Hvs).
Qed.

Lemma denotes_pointer_mono h h' p (v : option V) :
  h ⊆ h' → denotes_pointer h p = Some v → denotes_pointer h' p = Some v.
Proof.
  intros Hh. destruct p as [l|]; [|done]. simpl. intros (xs & Hxs & (vs & Hvs & [= <-])%bind_Some)%bind_Some.
  rewrite (slice_elems_mono h h' _ xs Hh Hxs). simpl. by rewrite (denotes_all_mono h h' xs vs Hh Hvs).
Qed.
End spec.

Lemma denotes_plain_slice_mono {A} `{!Arrays C A} h h' s (v : slice A) :
  h ⊆ h' → denotes_plain_slice h s = Some v → denotes_plain_slice h' s = Some v.
Proof.
  intros Hh. destruct s as [s|]; [|done]. simpl. intros (xs & Hxs & ->)%fmap_Some.
  by rewrite (slice_elems_mono h h' s xs Hh Hxs).
Qed.

(** *** Programs whose result lives in new cells

    [Q f b]: the result [b] is right as far as the cells of [f] go. *)
Definition fresh_result {B} (h : heap) (m : MO heap B) (Q : heap → B → Prop) : Prop :=
  ∃ b h', m h = Some (b, h') ∧ h ⊆ h' ∧ Q (h' ∖ h) b.

Lemma fresh_ret {B} h (b : B) (Q : heap → B → Prop) : (∀ f, Q f b) → fresh_result h (mret b) Q.
Proof. intros HQ. by exists b, h. Qed.

Lemma fresh_bind {B D} h (m : MO heap B) (k : B → MO heap D) (Q1 : heap → B → Prop) (Q2 : heap → D → Prop) :
  (∀ f f' b, f ⊆ f' → Q1 f b → Q1 f' b) → fresh_result h m Q1 →
  (∀ b h1, h ⊆ h1 → fresh_result h1 (k b) (λ f d, ∀ f', f ⊆ f' → Q1 f' b → Q2 f' d)) →
  fresh_result h (m ≫= k) Q2.
Proof.
  intros Hmono (b & h1 & Hm & Hh1 & Hb) Hk. destruct (Hk b h1 Hh1) as (d & h2 & Hd & Hh2 & HQ).
  exists d, h2. unfold mbind, MO_bind. rewrite Hm. split; [done|]. split; [by etrans|].
  apply HQ; [by apply difference_shrink|]. eapply Hmono; [|exact Hb]. by apply difference_grow.
Qed.

Lemma into_fresh {A V} `{!DeepCopyable A V} `{!DeepCopyLaws A V} h x (v : V) :
  denotes h x = Some v → fresh_result h (deep_copy_into x) (λ f y, denotes f y = Some v).
Proof. apply into_spec. Qed.

Section blocks.
Context {A V : Type} `{!Arrays C A} `{!DeepCopyable A V} `{!DeepCopyLaws A V}.

Lemma make_slice_run (zero : A) n h :
  ∃ l, make_slice zero n h = Some (Build_header l 0 n, <[l := array (replicate n zero)]> h) ∧ h !! l = None.
Proof. exists (next_address h). split; [done|apply next_address_fresh]. Qed.

Lemma copy_slice_spec h s (v : slice V) :
  denotes_slice h s = Some v → fresh_result h (copy_slice s) (λ f s', denotes_slice f s' = Some v).
Proof.
  destruct s as [src|]; simpl; [|intros [= <-]; by apply fresh_ret].
  intros (xs & Hxs & (vs & Hvs & [= <-])%bind_Some)%bind_Some.
  destruct (make_slice_run zero_of (sh_len src) h) as (l & Hmake & Hl).
  pose proof (slice_elems_length h src xs Hxs) as Hlen.
  destruct (copy_elements_run src l h (<[l := array (replicate (sh_len src) zero_of)]> h) xs [] vs 0 (sh_len src))
    as (h' & ys & Hrun & Hh' & Hl' & Hys & Hall); try done.
  { by apply grow_insert. } { by rewrite lookup_insert_eq. }
  exists (Some (Build_header l 0 (sh_len src))), h'. unfold mbind, MO_bind. rewrite Hmake. simpl in Hrun. rewrite Hrun.
  split_and!; [done..|]. simpl. rewrite (slice_elems_whole (h' ∖ h) l ys); [|by apply lookup_difference_Some|done].
  simpl. rewrite (proj2 (mapM_Some _ _ vs)); [done|]. eapply Forall2_impl; [exact Hall|].
  intros y v. apply denotes_mono, delete_subseteq.
Qed.

Lemma copy_pointer_spec h p (v : option V) :
  denotes_pointer h p = Some v → fresh_result h (copy_pointer p) (λ f p', denotes_pointer f p' = Some v).
Proof.
  destruct p as [l|]; simpl; [|intros [= <-]; by apply fresh_ret].
  intros (xs & Hxs & (vs & Hvs & [= <-])%bind_Some)%bind_Some.
  pose proof (slice_elems_length h _ xs Hxs) as Hlen. destruct xs as [|x [|]]; [done| |done].
  apply mapM_Some, Forall2_cons_inv_l in Hvs as (v & vs' & Hv & ->%Forall2_nil_inv_l & ->).
  unfold fresh_result, mbind, MO_bind. rewrite (slice_get_elems h _ [x] 0 x Hxs eq_refl). unfold alloc at 1.
  set (h0 := <[next_address h := array [zero_of]]> h).
  assert (h ⊆ h0) as Hh0 by (apply grow_insert; [done|apply next_address_fresh]).
  destruct (into_spec h0 x v) as (y & h1 & Hy & Hh1 & Hyv); [by eapply denotes_mono|]. rewrite Hy.
  assert (h1 !! next_address h = Some (array [zero_of])) as Hl1
    by (eapply lookup_weaken; [by apply lookup_insert_eq|done]).
  rewrite (slice_set_whole h1 _ _ 1 0 y Hl1) by (simpl; lia). eexists _, _. split; [done|].
  split; [apply grow_insert; [by etrans|apply next_address_fresh]|]. simpl.
  rewrite (slice_elems_whole _ _ [y]); [|apply lookup_difference_Some; split; [apply lookup_insert_eq|apply next_address_fresh]|done].
  simpl. rewrite (denotes_mono (h1 ∖ h0) _ y v); [done| |done].
  apply map_subseteq_spec. intros k c [Hk Hn]%lookup_difference_Some.
  apply lookup_difference_Some. split; [|by eapply lookup_weaken_None].
  rewrite lookup_insert_ne; [done|]. intros <-. unfold h0 in Hn. by rewrite lookup_insert_eq in Hn.
Qed.
End blocks.

Lemma copy_plain_slice_spec {A} `{!Arrays C A} (zero : A) h s v :
  denotes_plain_slice h s = Some v →
  fresh_result h (copy_plain_slice zero s) (λ f s', denotes_plain_slice (A := A) f s' = Some v).
Proof.
  destruct s as [src|]; simpl; [|intros [= <-]; by apply fresh_ret]. intros (xs & Hxs & ->)%fmap_Some.
  destruct (make_slice_run zero (sh_len src) h) as (l & Hmake & Hl).
  pose proof (slice_elems_length h src xs Hxs) as Hlen.
  exists (Some (Build_header l 0 (sh_len src))), (<[l := array xs]> h). unfold mbind, MO_bind. rewrite Hmake.
  unfold copy_builtin, load. rewrite (slice_elems_mono h _ src xs) by (done || by apply insert_subseteq).
  simpl. rewrite lookup_insert_eq, array_of_array. simpl.
  rewrite Nat.min_id, drop_ge, take_ge, app_nil_r, insert_insert_eq
    by (rewrite ?length_replicate; lia). split; [done|]. split; [by apply insert_subseteq|].
  simpl. rewrite (slice_elems_whole _ l xs); [done| |done].
  apply lookup_difference_Some. split; [apply lookup_insert_eq|done].
Qed.
End heap.

(** ** The structs

    A view says what slices, pointers and metav1's structs are: in memory,
    headers, addresses and structs; as values, what they denote. *)
Record view := {
  v_slice : Type → Type;
  v_ptr : Type → Type;
  v_ObjectMeta : Type;
  v_ListMeta : Type;
  v_LabelSelector : Type;
  v_Condition : Type;
  v_Time : Type;
}.

(** metav1's structs, in memory and as values, and what else is on the heap. *)
Class Metav1 := {
  TypeMeta : Type;
  TypeMeta_zero : TypeMeta;
  other_cell : Type;
  mem_ObjectMeta : Type;
  val_ObjectMeta : Type;
  mem_ListMeta : Type;
  val_ListMeta : Type;
  mem_LabelSelector : Type;
  val_LabelSelector : Type;
  mem_Condition : Type;
  val_Condition : Type;
  mem_Time : Type;
  val_Time : Type;
}.

Section structs.
Context `{Metav1}.

Record TargetSpec_in (w : view) := {
  t_Group : string;
  t_Version : string;
  t_Kind : string;
  t_Selector : v_ptr w (v_LabelSelector w);
}.

Record ClusterTargetSpec_in (w : view) := {
  ct_TargetSpec : TargetSpec_in w;
  ct_Namespaces : v_slice w string;
  ct_NamespaceSelector : v_ptr w (v_LabelSelector w);
}.

Record DependencyRef_in (w : view) := {
  d_name : string;
  d_emptySetPolicy : EmptySetPolicy;
  d_suspendPolicy : SuspendPolicy;
  d_target : TargetSpec_in w;
}.

Record ClusterDependencyRef_in (w : view) := {
  cd_name : string;
  cd_emptySetPolicy : EmptySetPolicy;
  cd_suspendPolicy : SuspendPolicy;
  cd_target : ClusterTargetSpec_in w;
}.

Record MilestoneStatusBase_in (w : view) := {
  b_ObservedGeneration : Z;
  b_Conditions : v_slice w (v_Condition w);
  b_Summary : Summary;
  b_DependsOn : v_slice w DependencyStatus;
  b_NotReadyResources : v_slice w ResourceStatus;
  b_Truncated : bool;
  b_LastEvaluatedTime : v_Time w;
}.

Record MilestoneSpec_in (w : view) := { s_DependsOn : v_slice w (DependencyRef_in w) }.
Record MilestoneStatus_in (w : view) := { st_Base : MilestoneStatusBase_in w }.
Record ClusterMilestoneSpec_in (w : view) := { cs_DependsOn : v_slice w (ClusterDependencyRef_in w) }.
Record ClusterMilestoneStatus_in (w : view) := { cst_Base : MilestoneStatusBase_in w }.

Record Milestone_in (w : view) := {
  mi_TypeMeta : TypeMeta;
  mi_ObjectMeta : v_ObjectMeta w;
  mi_Spec : MilestoneSpec_in w;
  mi_Status : MilestoneStatus_in w;
}.

Record ClusterMilestone_in (w : view) := {
  cmi_TypeMeta : TypeMeta;
  cmi_ObjectMeta : v_ObjectMeta w;
  cmi_Spec : ClusterMilestoneSpec_in w;
  cmi_Status : ClusterMilestoneStatus_in w;
}.

Record MilestoneList_in (w : view) := {
  ml_TypeMeta : TypeMeta;
  ml_ListMeta : v_ListMeta w;
  ml_Items : v_slice w (Milestone_in w);
}.

Record ClusterMilestoneList_in (w : view) := {
  cml_TypeMeta : TypeMeta;
  cml_ListMeta : v_ListMeta w;
  cml_Items : v_slice w (ClusterMilestone_in w);
}.

Definition mem : view := {|
  v_slice := λ _, option header;
  v_ptr := λ _, option nat;
  v_ObjectMeta := mem_ObjectMeta;
  v_ListMeta := mem_ListMeta;
  v_LabelSelector := mem_LabelSelector;
  v_Condition := mem_Condition;
  v_Time := mem_Time;
|}.

Definition val : view := {|
  v_slice := λ A, slice A;
  v_ptr := λ A, option A;
  v_ObjectMeta := val_ObjectMeta;
  v_ListMeta := val_ListMeta;
  v_LabelSelector := val_LabelSelector;
  v_Condition := val_Condition;
  v_Time := val_Time;
|}.

(** What the heap holds: arrays of these, metav1's own, and other cells. *)
Inductive cell :=
  | Strings (l : list string)
  | LabelSelectors (l : list mem_LabelSelector)
  | ConditionCells (l : list mem_Condition)
  | Summaries (l : list Summary)
  | ResourceStatuses (l : list ResourceStatus)
  | DependencyStatuses (l : list DependencyStatus)
  | TargetSpecs (l : list (TargetSpec_in mem))
  | ClusterTargetSpecs (l : list (ClusterTargetSpec_in mem))
  | DependencyRefs (l : list (DependencyRef_in mem))
  | ClusterDependencyRefs (l : list (ClusterDependencyRef_in mem))
  | StatusBases (l : list (MilestoneStatusBase_in mem))
  | MilestoneSpecs (l : list (MilestoneSpec_in mem))
  | MilestoneStatuses (l : list (MilestoneStatus_in mem))
  | ClusterMilestoneSpecs (l : list (ClusterMilestoneSpec_in mem))
  | ClusterMilestoneStatuses (l : list (ClusterMilestoneStatus_in mem))
  | Milestones (l : list (Milestone_in mem))
  | ClusterMilestones (l : list (ClusterMilestone_in mem))
  | MilestoneLists (l : list (MilestoneList_in mem))
  | ClusterMilestoneLists (l : list (ClusterMilestoneList_in mem))
  | Others (l : list other_cell).

#[export] Instance Strings_arrays : Arrays cell string :=
  Build_Arrays _ _ Strings (λ c, match c with Strings l => Some l | _ => None end) (λ _, eq_refl).
#[export] Instance LabelSelectors_arrays : Arrays cell mem_LabelSelector :=
  Build_Arrays _ _ LabelSelectors (λ c, match c with LabelSelectors l => Some l | _ => None end) (λ _, eq_refl).
#[export] Instance ConditionCells_arrays : Arrays cell mem_Condition :=
  Build_Arrays _ _ ConditionCells (λ c, match c with ConditionCells l => Some l | _ => None end) (λ _, eq_refl).
#[export] Instance Summaries_arrays : Arrays cell Summary :=
  Build_Arrays _ _ Summaries (λ c, match c with Summaries l => Some l | _ => None end) (λ _, eq_refl).
#[export] Instance ResourceStatuses_arrays : Arrays cell ResourceStatus :=
  Build_Arrays _ _ ResourceStatuses (λ c, match c with ResourceStatuses l => Some l | _ => None end) (λ _, eq_refl).
#[export] Instance DependencyStatuses_arrays : Arrays cell DependencyStatus :=
  Build_Arrays _ _ DependencyStatuses (λ c, match c with DependencyStatuses l => Some l | _ => None end) (λ _, eq_refl).
#[export] Instance TargetSpecs_arrays : Arrays cell (TargetSpec_in mem) :=
  Build_Arrays _ _ TargetSpecs (λ c, match c with TargetSpecs l => Some l | _ => None end) (λ _, eq_refl).
#[export] Instance ClusterTargetSpecs_arrays : Arrays cell (ClusterTargetSpec_in mem) :=
  Build_Arrays _ _ ClusterTargetSpecs (λ c, match c with ClusterTargetSpecs l => Some l | _ => None end) (λ _, eq_refl).
#[export] Instance DependencyRefs_arrays : Arrays cell (DependencyRef_in mem) :=
  Build_Arrays _ _ DependencyRefs (λ c, match c with DependencyRefs l => Some l | _ => None end) (λ _, eq_refl).
#[export] Instance ClusterDependencyRefs_arrays : Arrays cell (ClusterDependencyRef_in mem) :=
  Build_Arrays _ _ ClusterDependencyRefs (λ c, match c with ClusterDependencyRefs l => Some l | _ => None end) (λ _, eq_refl).
#[export] Instance StatusBases_arrays : Arrays cell (MilestoneStatusBase_in mem) :=
  Build_Arrays _ _ StatusBases (λ c, match c with StatusBases l => Some l | _ => None end) (λ _, eq_refl).
#[export] Instance MilestoneSpecs_arrays : Arrays cell (MilestoneSpec_in mem) :=
  Build_Arrays _ _ MilestoneSpecs (λ c, match c with MilestoneSpecs l => Some l | _ => None end) (λ _, eq_refl).
#[export] Instance MilestoneStatuses_arrays : Arrays cell (MilestoneStatus_in mem) :=
  Build_Arrays _ _ MilestoneStatuses (λ c, match c with MilestoneStatuses l => Some l | _ => None end) (λ _, eq_refl).
#[export] Instance ClusterMilestoneSpecs_arrays : Arrays cell (ClusterMilestoneSpec_in mem) :=
  Build_Arrays _ _ ClusterMilestoneSpecs (λ c, match c with ClusterMilestoneSpecs l => Some l | _ => None end) (λ _, eq_refl).
#[export] Instance ClusterMilestoneStatuses_arrays : Arrays cell (ClusterMilestoneStatus_in mem) :=
  Build_Arrays _ _ ClusterMilestoneStatuses (λ c, match c with ClusterMilestoneStatuses l => Some l | _ => None end) (λ _, eq_refl).
#[export] Instance Milestones_arrays : Arrays cell (Milestone_in mem) :=
  Build_Arrays _ _ Milestones (λ c, match c with Milestones l => Some l | _ => None end) (λ _, eq_refl).
#[export] Instance ClusterMilestones_arrays : Arrays cell (ClusterMilestone_in mem) :=
  Build_Arrays _ _ ClusterMilestones (λ c, match c with ClusterMilestones l => Some l | _ => None end) (λ _, eq_refl).
#[export] Instance MilestoneLists_arrays : Arrays cell (MilestoneList_in mem) :=
  Build_Arrays _ _ MilestoneLists (λ c, match c with MilestoneLists l => Some l | _ => None end) (λ _, eq_refl).
#[export] Instance ClusterMilestoneLists_arrays : Arrays cell (ClusterMilestoneList_in mem) :=
  Build_Arrays _ _ ClusterMilestoneLists (λ c, match c with ClusterMilestoneLists l => Some l | _ => None end) (λ _, eq_refl).
#[export] Instance Others_arrays : Arrays cell other_cell :=
  Build_Arrays _ _ Others (λ c, match c with Others l => Some l | _ => None end) (λ _, eq_refl).
End structs.

(** ** The generated functions *)

Section deepcopy.
Context `{Metav1}.

Abbreviation heap := (gmap nat cell).

(** metav1's generated functions. *)
Context `{!DeepCopyable (C := cell) mem_ObjectMeta val_ObjectMeta}.
Context `{!DeepCopyable (C := cell) mem_ListMeta val_ListMeta}.
Context `{!DeepCopyable (C := cell) mem_LabelSelector val_LabelSelector}.
Context `{!DeepCopyable (C := cell) mem_Condition val_Condition}.
Context `{!DeepCopyable (C := cell) mem_Time val_Time}.

(** *** Plain structs *)

Definition Summary_DeepCopyInto (x : Summary) : MO heap Summary := mret x.
#[export] Instance Summary_copyable : DeepCopyable (C := cell) Summary Summary :=
  Build_DeepCopyable _ _ Summary_zero (λ _, Some) Summary_DeepCopyInto.

Definition ResourceStatus_zero : ResourceStatus := Build_ResourceStatus "" "" "" "" "" "" "" "".
Definition ResourceStatus_DeepCopyInto (x : ResourceStatus) : MO heap ResourceStatus := mret x.
#[export] Instance ResourceStatus_copyable : DeepCopyable (C := cell) ResourceStatus ResourceStatus :=
  Build_DeepCopyable _ _ ResourceStatus_zero (λ _, Some) ResourceStatus_DeepCopyInto.

Definition DependencyStatus_DeepCopyInto (x : DependencyStatus) : MO heap DependencyStatus :=
  mret (Build_DependencyStatus (ds_Name x) (ds_Group x) (ds_Version x) (ds_Kind x) (ds_Ready x) (ds_Reason x)
    (ds_Summary x)).
#[export] Instance DependencyStatus_copyable : DeepCopyable (C := cell) DependencyStatus DependencyStatus :=
  Build_DeepCopyable _ _ DependencyStatus_zero (λ _, Some) DependencyStatus_DeepCopyInto.

(** *** Targets *)

Definition TargetSpec_DeepCopyInto (x : TargetSpec_in mem) : MO heap (TargetSpec_in mem) :=
  selector ← copy_pointer (A := mem_LabelSelector) (t_Selector mem x);
  mret (Build_TargetSpec_in mem (t_Group mem x) (t_Version mem x) (t_Kind mem x) selector).
Definition TargetSpec_denotes (h : heap) (x : TargetSpec_in mem) : option (TargetSpec_in val) :=
  selector ← denotes_pointer (A := mem_LabelSelector) h (t_Selector mem x);
  Some (Build_TargetSpec_in val (t_Group mem x) (t_Version mem x) (t_Kind mem x) selector).
#[export] Instance TargetSpec_copyable : DeepCopyable (C := cell) (TargetSpec_in mem) (TargetSpec_in val) :=
  Build_DeepCopyable _ _ (Build_TargetSpec_in mem "" "" "" None) TargetSpec_denotes TargetSpec_DeepCopyInto.

Definition ClusterTargetSpec_DeepCopyInto (x : ClusterTargetSpec_in mem) : MO heap (ClusterTargetSpec_in mem) :=
  target ← deep_copy_into (ct_TargetSpec mem x);
  namespaces ← copy_plain_slice "" (ct_Namespaces mem x);
  selector ← copy_pointer (A := mem_LabelSelector) (ct_NamespaceSelector mem x);
  mret (Build_ClusterTargetSpec_in mem target namespaces selector).
Definition ClusterTargetSpec_denotes (h : heap) (x : ClusterTargetSpec_in mem) : option (ClusterTargetSpec_in val) :=
  target ← denotes h (ct_TargetSpec mem x);
  namespaces ← denotes_plain_slice h (ct_Namespaces mem x);
  selector ← denotes_pointer (A := mem_LabelSelector) h (ct_NamespaceSelector mem x);
  Some (Build_ClusterTargetSpec_in val target namespaces selector).
#[export] Instance ClusterTargetSpec_copyable :
    DeepCopyable (C := cell) (ClusterTargetSpec_in mem) (ClusterTargetSpec_in val) :=
  Build_DeepCopyable _ _ (Build_ClusterTargetSpec_in mem zero_of None None)
    ClusterTargetSpec_denotes ClusterTargetSpec_DeepCopyInto.

(** *** Dependencies and specs *)

Definition DependencyRef_DeepCopyInto (x : DependencyRef_in mem) : MO heap (DependencyRef_in mem) :=
  target ← deep_copy_into (d_target mem x);
  mret (Build_DependencyRef_in mem (d_name mem x) (d_emptySetPolicy mem x) (d_suspendPolicy mem x) target).
Definition DependencyRef_denotes (h : heap) (x : DependencyRef_in mem) : option (DependencyRef_in val) :=
  target ← denotes h (d_target mem x);
  Some (Build_DependencyRef_in val (d_name mem x) (d_emptySetPolicy mem x) (d_suspendPolicy mem x) target).
#[export] Instance DependencyRef_copyable : DeepCopyable (C := cell) (DependencyRef_in mem) (DependencyRef_in val) :=
  Build_DeepCopyable _ _ (Build_DependencyRef_in mem "" "" "" zero_of) DependencyRef_denotes DependencyRef_DeepCopyInto.

Definition ClusterDependencyRef_DeepCopyInto (x : ClusterDependencyRef_in mem) : MO heap (ClusterDependencyRef_in mem) :=
  target ← deep_copy_into (cd_target mem x);
  mret (Build_ClusterDependencyRef_in mem (cd_name mem x) (cd_emptySetPolicy mem x) (cd_suspendPolicy mem x) target).
Definition ClusterDependencyRef_denotes (h : heap) (x : ClusterDependencyRef_in mem) : option (ClusterDependencyRef_in val) :=
  target ← denotes h (cd_target mem x);
  Some (Build_ClusterDependencyRef_in val (cd_name mem x) (cd_emptySetPolicy mem x) (cd_suspendPolicy mem x) target).
#[export] Instance ClusterDependencyRef_copyable : DeepCopyable (C := cell) (ClusterDependencyRef_in mem) (ClusterDependencyRef_in val) :=
  Build_DeepCopyable _ _ (Build_ClusterDependencyRef_in mem "" "" "" zero_of) ClusterDependencyRef_denotes ClusterDependencyRef_DeepCopyInto.

Definition MilestoneSpec_DeepCopyInto (x : MilestoneSpec_in mem) : MO heap (MilestoneSpec_in mem) :=
  dependsOn ← copy_slice (A := DependencyRef_in mem) (s_DependsOn mem x);
  mret (Build_MilestoneSpec_in mem dependsOn).
Definition MilestoneSpec_denotes (h : heap) (x : MilestoneSpec_in mem) : option (MilestoneSpec_in val) :=
  dependsOn ← denotes_slice (A := DependencyRef_in mem) h (s_DependsOn mem x);
  Some (Build_MilestoneSpec_in val dependsOn).
#[export] Instance MilestoneSpec_copyable : DeepCopyable (C := cell) (MilestoneSpec_in mem) (MilestoneSpec_in val) :=
  Build_DeepCopyable _ _ (Build_MilestoneSpec_in mem None) MilestoneSpec_denotes MilestoneSpec_DeepCopyInto.

Definition ClusterMilestoneSpec_DeepCopyInto (x : ClusterMilestoneSpec_in mem) : MO heap (ClusterMilestoneSpec_in mem) :=
  dependsOn ← copy_slice (A := ClusterDependencyRef_in mem) (cs_DependsOn mem x);
  mret (Build_ClusterMilestoneSpec_in mem dependsOn).
Definition ClusterMilestoneSpec_denotes (h : heap) (x : ClusterMilestoneSpec_in mem) : option (ClusterMilestoneSpec_in val) :=
  dependsOn ← denotes_slice (A := ClusterDependencyRef_in mem) h (cs_DependsOn mem x);
  Some (Build_ClusterMilestoneSpec_in val dependsOn).
#[export] Instance ClusterMilestoneSpec_copyable : DeepCopyable (C := cell) (ClusterMilestoneSpec_in mem) (ClusterMilestoneSpec_in val) :=
  Build_DeepCopyable _ _ (Build_ClusterMilestoneSpec_in mem None) ClusterMilestoneSpec_denotes ClusterMilestoneSpec_DeepCopyInto.

(** *** Statuses *)

Definition MilestoneStatusBase_DeepCopyInto (x : MilestoneStatusBase_in mem) : MO heap (MilestoneStatusBase_in mem) :=
  conditions ← copy_slice (A := mem_Condition) (b_Conditions mem x);
  dependsOn ← copy_plain_slice DependencyStatus_zero (b_DependsOn mem x);
  notReadyResources ← copy_plain_slice ResourceStatus_zero (b_NotReadyResources mem x);
  lastEvaluatedTime ← deep_copy_into (A := mem_Time) (b_LastEvaluatedTime mem x);
  mret (Build_MilestoneStatusBase_in mem (b_ObservedGeneration mem x) conditions (b_Summary mem x) dependsOn
    notReadyResources (b_Truncated mem x) lastEvaluatedTime).
Definition MilestoneStatusBase_denotes (h : heap) (x : MilestoneStatusBase_in mem) : option (MilestoneStatusBase_in val) :=
  conditions ← denotes_slice (A := mem_Condition) h (b_Conditions mem x);
  dependsOn ← denotes_plain_slice h (b_DependsOn mem x);
  notReadyResources ← denotes_plain_slice h (b_NotReadyResources mem x);
  lastEvaluatedTime ← denotes (A := mem_Time) h (b_LastEvaluatedTime mem x);
  Some (Build_MilestoneStatusBase_in val (b_ObservedGeneration mem x) conditions (b_Summary mem x) dependsOn
    notReadyResources (b_Truncated mem x) lastEvaluatedTime).
#[export] Instance MilestoneStatusBase_copyable :
    DeepCopyable (C := cell) (MilestoneStatusBase_in mem) (MilestoneStatusBase_in val) :=
  Build_DeepCopyable _ _
    (Build_MilestoneStatusBase_in mem 0 None Summary_zero None None false (zero_of (A := mem_Time)))
    MilestoneStatusBase_denotes MilestoneStatusBase_DeepCopyInto.

Definition MilestoneStatus_DeepCopyInto (x : MilestoneStatus_in mem) : MO heap (MilestoneStatus_in mem) :=
  base ← deep_copy_into (st_Base mem x);
  mret (Build_MilestoneStatus_in mem base).
Definition MilestoneStatus_denotes (h : heap) (x : MilestoneStatus_in mem) : option (MilestoneStatus_in val) :=
  base ← denotes h (st_Base mem x);
  Some (Build_MilestoneStatus_in val base).
#[export] Instance MilestoneStatus_copyable : DeepCopyable (C := cell) (MilestoneStatus_in mem) (MilestoneStatus_in val) :=
  Build_DeepCopyable _ _ (Build_MilestoneStatus_in mem zero_of) MilestoneStatus_denotes MilestoneStatus_DeepCopyInto.

Definition ClusterMilestoneStatus_DeepCopyInto (x : ClusterMilestoneStatus_in mem) : MO heap (ClusterMilestoneStatus_in mem) :=
  base ← deep_copy_into (cst_Base mem x);
  mret (Build_ClusterMilestoneStatus_in mem base).
Definition ClusterMilestoneStatus_denotes (h : heap) (x : ClusterMilestoneStatus_in mem) : option (ClusterMilestoneStatus_in val) :=
  base ← denotes h (cst_Base mem x);
  Some (Build_ClusterMilestoneStatus_in val base).
#[export] Instance ClusterMilestoneStatus_copyable : DeepCopyable (C := cell) (ClusterMilestoneStatus_in mem) (ClusterMilestoneStatus_in val) :=
  Build_DeepCopyable _ _ (Build_ClusterMilestoneStatus_in mem zero_of) ClusterMilestoneStatus_denotes ClusterMilestoneStatus_DeepCopyInto.

(** *** Objects and lists *)

Definition Milestone_DeepCopyInto (x : Milestone_in mem) : MO heap (Milestone_in mem) :=
  meta ← deep_copy_into (A := mem_ObjectMeta) (mi_ObjectMeta mem x);
  spec ← deep_copy_into (mi_Spec mem x);
  status ← deep_copy_into (mi_Status mem x);
  mret (Build_Milestone_in mem (mi_TypeMeta mem x) meta spec status).
Definition Milestone_denotes (h : heap) (x : Milestone_in mem) : option (Milestone_in val) :=
  meta ← denotes (A := mem_ObjectMeta) h (mi_ObjectMeta mem x);
  spec ← denotes h (mi_Spec mem x);
  status ← denotes h (mi_Status mem x);
  Some (Build_Milestone_in val (mi_TypeMeta mem x) meta spec status).
#[export] Instance Milestone_copyable : DeepCopyable (C := cell) (Milestone_in mem) (Milestone_in val) :=
  Build_DeepCopyable _ _ (Build_Milestone_in mem TypeMeta_zero (zero_of (A := mem_ObjectMeta)) zero_of zero_of)
    Milestone_denotes Milestone_DeepCopyInto.

Definition ClusterMilestone_DeepCopyInto (x : ClusterMilestone_in mem) : MO heap (ClusterMilestone_in mem) :=
  meta ← deep_copy_into (A := mem_ObjectMeta) (cmi_ObjectMeta mem x);
  spec ← deep_copy_into (cmi_Spec mem x);
  status ← deep_copy_into (cmi_Status mem x);
  mret (Build_ClusterMilestone_in mem (cmi_TypeMeta mem x) meta spec status).
Definition ClusterMilestone_denotes (h : heap) (x : ClusterMilestone_in mem) : option (ClusterMilestone_in val) :=
  meta ← denotes (A := mem_ObjectMeta) h (cmi_ObjectMeta mem x);
  spec ← denotes h (cmi_Spec mem x);
  status ← denotes h (cmi_Status mem x);
  Some (Build_ClusterMilestone_in val (cmi_TypeMeta mem x) meta spec status).
#[export] Instance ClusterMilestone_copyable : DeepCopyable (C := cell) (ClusterMilestone_in mem) (ClusterMilestone_in val) :=
  Build_DeepCopyable _ _ (Build_ClusterMilestone_in mem TypeMeta_zero (zero_of (A := mem_ObjectMeta)) zero_of zero_of)
    ClusterMilestone_denotes ClusterMilestone_DeepCopyInto.

Definition MilestoneList_DeepCopyInto (x : MilestoneList_in mem) : MO heap (MilestoneList_in mem) :=
  meta ← deep_copy_into (A := mem_ListMeta) (ml_ListMeta mem x);
  items ← copy_slice (A := Milestone_in mem) (ml_Items mem x);
  mret (Build_MilestoneList_in mem (ml_TypeMeta mem x) meta items).
Definition MilestoneList_denotes (h : heap) (x : MilestoneList_in mem) : option (MilestoneList_in val) :=
  meta ← denotes (A := mem_ListMeta) h (ml_ListMeta mem x);
  items ← denotes_slice (A := Milestone_in mem) h (ml_Items mem x);
  Some (Build_MilestoneList_in val (ml_TypeMeta mem x) meta items).
#[export] Instance MilestoneList_copyable : DeepCopyable (C := cell) (MilestoneList_in mem) (MilestoneList_in val) :=
  Build_DeepCopyable _ _ (Build_MilestoneList_in mem TypeMeta_zero (zero_of (A := mem_ListMeta)) None)
    MilestoneList_denotes MilestoneList_DeepCopyInto.

Definition ClusterMilestoneList_DeepCopyInto (x : ClusterMilestoneList_in mem) : MO heap (ClusterMilestoneList_in mem) :=
  meta ← deep_copy_into (A := mem_ListMeta) (cml_ListMeta mem x);
  items ← copy_slice (A := ClusterMilestone_in mem) (cml_Items mem x);
  mret (Build_ClusterMilestoneList_in mem (cml_TypeMeta mem x) meta items).
Definition ClusterMilestoneList_denotes (h : heap) (x : ClusterMilestoneList_in mem) : option (ClusterMilestoneList_in val) :=
  meta ← denotes (A := mem_ListMeta) h (cml_ListMeta mem x);
  items ← denotes_slice (A := ClusterMilestone_in mem) h (cml_Items mem x);
  Some (Build_ClusterMilestoneList_in val (cml_TypeMeta mem x) meta items).
#[export] Instance ClusterMilestoneList_copyable : DeepCopyable (C := cell) (ClusterMilestoneList_in mem) (ClusterMilestoneList_in val) :=
  Build_DeepCopyable _ _ (Build_ClusterMilestoneList_in mem TypeMeta_zero (zero_of (A := mem_ListMeta)) None)
    ClusterMilestoneList_denotes ClusterMilestoneList_DeepCopyInto.

(** *** DeepCopy, on pointers *)

Definition Summary_DeepCopy : option nat → MO heap (option nat) := copy_pointer (A := Summary).
Definition ResourceStatus_DeepCopy : option nat → MO heap (option nat) := copy_pointer (A := ResourceStatus).
Definition DependencyStatus_DeepCopy : option nat → MO heap (option nat) := copy_pointer (A := DependencyStatus).
Definition TargetSpec_DeepCopy : option nat → MO heap (option nat) := copy_pointer (A := TargetSpec_in mem).
Definition ClusterTargetSpec_DeepCopy : option nat → MO heap (option nat) := copy_pointer (A := ClusterTargetSpec_in mem).
Definition DependencyRef_DeepCopy : option nat → MO heap (option nat) := copy_pointer (A := DependencyRef_in mem).
Definition ClusterDependencyRef_DeepCopy : option nat → MO heap (option nat) := copy_pointer (A := ClusterDependencyRef_in mem).
Definition MilestoneSpec_DeepCopy : option nat → MO heap (option nat) := copy_pointer (A := MilestoneSpec_in mem).
Definition ClusterMilestoneSpec_DeepCopy : option nat → MO heap (option nat) := copy_pointer (A := ClusterMilestoneSpec_in mem).
Definition MilestoneStatusBase_DeepCopy : option nat → MO heap (option nat) := copy_pointer (A := MilestoneStatusBase_in mem).
Definition MilestoneStatus_DeepCopy : option nat → MO heap (option nat) := copy_pointer (A := MilestoneStatus_in mem).
Definition ClusterMilestoneStatus_DeepCopy : option nat → MO heap (option nat) := copy_pointer (A := ClusterMilestoneStatus_in mem).
Definition Milestone_DeepCopy : option nat → MO heap (option nat) := copy_pointer (A := Milestone_in mem).
Definition ClusterMilestone_DeepCopy : option nat → MO heap (option nat) := copy_pointer (A := ClusterMilestone_in mem).
Definition MilestoneList_DeepCopy : option nat → MO heap (option nat) := copy_pointer (A := MilestoneList_in mem).
Definition ClusterMilestoneList_DeepCopy : option nat → MO heap (option nat) := copy_pointer (A := ClusterMilestoneList_in mem).

(** A runtime.Object: nil, or one of the registered types. *)
Inductive runtime_Object :=
  | AMilestone (p : nat)
  | AMilestoneList (p : nat)
  | AClusterMilestone (p : nat)
  | AClusterMilestoneList (p : nat).

Definition Milestone_DeepCopyObject (p : option nat) : MO heap (option runtime_Object) :=
  c ← Milestone_DeepCopy p;
  mret match c with Some c => Some (AMilestone c) | None => None end.
Definition MilestoneList_DeepCopyObject (p : option nat) : MO heap (option runtime_Object) :=
  c ← MilestoneList_DeepCopy p;
  mret match c with Some c => Some (AMilestoneList c) | None => None end.
Definition ClusterMilestone_DeepCopyObject (p : option nat) : MO heap (option runtime_Object) :=
  c ← ClusterMilestone_DeepCopy p;
  mret match c with Some c => Some (AClusterMilestone c) | None => None end.
Definition ClusterMilestoneList_DeepCopyObject (p : option nat) : MO heap (option runtime_Object) :=
  c ← ClusterMilestoneList_DeepCopy p;
  mret match c with Some c => Some (AClusterMilestoneList c) | None => None end.
End deepcopy.

(** ** Every generated copy is a copy *)

Lemma bind_Some_2 {A B} (k : A → option B) (o : option A) (a : A) (r : option B) :
  o = Some a → k a = r → o ≫= k = r.
Proof. by intros ->. Qed.

(** What a field's copy, and its denotation in a larger heap, are. *)
Ltac field_copy :=
  first [eapply into_fresh|eapply copy_slice_spec|eapply copy_pointer_spec|eapply copy_plain_slice_spec];
  eassumption.
Ltac field_mono :=
  intros ??? Hs Hd; cbn beta in *;
  first [eapply denotes_mono|eapply denotes_slice_mono|eapply denotes_pointer_mono|eapply denotes_plain_slice_mono];
  eassumption.

(** [move_up]: what the hypotheses say of a heap, they say of the larger one. *)
Ltac move_up Hs :=
  repeat match type of Hs with ?h ⊆ ?h' => match goal with
    | H : denotes h _ = Some _ |- _ => apply (denotes_mono h h' _ _ Hs) in H
    | H : denotes_slice h _ = Some _ |- _ => apply (denotes_slice_mono h h' _ _ Hs) in H
    | H : denotes_pointer h _ = Some _ |- _ => apply (denotes_pointer_mono h h' _ _ Hs) in H
    | H : denotes_plain_slice h _ = Some _ |- _ => apply (denotes_plain_slice_mono h h' _ _ Hs) in H
    end end.

Ltac invert_denotes :=
  repeat match goal with H : _ ≫= _ = Some _ |- _ => apply bind_Some in H as (? & ? & H) end; simplify_eq.

(** The struct's fields are copied one after the other. *)
Ltac copy_fields :=
  repeat (eapply fresh_bind; [|field_copy|]; [field_mono|let Hs := fresh in intros ?? Hs; move_up Hs; clear Hs]);
  apply fresh_ret; intros;
  repeat match reverse goal with Hs : _ ⊆ _ |- _ => move_up Hs; clear Hs end;
  cbn beta in *; repeat (eapply bind_Some_2; [eassumption|]); reflexivity.

Lemma laws_intro {C A V} `{!DeepCopyable (C := C) A V} :
  (∀ h h' x v, h ⊆ h' → denotes h x = Some v → denotes h' x = Some v) →
  (∀ h x v, denotes h x = Some v → fresh_result h (deep_copy_into x) (λ f y, denotes f y = Some v)) →
  DeepCopyLaws A V.
Proof. by split. Qed.

(** Both laws of a struct, from those of its fields. *)
Ltac denotes_fields :=
  intros h h' x v Hs Hd; invert_denotes; move_up Hs; repeat (eapply bind_Some_2; [eassumption|]); reflexivity.
Tactic Notation "deep_copy_laws" reference(inst) reference(den) reference(into) :=
  apply laws_intro; cbn [denotes deep_copy_into inst]; unfold den, into;
  [denotes_fields|intros h x v Hd; invert_denotes; copy_fields].

Section laws.
Context `{Metav1}.
Context `{!DeepCopyable (C := cell) mem_ObjectMeta val_ObjectMeta, !DeepCopyLaws mem_ObjectMeta val_ObjectMeta}.
Context `{!DeepCopyable (C := cell) mem_ListMeta val_ListMeta, !DeepCopyLaws mem_ListMeta val_ListMeta}.
Context `{!DeepCopyable (C := cell) mem_LabelSelector val_LabelSelector,
  !DeepCopyLaws mem_LabelSelector val_LabelSelector}.
Context `{!DeepCopyable (C := cell) mem_Condition val_Condition, !DeepCopyLaws mem_Condition val_Condition}.
Context `{!DeepCopyable (C := cell) mem_Time val_Time, !DeepCopyLaws mem_Time val_Time}.

#[export] Instance Summary_laws : DeepCopyLaws (C := cell) Summary Summary.
Proof. split; [done|]. intros h x v [= <-]. by exists x, h. Qed.
#[export] Instance ResourceStatus_laws : DeepCopyLaws (C := cell) ResourceStatus ResourceStatus.
Proof. split; [done|]. intros h x v [= <-]. by exists x, h. Qed.
#[export] Instance DependencyStatus_laws : DeepCopyLaws (C := cell) DependencyStatus DependencyStatus.
Proof. split; [done|]. intros h x v [= <-]. exists x, h. by destruct x. Qed.

#[export] Instance TargetSpec_laws : DeepCopyLaws (C := cell) (TargetSpec_in mem) (TargetSpec_in val).
Proof. deep_copy_laws TargetSpec_copyable TargetSpec_denotes TargetSpec_DeepCopyInto. Qed.
#[export] Instance ClusterTargetSpec_laws : DeepCopyLaws (C := cell) (ClusterTargetSpec_in mem) (ClusterTargetSpec_in val).
Proof. deep_copy_laws ClusterTargetSpec_copyable ClusterTargetSpec_denotes ClusterTargetSpec_DeepCopyInto. Qed.
#[export] Instance DependencyRef_laws : DeepCopyLaws (C := cell) (DependencyRef_in mem) (DependencyRef_in val).
Proof. deep_copy_laws DependencyRef_copyable DependencyRef_denotes DependencyRef_DeepCopyInto. Qed.
#[export] Instance ClusterDependencyRef_laws : DeepCopyLaws (C := cell) (ClusterDependencyRef_in mem) (ClusterDependencyRef_in val).
Proof. deep_copy_laws ClusterDependencyRef_copyable ClusterDependencyRef_denotes ClusterDependencyRef_DeepCopyInto. Qed.
#[export] Instance MilestoneSpec_laws : DeepCopyLaws (C := cell) (MilestoneSpec_in mem) (MilestoneSpec_in val).
Proof. deep_copy_laws MilestoneSpec_copyable MilestoneSpec_denotes MilestoneSpec_DeepCopyInto. Qed.
#[export] Instance ClusterMilestoneSpec_laws : DeepCopyLaws (C := cell) (ClusterMilestoneSpec_in mem) (ClusterMilestoneSpec_in val).
Proof. deep_copy_laws ClusterMilestoneSpec_copyable ClusterMilestoneSpec_denotes ClusterMilestoneSpec_DeepCopyInto. Qed.
#[export] Instance MilestoneStatusBase_laws : DeepCopyLaws (C := cell) (MilestoneStatusBase_in mem) (MilestoneStatusBase_in val).
Proof. deep_copy_laws MilestoneStatusBase_copyable MilestoneStatusBase_denotes MilestoneStatusBase_DeepCopyInto. Qed.
#[export] Instance MilestoneStatus_laws : DeepCopyLaws (C := cell) (MilestoneStatus_in mem) (MilestoneStatus_in val).
Proof. deep_copy_laws MilestoneStatus_copyable MilestoneStatus_denotes MilestoneStatus_DeepCopyInto. Qed.
#[export] Instance ClusterMilestoneStatus_laws : DeepCopyLaws (C := cell) (ClusterMilestoneStatus_in mem) (ClusterMilestoneStatus_in val).
Proof. deep_copy_laws ClusterMilestoneStatus_copyable ClusterMilestoneStatus_denotes ClusterMilestoneStatus_DeepCopyInto. Qed.
#[export] Instance Milestone_laws : DeepCopyLaws (C := cell) (Milestone_in mem) (Milestone_in val).
Proof. deep_copy_laws Milestone_copyable Milestone_denotes Milestone_DeepCopyInto. Qed.
#[export] Instance ClusterMilestone_laws : DeepCopyLaws (C := cell) (ClusterMilestone_in mem) (ClusterMilestone_in val).
Proof. deep_copy_laws ClusterMilestone_copyable ClusterMilestone_denotes ClusterMilestone_DeepCopyInto. Qed.
#[export] Instance MilestoneList_laws : DeepCopyLaws (C := cell) (MilestoneList_in mem) (MilestoneList_in val).
Proof. deep_copy_laws MilestoneList_copyable MilestoneList_denotes MilestoneList_DeepCopyInto. Qed.
#[export] Instance ClusterMilestoneList_laws : DeepCopyLaws (C := cell) (ClusterMilestoneList_in mem) (ClusterMilestoneList_in val).
Proof. deep_copy_laws ClusterMilestoneList_copyable ClusterMilestoneList_denotes ClusterMilestoneList_DeepCopyInto. Qed.

(** [cp] copies what a pointer denotes into cells of its own: what is later
    written to the cells there were does not show in the copy, and what is written
    to the new ones does not show in the original. *)
Definition independent_copy {A V} `{!Arrays cell A} `{!DeepCopyable A V}
    (cp : option nat → MO (gmap nat cell) (option nat)) : Prop :=
  ∀ h p v, denotes_pointer (A := A) h p = Some v →
  ∃ p' h', cp p h = Some (p', h') ∧ h ⊆ h' ∧ (p' = None ↔ p = None) ∧
    (∀ h'', (∀ l, h !! l = None → h'' !! l = h' !! l) → denotes_pointer (A := A) h'' p' = Some v) ∧
    ∀ h'', (∀ l, is_Some (h !! l) → h'' !! l = h !! l) → denotes_pointer (A := A) h'' p = Some v.

Lemma copy_pointer_independent {A V} `{!Arrays cell A} `{!DeepCopyable A V} `{!DeepCopyLaws A V} :
  independent_copy (A := A) copy_pointer.
Proof.
  intros h p v Hv. destruct (copy_pointer_spec h p v Hv) as (p' & h' & Hrun & Hh & Hv').
  exists p', h'. split_and!; [done|done| | |].
  - destruct p as [l|]; [|simpl in Hrun; by injection Hrun as <- <-]. split; [intros ->|done].
    simpl in Hv. apply bind_Some in Hv as (xs & Hxs & (vs & Hvs & [= <-])%bind_Some).
    pose proof (slice_elems_length h _ xs Hxs) as Hlen. apply length_mapM in Hvs. simpl in Hlen, Hv'.
    destruct vs as [|v vs]; [simpl in *; lia|done].
  - intros h'' Hsame. eapply denotes_pointer_mono; [|exact Hv']. apply map_subseteq_spec.
    intros l c [Hl Hn]%lookup_difference_Some. by rewrite Hsame.
  - intros h'' Hsame. eapply denotes_pointer_mono; [|exact Hv]. apply map_subseteq_spec.
    intros l c Hl. rewrite Hsame; [done|by eexists].
Qed.

(** C29: a deep copy is equal and independent. If metav1's DeepCopyInto functions
    copy, so does DeepCopy of every type of the API: from a pointer to a value it
    answers a pointer to an equal one (nil to nil, nil slices to nil slices), and
    the two share no memory, so that nothing written through one is seen through
    the other. The status a reconcile compares against and the objects a cache
    hands out depend on it. *)
Theorem DeepCopy_independent :
  independent_copy (A := Summary) Summary_DeepCopy ∧
  independent_copy (A := ResourceStatus) ResourceStatus_DeepCopy ∧
  independent_copy (A := DependencyStatus) DependencyStatus_DeepCopy ∧
  independent_copy (A := TargetSpec_in mem) TargetSpec_DeepCopy ∧
  independent_copy (A := ClusterTargetSpec_in mem) ClusterTargetSpec_DeepCopy ∧
  independent_copy (A := DependencyRef_in mem) DependencyRef_DeepCopy ∧
  independent_copy (A := ClusterDependencyRef_in mem) ClusterDependencyRef_DeepCopy ∧
  independent_copy (A := MilestoneSpec_in mem) MilestoneSpec_DeepCopy ∧
  independent_copy (A := ClusterMilestoneSpec_in mem) ClusterMilestoneSpec_DeepCopy ∧
  independent_copy (A := MilestoneStatusBase_in mem) MilestoneStatusBase_DeepCopy ∧
  independent_copy (A := MilestoneStatus_in mem) MilestoneStatus_DeepCopy ∧
  independent_copy (A := ClusterMilestoneStatus_in mem) ClusterMilestoneStatus_DeepCopy ∧
  independent_copy (A := Milestone_in mem) Milestone_DeepCopy ∧
  independent_copy (A := ClusterMilestone_in mem) ClusterMilestone_DeepCopy ∧
  independent_copy (A := MilestoneList_in mem) MilestoneList_DeepCopy ∧
  independent_copy (A := ClusterMilestoneList_in mem) ClusterMilestoneList_DeepCopy.
Proof. split_and!; exact copy_pointer_independent. Qed.
End laws.

(** ** groupversion_info.go *)

Definition GroupVersion : string * string := ("milestone.as-code.io", "v1").

(** runtime.Scheme: the kinds registered for a group and version, and the meta
    types every group version has. *)
Class SchemeAPI (S : Type) := {
  AddKnownTypes : string * string → list string → S → S;
  AddToGroupVersion : string * string → S → S;
}.

Section scheme.
Context {S : Type} `{!SchemeAPI S}.

(** A registration function may fail; this one does not. *)
Definition addKnownTypes : M S (option error) :=
  modify (AddKnownTypes GroupVersion ["Milestone"; "MilestoneList"; "ClusterMilestone"; "ClusterMilestoneList"]);;
  modify (AddToGroupVersion GroupVersion);;
  mret None.

(** runtime.SchemeBuilder runs its functions until one fails. *)
Definition SchemeBuilder : list (M S (option error)) := [addKnownTypes].

Fixpoint AddToScheme_of (builder : list (M S (option error))) : M S (option error) :=
  match builder with
  | [] => mret None
  | f :: builder =>
      err ← f;
      match err with
      | Some err => mret (Some err)
      | None => AddToScheme_of builder
      end
  end.

Definition AddToScheme : M S (option error) := AddToScheme_of SchemeBuilder.
End scheme.

(** ** A ClusterMilestone copied, then its namespaces overwritten *)
Module CopyFix.

(** metav1's structs with one slice of strings where they have maps and slices. *)
#[local] Instance metav1 : Metav1 := {|
  TypeMeta := string;
  TypeMeta_zero := "";
  other_cell := Empty_set;
  mem_ObjectMeta := option header;
  val_ObjectMeta := slice string;
  mem_ListMeta := string;
  val_ListMeta := string;
  mem_LabelSelector := option header;
  val_LabelSelector := slice string;
  mem_Condition := Condition;
  val_Condition := Condition;
  mem_Time := time;
  val_Time := time;
|}.

Definition strings_copyable : DeepCopyable (C := cell) (option header) (slice string) :=
  Build_DeepCopyable _ _ None denotes_plain_slice (copy_plain_slice "").
Definition plain_copyable {A} (zero : A) : DeepCopyable (C := cell) A A :=
  Build_DeepCopyable _ _ zero (λ _, Some) mret.

Lemma strings_laws : @DeepCopyLaws cell _ _ strings_copyable.
Proof.
  apply (@laws_intro _ _ _ strings_copyable); [apply denotes_plain_slice_mono|apply copy_plain_slice_spec].
Qed.
Lemma plain_laws {A} (zero : A) : @DeepCopyLaws cell _ _ (plain_copyable zero).
Proof. split; [done|]. intros h x v [= <-]. by exists x, h. Qed.

#[local] Instance meta_copyable : DeepCopyable (C := cell) mem_ObjectMeta val_ObjectMeta := strings_copyable.
#[local] Instance selector_copyable : DeepCopyable (C := cell) mem_LabelSelector val_LabelSelector := strings_copyable.
#[local] Instance list_copyable : DeepCopyable (C := cell) mem_ListMeta val_ListMeta := plain_copyable "".
#[local] Instance condition_copyable : DeepCopyable (C := cell) mem_Condition val_Condition :=
  plain_copyable (Build_Condition "" "" 0 0 "" "").
#[local] Instance time_copyable : DeepCopyable (C := cell) mem_Time val_Time := plain_copyable (0%Z : time).

(** The second half of the array at 1 is the spec's namespaces. *)
Definition base : MilestoneStatusBase_in mem :=
  Build_MilestoneStatusBase_in mem 3 None Summary_zero None (Some (Build_header 5 0 0)) false (0%Z : time).
Definition cluster : gmap nat cell := {[
  1 := Strings ["x"; "y"; "a"; "b"];
  2 := ClusterDependencyRefs [Build_ClusterDependencyRef_in mem "d" "" ""
         (Build_ClusterTargetSpec_in mem (Build_TargetSpec_in mem "" "v1" "Pod" (Some 3)) (Some (Build_header 1 2 2)) None)];
  3 := LabelSelectors [Some (Build_header 4 0 1)];
  4 := Strings ["app=web"];
  5 := ResourceStatuses [];
  6 := ClusterMilestones [Build_ClusterMilestone_in mem "ClusterMilestone" (Some (Build_header 4 0 1))
         (Build_ClusterMilestoneSpec_in mem (Some (Build_header 2 0 1))) (Build_ClusterMilestoneStatus_in mem base)]
]}.

Definition cm_value : option (option (ClusterMilestone_in val)) :=
  denotes_pointer (A := ClusterMilestone_in mem) cluster (Some 6).
Definition namespaces_of (v : option (option (ClusterMilestone_in val))) : list (slice string) :=
  match v with
  | Some (Some cm) => (λ d, ct_Namespaces val (cd_target val d)) <$> elems (cs_DependsOn val (cmi_Spec val cm))
  | _ => []
  end.

(** The original's namespaces are overwritten after the copy. *)
Definition run : option (option nat * gmap nat cell) :=
  match ClusterMilestone_DeepCopy (Some 6) cluster with
  | Some (p, h) => match slice_set (Build_header 1 2 2) 0 "overwritten" h with
                   | Some (_, h) => Some (p, h)
                   | None => None
                   end
  | None => None
  end.

Example run_values :
  match run with
  | Some (p, h) =>
      namespaces_of (denotes_pointer (A := ClusterMilestone_in mem) h (Some 6)) = [Some ["overwritten"; "b"]] ∧
      denotes_pointer (A := ClusterMilestone_in mem) h p = cm_value ∧ namespaces_of cm_value = [Some ["a"; "b"]]
  | None => False
  end.
Proof. vm_compute. done. Qed.

Lemma DeepCopy_independent_witness :
  ∃ cm, cm_value = Some (Some cm) ∧
  ∃ p h, ClusterMilestone_DeepCopy (Some 6) cluster = Some (p, h) ∧
    denotes_pointer (A := ClusterMilestone_in mem) (<[1 := Strings []]> h) p = Some (Some cm).
Proof.
  destruct cm_value as [[cm|]|] eqn:Hcm; [|vm_compute in Hcm; discriminate Hcm..].
  exists cm. split; [reflexivity|].
  pose proof (@DeepCopy_independent metav1 meta_copyable strings_laws list_copyable (plain_laws _)
    selector_copyable strings_laws condition_copyable (plain_laws _) time_copyable (plain_laws _)) as Hall.
  destruct Hall as (_ & _ & _ & _ & _ & _ & _ & _ & _ & _ & _ & _ & _ & Hc & _).
  destruct (Hc cluster (Some 6) (Some cm) Hcm) as (p & h & Hrun & _ & _ & Hkeep & _).
  exists p, h. split; [exact Hrun|]. apply Hkeep. intros l Hl. apply lookup_insert_ne.
  intros <-. vm_compute in Hl. discriminate Hl.
Defined.
End CopyFix.
